(* ===== verification/_CoqProject ===== *)
-Q . S2P
Prelude.v
Packet.v
Str.v
Command.v
Session.v
Reliable.v
Stream.v
IndexMap.v
Cache.v
Addr.v
Config.v
Locks.v
Transfer.v
Filter.v
Upstream.v
Server.v
Link.v
Mdns.v
Service.v
Tests.v
System.v
Tasks.v
Net.v
MockE2E.v
EndToEnd.v
Requests.v
Witnesses.v
Races.v
LinkWitnesses.v
NetWitnesses.v
