(* ===== verification/Prelude.v ===== *)
(** * ATEM Proxy: verification of [atem-protocol] and [atem-proxy]

    The program is a UDP proxy between one Blackmagic ATEM switcher and many
    clients.  One task holds the single session with the switcher; it parses what
    the switcher sends into commands, folds the state commands into a cache and
    broadcasts them as events.  The server task accepts clients while the cache is
    complete, gives each a dump of the cache when it acknowledges for the first
    time, then queues the events for it; what clients send goes through a policy
    filter (audio subscriptions, store locks, one transfer lane) and then to the
    switcher.  Both directions use the same reliable endpoint (sequence numbers,
    acknowledgements, retransmission, a send window).

    ** Files and what they model

    - [Prelude]: the Rust library facts the rest shares: [Result], bytes, u16
      wrap-around, saturating u64, [Instant] and [Duration] (nanoseconds in [Z]),
      and the class [HashIter]: a [HashMap] is a [gmap], iterated in an arbitrary
      order that the class promises to be a permutation of the entries.
    - [Packet] (crates/atem-protocol/src/packet.rs, error.rs): the 12-byte header
      and its flags, [decode_packet], [encode_packet].
    - [Str]: the part of [std]'s UTF-8 strings the code uses; a [str] is the list
      of its characters.
    - [Command] (command.rs): names, [parse_commands], [serialize_command], the
      classification tables and the cache identity of a command.
    - [Session] (session.rs): the handshake packets.
    - [Reliable] (reliable.rs): [ReliableEndpoint] and all its operations.
    - [Stream]: what an endpoint puts on the wire, and the numbered, acknowledged queue
      ([f_apply]) that its operations refine.
    - [IndexMap]: the interface of the third-party crate [indexmap] as a class,
      with an association list as its instance.  [Cache], [Upstream], [Server] and
      [System] are proved against the class.
    - [Cache] (atem-proxy/src/cache.rs): [Inner] is the state behind the cache's
      lock; [latest], [first_seen] and [coalesce] specify it on the command history.
    - [Addr]: [std]'s parser of socket addresses, which [Config] calls.
    - [Config] (config.rs, and [Cli] and [load_cfg] of main.rs): the settings, their
      layers and the SoftAtem profile.  Reading a file, parsing TOML and reading
      the environment are parameters.
    - [Locks] (locks.rs): [LockBroker]; [owner_step] specifies one store.
    - [Transfer] (transfer.rs): [TransferLane]; it sees the broker through the
      class [StoreOwners], of which the broker is an instance.
    - [Filter] (filter.rs): [CommandFilter] with the broker and the lane it shares;
      [process_payload] is the policy.
    - [Upstream] (upstream.rs): [handle_upstream_payload], the opening handshake,
      the [select!] loop of [run_session] as [session_step] (one input per turn),
      what [spawn_upstream] does between sessions, and its back-off.
    - [Server] (server.rs): [handle_datagram] as [on_client_packet], the fan-out
      task as [on_event], the 5 ms task as [tick].
    - [Link]: two endpoints and a network that loses, repeats and reorders; its
      [receive] is proved to be what both [on_datagram] and [session_datagram] do.
    - [Mdns] (mdns.rs): the task that announces the proxy: its wait, the record, what
      the daemon answers being a parameter.
    - [Service] (main.rs, [run_proxy], [default_windows_config_path]): the process shell
      as programs in a writer and error monad over the calls they make.
    - [Tests], [MockE2E]: the repository's unit and integration tests, written with the
      model's definitions and evaluated: a test that passes there passes here.
      [MockE2E] runs the mock switcher and the mock clients of mock_e2e.rs against
      [System], under a scheduler in place of sockets and timers.
    - [System] (proxy.rs): the tasks composed: [World] holds the upstream task, the
      server, the command channel and the broadcast queue; [world_act] is one turn of
      one task, labelled with what it takes from outside and gives to it;
      [reachable] is any interleaving from the start.
    - [Tasks] (server.rs): the receive loop and the tick suspended at their awaits, and
      the bounded command channel; [task_step] is what happens from one such point to
      the next.
    - [Net], [EndToEnd]: [System] with the switcher and a client as endpoints behind two
      networks as in [Link].  [Net] has the steps, [EndToEnd] the invariant [net_ok]
      (both links keep [Link]'s invariant, and the histories at the two sides of the
      proxy agree with its cache, its logs and its channel).  [Requests] adds the leg
      from the client through the filter.
    - [Races]: which sessions exist once the switcher is lost, with whole handlers and
      with suspended ones.
    - [Witnesses], [LinkWitnesses], [NetWitnesses], and the last part of [Races]: the
      theorems at concrete inputs, among them a run in which the switcher connects,
      sends its state, a client joins and its command reaches the switcher, and one
      in which a lost acknowledgement stops a direction.

    ** What the theorems show

    - End to end (C1, C2, C3): through the whole proxy, a client ends up with
      the switcher's last word on every piece of state, the switcher accepts
      exactly the commands that waited when its session opened and those the
      filter has passed on since, in order, and among them all that the client
      queued and no policy concerns. They are about histories that the links
      keep.
    - The composition (C4, C6, C7): every open client has been queued, in
      order, all it needs to know the cache's state, wherever the tasks are
      suspended; the channel keeps its bound and no queued payload exceeds a
      packet; endpoints, flags and sessions keep their invariants. C4 is
      proved over logs that the steps keep beside the state ([w_logs]: what
      was queued for each client since its session opened). The lemma
      [turn_run] relates the two granularities; [clients_converge] and
      [never_truncated] in [System] are the statements for whole turns.
    - Sessions and the loss of the switcher (C8), and two runs of suspended
      handlers that break what holds for whole ones (C39, C40).
    - The transport (C5, C9, C35): exactly-once, in-order delivery between two
      endpoints, and when it can get stuck.
    - The upstream session (C10, C14, C21) and the server (C11, C12, C13, C22,
      C37).
    - The policy: locks (C15, C16, C38), the lane (C17), audio subscriptions
      (C18), safe mode (C19), the treatment of each command (C20), and the
      payload that escapes the policy (C36).
    - The reliable endpoint alone (C23, C24): every operation does to the
      payloads still to be delivered ([stream]) what the labelled operation of
      the queue does, and the datagrams it emits are, as the peer decodes
      them, those of the queue; a queue whose packets are acknowledged is sent
      whole, in order and once.
    - Wire formats: round trips and exact error conditions (C25, C26, C27).
    - The cache as coalesced history (C28, C29, C30), configuration (C31), the
      process shell (C32, C33) and the mDNS announcement (C34).

    ** Choices of the model

    - Integers keep their width: u16 and u8 values are [Z] with the casts written
      out ([as_u16], [byte_of_Z]); arithmetic that Rust would wrap in a release
      build wraps.  Times are unbounded [Z] nanoseconds.
    - Fuel: [parse_loop] gets one more than the payload's length, and each turn
      consumes at least eight bytes ([parse_exact] has no case for running out).
      The other recursive functions are structural, except [read_groups] (an IPv6
      address has at most eight groups) and [show_fuel] (twenty digits).
    - In [System] a handler is one step.  In [Tasks] the receive loop and the tick are
      suspended where the code awaits with state in its hands: between the reply to a
      greeting and the insertion of the session, before each command they send, which
      waits while the channel holds [COMMAND_CAPACITY], and before each packet of the
      tick.  One step boundary is finer than an await: the tick also stops before each
      [client_disconnected], once the lock of the sessions is given back.  The code
      does not await before the first of them, so another task gets in between only
      because the runtime of [main] has several threads; C40 uses
      that point.  The fan-out task awaits only its next event, and the upstream
      task keeps what it does between two awaits to itself, so their turns stay whole.
      [Net] is built on whole turns.  Other stretches of two tasks that run in parallel
      on tokio's threads are taken one after the other.
    - [Instant::now] is called several times in one turn, so a step takes one argument
      per call.
    - The upstream task hands its events to the broadcast channel in the same step
      as it updates the cache; the server may take them any number of steps later,
      and may instead be told that it lagged once more than [EVENT_CAPACITY] are
      waiting, which is [broadcast]'s documented behaviour.
    - In [Link] a datagram may arrive any number of times, in any order, but not once
      [LIFETIME] = 32000 newer packets have been sent: packet ids have 15 bits and
      wrap, so without some bound a stale datagram could be taken for a new one.
    - Sockets: what is sent is an output ([up_out], [sv_out]); what is received is an
      input; an I/O error of the upstream socket is an input that ends its session.
      A send of the client socket that fails is a step of [Tasks] where it changes what
      follows (the reply to a greeting, which [System] and [Net] take to be sent);
      elsewhere such a datagram is like one that the network loses.

    ** Not modelled

    The command-line parser (clap), the log subscriber's formatting, the mDNS
    daemon (third-party), timers, the opening of sockets, [random_session] (a hash of the clock,
    an argument here), and the module lists in lib.rs.  In [Net] one client is
    an endpoint and the others send arbitrary datagrams; a client that is
    admitted again is from then on a fresh endpoint, and an upstream session's
    extra acknowledgement at the end of the init dump is a datagram like any
    other. *)

From Stdlib Require Export ZArith Lia.
From Stdlib Require Import Strings.Byte.
From stdpp Require Export strings base tactics numbers option gmap countable list.

(** lia understands division and remainder by constants. *)
Ltac Zify.zify_post_hook ::= Z.to_euclidean_division_equations.

Declare Scope atem_scope.
Delimit Scope atem_scope with atem.
Open Scope atem_scope.
Open Scope nat_scope.

(** ** Results

    Rust's [Result<A, E>]; [Ok] and [Err] are the source's constructors.  The
    stdpp notation [x ← m; k] is the [?] operator. *)
Inductive Result (E A : Type) : Type :=
  | Ok (a : A)
  | Err (e : E).
Arguments Ok {E A} a.
Arguments Err {E A} e.

#[global] Instance Result_ret {E} : MRet (Result E) := λ A a, Ok a.
#[global] Instance Result_bind {E} : MBind (Result E) := λ A B f m,
  match m with Ok a => f a | Err e => Err e end.

(** Rust's [Result::ok] and [Option::ok_or]. *)
Definition result_ok {E A} (r : Result E A) : option A :=
  match r with Ok a => Some a | Err _ => None end.

Lemma bind_Ok {E A B} (f : A → Result E B) (m : Result E A) (b : B) :
  m ≫= f = Ok b ↔ ∃ a, m = Ok a ∧ f a = Ok b.
Proof.
  destruct m as [a|e]; cbn; [|split; [done|by intros (? & ? & ?)]].
  split; [by eauto|]. by intros (? & [= <-] & ?).
Qed.

Lemma bind_Err {E A B} (f : A → Result E B) (m : Result E A) (e : E) :
  m ≫= f = Err e ↔ m = Err e ∨ ∃ a, m = Ok a ∧ f a = Err e.
Proof.
  destruct m as [a|e']; cbn.
  - split; [intros ?; right; by exists a|]. intros [|(? & [= <-] & ?)]; done.
  - split; [intros [= ->]; by left|]. intros [[= ->]|(? & ? & ?)]; done.
Qed.

(** ** Machine integers

    A [u8] of a buffer is a [Byte.byte]; a [u16], [u64] or [i32] is a [Z] whose
    wrap-around, saturation or cast is written out where the source has it; a
    [usize] that counts bytes or elements in memory is a [nat]. *)
Abbreviation byte := Byte.byte.
Abbreviation bytes := (list byte).

#[global] Instance byte_eq_dec : EqDecision byte := Byte.byte_eq_dec.
#[global] Instance byte_countable : Countable byte.
Proof.
  refine (inj_countable Byte.to_N Byte.of_N _). exact Byte.of_to_N.
Defined.

Definition Z_of_byte (b : byte) : Z := Z.of_N (Byte.to_N b).

(** [z as u8]: the low eight bits. *)
Definition byte_of_Z (z : Z) : byte :=
  default Byte.x00 (Byte.of_N (Z.to_N (z mod 256))).

(** [z as u16]: the low sixteen bits. *)
Definition as_u16 (z : Z) : Z := (z mod 65536)%Z.

Definition is_u16 (z : Z) : Prop := (0 ≤ z < 65536)%Z.

(** [u16::saturating_add], [u64::saturating_add] and [u64::saturating_mul]. *)
Definition u16_saturating_add (a b : Z) : Z := Z.min 65535 (a + b).
Definition u64_saturating_add (a b : Z) : Z := Z.min (2 ^ 64 - 1) (a + b).
Definition u64_saturating_mul (a b : Z) : Z := Z.min (2 ^ 64 - 1) (a * b).

Lemma Z_of_byte_range b : (0 ≤ Z_of_byte b < 256)%Z.
Proof. unfold Z_of_byte. pose proof (Byte.to_N_bounded b). lia. Qed.

Lemma Z_of_byte_of_Z z : Z_of_byte (byte_of_Z z) = (z mod 256)%Z.
Proof.
  unfold byte_of_Z, Z_of_byte.
  assert (0 ≤ z mod 256 < 256)%Z as Hr by lia.
  destruct (Byte.of_N (Z.to_N (z mod 256))) as [b|] eqn:E; cbn.
  - apply Byte.to_of_N in E. lia.
  - apply Byte.of_N_None_iff in E. lia.
Qed.

Lemma byte_of_Z_of_byte b : byte_of_Z (Z_of_byte b) = b.
Proof.
  unfold byte_of_Z, Z_of_byte. pose proof (Byte.to_N_bounded b).
  rewrite Z.mod_small by lia. rewrite N2Z.id, Byte.of_to_N. done.
Qed.

Lemma Z_of_byte_inj b1 b2 : Z_of_byte b1 = Z_of_byte b2 → b1 = b2.
Proof. intros H. rewrite <- (byte_of_Z_of_byte b1), H. apply byte_of_Z_of_byte. Qed.

Lemma byte_of_Z_mod z : byte_of_Z (z mod 256) = byte_of_Z z.
Proof. apply Z_of_byte_inj. rewrite !Z_of_byte_of_Z. lia. Qed.

(** [u16::to_be_bytes] and [u16::from_be_bytes]. *)
Definition to_be_bytes (w : Z) : bytes := [byte_of_Z (w / 256); byte_of_Z w].
Definition from_be_bytes (b0 b1 : byte) : Z := (256 * Z_of_byte b0 + Z_of_byte b1)%Z.

#[global] Arguments Nat.ltb : simpl never.
#[global] Arguments Nat.leb : simpl never.
#[global] Arguments to_be_bytes : simpl never.
#[global] Arguments from_be_bytes : simpl never.
#[global] Arguments byte_of_Z : simpl never.
#[global] Arguments Z_of_byte : simpl never.

Lemma from_be_bytes_range b0 b1 : is_u16 (from_be_bytes b0 b1).
Proof.
  unfold is_u16, from_be_bytes.
  pose proof (Z_of_byte_range b0). pose proof (Z_of_byte_range b1). lia.
Qed.

Lemma from_to_be_bytes w :
  is_u16 w → from_be_bytes (byte_of_Z (w / 256)) (byte_of_Z w) = w.
Proof. unfold is_u16, from_be_bytes. intros ?. rewrite !Z_of_byte_of_Z. lia. Qed.

Lemma to_from_be_bytes b0 b1 : to_be_bytes (from_be_bytes b0 b1) = [b0; b1].
Proof.
  unfold to_be_bytes, from_be_bytes.
  pose proof (Z_of_byte_range b0). pose proof (Z_of_byte_range b1).
  f_equal; [|f_equal]; apply Z_of_byte_inj; rewrite Z_of_byte_of_Z; lia.
Qed.

Lemma length_to_be_bytes w : length (to_be_bytes w) = 2.
Proof. done. Qed.

Lemma as_u16_range z : is_u16 (as_u16 z).
Proof. unfold as_u16, is_u16. lia. Qed.

Lemma as_u16_small z : is_u16 z → as_u16 z = z.
Proof. unfold as_u16, is_u16. lia. Qed.

Create HintDb atem discriminated.
Create Rewrite HintDb atem.
#[export] Hint Resolve from_be_bytes_range as_u16_range Z_of_byte_range : atem.
#[export] Hint Rewrite @length_app @length_take @length_drop length_to_be_bytes
  Z_of_byte_of_Z byte_of_Z_of_byte to_from_be_bytes : atem.

(** ** Bit fields *)
Lemma land_shiftl_low (f l n : Z) :
  (0 ≤ n)%Z → (0 ≤ l < 2 ^ n)%Z → Z.land (Z.shiftl f n) l = 0%Z.
Proof.
  intros Hn Hl. apply Z.bits_inj'. intros i Hi.
  rewrite Z.land_spec, Z.bits_0.
  destruct (Z.lt_ge_cases i n).
  - by rewrite Z.shiftl_spec_low.
  - destruct (Z.eq_dec l 0%Z) as [->|]; [by rewrite Z.bits_0, andb_false_r|].
    rewrite (Z.bits_above_log2 l i), andb_false_r; [done|lia|].
    apply Z.log2_lt_pow2; [lia|]. eapply Z.lt_le_trans; [apply Hl|].
    apply Z.pow_le_mono_r; lia.
Qed.

Lemma lor_shiftl_low (f l n : Z) :
  (0 ≤ n)%Z → (0 ≤ l < 2 ^ n)%Z → Z.lor (Z.shiftl f n) l = (f * 2 ^ n + l)%Z.
Proof.
  intros Hn Hl. rewrite <- Z.add_nocarry_lor by by apply land_shiftl_low.
  by rewrite Z.shiftl_mul_pow2.
Qed.

Lemma land_ones_mod (x : Z) (n : Z) :
  (0 ≤ n)%Z → Z.land x (2 ^ n - 1) = (x mod 2 ^ n)%Z.
Proof. intros. rewrite <- Z.land_ones by done. by rewrite Z.ones_equiv, Z.sub_1_r. Qed.

(** ** Byte strings

    [bstr] is a Rust byte-string literal.  *)
Definition bstr (s : string) : bytes := String.list_byte_of_string s.

(** ** Time

    [Instant] and [Duration] are nanosecond counts.  [Instant::duration_since]
    and [Instant::elapsed] saturate at zero.  A function that reads the clock
    takes each reading as an argument. *)
Abbreviation Instant := Z (only parsing).
Abbreviation Duration := Z (only parsing).

Definition from_millis (ms : Z) : Duration := (ms * 1000000)%Z.
Definition from_secs (s : Z) : Duration := (s * 1000000000)%Z.
Definition duration_since (now earlier : Instant) : Duration := Z.max 0 (now - earlier).

(** ** Hash maps

    A [HashMap] or [HashSet] is a [gmap] or [gset]; where the source iterates over
    a [HashMap], the order is an argument that is only known to enumerate it. *)
Class HashIter (K V : Type) `{Countable K} := {
  hash_iter : gmap K V → list (K * V);
  hash_iter_perm m : hash_iter m ≡ₚ map_to_list m;
}.

(** One possible order. *)
Definition some_hash_iter (K V : Type) `{Countable K} : HashIter K V :=
  {| hash_iter := map_to_list; hash_iter_perm m := reflexivity _ |}.

Section hash_iter.
  Context {K V : Type} `{HashIter K V}.
  Implicit Types m : gmap K V.

Lemma elem_of_hash_iter m k v : (k, v) ∈ hash_iter m ↔ m !! k = Some v.
Proof. rewrite hash_iter_perm. apply elem_of_map_to_list. Qed.

Lemma hash_iter_NoDup m : NoDup (hash_iter m).*1.
Proof. rewrite hash_iter_perm. apply NoDup_fst_map_to_list. Qed.

(** A loop that visits every entry once, looks at it and may replace it. *)
Lemma hash_iter_update (f : K → V → V) m k :
  foldl (λ m '(k, v), <[k := f k v]> m) m (hash_iter m) !! k = f k <$> m !! k.
Proof.
  assert (∀ l m', NoDup l.*1 →
    foldl (λ m '(k, v), <[k := f k v]> m) m' l !! k =
      match list_find (λ kv, kv.1 = k) l with
      | Some (_, (_, v)) => Some (f k v)
      | None => m' !! k
      end) as Hl.
  { induction l as [|[k' v'] l IH]; intros m' Hnd; [done|]. cbn in Hnd.
    apply NoDup_cons in Hnd as [Hn Hnd]. cbn [foldl]. rewrite IH by done. cbn.
    destruct (decide (k' = k)) as [->|Hne].
    - assert (list_find (λ kv, kv.1 = k) l = None) as ->.
      { apply list_find_None, Forall_forall. intros [k1 v1] Hin Heq. cbn in Heq. subst.
        by apply (list_elem_of_fmap_2 fst) in Hin. }
      apply lookup_insert_eq.
    - destruct (list_find _ l) as [[? [? ?]]|]; cbn; [done|]. by apply lookup_insert_ne. }
  rewrite Hl by apply hash_iter_NoDup.
  destruct (list_find _ _) as [[i [k' v]]|] eqn:E.
  - apply list_find_Some in E as (Hi & ? & _). cbn in *; subst.
    apply list_elem_of_lookup_2, elem_of_hash_iter in Hi. by rewrite Hi.
  - apply list_find_None in E. destruct (m !! k) as [v|] eqn:Ek; [|done].
    exfalso. apply elem_of_hash_iter in Ek. rewrite Forall_forall in E. by apply (E _ Ek).
Qed.
End hash_iter.

(** ** Shared tactics *)

(** Case analysis on the scrutinee of every [match] and [if] of the goal. *)
Ltac destr_match :=
  repeat (case_match; simplify_eq/=; try done).

(** Reduce a boolean test of a hypothesis or the goal to its proposition. *)
Ltac bool_to_prop :=
  repeat match goal with
  | H : andb _ _ = true |- _ => apply andb_true_iff in H as [? ?]
  | H : orb _ _ = false |- _ => apply orb_false_iff in H as [? ?]
  | H : negb _ = true |- _ => apply negb_true_iff in H
  | H : negb _ = false |- _ => apply negb_false_iff in H
  | H : (_ <? _)%Z = true |- _ => apply Z.ltb_lt in H
  | H : (_ <? _)%Z = false |- _ => apply Z.ltb_ge in H
  | H : (_ <=? _)%Z = true |- _ => apply Z.leb_le in H
  | H : (_ <=? _)%Z = false |- _ => apply Z.leb_gt in H
  | H : (_ =? _)%Z = true |- _ => apply Z.eqb_eq in H
  | H : (_ =? _)%Z = false |- _ => apply Z.eqb_neq in H
  | H : (_ <? _) = true |- _ => apply Nat.ltb_lt in H
  | H : (_ <? _) = false |- _ => apply Nat.ltb_ge in H
  | H : (_ <=? _) = true |- _ => apply Nat.leb_le in H
  | H : (_ <=? _) = false |- _ => apply Nat.leb_gt in H
  | H : (_ =? _) = true |- _ => apply Nat.eqb_eq in H
  | H : (_ =? _) = false |- _ => apply Nat.eqb_neq in H
  | H : bool_decide _ = true |- _ => apply bool_decide_eq_true in H
  | H : bool_decide _ = false |- _ => apply bool_decide_eq_false in H
  end.

(** Lengths of lists in hypotheses and goal, then linear arithmetic. *)
Ltac solve_len :=
  repeat progress (autorewrite with atem in *; cbn [length] in *);
  try lia.
