(* ===== verification/Packet.v ===== *)
(** * The ATEM UDP packet

    [crates/atem-protocol/src/packet.rs] and [error.rs]: the five flag bits, the
    twelve-byte header, and whole-packet encoding and decoding.  A buffer is a
    list of bytes; [u16] header fields are [Z]. *)

From S2P Require Export Prelude.
Open Scope Z_scope.

(** [ProtocolError]. *)
Inductive ProtocolError : Type :=
  | TooShort (actual : nat)
  | LengthMismatch (declared actual : nat)
  | BadCommand (offset : nat)
  | BadCommandName.

#[global] Instance ProtocolError_eq_dec : EqDecision ProtocolError.
Proof. solve_decision. Defined.

Definition ATEM_UDP_PORT : Z := 9910.
Definition HEADER_LEN : nat := 12.
Definition MAX_PACKET_LEN : nat := Z.to_nat 1400.
(** The largest value of the 11-bit length field, [0x07FF]. *)
Definition LENGTH_MASK : Z := 0x07FF.
#[global] Arguments HEADER_LEN : simpl never.
#[global] Arguments MAX_PACKET_LEN : simpl never.

(** ** Flags *)

(** [bitflags! struct PacketFlags: u8]. *)
Record PacketFlags : Type := { bits : Z }.

Definition ACK_REQUEST : PacketFlags := {| bits := 0x01 |}.
Definition HANDSHAKE : PacketFlags := {| bits := 0x02 |}.
Definition IS_RETRANSMIT : PacketFlags := {| bits := 0x04 |}.
Definition RETRANSMIT_REQUEST : PacketFlags := {| bits := 0x08 |}.
Definition ACK_REPLY : PacketFlags := {| bits := 0x10 |}.

(** The operations [bitflags!] generates: every known flag, [from_bits_truncate],
    [contains] and [|]. *)
Definition PacketFlags_all : Z := 0x1F.
Definition from_bits_truncate (b : Z) : PacketFlags :=
  {| bits := Z.land b PacketFlags_all |}.
Definition contains (f g : PacketFlags) : bool := Z.land (bits f) (bits g) =? bits g.
Definition flags_union (f g : PacketFlags) : PacketFlags :=
  {| bits := Z.lor (bits f) (bits g) |}.

#[global] Instance PacketFlags_eq_dec : EqDecision PacketFlags.
Proof. solve_decision. Defined.

(** ** Header *)

Record PacketHeader : Type := {
  flags : PacketFlags;
  length_ : Z;
  session_id : Z;
  ack_id : Z;
  retransmit_request : Z;
  unknown : Z;
  packet_id : Z;
}.

#[global] Instance PacketHeader_eq_dec : EqDecision PacketHeader.
Proof. solve_decision. Defined.

Definition PacketHeader_new (fl : PacketFlags) (session len : Z) : PacketHeader :=
  {| flags := fl; length_ := len; session_id := session; ack_id := 0;
     retransmit_request := 0; unknown := 0; packet_id := 0 |}.

(** Field updates ([header.ack_id = ..] and the like). *)
Definition with_length (h : PacketHeader) (v : Z) : PacketHeader :=
  {| flags := flags h; length_ := v; session_id := session_id h; ack_id := ack_id h;
     retransmit_request := retransmit_request h; unknown := unknown h;
     packet_id := packet_id h |}.
Definition with_ack_id (h : PacketHeader) (v : Z) : PacketHeader :=
  {| flags := flags h; length_ := length_ h; session_id := session_id h; ack_id := v;
     retransmit_request := retransmit_request h; unknown := unknown h;
     packet_id := packet_id h |}.
Definition with_retransmit_request (h : PacketHeader) (v : Z) : PacketHeader :=
  {| flags := flags h; length_ := length_ h; session_id := session_id h;
     ack_id := ack_id h; retransmit_request := v; unknown := unknown h;
     packet_id := packet_id h |}.
Definition with_unknown (h : PacketHeader) (v : Z) : PacketHeader :=
  {| flags := flags h; length_ := length_ h; session_id := session_id h;
     ack_id := ack_id h; retransmit_request := retransmit_request h; unknown := v;
     packet_id := packet_id h |}.
Definition with_packet_id (h : PacketHeader) (v : Z) : PacketHeader :=
  {| flags := flags h; length_ := length_ h; session_id := session_id h;
     ack_id := ack_id h; retransmit_request := retransmit_request h;
     unknown := unknown h; packet_id := v |}.

(** The first word: [((flags.bits() as u16) << 11) | (length & 0x07FF)]. *)
Definition flags_len_word (fl len : Z) : Z :=
  Z.lor (as_u16 (Z.shiftl fl 11)) (Z.land len LENGTH_MASK).

Definition PacketHeader_encode (h : PacketHeader) : bytes :=
  to_be_bytes (flags_len_word (bits (flags h)) (length_ h)) ++
  to_be_bytes (session_id h) ++
  to_be_bytes (ack_id h) ++
  to_be_bytes (retransmit_request h) ++
  to_be_bytes (unknown h) ++
  to_be_bytes (packet_id h).

Definition PacketHeader_decode (buf : bytes) : Result ProtocolError PacketHeader :=
  match buf with
  | b0 :: b1 :: b2 :: b3 :: b4 :: b5 :: b6 :: b7 :: b8 :: b9 :: b10 :: b11 :: _ =>
      let flags_len := from_be_bytes b0 b1 in
      Ok {| flags := from_bits_truncate (Z.shiftr flags_len 11);
            length_ := Z.land flags_len LENGTH_MASK;
            session_id := from_be_bytes b2 b3;
            ack_id := from_be_bytes b4 b5;
            retransmit_request := from_be_bytes b6 b7;
            unknown := from_be_bytes b8 b9;
            packet_id := from_be_bytes b10 b11 |}
  | _ => Err (TooShort (length buf))
  end.

Definition decode_packet (buf : bytes) : Result ProtocolError (PacketHeader * bytes) :=
  header ← PacketHeader_decode buf;
  let declared := Z.to_nat (length_ header) in
  if (declared <? HEADER_LEN)%nat then Err (LengthMismatch declared (length buf))
  else if (length buf <? declared)%nat then Err (LengthMismatch declared (length buf))
  else Ok (header, drop HEADER_LEN (take declared buf)).

(** Release build: the [debug_assert!] is off and an oversized packet is cut to
    the 2047 bytes the length field can declare. *)
Definition encode_packet (header : PacketHeader) (payload : bytes) : bytes :=
  let total := Nat.min (HEADER_LEN + length payload) (Z.to_nat LENGTH_MASK) in
  let h := with_length header (as_u16 (Z.of_nat total)) in
  let payload := take (total - HEADER_LEN) payload in
  PacketHeader_encode h ++ payload.

(** ** Well-formedness

    What the Rust types guarantee of a header: flags within the five known bits
    and every other field a [u16]. *)
Definition flags_ok (f : PacketFlags) : Prop := 0 ≤ bits f < 32.

Record header_ok (h : PacketHeader) : Prop := {
  header_ok_flags : flags_ok (flags h);
  header_ok_length : is_u16 (length_ h);
  header_ok_session : is_u16 (session_id h);
  header_ok_ack : is_u16 (ack_id h);
  header_ok_retransmit : is_u16 (retransmit_request h);
  header_ok_unknown : is_u16 (unknown h);
  header_ok_packet : is_u16 (packet_id h);
}.

(** The largest payload one packet carries: 2047 - 12 bytes. *)
Definition MAX_PAYLOAD : nat := Z.to_nat LENGTH_MASK - HEADER_LEN.

(** ** Lemmas *)

Lemma flags_len_word_value fl len :
  0 ≤ fl < 32 → flags_len_word fl len = fl * 2048 + len mod 2048.
Proof.
  intros Hf. unfold flags_len_word.
  rewrite as_u16_small by (unfold is_u16; rewrite Z.shiftl_mul_pow2; lia).
  change LENGTH_MASK with (2 ^ 11 - 1). rewrite land_ones_mod by lia.
  rewrite lor_shiftl_low by lia. done.
Qed.

Lemma flags_len_word_range fl len : 0 ≤ fl < 32 → is_u16 (flags_len_word fl len).
Proof. intros. rewrite flags_len_word_value by done. unfold is_u16. lia. Qed.

Lemma flags_len_word_split fl len :
  0 ≤ fl < 32 →
  Z.land (Z.shiftr (flags_len_word fl len) 11) PacketFlags_all = fl ∧
  Z.land (flags_len_word fl len) LENGTH_MASK = len mod 2048.
Proof.
  intros Hf. rewrite flags_len_word_value by done.
  change LENGTH_MASK with (2 ^ 11 - 1). change PacketFlags_all with (2 ^ 5 - 1).
  rewrite !land_ones_mod by lia. rewrite Z.shiftr_div_pow2 by lia. lia.
Qed.

Lemma length_PacketHeader_encode h : length (PacketHeader_encode h) = HEADER_LEN.
Proof. done. Qed.
#[export] Hint Rewrite length_PacketHeader_encode : atem.

Lemma header_decode_encode_app h rest :
  header_ok h →
  PacketHeader_decode (PacketHeader_encode h ++ rest) =
    Ok (with_length h (length_ h mod 2048)).
Proof.
  intros [Hf Hl Hs Ha Hr Hu Hp]. destruct h as [[fl] len s a r u p]; cbn in *.
  unfold PacketHeader_decode, PacketHeader_encode, to_be_bytes; cbn.
  destruct (flags_len_word_split fl len Hf) as [E1 E2].
  rewrite !from_to_be_bytes by (done || by apply flags_len_word_range).
  unfold from_bits_truncate. by rewrite E1, E2.
Qed.

Lemma header_decode_ok buf h : PacketHeader_decode buf = Ok h → header_ok h ∧ length_ h < 2048.
Proof.
  unfold PacketHeader_decode. intros H.
  repeat (destruct buf as [|? buf]; [done|]). simplify_eq/=.
  assert (∀ w, 0 ≤ Z.land w LENGTH_MASK < 2048) as Hl.
  { intros w. change LENGTH_MASK with (2 ^ 11 - 1). rewrite land_ones_mod; lia. }
  split; [|apply Hl]. split; cbn; auto with atem.
  - unfold flags_ok, from_bits_truncate; cbn. change PacketFlags_all with (2 ^ 5 - 1).
    rewrite land_ones_mod; lia.
  - match goal with |- is_u16 (Z.land ?w _) => specialize (Hl w) end.
    unfold is_u16. lia.
Qed.

Lemma header_decode_Err buf e :
  PacketHeader_decode buf = Err e ↔ (length buf < HEADER_LEN)%nat ∧ e = TooShort (length buf).
Proof.
  unfold HEADER_LEN.
  split.
  - intros H. do 12 (destruct buf as [|? buf]; [cbn in *; simplify_eq; split; [lia|done]|]).
    done.
  - intros [Hl ->]. do 12 (destruct buf as [|? buf]; [done|]). cbn in Hl. lia.
Qed.

Lemma length_encode_packet h payload :
  length (encode_packet h payload) = Nat.min (HEADER_LEN + length payload) (Z.to_nat LENGTH_MASK).
Proof.
  unfold encode_packet. rewrite length_app, length_PacketHeader_encode, length_take.
  unfold HEADER_LEN, LENGTH_MASK. lia.
Qed.
#[export] Hint Rewrite length_encode_packet : atem.

Lemma encode_packet_ok_length h (payload : bytes) :
  header_ok h →
  header_ok (with_length h (as_u16 (Z.of_nat
    (Nat.min (HEADER_LEN + length payload) (Z.to_nat LENGTH_MASK))))).
Proof. intros []. split; cbn; auto with atem. Qed.

Lemma encode_packet_MAX_PAYLOAD h (payload : bytes) :
  encode_packet h payload =
    PacketHeader_encode (with_length h (Z.of_nat (HEADER_LEN + Nat.min (length payload) MAX_PAYLOAD))) ++
    take MAX_PAYLOAD payload.
Proof.
  unfold encode_packet, MAX_PAYLOAD.
  rewrite as_u16_small by (unfold is_u16, HEADER_LEN, LENGTH_MASK; lia).
  replace (Nat.min (HEADER_LEN + length payload) (Z.to_nat LENGTH_MASK)) with
    (HEADER_LEN + Nat.min (length payload) (Z.to_nat LENGTH_MASK - HEADER_LEN))%nat
    by (unfold HEADER_LEN, LENGTH_MASK; lia).
  f_equal.
  rewrite Nat.add_comm, Nat.add_sub.
  destruct (Nat.le_gt_cases (length payload) (Z.to_nat LENGTH_MASK - HEADER_LEN)) as [H|H].
  - by rewrite Nat.min_l, !take_ge by lia.
  - by rewrite Nat.min_r by lia.
Qed.

Lemma encode_packet_fits h (payload : bytes) :
  (length payload ≤ MAX_PAYLOAD)%nat →
  encode_packet h payload =
    PacketHeader_encode (with_length h (Z.of_nat (HEADER_LEN + length payload))) ++ payload.
Proof. intros. by rewrite encode_packet_MAX_PAYLOAD, take_ge, Nat.min_l. Qed.

Lemma header_ok_with_length h n : header_ok h → is_u16 n → header_ok (with_length h n).
Proof. intros [] ?. by split. Qed.

Lemma header_ok_new fl session len :
  flags_ok fl → is_u16 session → is_u16 len → header_ok (PacketHeader_new fl session len).
Proof. intros. split; cbn; (done || unfold is_u16; lia). Qed.

(** A header is its encoding: re-encoding what was decoded gives the bytes back. *)
Lemma header_encode_decode buf h :
  PacketHeader_decode buf = Ok h → PacketHeader_encode h = take HEADER_LEN buf.
Proof.
  unfold PacketHeader_decode. intros H.
  do 12 (destruct buf as [|? buf]; [done|]). simplify_eq/=.
  unfold PacketHeader_encode; cbn. rewrite !to_from_be_bytes.
  set (w := from_be_bytes b b0).
  assert (flags_len_word (Z.land (Z.shiftr w 11) PacketFlags_all) (Z.land w LENGTH_MASK) = w) as Hw.
  { pose proof (from_be_bytes_range b b0) as Hr. fold w in Hr. unfold is_u16 in Hr.
    change LENGTH_MASK with (2 ^ 11 - 1). change PacketFlags_all with (2 ^ 5 - 1).
    rewrite !land_ones_mod, Z.shiftr_div_pow2 by lia.
    rewrite flags_len_word_value by lia. lia. }
  rewrite Hw. unfold w. by rewrite !to_from_be_bytes.
Qed.

(** ** Properties *)

(** Decoding an encoded packet, whatever bytes of the datagram buffer follow it,
    gives the header with its length field set to the bytes sent, and the payload:
    in full when it fits the 11-bit length field, otherwise its first 2035 bytes. *)
Lemma decode_encode_packet h (payload rest : bytes) :
  header_ok h →
  decode_packet (encode_packet h payload ++ rest) =
    Ok (with_length h (Z.of_nat (HEADER_LEN + Nat.min (length payload) MAX_PAYLOAD)),
        take MAX_PAYLOAD payload).
Proof.
  intros Hh. rewrite encode_packet_MAX_PAYLOAD.
  set (n := (HEADER_LEN + Nat.min (length payload) MAX_PAYLOAD)%nat).
  assert (HEADER_LEN ≤ n < 2048)%nat as Hn.
  { subst n. unfold HEADER_LEN, MAX_PAYLOAD, LENGTH_MASK, HEADER_LEN. lia. }
  unfold decode_packet. rewrite <- app_assoc, header_decode_encode_app.
  2:{ apply header_ok_with_length; [done|]. unfold is_u16. lia. }
  assert (with_length (with_length h (Z.of_nat n)) (length_ (with_length h (Z.of_nat n)) mod 2048)
    = with_length h (Z.of_nat n)) as ->.
  { apply (f_equal (with_length h)), Z.mod_small. lia. }
  cbn -[take drop HEADER_LEN Nat.ltb PacketHeader_encode].
  rewrite Nat2Z.id.
  assert (n = length (PacketHeader_encode (with_length h (Z.of_nat n)) ++ take MAX_PAYLOAD payload)) as Hlen.
  { rewrite length_app, length_PacketHeader_encode, length_take. subst n. lia. }
  destruct (Nat.ltb_spec n HEADER_LEN) as [?|_]; [lia|].
  destruct (Nat.ltb_spec (length (PacketHeader_encode (with_length h (Z.of_nat n)) ++
    take MAX_PAYLOAD payload ++ rest)) n) as [Hlt|_].
  { rewrite app_assoc, length_app, <- Hlen in Hlt. lia. }
  do 2 f_equal. rewrite app_assoc, take_app_length' by done.
  by rewrite (drop_app_length' (PacketHeader_encode _)) by done.
Qed.

(** Decoding is the exact inverse of encoding on the declared prefix of the
    datagram: no header bit is lost, no byte of the payload is moved. *)
Lemma encode_decode_packet buf h payload :
  decode_packet buf = Ok (h, payload) →
  header_ok h ∧
  (HEADER_LEN ≤ Z.to_nat (length_ h) ≤ length buf)%nat ∧
  (length payload ≤ MAX_PAYLOAD)%nat ∧
  encode_packet h payload = take (Z.to_nat (length_ h)) buf.
Proof.
  unfold decode_packet. rewrite bind_Ok. intros (h' & Hd & Hp).
  destruct (Nat.ltb_spec (Z.to_nat (length_ h')) HEADER_LEN); [done|].
  destruct (Nat.ltb_spec (length buf) (Z.to_nat (length_ h'))); [done|]. simplify_eq.
  destruct (header_decode_ok _ _ Hd) as [Hok Hl].
  assert (length (drop HEADER_LEN (take (Z.to_nat (length_ h)) buf)) =
    Z.to_nat (length_ h) - HEADER_LEN)%nat as Hlen.
  { rewrite length_drop, length_take. lia. }
  split; [done|]. split; [lia|].
  assert (length (drop HEADER_LEN (take (Z.to_nat (length_ h)) buf)) ≤ MAX_PAYLOAD)%nat.
  { rewrite Hlen. unfold MAX_PAYLOAD, LENGTH_MASK. lia. }
  split; [done|].
  rewrite encode_packet_fits by done. rewrite Hlen.
  assert (with_length h (Z.of_nat (HEADER_LEN + (Z.to_nat (length_ h) - HEADER_LEN))) = h) as ->.
  { destruct h; unfold with_length; cbn in *. f_equal. unfold HEADER_LEN in *. lia. }
  rewrite (header_encode_decode _ _ Hd).
  rewrite <- (take_drop HEADER_LEN (take (Z.to_nat (length_ h)) buf)) at 2.
  f_equal. rewrite take_take. f_equal. lia.
Qed.

(** Every error of [decode_packet] is one of its three guards, and [decode_packet]
    never fails otherwise. *)
Lemma decode_packet_errors buf :
  match decode_packet buf with
  | Ok (h, _) =>
      PacketHeader_decode buf = Ok h ∧ (HEADER_LEN ≤ Z.to_nat (length_ h) ≤ length buf)%nat
  | Err (TooShort n) => n = length buf ∧ (n < HEADER_LEN)%nat
  | Err (LengthMismatch declared actual) =>
      actual = length buf ∧ (HEADER_LEN ≤ actual)%nat ∧
      (declared < HEADER_LEN ∨ actual < declared)%nat ∧
      ∃ h, PacketHeader_decode buf = Ok h ∧ declared = Z.to_nat (length_ h)
  | Err _ => False
  end.
Proof.
  unfold decode_packet. destruct (PacketHeader_decode buf) as [h|e] eqn:Hd; cbn.
  - assert (HEADER_LEN ≤ length buf)%nat.
    { destruct (Nat.le_gt_cases HEADER_LEN (length buf)) as [|Hlt]; [done|].
      pose proof (proj2 (header_decode_Err buf (TooShort (length buf))) (conj Hlt eq_refl)). congruence. }
    destruct (Nat.ltb_spec (Z.to_nat (length_ h)) HEADER_LEN);
      [cbn; split_and!; [done|done|by left|by exists h]|].
    destruct (Nat.ltb_spec (length buf) (Z.to_nat (length_ h)));
      [cbn; split_and!; [done|done|by right|by exists h]|].
    split; [done|lia].
  - apply header_decode_Err in Hd as [? ->]. done.
Qed.

(** C25. Decoding an encoded packet gives its header (with the length filled in) and its
    payload back, for every payload that fits, whatever follows in the buffer. *)
Theorem packet_roundtrip h payload rest :
  header_ok h → (length payload ≤ MAX_PAYLOAD)%nat →
  decode_packet (encode_packet h payload ++ rest) =
    Ok (with_length h (Z.of_nat (HEADER_LEN + length payload)), payload).
Proof. intros Hh Hl. by rewrite decode_encode_packet, take_ge, Nat.min_l. Qed.
