(* ===== verification/Str.v ===== *)
(** * Standard-library strings

    The parts of Rust's [str] and [char] that the source calls: UTF-8 validation
    and decoding, prefix and substring tests, trimming, and the character
    classes.  A [str] is its list of Unicode scalar values. *)

From S2P Require Export Prelude.
Open Scope Z_scope.

Abbreviation str := (list Z).

(** An ASCII literal as a [str]. *)
Definition chars (s : string) : str := Z_of_byte <$> bstr s.

Definition between (lo hi x : Z) : bool := (lo <=? x) && (x <=? hi).

(** ** [std::str::from_utf8]

    Table 3-7 of the Unicode standard: no overlong form, no surrogate, nothing
    above U+10FFFF. *)
Definition is_continuation (b : byte) : bool := between 0x80 0xBF (Z_of_byte b).

Definition second_of_three (lead : Z) (b : byte) : bool :=
  if lead =? 0xE0 then between 0xA0 0xBF (Z_of_byte b)
  else if lead =? 0xED then between 0x80 0x9F (Z_of_byte b)
  else is_continuation b.

Definition second_of_four (lead : Z) (b : byte) : bool :=
  if lead =? 0xF0 then between 0x90 0xBF (Z_of_byte b)
  else if lead =? 0xF4 then between 0x80 0x8F (Z_of_byte b)
  else is_continuation b.

(** The six payload bits of a continuation byte. *)
Definition low6 (b : byte) : Z := Z_of_byte b - 0x80.

Fixpoint from_utf8 (bs : bytes) : option str :=
  match bs with
  | [] => Some []
  | b0 :: r0 =>
      let x := Z_of_byte b0 in
      if x <? 0x80 then cons x <$> from_utf8 r0
      else if between 0xC2 0xDF x then
        match r0 with
        | b1 :: r1 =>
            if is_continuation b1
            then cons ((x - 0xC0) * 64 + low6 b1) <$> from_utf8 r1 else None
        | _ => None
        end
      else if between 0xE0 0xEF x then
        match r0 with
        | b1 :: b2 :: r2 =>
            if second_of_three x b1 && is_continuation b2
            then cons ((x - 0xE0) * 4096 + low6 b1 * 64 + low6 b2) <$> from_utf8 r2
            else None
        | _ => None
        end
      else if between 0xF0 0xF4 x then
        match r0 with
        | b1 :: b2 :: b3 :: r3 =>
            if second_of_four x b1 && is_continuation b2 && is_continuation b3
            then cons ((x - 0xF0) * 262144 + low6 b1 * 4096 + low6 b2 * 64 + low6 b3)
                   <$> from_utf8 r3
            else None
        | _ => None
        end
      else None
  end.

(** ** [str] methods *)
Definition starts_with (s pat : str) : bool := bool_decide (take (length pat) s = pat).

Fixpoint str_contains (s pat : str) : bool :=
  starts_with s pat || match s with [] => false | _ :: s' => str_contains s' pat end.

Fixpoint trim_end_matches (f : Z → bool) (s : str) : str :=
  match s with
  | [] => []
  | c :: s' =>
      match trim_end_matches f s' with
      | [] => if f c then [] else [c]
      | t => c :: t
      end
  end.

Fixpoint trim_start_matches (f : Z → bool) (s : str) : str :=
  match s with
  | [] => []
  | c :: s' => if f c then trim_start_matches f s' else s
  end.

Definition trim_matches (f : Z → bool) (s : str) : str :=
  trim_end_matches f (trim_start_matches f s).

(** ** [char] methods *)
Definition is_control (c : Z) : bool := between 0x00 0x1F c || between 0x7F 0x9F c.

Definition is_whitespace (c : Z) : bool :=
  between 0x09 0x0D c || (c =? 0x20) || (c =? 0x85) || (c =? 0xA0) || (c =? 0x1680) ||
  between 0x2000 0x200A c || (c =? 0x2028) || (c =? 0x2029) || (c =? 0x202F) ||
  (c =? 0x205F) || (c =? 0x3000).

Definition is_ascii (c : Z) : bool := between 0x00 0x7F c.

Definition is_ascii_alphanumeric (c : Z) : bool :=
  between 0x30 0x39 c || between 0x41 0x5A c || between 0x61 0x7A c.

Definition to_ascii_lowercase (s : str) : str :=
  (λ c, if between 0x41 0x5A c then c + 32 else c) <$> s.

(** ** Lemmas *)

Lemma between_true lo hi x : between lo hi x = true ↔ lo ≤ x ≤ hi.
Proof. unfold between. rewrite andb_true_iff, !Z.leb_le. done. Qed.

Lemma between_false lo hi x : between lo hi x = false ↔ x < lo ∨ hi < x.
Proof. unfold between. rewrite andb_false_iff, !Z.leb_gt. done. Qed.

(** One decoding step: an ASCII byte is its own character, every other
    character is at least U+0080 and takes two to four bytes. *)
Lemma from_utf8_cons b bs s :
  from_utf8 (b :: bs) = Some s →
  (Z_of_byte b < 0x80 ∧ ∃ s', s = Z_of_byte b :: s' ∧ from_utf8 bs = Some s') ∨
  (0x80 ≤ Z_of_byte b ∧ ∃ c s' bs', s = c :: s' ∧ 0x80 ≤ c ∧
    from_utf8 bs' = Some s' ∧ (S (length bs') < S (length bs))%nat).
Proof.
  cbn [from_utf8]. set (x := Z_of_byte b). intros H.
  destruct (Z.ltb_spec x 0x80) as [Hlt|Hge].
  { left. apply fmap_Some in H as (s' & ? & ->). eauto. }
  right. split; [done|].
  destruct (between 0xC2 0xDF x) eqn:H2; [|destruct (between 0xE0 0xEF x) eqn:H3;
    [|destruct (between 0xF0 0xF4 x) eqn:H4; [|done]]].
  - destruct bs as [|b1 bs]; [done|]. destruct (is_continuation b1) eqn:C1; [|done].
    apply fmap_Some in H as (s' & ? & ->).
    eexists _, s', bs. split_and!; [done| |done|cbn; lia].
    unfold is_continuation in C1. rewrite between_true in *. unfold low6. lia.
  - destruct bs as [|b1 [|b2 bs]]; [done..|].
    destruct (second_of_three x b1 && is_continuation b2) eqn:C; [|done].
    apply fmap_Some in H as (s' & ? & ->).
    eexists _, s', bs. split_and!; [done| |done|cbn; lia].
    apply andb_true_iff in C as [C1 C2].
    unfold second_of_three, is_continuation, low6 in *.
    destruct (Z.eqb_spec x 0xE0), (Z.eqb_spec x 0xED); rewrite between_true in *; lia.
  - destruct bs as [|b1 [|b2 [|b3 bs]]]; [done..|].
    destruct (second_of_four x b1 && is_continuation b2 && is_continuation b3) eqn:C; [|done].
    apply fmap_Some in H as (s' & ? & ->).
    eexists _, s', bs. split_and!; [done| |done|cbn; lia].
    rewrite !andb_true_iff in C. destruct C as [[C1 C2] C3].
    unfold second_of_four, is_continuation, low6 in *.
    destruct (Z.eqb_spec x 0xF0), (Z.eqb_spec x 0xF4); rewrite between_true in *; lia.
Qed.

Lemma from_utf8_length bs s : from_utf8 bs = Some s → (length s ≤ length bs)%nat.
Proof.
  remember (length bs) as n eqn:Hn. revert bs s Hn.
  induction n as [n IH] using lt_wf_ind. intros [|b bs] s -> H.
  { cbn in H. simplify_eq. done. }
  apply from_utf8_cons in H as [(? & s' & -> & Hs)|(? & c & s' & bs' & -> & ? & Hs & Hl)].
  - cbn. specialize (IH (length bs) ltac:(cbn; lia) bs s' eq_refl Hs). lia.
  - cbn in *. specialize (IH (length bs') ltac:(lia) bs' s' eq_refl Hs). lia.
Qed.

(** A decoded string starts with an ASCII literal exactly when its bytes do. *)
Lemma from_utf8_starts_with bs s (pat : bytes) :
  from_utf8 bs = Some s →
  Forall (λ b, Z_of_byte b < 0x80) pat →
  starts_with s (Z_of_byte <$> pat) = bool_decide (take (length pat) bs = pat).
Proof.
  unfold starts_with. rewrite length_fmap. intros Hs Hp. apply bool_decide_ext.
  revert bs s Hs. induction Hp as [|p pat Hp Hpat IH]; intros bs s Hs; [done|].
  destruct bs as [|b bs].
  { cbn in Hs. simplify_eq. done. }
  apply from_utf8_cons in Hs as [(? & s' & -> & Hs)|(? & c & s' & bs' & -> & ? & Hs & Hl)]; cbn.
  - specialize (IH _ _ Hs). split.
    + intros [= Hb%Z_of_byte_inj Ht]. apply IH in Ht. by f_equal.
    + intros [= -> Ht]. f_equal. by apply IH.
  - split; intros [= ? ?]; subst; lia.
Qed.

Lemma starts_with_length s pat : starts_with s pat = true → (length pat ≤ length s)%nat.
Proof.
  unfold starts_with. intros H%bool_decide_eq_true. rewrite <- H. rewrite length_take. lia.
Qed.

Lemma str_contains_length s pat : str_contains s pat = true → (length pat ≤ length s)%nat.
Proof.
  induction s as [|c s IH]; cbn; rewrite orb_true_iff; intros [H|H]; try done.
  - by apply starts_with_length in H.
  - by apply starts_with_length in H.
  - apply IH in H. lia.
Qed.

(** Trimming the end keeps a prefix whose last character is not trimmed. *)
Lemma trim_end_matches_spec f s :
  ∃ t, s = trim_end_matches f s ++ t ∧ Forall (λ c, f c = true) t ∧
    (∀ c, last (trim_end_matches f s) = Some c → f c = false).
Proof.
  induction s as [|c s (t & Hs & Ht & Hl)]; [by exists []|]. cbn.
  destruct (trim_end_matches f s) as [|d u] eqn:E.
  - destruct (f c) eqn:Hc.
    + exists (c :: s). cbn in Hs. subst t. split_and!; [done| |done]. by constructor.
    + exists s. cbn in Hs. subst t. split_and!; [done|done|]. cbn. by intros ? [= <-].
  - exists t. split_and!; [cbn in *; congruence|done|]. intros c' Hc'. apply Hl. done.
Qed.
