(* ===== verification/Command.v ===== *)
(** * ATEM commands

    [crates/atem-protocol/src/command.rs]: the framed commands of a packet's
    payload, their names and classes, and the identities the state cache uses. *)

From S2P Require Export Packet Str.
Open Scope nat_scope.

(** ** Names *)

(** [CommandName(pub [u8; 4])]. *)
Record CommandName : Type := CN { n0 : byte; n1 : byte; n2 : byte; n3 : byte }.

#[global] Instance CommandName_eq_dec : EqDecision CommandName.
Proof. solve_decision. Defined.
#[global] Instance CommandName_countable : Countable CommandName.
Proof.
  refine (inj_countable' (λ n, (n0 n, n1 n, n2 n, n3 n))
    (λ '(a, b, c, d), CN a b c d) _). by intros [].
Defined.

Definition name_bytes (n : CommandName) : bytes := [n0 n; n1 n; n2 n; n3 n].

(** The name of a byte-string literal of four characters. *)
Definition name4 (s : string) : CommandName :=
  match bstr s with
  | [a; b; c; d] => CN a b c d
  | _ => CN Byte.x00 Byte.x00 Byte.x00 Byte.x00
  end.

(** [matches!] of [name.0] against byte-string literals. *)
Definition matches_name (n : CommandName) (l : list string) : bool :=
  existsb (λ s, bool_decide (n = name4 s)) l.

Definition INIT_COMPLETE : CommandName := name4 "InCm".

Definition CommandName_as_str (n : CommandName) : Result ProtocolError str :=
  match from_utf8 (name_bytes n) with
  | Some s => Ok s
  | None => Err BadCommandName
  end.

Definition CommandName_from_bytes (b : bytes) : Result ProtocolError CommandName :=
  match b with
  | a :: b :: c :: d :: _ => Ok (CN a b c d)
  | _ => Err BadCommandName
  end.

(** [name.as_str().ok().is_some_and(f)]. *)
Definition as_str_is_some_and (n : CommandName) (f : str → bool) : bool :=
  match result_ok (CommandName_as_str n) with
  | Some s => f s
  | None => false
  end.

(** ** Framing *)

Record CommandRef : Type := { name : CommandName; raw : bytes; body : bytes }.

#[global] Instance CommandRef_eq_dec : EqDecision CommandRef.
Proof. solve_decision. Defined.

Definition serialize_command (n : CommandName) (b : bytes) : bytes :=
  let len := 8 + length b in
  to_be_bytes (as_u16 (Z.of_nat len)) ++ to_be_bytes 0 ++ name_bytes n ++ b.

(** [&payload[a..b]] and [payload[i]], used below their bounds checks only. *)
Definition slice (p : bytes) (a b : nat) : bytes := take (b - a) (drop a p).
Definition byte_at (p : bytes) (i : nat) : byte := default Byte.x00 (p !! i).

(** The [while] loop of [parse_commands]; [None] is "out of fuel". *)
Fixpoint parse_loop (fuel : nat) (payload : bytes) (offset : nat) (out : list CommandRef)
  : option (Result ProtocolError (list CommandRef)) :=
  match fuel with
  | O => None
  | S fuel =>
      if offset + 8 <=? length payload then
        let len := Z.to_nat
          (from_be_bytes (byte_at payload offset) (byte_at payload (offset + 1))) in
        if (len <? 8) || (length payload <? offset + len) then Some (Err (BadCommand offset))
        else
          match CommandName_from_bytes (slice payload (offset + 4) (offset + 8)) with
          | Err e => Some (Err e)
          | Ok n =>
              let raw := slice payload offset (offset + len) in
              let body := slice payload (offset + 8) (offset + len) in
              parse_loop fuel payload (offset + len)
                (out ++ [{| name := n; raw := raw; body := body |}])
          end
      else if negb (offset =? length payload) then Some (Err (BadCommand offset))
      else Some (Ok out)
  end.

(** Every iteration consumes at least eight bytes, so one unit of fuel per byte
    and one more is enough: [parse_commands_terminates]. *)
Definition parse_commands (payload : bytes) : Result ProtocolError (list CommandRef) :=
  default (Err (BadCommand 0)) (parse_loop (S (length payload)) payload 0 []).

(** ** Bodies *)

Definition parse_version (b : bytes) : option (Z * Z) :=
  match b with
  | b0 :: b1 :: b2 :: b3 :: _ => Some (from_be_bytes b0 b1, from_be_bytes b2 b3)
  | _ => None
  end.

(** [iter().position(p)]. *)
Fixpoint position (p : byte → bool) (b : bytes) : option nat :=
  match b with
  | [] => None
  | x :: b => if p x then Some 0 else S <$> position p b
  end.

Definition parse_product_name (b : bytes) : option str :=
  let end_ := default (length b) (position (λ x, bool_decide (x = Byte.x00)) b) in
  s ← from_utf8 (take end_ b);
  let s := trim_end_matches (λ c, is_control c || is_whitespace c) s in
  match s with
  | [] => None
  | _ => Some s
  end.

Definition synthetic_init_complete : bytes :=
  serialize_command INIT_COMPLETE [Byte.x01; Byte.x00; Byte.x00; Byte.x00].

(** [b.get(..n)]. *)
Definition get_to (n : nat) (b : bytes) : option bytes :=
  if n <=? length b then Some (take n b) else None.

Definition command_identity (n : CommandName) (b : bytes) : bytes :=
  if matches_name n ["_ver"; "InCm"; "_pin"; "_top"; "powr"] then []
  else if matches_name n ["PrgI"; "PrvI"; "TrSS"; "TrPs"; "TrPr"; "FtbS"; "FtbP"] then
    option_list (head b)
  else if matches_name n ["KeOn"; "KeBP"; "DskB"; "DskS"; "DskP"; "ColV"; "AuxS"; "MPCE";
    "MPrp"; "CvlI"; "InPr"; "InPX"] then default b (get_to 4 b)
  else [].

(** ** Classes of commands *)

Definition is_ephemeral_command (n : CommandName) : bool :=
  matches_name n ["AMLv"; "AMmO"; "FASP"; "FMLv"; "FAtl"; "FAsp"; "Time"; "TimC"; "TCCc"].

Definition is_lock_command (n : CommandName) : bool :=
  matches_name n ["LOCK"; "PLCK"; "LKST"; "LKOB"]
  || as_str_is_some_and n (λ s, starts_with s (chars "Lock")).

Definition is_lock_request (n : CommandName) : bool := matches_name n ["LOCK"; "PLCK"].

Definition is_lock_status (n : CommandName) : bool := matches_name n ["LKST"; "LKOB"].

Definition lock_store_id (b : bytes) : option Z :=
  match b with
  | b0 :: b1 :: _ => Some (from_be_bytes b0 b1)
  | _ => None
  end.

Definition lock_request_enabled (b : bytes) : bool :=
  if 3 <=? length b then bool_decide (byte_at b 2 ≠ Byte.x00)
  else bool_decide (default Byte.x00 (last b) ≠ Byte.x00).

Definition synthesize_unlock (store : Z) : bytes :=
  let body := to_be_bytes store ++ [Byte.x00] ++ [Byte.x00] in
  serialize_command (name4 "LOCK") body.

Definition is_transfer_command (n : CommandName) : bool :=
  matches_name n ["FTSD"; "FTSU"; "FTCD"; "FTDa"; "FTUA"; "FTFD"; "FTDC"; "FTDE"; "FTES"]
  || as_str_is_some_and n (λ s, starts_with s (chars "FT") || starts_with s (chars "Data")).

Definition is_audio_levels_subscribe (n : CommandName) : bool :=
  matches_name n ["SALN"; "FASP"; "SAff"]
  || as_str_is_some_and n (λ s,
       str_contains s (chars "SendLevels")
       || (str_contains s (chars "Levels") && str_contains s (chars "Enable"))).

(** ** Well-framed commands *)

(** What [parse_commands] promises of each command it returns. *)
Definition frame_ok (c : CommandRef) : Prop :=
  (8 + Z.of_nat (length (body c)) < 65536)%Z ∧
  ∃ r0 r1, raw c =
    to_be_bytes (8 + Z.of_nat (length (body c))) ++ [r0; r1] ++ name_bytes (name c) ++ body c.

(** No frame starts here: the reason [parse_commands] gives up at an offset. *)
Definition bad_frame (rest : bytes) : Prop :=
  rest ≠ [] ∧
  (length rest < 8 ∨
   let len := Z.to_nat (from_be_bytes (byte_at rest 0) (byte_at rest 1)) in
   len < 8 ∨ length rest < len).

Lemma frame_ok_length c : frame_ok c → length (raw c) = 8 + length (body c).
Proof. intros (? & ? & ? & ->). done. Qed.

Lemma frame_ok_serialize n b :
  8 + length b < Z.to_nat 65536 →
  frame_ok {| name := n; raw := serialize_command n b; body := b |}.
Proof.
  intros H. split; cbn; [lia|]. exists Byte.x00, Byte.x00.
  unfold serialize_command. rewrite as_u16_small by (unfold is_u16; lia).
  by rewrite Nat2Z.inj_add.
Qed.

(** ** The parsing loop *)

Lemma byte_at_app pre l i : byte_at (pre ++ l) (length pre + i) = byte_at l i.
Proof. unfold byte_at. by rewrite lookup_app_r, Nat.add_comm, Nat.add_sub by lia. Qed.

Lemma slice_app pre l a b : slice (pre ++ l) (length pre + a) (length pre + b) = slice l a b.
Proof.
  unfold slice. rewrite drop_app_add. f_equal. lia.
Qed.

Lemma byte_at_app_0 pre l : byte_at (pre ++ l) (length pre) = byte_at l 0.
Proof. rewrite <- (byte_at_app pre l 0). by rewrite Nat.add_0_r. Qed.

Lemma slice_app_0 pre l b : slice (pre ++ l) (length pre) (length pre + b) = slice l 0 b.
Proof. rewrite <- (slice_app pre l 0). by rewrite Nat.add_0_r. Qed.

Lemma length_slice p a b : b ≤ length p → length (slice p a b) = b - a.
Proof. unfold slice. rewrite length_take, length_drop. lia. Qed.

Lemma CommandName_from_bytes_slice rest :
  8 ≤ length rest →
  ∃ n, CommandName_from_bytes (slice rest 4 8) = Ok n ∧ slice rest 4 8 = name_bytes n.
Proof.
  intros H. do 8 (destruct rest as [|? rest]; [cbn in H; lia|]).
  by eexists (CN _ _ _ _).
Qed.

(** The two length bytes, the reserved bytes, the name and the body of a frame. *)
Lemma frame_split rest len n :
  len = Z.to_nat (from_be_bytes (byte_at rest 0) (byte_at rest 1)) →
  8 ≤ len ≤ length rest →
  CommandName_from_bytes (slice rest 4 8) = Ok n →
  frame_ok {| name := n; raw := slice rest 0 len; body := slice rest 8 len |}.
Proof.
  intros Hlen H Hn. do 8 (destruct rest as [|? rest]; [cbn in H; lia|]).
  pose proof (from_be_bytes_range (byte_at (b :: b0 :: b1 :: b2 :: b3 :: b4 :: b5 :: b6 :: rest) 0)
    (byte_at (b :: b0 :: b1 :: b2 :: b3 :: b4 :: b5 :: b6 :: rest) 1)) as Hr.
  unfold is_u16, byte_at in *; cbn in Hlen, Hr, Hn, H.
  assert (length (slice rest 0 (len - 8)) = len - 8) as Hsl
    by (rewrite length_slice; lia).
  assert (slice (b :: b0 :: b1 :: b2 :: b3 :: b4 :: b5 :: b6 :: rest) 8 len =
    slice rest 0 (len - 8)) as Hbody by (unfold slice; cbn; by rewrite Nat.sub_0_r).
  split; cbn [body raw name]; rewrite Hbody, Hsl; [lia|].
  exists b1, b2. injection Hn as <-. replace (8 + Z.of_nat (len - 8))%Z with (from_be_bytes b b0) by lia.
  rewrite to_from_be_bytes. unfold slice.
  do 8 (destruct len as [|len]; [lia|]). cbn. by rewrite !Nat.sub_0_r.
Qed.

Lemma parse_loop_step fuel pre c rest out :
  frame_ok c →
  parse_loop (S fuel) (pre ++ raw c ++ rest) (length pre) out =
    parse_loop fuel ((pre ++ raw c) ++ rest) (length (pre ++ raw c)) (out ++ [c]).
Proof.
  intros Hc. pose proof (frame_ok_length c Hc) as Hl. destruct Hc as (Hb & r0 & r1 & Hraw).
  set (p := pre ++ raw c ++ rest).
  assert (Z.to_nat (from_be_bytes (byte_at p (length pre)) (byte_at p (length pre + 1))) =
    8 + length (body c)) as Elen.
  { subst p. rewrite byte_at_app_0, byte_at_app, Hraw.
    unfold byte_at, to_be_bytes; cbn. rewrite from_to_be_bytes by (unfold is_u16; lia). lia. }
  cbn [parse_loop]. rewrite Elen.
  assert (slice p (length pre + 4) (length pre + 8) = name_bytes (name c)) as ->.
  { subst p. by rewrite slice_app, Hraw. }
  assert (slice p (length pre) (length pre + (8 + length (body c))) = raw c) as ->.
  { subst p. rewrite slice_app_0.
    unfold slice. rewrite Nat.sub_0_r, drop_0. by apply take_app_length'. }
  assert (slice p (length pre + 8) (length pre + (8 + length (body c))) = body c) as ->.
  { subst p. rewrite slice_app, Hraw. unfold slice; cbn -[take drop].
    rewrite Nat.sub_0_r. cbn [drop]. by apply take_app_length. }
  assert (length p = length pre + (8 + length (body c)) + length rest) as Hp.
  { subst p. rewrite !length_app, Hl. lia. }
  destruct (Nat.leb_spec (length pre + 8) (length p)) as [_|?]; [|lia].
  destruct (Nat.ltb_spec (8 + length (body c)) 8) as [?|_]; [lia|].
  destruct (Nat.ltb_spec (length p) (length pre + (8 + length (body c)))) as [?|_]; [lia|].
  cbn [orb]. destruct c as [[] ? ?]; cbn [CommandName_from_bytes name_bytes name].
  subst p. by rewrite length_app, <- Hl, <- app_assoc.
Qed.

Lemma parse_loop_complete cs fuel pre out :
  Forall frame_ok cs → length (concat (raw <$> cs)) < fuel →
  parse_loop fuel (pre ++ concat (raw <$> cs)) (length pre) out = Some (Ok (out ++ cs)).
Proof.
  intros Hcs. revert fuel pre out.
  induction Hcs as [|c cs Hc Hcs IH]; intros fuel pre out Hf; (destruct fuel as [|fuel]; [lia|]).
  - cbn in *. rewrite !app_nil_r.
    destruct (Nat.leb_spec (length pre + 8) (length pre)); [lia|]. by rewrite Nat.eqb_refl.
  - rewrite fmap_cons in *. cbn [concat] in *. rewrite parse_loop_step by done.
    rewrite length_app in Hf. pose proof (frame_ok_length c Hc).
    rewrite IH by lia. by rewrite <- app_assoc.
Qed.

(** What one call of the loop returns, from any offset: the frames it found and
    either the end of the payload or the first byte that starts no frame. *)
Definition parse_result (pre rest : bytes) (out : list CommandRef)
    (r : Result ProtocolError (list CommandRef)) : Prop :=
  ∃ cs, Forall frame_ok cs ∧
    ((r = Ok (out ++ cs) ∧ rest = concat (raw <$> cs)) ∨
     ∃ bad, bad_frame bad ∧ rest = concat (raw <$> cs) ++ bad ∧
       r = Err (BadCommand (length pre + length (concat (raw <$> cs))))).

Lemma parse_result_stop pre bad out :
  bad_frame bad → parse_result pre bad out (Err (BadCommand (length pre))).
Proof.
  intros Hb. exists []. split; [done|]. right. exists bad.
  split_and!; [done|done|]. cbn. by rewrite Nat.add_0_r.
Qed.

Lemma parse_result_cons pre c rest out r :
  frame_ok c → parse_result (pre ++ raw c) rest (out ++ [c]) r →
  parse_result pre (raw c ++ rest) out r.
Proof.
  intros Hc (cs & Hcs & H). exists (c :: cs). split; [by constructor|].
  rewrite fmap_cons; cbn [concat].
  destruct H as [[-> ->]|(bad & Hb & -> & ->)]; [left|right].
  - by rewrite <- app_assoc.
  - exists bad. split_and!; [done|by rewrite app_assoc|]. rewrite !length_app. do 2 f_equal. lia.
Qed.

Lemma parse_loop_sound fuel pre rest out :
  length rest < fuel →
  ∃ r, parse_loop fuel (pre ++ rest) (length pre) out = Some r ∧ parse_result pre rest out r.
Proof.
  revert pre rest out. induction fuel as [|fuel IH]; intros pre rest out Hf; [lia|].
  cbn [parse_loop]. rewrite byte_at_app_0, byte_at_app, slice_app_0, !slice_app, length_app.
  set (len := Z.to_nat (from_be_bytes (byte_at rest 0) (byte_at rest 1))).
  destruct (Nat.leb_spec (length pre + 8) (length pre + length rest)) as [H8|H8].
  - destruct ((len <? 8) || (length pre + length rest <? length pre + len)) eqn:Hb.
    { eexists. split; [done|]. apply parse_result_stop.
      split; [destruct rest; [cbn in H8; lia|done]|].
      apply orb_true_iff in Hb as [Hb%Nat.ltb_lt|Hb%Nat.ltb_lt]; right; cbn; fold len; lia. }
    bool_to_prop.
    destruct (CommandName_from_bytes_slice rest) as (n & Hn & _); [lia|]. rewrite Hn.
    assert (frame_ok {| name := n; raw := slice rest 0 len; body := slice rest 8 len |}) as Hc
      by (apply (frame_split rest len n); [done|lia|done]).
    set (c := {| name := n; raw := slice rest 0 len; body := slice rest 8 len |}) in *.
    assert (rest = raw c ++ drop len rest) as Hrest.
    { subst c; cbn [raw]. unfold slice. by rewrite Nat.sub_0_r, drop_0, (take_drop len rest). }
    replace (pre ++ rest) with ((pre ++ raw c) ++ drop len rest)
      by (by rewrite <- app_assoc, <- Hrest).
    replace (length pre + len) with (length (pre ++ raw c))
      by (rewrite length_app; subst c; cbn; rewrite length_slice; lia).
    destruct (IH (pre ++ raw c) (drop len rest) (out ++ [c])) as (r & -> & Hr).
    { rewrite length_drop. lia. }
    exists r. split; [done|]. apply parse_result_cons in Hr; [|done]. by rewrite <- Hrest in Hr.
  - destruct (Nat.eqb_spec (length pre) (length pre + length rest)) as [He|He]; cbn [negb].
    + assert (rest = []) as -> by (apply length_zero_iff_nil; lia).
      eexists. split; [done|]. exists []. split; [done|]. left. by rewrite app_nil_r.
    + eexists. split; [done|]. apply parse_result_stop.
      split; [intros ->; cbn in *; lia|left; lia].
Qed.

Lemma parse_loop_fuel_mono fuel payload offset out r :
  parse_loop fuel payload offset out = Some r →
  parse_loop (S fuel) payload offset out = Some r.
Proof.
  revert offset out. induction fuel as [|fuel IH]; intros offset out H; [done|].
  remember (S fuel) as f. cbn [parse_loop]. subst f. cbn [parse_loop] in H.
  destruct (offset + 8 <=? length payload); [|done].
  destruct (_ || _); [done|].
  destruct (CommandName_from_bytes _); [|done]. by apply IH.
Qed.

Lemma parse_loop_fuel payload f1 f2 :
  length payload < f1 → length payload < f2 →
  parse_loop f1 payload 0 [] = parse_loop f2 payload 0 [].
Proof.
  assert (∀ k f, length payload < f →
    parse_loop (k + f) payload 0 [] = parse_loop f payload 0 []) as H.
  { intros k f Hf. destruct (parse_loop_sound f [] payload [] Hf) as (r & Hr & _).
    cbn [app length] in Hr. rewrite Hr. induction k as [|k IH]; [done|].
    by apply parse_loop_fuel_mono. }
  intros H1 H2. destruct (Nat.le_ge_cases f1 f2).
  - rewrite <- (H (f2 - f1) f1) by done. f_equal. lia.
  - rewrite <- (H (f1 - f2) f2) by done. f_equal. lia.
Qed.

(** ** Properties of framing *)

(** Fuel is never the reason [parse_commands] stops: with any fuel above the
    length of the payload the loop returns, and returns the same result. *)
Lemma parse_commands_terminates payload fuel :
  length payload < fuel →
  parse_loop fuel payload 0 [] = Some (parse_commands payload).
Proof.
  unfold parse_commands. intros Hf.
  rewrite (parse_loop_fuel payload fuel (S (length payload))) by lia.
  destruct (parse_loop_sound (S (length payload)) [] payload []) as (r & Hr & _); [lia|].
  cbn [app length] in Hr. by rewrite Hr.
Qed.

Lemma parse_commands_result payload : parse_result [] payload [] (parse_commands payload).
Proof.
  destruct (parse_loop_sound (S (length payload)) [] payload []) as (r & Hr & Hres); [lia|].
  cbn [app length] in Hr. rewrite (parse_commands_terminates payload) in Hr by lia.
  by injection Hr as ->.
Qed.

Lemma parse_commands_concat cs :
  Forall frame_ok cs → parse_commands (concat (raw <$> cs)) = Ok cs.
Proof.
  intros Hcs. set (p := concat (raw <$> cs)).
  pose proof (parse_commands_terminates p (S (length p)) ltac:(lia)) as Ht.
  pose proof (parse_loop_complete cs (S (length p)) [] [] Hcs ltac:(subst p; lia)) as Hc.
  cbn [app length] in Hc. fold p in Hc. congruence.
Qed.

(** Parsing accepts exactly the concatenations of well-formed frames, and returns
    those frames in order, with nothing dropped or invented between them. *)
Lemma parse_commands_Ok payload cs :
  parse_commands payload = Ok cs ↔ Forall frame_ok cs ∧ payload = concat (raw <$> cs).
Proof.
  split.
  - intros H. destruct (parse_commands_result payload) as (cs' & Hcs & [[Hr ->]|(bad & _ & _ & Hr)]);
      rewrite H in Hr; cbn [app] in Hr; simplify_eq. done.
  - intros [Hcs ->]. by apply parse_commands_concat.
Qed.

(** The only error is [BadCommand] at the offset of the first byte that starts no
    frame: the bytes before it are whole frames ([BadCommandName] is impossible). *)
Lemma parse_commands_Err payload e :
  parse_commands payload = Err e →
  ∃ cs bad, Forall frame_ok cs ∧ payload = concat (raw <$> cs) ++ bad ∧ bad_frame bad ∧
    e = BadCommand (length (concat (raw <$> cs))).
Proof.
  intros H. destruct (parse_commands_result payload) as (cs & Hcs & [[Hr ->]|(bad & Hb & -> & Hr)]);
    rewrite H in Hr; simplify_eq.
  exists cs, bad. done.
Qed.

(** Serialising any list of (name, body) pairs and parsing the result gives them
    back, as long as every body fits the 16-bit length field. *)
Lemma parse_serialize_commands (cmds : list (CommandName * bytes)) :
  Forall (λ '(_, b), 8 + length b < Z.to_nat 65536) cmds →
  parse_commands (concat ((λ '(n, b), serialize_command n b) <$> cmds)) =
    Ok ((λ '(n, b), {| name := n; raw := serialize_command n b; body := b |}) <$> cmds).
Proof.
  intros H. apply parse_commands_Ok. split.
  - apply Forall_fmap. eapply Forall_impl; [exact H|]. intros [n b]. apply frame_ok_serialize.
  - f_equal. rewrite <- list_fmap_compose. apply list_fmap_ext. by intros ? [].
Qed.

Lemma parse_serialize_command n b :
  8 + length b < Z.to_nat 65536 →
  parse_commands (serialize_command n b) =
    Ok [{| name := n; raw := serialize_command n b; body := b |}].
Proof.
  intros H. pose proof (parse_serialize_commands [(n, b)]) as Hp. cbn in Hp.
  rewrite app_nil_r in Hp. apply Hp. by constructor.
Qed.

Lemma serialize_command_length n b : length (serialize_command n b) = 8 + length b.
Proof. done. Qed.
#[export] Hint Rewrite serialize_command_length : atem.

Lemma parse_commands_nil : parse_commands [] = Ok [].
Proof. done. Qed.

Lemma parse_commands_app_inv p cs c :
  parse_commands p = Ok cs → c ∈ cs →
  frame_ok c ∧ length (raw c) ≤ length p.
Proof.
  intros [Hcs ->]%parse_commands_Ok Hc. split; [by eapply Forall_forall|].
  apply list_elem_of_split in Hc as (l1 & l2 & ->).
  rewrite fmap_app, concat_app, fmap_cons; cbn [concat]. rewrite !length_app. lia.
Qed.

Lemma frame_ok_parse_raw c : frame_ok c → parse_commands (raw c) = Ok [c].
Proof.
  intros Hc. pose proof (parse_commands_concat [c]) as H. cbn in H.
  rewrite app_nil_r in H. apply H. by constructor.
Qed.

(** A byte after a frame makes the whole payload malformed. *)
Lemma parse_commands_stray_byte c b :
  frame_ok c → parse_commands (raw c ++ [b]) = Err (BadCommand (length (raw c))).
Proof.
  intros Hc. unfold parse_commands. rewrite length_app. cbn [length].
  pose proof (parse_loop_step (S (length (raw c))) [] c [b] [] Hc) as Hs.
  cbn [app length] in Hs. rewrite Nat.add_1_r, Hs. cbn [parse_loop].
  rewrite length_app. cbn [length].
  by rewrite (proj2 (Nat.leb_gt _ _)), (proj2 (Nat.eqb_neq _ _)) by lia.
Qed.

(** ** Classes *)

Lemma matches_name_spec n l : matches_name n l = true ↔ ∃ s, s ∈ l ∧ n = name4 s.
Proof.
  unfold matches_name. rewrite existsb_exists. split.
  - intros (s & ? & ?%bool_decide_eq_true). exists s. by rewrite list_elem_of_In.
  - intros (s & ? & ->). exists s. rewrite <- list_elem_of_In. by rewrite bool_decide_eq_true.
Qed.

Lemma as_str_starts_with n (pat : bytes) :
  Forall (λ b, Z_of_byte b < 0x80)%Z pat →
  as_str_is_some_and n (λ s, starts_with s (Z_of_byte <$> pat)) = true ↔
  is_Some (from_utf8 (name_bytes n)) ∧ take (length pat) (name_bytes n) = pat.
Proof.
  intros Hp. unfold as_str_is_some_and, CommandName_as_str.
  destruct (from_utf8 (name_bytes n)) as [s|] eqn:E; cbn [result_ok].
  - rewrite (from_utf8_starts_with _ _ _ E Hp), bool_decide_eq_true.
    split; [by eauto|]. by intros [].
  - split; [done|]. by intros [[? ?] _].
Qed.

(** Split a fact about [matches_name] into one case per literal, and evaluate. *)
Ltac name_cases H :=
  apply matches_name_spec in H as (? & H & ->);
  rewrite ?elem_of_cons, ?elem_of_nil in H;
  repeat match type of H with _ ∨ _ => destruct H as [H|H] end;
  [subst..|done].

Lemma name_bytes_inj n m : name_bytes n = name_bytes m → n = m.
Proof. destruct n, m. unfold name_bytes; cbn. by intros [= -> -> -> ->]. Qed.

(** A transfer command is a valid UTF-8 name that starts with [FT], or [Data]. *)
Lemma is_transfer_command_spec n :
  is_transfer_command n = true ↔
  (is_Some (from_utf8 (name_bytes n)) ∧ take 2 (name_bytes n) = bstr "FT") ∨ n = name4 "Data".
Proof.
  unfold is_transfer_command. rewrite orb_true_iff.
  assert (as_str_is_some_and n (λ s, starts_with s (chars "FT") || starts_with s (chars "Data"))
    = as_str_is_some_and n (λ s, starts_with s (chars "FT"))
      || as_str_is_some_and n (λ s, starts_with s (chars "Data"))) as ->.
  { unfold as_str_is_some_and. by destruct (result_ok _). }
  rewrite orb_true_iff. unfold chars. rewrite !as_str_starts_with by by repeat constructor.
  split.
  - intros [H|[H|[_ H]]]; [|by left|].
    + left. name_cases H; vm_compute; eauto.
    + right. apply name_bytes_inj. destruct n; done.
  - intros [H| ->]; [right; by left|]. right; right. split; [|done]. vm_compute. eauto.
Qed.

(** A lock command is one of five names: the [Lock] prefix only ever matches the
    name [Lock] itself. *)
Lemma is_lock_command_spec n :
  is_lock_command n = matches_name n ["LOCK"; "PLCK"; "LKST"; "LKOB"; "Lock"].
Proof.
  unfold is_lock_command. apply eq_true_iff_eq. rewrite orb_true_iff, !matches_name_spec.
  unfold chars. rewrite as_str_starts_with by by repeat constructor. split.
  - intros [(s & Hs & ->)|[_ H]].
    + exists s. split; [|done]. rewrite !elem_of_cons in *. tauto.
    + exists "Lock"%string. split; [by rewrite !elem_of_cons; eauto 10|].
      apply name_bytes_inj. by destruct n.
  - intros (s & Hs & ->). rewrite !elem_of_cons, elem_of_nil in Hs.
    destruct Hs as [->|[->|[->|[->|[->|[]]]]]];
      try (left; eexists; split; [|reflexivity]; rewrite !elem_of_cons; by eauto 10).
    right. split; [vm_compute; eauto|done].
Qed.

(** The substring tests for [SendLevels] and [Levels...Enable] can never hold of a
    four-byte name, so exactly three names subscribe to audio levels. *)
Lemma is_audio_levels_subscribe_spec n :
  is_audio_levels_subscribe n = matches_name n ["SALN"; "FASP"; "SAff"].
Proof.
  unfold is_audio_levels_subscribe. rewrite <- orb_false_r. f_equal.
  unfold as_str_is_some_and, CommandName_as_str.
  destruct (from_utf8 (name_bytes n)) as [s|] eqn:E; cbn [result_ok]; [|done].
  apply from_utf8_length in E. cbn in E. rewrite orb_false_iff, andb_false_iff.
  assert (∀ pat, 4 < length pat → str_contains s pat = false) as H.
  { intros pat Hp. apply not_true_is_false. intros Hc%str_contains_length. lia. }
  split; [apply H; vm_compute; lia|left; apply H; vm_compute; lia].
Qed.

(** The classes the client filter tests are disjoint, so the order of its tests
    does not matter. *)
Lemma filter_classes_disjoint n :
  (is_lock_request n = true → is_transfer_command n = false ∧ is_audio_levels_subscribe n = false) ∧
  (is_transfer_command n = true → is_audio_levels_subscribe n = false).
Proof.
  split.
  - intros H. unfold is_lock_request in H. name_cases H; by vm_compute.
  - intros H. rewrite is_audio_levels_subscribe_spec. apply not_true_is_false. intros H2.
    name_cases H2; by vm_compute in H.
Qed.

Lemma is_lock_status_not_transfer n : is_lock_status n = true → is_transfer_command n = false.
Proof. unfold is_lock_status. intros H. name_cases H; by vm_compute. Qed.

Lemma is_lock_status_lock_command n : is_lock_status n = true → is_lock_command n = true.
Proof. unfold is_lock_status. intros H. name_cases H; by vm_compute. Qed.

(** ** Bodies *)

Lemma command_identity_prefix n b :
  ∃ k, k ≤ 4 ∧ command_identity n b = take k b.
Proof.
  unfold command_identity.
  repeat case_match; [exists 0|exists 1|exists 4|exists 0]; (split; [lia|]); try done.
  - by destruct b.
  - unfold get_to. destruct (Nat.leb_spec 4 (length b)); cbn; [done|].
    symmetry. apply take_ge. lia.
Qed.

(** The unlock request synthesised for a disconnected client is one framed lock
    request that names the store and asks to unlock it. *)
Lemma synthesize_unlock_parses store :
  is_u16 store →
  ∃ c, parse_commands (synthesize_unlock store) = Ok [c] ∧
    is_lock_request (name c) = true ∧ lock_store_id (body c) = Some store ∧
    lock_request_enabled (body c) = false.
Proof.
  intros Hs. eexists. split.
  { apply parse_serialize_command. rewrite !length_app, length_to_be_bytes. cbn [length]. lia. }
  cbn [name body].
  split; [done|]. split; [|done].
  cbn. unfold to_be_bytes; cbn. by rewrite from_to_be_bytes.
Qed.

(** The synthetic end of the init dump is one [InCm] frame of twelve bytes, more
    than the eight bytes Companion's parser skips. *)
Lemma synthetic_init_complete_parses :
  length synthetic_init_complete = 12 ∧
  ∃ c, parse_commands synthetic_init_complete = Ok [c] ∧ name c = INIT_COMPLETE ∧
    raw c = synthetic_init_complete ∧ length (body c) = 4.
Proof.
  split; [done|]. eexists. split; [apply parse_serialize_command; cbn [length]; lia|]. done.
Qed.

Lemma position_spec p b :
  match position p b with
  | Some i => i < length b ∧ Forall (λ x, p x = false) (take i b) ∧
      ∃ x, b !! i = Some x ∧ p x = true
  | None => Forall (λ x, p x = false) b
  end.
Proof.
  induction b as [|x b IH]; cbn; [done|].
  destruct (p x) eqn:Hp; cbn; [split_and!; [lia|done|by eauto]|].
  destruct (position p b); cbn.
  - destruct IH as (? & ? & ?). split_and!; [lia|by constructor|done].
  - by constructor.
Qed.

(** A parsed product name is a non-empty prefix of the text before the first NUL,
    and ends in a character that is neither a control nor a space. *)
Lemma parse_product_name_clean b s :
  parse_product_name b = Some s →
  ∃ pre t, pre `prefix_of` b ∧ (Byte.x00 ∉ pre) ∧ from_utf8 pre = Some (s ++ t) ∧
    Forall (λ c, (is_control c || is_whitespace c) = true) t ∧
    ∃ c, last s = Some c ∧ (is_control c || is_whitespace c) = false.
Proof.
  unfold parse_product_name. intros H. apply bind_Some in H as (u & Hu & Hs).
  set (f := λ c, (is_control c || is_whitespace c)) in *.
  destruct (trim_end_matches_spec f u) as (t & Ht & Hf & Hl).
  destruct (trim_end_matches f u) as [|c v] eqn:E; [done|]. injection Hs as <-.
  set (i := default (length b) (position (λ x, bool_decide (x = Byte.x00)) b)) in *.
  exists (take i b), t. split_and!.
  - apply prefix_take.
  - pose proof (position_spec (λ x, bool_decide (x = Byte.x00)) b) as Hp.
    subst i. destruct (position _ b); cbn in *.
    + destruct Hp as (_ & Hp & _). intros Hin. rewrite Forall_forall in Hp.
      by specialize (Hp _ Hin).
    + rewrite firstn_all. intros Hin. rewrite Forall_forall in Hp. by specialize (Hp _ Hin).
  - by rewrite Hu, Ht.
  - done.
  - destruct (last (c :: v)) as [d|] eqn:Ed; [by eauto|]. by apply last_None in Ed.
Qed.

(** ** Framing, as its clients may use it *)

(** C26. Parsing accepts exactly the concatenations of well-formed frames and returns
    them in order; on anything else it stops at the first byte that starts no
    frame, and says where that is. *)
Theorem parse_exact payload :
  match parse_commands payload with
  | Ok cs => Forall frame_ok cs ∧ payload = concat (raw <$> cs)
  | Err e =>
      ∃ cs bad, Forall frame_ok cs ∧ payload = concat (raw <$> cs) ++ bad ∧ bad_frame bad ∧
        e = BadCommand (length (concat (raw <$> cs)))
  end.
Proof.
  destruct (parse_commands payload) as [cs|e] eqn:E.
  - by apply parse_commands_Ok.
  - by apply parse_commands_Err.
Qed.

(** C27. Serialising any list of names and bodies and parsing the result gives them back,
    as long as every body fits the 16-bit length field. *)
Theorem frames_roundtrip (cmds : list (CommandName * bytes)) :
  Forall (λ '(_, b), 8 + length b < Z.to_nat 65536) cmds →
  ∃ cs, parse_commands (concat ((λ '(n, b), serialize_command n b) <$> cmds)) = Ok cs ∧
    (λ c, (name c, body c)) <$> cs = cmds.
Proof.
  intros H. eexists. split; [by apply parse_serialize_commands|].
  rewrite <- list_fmap_compose. clear H. induction cmds as [|[n b] cmds IH]; [done|].
  cbn in *. by rewrite IH.
Qed.
