(* ===== verification/Session.v ===== *)
(** * Handshake and acknowledgement packets

    [crates/atem-protocol/src/session.rs]: the packets that carry no commands. *)

From S2P Require Export Packet.
Open Scope Z_scope.

Definition HANDSHAKE_CLIENT_STATUS : byte := byte_of_Z 0x01.
Definition HANDSHAKE_OK_STATUS : byte := byte_of_Z 0x02.
Definition INIT_ACK_REMOTE_SEQ : Z := 0x61.

Definition server_session_id (index : Z) : Z := Z.lor 0x8000 (Z.land index 0x7FFF).

Definition is_handshake_packet (fl : PacketFlags) : bool := contains fl HANDSHAKE.

Definition parse_handshake_status (payload : bytes) : option byte := head payload.

Definition build_client_handshake (session : Z) : bytes :=
  let header := PacketHeader_new HANDSHAKE session 20 in
  let header := with_unknown header 0x0068 in
  let payload := [HANDSHAKE_CLIENT_STATUS; byte_of_Z 0; byte_of_Z 0; byte_of_Z 0x08;
    byte_of_Z 0; byte_of_Z 0; byte_of_Z 0; byte_of_Z 0] in
  encode_packet header payload.

Definition build_server_handshake_reply (session : Z) : bytes :=
  let header := PacketHeader_new HANDSHAKE session 20 in
  let payload := [HANDSHAKE_OK_STATUS; byte_of_Z 0; byte_of_Z 0; byte_of_Z 0;
    byte_of_Z 0; byte_of_Z 0; byte_of_Z 0; byte_of_Z 0] in
  encode_packet header payload.

Definition build_ack_reply (session ack packet : Z) : bytes :=
  let header := PacketHeader_new ACK_REPLY session (Z.of_nat HEADER_LEN) in
  let header := with_ack_id header ack in
  let header := with_packet_id header packet in
  encode_packet header [].

Definition build_init_complete_ack (session ack : Z) : bytes :=
  let header := PacketHeader_new ACK_REPLY session (Z.of_nat HEADER_LEN) in
  let header := with_ack_id header ack in
  let header := with_unknown header INIT_ACK_REMOTE_SEQ in
  encode_packet header [].

(** A datagram that both receive loops treat as a greeting. *)
Definition is_greeting (data : bytes) : bool :=
  match decode_packet data with
  | Ok (hdr, _) => is_handshake_packet (flags hdr)
  | Err _ => false
  end.

(** ** Lemmas *)

Lemma server_session_id_value index :
  0 ≤ index → server_session_id index = 32768 + index mod 32768.
Proof.
  intros H. unfold server_session_id.
  change 0x8000 with (Z.shiftl 1 15). change 0x7FFF with (2 ^ 15 - 1).
  rewrite land_ones_mod by lia. rewrite lor_shiftl_low by lia. done.
Qed.

(** Decoding a packet that was built from a well-formed header and a payload that
    fits gives the header, with its length, and the payload. *)
Lemma decode_built h (payload : bytes) :
  header_ok h → (length payload ≤ MAX_PAYLOAD)%nat →
  decode_packet (encode_packet h payload) =
    Ok (with_length h (Z.of_nat (HEADER_LEN + length payload)), payload).
Proof.
  intros Hh Hl. rewrite <- (app_nil_r (encode_packet h payload)).
  by rewrite decode_encode_packet, Nat.min_l, take_ge.
Qed.

(** ** Properties *)

(** Server session ids have the high bit set, and two clients of the same window
    of 32768 consecutive handshakes never share one. *)
Lemma server_session_id_unique i j :
  0 ≤ i < 65536 → 0 ≤ j < 65536 →
  0x8000 ≤ server_session_id i < 0x10000 ∧
  (server_session_id i = server_session_id j ↔ i mod 32768 = j mod 32768).
Proof. intros ? ?. rewrite !server_session_id_value by lia. lia. Qed.

Ltac solve_header :=
  split; cbn; unfold flags_ok, is_u16, INIT_ACK_REMOTE_SEQ, HEADER_LEN; cbn; (done || lia).
Ltac solve_fits := cbn [length]; unfold MAX_PAYLOAD, LENGTH_MASK, HEADER_LEN; lia.

(** The peer that decodes the proxy's HELLO reply sees a handshake packet that
    carries the assigned session id and the OK status. *)
Lemma server_handshake_reply_decodes session :
  is_u16 session →
  ∃ h payload, decode_packet (build_server_handshake_reply session) = Ok (h, payload) ∧
    is_handshake_packet (flags h) = true ∧ session_id h = session ∧
    length_ h = 20 ∧ parse_handshake_status payload = Some HANDSHAKE_OK_STATUS.
Proof.
  intros Hs. unfold build_server_handshake_reply. rewrite decode_built; [|solve_header|solve_fits].
  by eexists _, _.
Qed.

Lemma client_handshake_decodes session :
  is_u16 session →
  ∃ h payload, decode_packet (build_client_handshake session) = Ok (h, payload) ∧
    is_handshake_packet (flags h) = true ∧ session_id h = session ∧
    length_ h = 20 ∧ parse_handshake_status payload = Some HANDSHAKE_CLIENT_STATUS.
Proof.
  intros Hs. unfold build_client_handshake. rewrite decode_built; [|solve_header|solve_fits].
  by eexists _, _.
Qed.

Lemma ack_reply_decodes session ack packet :
  is_u16 session → is_u16 ack → is_u16 packet →
  ∃ h, decode_packet (build_ack_reply session ack packet) = Ok (h, []) ∧
    flags h = ACK_REPLY ∧ session_id h = session ∧ ack_id h = ack ∧ packet_id h = packet.
Proof.
  intros. unfold build_ack_reply. rewrite decode_built; [|solve_header|solve_fits].
  by eexists.
Qed.

Lemma init_complete_ack_decodes session ack :
  is_u16 session → is_u16 ack →
  ∃ h, decode_packet (build_init_complete_ack session ack) = Ok (h, []) ∧
    flags h = ACK_REPLY ∧ session_id h = session ∧ ack_id h = ack ∧
    unknown h = INIT_ACK_REMOTE_SEQ.
Proof.
  intros. unfold build_init_complete_ack. rewrite decode_built; [|solve_header|solve_fits].
  by eexists.
Qed.
