(* ===== verification/Reliable.v ===== *)
(** * The reliable UDP endpoint

    [crates/atem-protocol/src/reliable.rs]: packet ids, acknowledgements, the
    in-flight window, retransmission and pings.  The same endpoint serves the
    upstream session and every client session.  [VecDeque] is a list, front
    first; each reading of the clock is an argument. *)

From S2P Require Export Packet.
Open Scope Z_scope.

(** [1 << 15]. *)
Definition MAX_PACKET_ID : Z := Z.shiftl 1 15.

Record ReliableConfig : Type := {
  max_in_flight : nat;
  retransmit_after : Duration;
  ack_coalesce_count : Z;
  ack_coalesce_after : Duration;
  ping_interval : Duration;
  idle_timeout : Duration;
}.

Definition ReliableConfig_default : ReliableConfig := {|
  max_in_flight := 32;
  retransmit_after := from_millis 30;
  ack_coalesce_count := 16;
  ack_coalesce_after := from_millis 5;
  ping_interval := from_millis 100;
  idle_timeout := from_millis 1000;
|}.

(** Release build: [current + 1] wraps at 65536. *)
Definition next_packet_id (current : Z) : Z := as_u16 (current + 1) mod MAX_PACKET_ID.

(** [%] on [i32] is the truncated remainder, [Z.rem]. *)
Definition is_ack_covering (ack packet : Z) : bool :=
  if ack =? packet then true
  else Z.rem (ack - packet + MAX_PACKET_ID) MAX_PACKET_ID <? 256.

Record InFlightEntry : Type := {
  entry_id : Z;
  entry_bytes : bytes;
  sent_at : Instant;
}.

Record AckState : Type := {
  highest_recv : option Z;
  expected_recv : Z;
  last_ack_sent_at : option Instant;
  packets_since_ack : Z;
  need_init_ack : bool;
}.

Definition AckState_default : AckState := {|
  highest_recv := None; expected_recv := 0; last_ack_sent_at := None;
  packets_since_ack := 0; need_init_ack := false |}.

Record ReliableEndpoint : Type := {
  rel_session_id : Z;
  next_send_id : Z;
  config : ReliableConfig;
  in_flight : list InFlightEntry;
  outbound : list bytes;
  ack : AckState;
  last_recv_at : Instant;
  last_ping_at : Instant;
  rel_opened : bool;
}.

(** Field updates. *)
Definition set_session_id (ep : ReliableEndpoint) (v : Z) : ReliableEndpoint :=
  {| rel_session_id := v; next_send_id := next_send_id ep; config := config ep;
     in_flight := in_flight ep; outbound := outbound ep; ack := ack ep;
     last_recv_at := last_recv_at ep; last_ping_at := last_ping_at ep;
     rel_opened := rel_opened ep |}.
Definition set_next_send_id (ep : ReliableEndpoint) (v : Z) : ReliableEndpoint :=
  {| rel_session_id := rel_session_id ep; next_send_id := v; config := config ep;
     in_flight := in_flight ep; outbound := outbound ep; ack := ack ep;
     last_recv_at := last_recv_at ep; last_ping_at := last_ping_at ep;
     rel_opened := rel_opened ep |}.
Definition set_in_flight (ep : ReliableEndpoint) (v : list InFlightEntry) : ReliableEndpoint :=
  {| rel_session_id := rel_session_id ep; next_send_id := next_send_id ep;
     config := config ep; in_flight := v; outbound := outbound ep; ack := ack ep;
     last_recv_at := last_recv_at ep; last_ping_at := last_ping_at ep;
     rel_opened := rel_opened ep |}.
Definition set_outbound (ep : ReliableEndpoint) (v : list bytes) : ReliableEndpoint :=
  {| rel_session_id := rel_session_id ep; next_send_id := next_send_id ep;
     config := config ep; in_flight := in_flight ep; outbound := v; ack := ack ep;
     last_recv_at := last_recv_at ep; last_ping_at := last_ping_at ep;
     rel_opened := rel_opened ep |}.
Definition set_ack (ep : ReliableEndpoint) (v : AckState) : ReliableEndpoint :=
  {| rel_session_id := rel_session_id ep; next_send_id := next_send_id ep;
     config := config ep; in_flight := in_flight ep; outbound := outbound ep; ack := v;
     last_recv_at := last_recv_at ep; last_ping_at := last_ping_at ep;
     rel_opened := rel_opened ep |}.
Definition set_last_recv_at (ep : ReliableEndpoint) (v : Instant) : ReliableEndpoint :=
  {| rel_session_id := rel_session_id ep; next_send_id := next_send_id ep;
     config := config ep; in_flight := in_flight ep; outbound := outbound ep;
     ack := ack ep; last_recv_at := v; last_ping_at := last_ping_at ep;
     rel_opened := rel_opened ep |}.
Definition set_last_ping_at (ep : ReliableEndpoint) (v : Instant) : ReliableEndpoint :=
  {| rel_session_id := rel_session_id ep; next_send_id := next_send_id ep;
     config := config ep; in_flight := in_flight ep; outbound := outbound ep;
     ack := ack ep; last_recv_at := last_recv_at ep; last_ping_at := v;
     rel_opened := rel_opened ep |}.
Definition set_rel_opened (ep : ReliableEndpoint) (v : bool) : ReliableEndpoint :=
  {| rel_session_id := rel_session_id ep; next_send_id := next_send_id ep;
     config := config ep; in_flight := in_flight ep; outbound := outbound ep;
     ack := ack ep; last_recv_at := last_recv_at ep; last_ping_at := last_ping_at ep;
     rel_opened := v |}.

(** ** Operations *)

Definition ReliableEndpoint_new (now : Instant) (session : Z) (cfg : ReliableConfig)
  : ReliableEndpoint := {|
  rel_session_id := session; next_send_id := 0; config := cfg; in_flight := [];
  outbound := []; ack := AckState_default; last_recv_at := now; last_ping_at := now;
  rel_opened := false |}.

Definition note_recv (now : Instant) (ep : ReliableEndpoint) : ReliableEndpoint :=
  set_last_recv_at ep now.

Definition is_timed_out (now : Instant) (ep : ReliableEndpoint) : bool :=
  idle_timeout (config ep) <? duration_since now (last_recv_at ep).

Definition queue_payload (payload : bytes) (ep : ReliableEndpoint) : ReliableEndpoint :=
  set_outbound ep (outbound ep ++ [payload]).

(** The [for] loop of [queue_commands_packed]: [current] is the payload being
    filled; the result is the payloads pushed to [outbound], the last one flushed. *)
Fixpoint pack_commands (current : bytes) (commands : list bytes) : list bytes :=
  match commands with
  | [] => match current with [] => [] | _ => [current] end
  | cmd :: commands =>
      let full := (MAX_PACKET_LEN <? HEADER_LEN + length current + length cmd)%nat
                  && negb (bool_decide (current = [])) in
      let flushed := if full then [current] else [] in
      let current := if full then [] else current in
      if (MAX_PACKET_LEN <? HEADER_LEN + length cmd)%nat
      then flushed ++ [cmd] ++ pack_commands current commands
      else flushed ++ pack_commands (current ++ cmd) commands
  end.

Definition queue_commands_packed (commands : list bytes) (ep : ReliableEndpoint)
  : ReliableEndpoint := set_outbound ep (outbound ep ++ pack_commands [] commands).

Fixpoint drop_acked (id : Z) (q : list InFlightEntry) : list InFlightEntry :=
  match q with
  | front :: q' => if is_ack_covering id (entry_id front) then drop_acked id q' else q
  | [] => []
  end.

Definition on_ack_id (id : Z) (ep : ReliableEndpoint) : ReliableEndpoint :=
  set_in_flight ep (drop_acked id (in_flight ep)).

(** The two rejecting branches of the source differ in their comments only. *)
Definition accept_reliable (id : Z) (is_retransmit : bool) (ep : ReliableEndpoint)
  : bool * ReliableEndpoint :=
  let a := ack ep in
  if id =? expected_recv a then
    (true, set_ack ep {|
      highest_recv := Some id;
      expected_recv := next_packet_id (expected_recv a);
      last_ack_sent_at := last_ack_sent_at a;
      packets_since_ack := u16_saturating_add (packets_since_ack a) 1;
      need_init_ack := need_init_ack a |})
  else if is_retransmit
    && is_ack_covering (as_u16 (expected_recv a - 1) mod MAX_PACKET_ID) id then (false, ep)
  else (false, ep).

Definition should_send_ack (now : Instant) (ep : ReliableEndpoint) : bool :=
  let a := ack ep in
  match highest_recv a with
  | None => false
  | Some _ =>
      if ack_coalesce_count (config ep) <=? packets_since_ack a then true
      else
        match last_ack_sent_at a with
        | None => 0 <? packets_since_ack a
        | Some t =>
            (0 <? packets_since_ack a)
            && (ack_coalesce_after (config ep) <=? duration_since now t)
        end
  end.

Definition build_ack_packet (now : Instant) (ep : ReliableEndpoint)
  : option bytes * ReliableEndpoint :=
  let a := ack ep in
  match highest_recv a with
  | None => (None, ep)
  | Some id =>
      let header := PacketHeader_new ACK_REPLY (rel_session_id ep) (Z.of_nat HEADER_LEN) in
      let header := with_ack_id header id in
      (Some (encode_packet header []), set_ack ep {|
        highest_recv := highest_recv a; expected_recv := expected_recv a;
        last_ack_sent_at := Some now; packets_since_ack := 0;
        need_init_ack := need_init_ack a |})
  end.

Definition build_retransmit_request (ep : ReliableEndpoint) : bytes :=
  let header :=
    PacketHeader_new RETRANSMIT_REQUEST (rel_session_id ep) (Z.of_nat HEADER_LEN) in
  let header := with_retransmit_request header (expected_recv (ack ep)) in
  encode_packet header [].

(** ** [poll_outbound], phase by phase *)

(** A clone of a sent packet with the [IS_RETRANSMIT] flag set. *)
Definition mark_retransmit (b : bytes) : bytes :=
  match b with
  | b0 :: b1 :: rest =>
      let flags_len := from_be_bytes b0 b1 in
      let fl := Z.lor (Z.shiftr flags_len 11) (bits IS_RETRANSMIT) in
      let len := Z.land flags_len LENGTH_MASK in
      to_be_bytes (Z.lor (as_u16 (Z.shiftl fl 11)) len) ++ rest
  | _ => b
  end.

Definition restamp (now : Instant) (e : InFlightEntry) : InFlightEntry :=
  {| entry_id := entry_id e; entry_bytes := entry_bytes e; sent_at := now |}.

Definition retransmit_phase (now : Instant) (ep : ReliableEndpoint)
  : list bytes * ReliableEndpoint :=
  match in_flight ep with
  | oldest :: _ =>
      if retransmit_after (config ep) <=? duration_since now (sent_at oldest) then
        ((λ e, mark_retransmit (entry_bytes e)) <$> in_flight ep,
         set_in_flight ep (restamp now <$> in_flight ep))
      else ([], ep)
  | [] => ([], ep)
  end.

(** One reliable packet: the next id, the [ACK_REQUEST] flag, a window entry. *)
Definition send_packet (now : Instant) (payload : bytes) (ep : ReliableEndpoint)
  : bytes * ReliableEndpoint :=
  let id := next_send_id ep in
  let ep := set_next_send_id ep (next_packet_id id) in
  let header := PacketHeader_new ACK_REQUEST (rel_session_id ep)
    (as_u16 (Z.of_nat (HEADER_LEN + length payload))) in
  let header := with_packet_id header id in
  let b := encode_packet header payload in
  (b, set_in_flight ep
        (in_flight ep ++ [{| entry_id := id; entry_bytes := b; sent_at := now |}])).

(** The [while] loop; [queue] is what is left of [outbound]. *)
Fixpoint send_loop (now : Instant) (queue : list bytes) (ep : ReliableEndpoint)
  : list bytes * ReliableEndpoint :=
  if (length (in_flight ep) <? max_in_flight (config ep))%nat then
    match queue with
    | [] => ([], set_outbound ep [])
    | payload :: queue =>
        let '(b, ep) := send_packet now payload ep in
        let '(out, ep) := send_loop now queue ep in
        (b :: out, ep)
    end
  else ([], set_outbound ep queue).

Definition send_phase (now : Instant) (ep : ReliableEndpoint)
  : list bytes * ReliableEndpoint := send_loop now (outbound ep) ep.

Definition ack_phase (t_check t_build : Instant) (ep : ReliableEndpoint)
  : list bytes * ReliableEndpoint :=
  if should_send_ack t_check ep then
    match build_ack_packet t_build ep with
    | (Some b, ep) => ([b], ep)
    | (None, ep) => ([], ep)
    end
  else ([], ep).

Definition ping_phase (now : Instant) (ep : ReliableEndpoint)
  : list bytes * ReliableEndpoint :=
  if rel_opened ep && bool_decide (in_flight ep = []) && bool_decide (outbound ep = [])
     && (ping_interval (config ep) <=? duration_since now (last_ping_at ep)) then
    let '(b, ep) := send_packet now [] ep in
    ([b], set_last_ping_at ep now)
  else ([], ep).

(** [t_check] and [t_build] are the clock readings inside [should_send_ack] and
    [build_ack_packet]. *)
Definition poll_outbound (now t_check t_build : Instant) (ep : ReliableEndpoint)
  : list bytes * ReliableEndpoint :=
  let '(retransmits, ep) := retransmit_phase now ep in
  let '(packets, ep) := send_phase now ep in
  let '(acks, ep) := ack_phase t_check t_build ep in
  let '(pings, ep) := ping_phase now ep in
  (retransmits ++ packets ++ acks ++ pings, ep).

(** ** Evaluation on the unit tests of [reliable.rs] *)

Example packet_id_wraps_at_15_bits : next_packet_id (MAX_PACKET_ID - 1) = 0.
Proof. reflexivity. Qed.

Example ack_covering_window :
  is_ack_covering 10 10 = true ∧ is_ack_covering 20 10 = true ∧ is_ack_covering 10 20 = false.
Proof. done. Qed.

Example packs_commands_under_mtu :
  (1 < length (outbound (queue_commands_packed
    (replicate 20 (replicate 100 Byte.x00))
    (ReliableEndpoint_new 0 0x8001 ReliableConfig_default))))%nat.
Proof. vm_compute. lia. Qed.

(** ** Packet ids *)

Definition is_packet_id (id : Z) : Prop := 0 ≤ id < 32768.

Lemma next_packet_id_value id : is_packet_id id → next_packet_id id = (id + 1) mod 32768.
Proof.
  unfold is_packet_id, next_packet_id. intros. rewrite as_u16_small by (unfold is_u16; lia).
  done.
Qed.

Lemma next_packet_id_range id : is_packet_id (next_packet_id id).
Proof. unfold is_packet_id, next_packet_id. change MAX_PACKET_ID with 32768. lia. Qed.

Lemma is_packet_id_u16 id : is_packet_id id → is_u16 id.
Proof. unfold is_packet_id, is_u16. lia. Qed.
#[export] Hint Resolve next_packet_id_range is_packet_id_u16 : atem.

(** An acknowledgement covers the 256 ids that end at it, modulo the 15-bit space.
    (The comment in the source calls this a window of plus or minus 256: it only
    reaches backwards from the acknowledged id.) *)
Lemma is_ack_covering_spec a id :
  is_u16 a → is_packet_id id →
  is_ack_covering a id = true ↔ (a - id) mod 32768 < 256.
Proof.
  unfold is_u16, is_packet_id, is_ack_covering. change MAX_PACKET_ID with 32768. intros.
  destruct (Z.eqb_spec a id); [subst; split; [lia|done]|].
  rewrite Z.ltb_lt, Z.rem_mod_nonneg by lia. lia.
Qed.

(** The ids of a window of [n] packets that ends just before [next]. *)
Definition window_ids (next : Z) (n : nat) : list Z :=
  (λ i, (next - Z.of_nat n + Z.of_nat i) mod 32768) <$> seq 0 n.

#[global] Arguments window_ids : simpl never.

Lemma length_window_ids next n : length (window_ids next n) = n.
Proof. unfold window_ids. by rewrite length_fmap, length_seq. Qed.

Lemma window_ids_snoc next n :
  is_packet_id next →
  window_ids next n ++ [next] = window_ids (next_packet_id next) (S n).
Proof.
  intros Hn. unfold window_ids. rewrite seq_S, fmap_app, next_packet_id_value by done.
  f_equal.
  - apply list_fmap_ext. intros i x _. unfold is_packet_id in *. lia.
  - cbn. f_equal. unfold is_packet_id in *. lia.
Qed.

Lemma window_ids_cons next n :
  window_ids next (S n) = (next - Z.of_nat (S n)) mod 32768 :: window_ids next n.
Proof.
  unfold window_ids. rewrite <- cons_seq, fmap_cons. f_equal; [f_equal; lia|].
  rewrite <- fmap_S_seq, <- list_fmap_compose. apply list_fmap_ext. intros i x _.
  cbn [compose]. f_equal. lia.
Qed.

Lemma drop_window_ids next k n : drop k (window_ids next n) = window_ids next (n - k).
Proof.
  revert n. induction k as [|k IH]; intros [|n]; try done.
  rewrite window_ids_cons. cbn [drop]. by rewrite IH.
Qed.

(** ** The endpoint invariant *)

(** A window entry is a reliable packet that carries the entry's id. *)
Definition entry_ok (e : InFlightEntry) : Prop :=
  is_packet_id (entry_id e) ∧
  ∃ session len payload, is_u16 session ∧ is_u16 len ∧
    entry_bytes e = encode_packet
      (with_packet_id (PacketHeader_new ACK_REQUEST session len) (entry_id e)) payload.

Record ep_ok (ep : ReliableEndpoint) : Prop := {
  ep_ok_session : is_u16 (rel_session_id ep);
  ep_ok_next : is_packet_id (next_send_id ep);
  ep_ok_expected : is_packet_id (expected_recv (ack ep));
  ep_ok_highest : ∀ id, highest_recv (ack ep) = Some id → is_u16 id;
  ep_ok_counter : is_u16 (packets_since_ack (ack ep));
  (** The window holds consecutive ids that end just before [next_send_id]. *)
  ep_ok_ids : entry_id <$> in_flight ep =
    window_ids (next_send_id ep) (length (in_flight ep));
  ep_ok_entries : Forall entry_ok (in_flight ep);
  ep_ok_bound : (length (in_flight ep) ≤ Nat.max 1 (max_in_flight (config ep)))%nat;
}.

Lemma ep_ok_new now session cfg : is_u16 session → ep_ok (ReliableEndpoint_new now session cfg).
Proof. intros. split; cbn; unfold is_packet_id, is_u16; (done || lia || constructor). Qed.

Lemma ep_ok_set_outbound ep q : ep_ok ep → ep_ok (set_outbound ep q).
Proof. intros []. by split. Qed.

Lemma ep_ok_note_recv now ep : ep_ok ep → ep_ok (note_recv now ep).
Proof. intros []. by split. Qed.

Lemma ep_ok_set_last_ping_at ep t : ep_ok ep → ep_ok (set_last_ping_at ep t).
Proof. intros []. by split. Qed.

Lemma ep_ok_set_rel_opened ep b : ep_ok ep → ep_ok (set_rel_opened ep b).
Proof. intros []. by split. Qed.

Lemma ep_ok_set_session_id ep s : is_u16 s → ep_ok ep → ep_ok (set_session_id ep s).
Proof. intros ? []. by split. Qed.

(** Setting the counters before anything is in flight, as both handshakes do. *)
Lemma ep_ok_set_next_send_id ep id :
  in_flight ep = [] → is_packet_id id → ep_ok ep → ep_ok (set_next_send_id ep id).
Proof. intros Hq ? []. split; cbn; try done. by rewrite Hq. Qed.

Lemma ep_ok_set_ack ep a :
  is_packet_id (expected_recv a) → (∀ id, highest_recv a = Some id → is_u16 id) →
  is_u16 (packets_since_ack a) → ep_ok ep → ep_ok (set_ack ep a).
Proof. intros ??? []. by split. Qed.

Lemma ep_ok_queue_payload p ep : ep_ok ep → ep_ok (queue_payload p ep).
Proof. apply ep_ok_set_outbound. Qed.

Lemma ep_ok_queue_commands_packed cmds ep : ep_ok ep → ep_ok (queue_commands_packed cmds ep).
Proof. apply ep_ok_set_outbound. Qed.

Lemma drop_acked_drop id q : ∃ k, drop_acked id q = drop k q ∧ (k ≤ length q)%nat.
Proof.
  induction q as [|e q (k & IH & Hk)]; [by exists 0%nat|]. cbn.
  destruct (is_ack_covering id (entry_id e)); [exists (S k)|exists 0%nat];
    (split; [done|cbn; lia]).
Qed.

Lemma ep_ok_on_ack_id id ep : ep_ok ep → ep_ok (on_ack_id id ep).
Proof.
  intros []. destruct (drop_acked_drop id (in_flight ep)) as (k & Hk & Hl).
  split; cbn; try done; rewrite Hk.
  - by rewrite fmap_drop, ep_ok_ids0, drop_window_ids, length_drop.
  - by apply Forall_drop.
  - rewrite length_drop. lia.
Qed.

Lemma ep_ok_accept_reliable id r ep : is_u16 id → ep_ok ep → ep_ok (accept_reliable id r ep).2.
Proof.
  intros Hid Hep. unfold accept_reliable. destruct (Z.eqb_spec id (expected_recv (ack ep))).
  - pose proof (ep_ok_counter ep Hep). apply ep_ok_set_ack; cbn; auto with atem.
    + by intros ? [= <-].
    + unfold u16_saturating_add, is_u16 in *. lia.
  - by case_match.
Qed.

Lemma ep_ok_build_ack_packet t ep : ep_ok ep → ep_ok (build_ack_packet t ep).2.
Proof.
  intros Hep. unfold build_ack_packet. case_match; [|done].
  apply ep_ok_set_ack; cbn; [apply Hep| |unfold is_u16; lia|done].
  intros ? [= <-]. by eapply ep_ok_highest.
Qed.

Lemma restamp_ids now (q : list InFlightEntry) : entry_id <$> (restamp now <$> q) = entry_id <$> q.
Proof. by rewrite <- list_fmap_compose. Qed.

Lemma ep_ok_retransmit_phase now ep : ep_ok ep → ep_ok (retransmit_phase now ep).2.
Proof.
  intros Hep. unfold retransmit_phase. destruct (in_flight ep) eqn:E; [done|].
  case_match; [|done]. rewrite <- E.
  destruct Hep. split; try done; cbn [snd in_flight set_in_flight next_send_id config].
  - by rewrite restamp_ids, length_fmap.
  - rewrite Forall_fmap. done.
  - by rewrite length_fmap.
Qed.

Lemma ep_ok_send_packet now p ep :
  (length (in_flight ep) < Nat.max 1 (max_in_flight (config ep)))%nat →
  ep_ok ep → ep_ok (send_packet now p ep).2.
Proof.
  intros Hl []. split; cbn; try done; auto with atem.
  - rewrite fmap_app, length_app, ep_ok_ids0. cbn [fmap list_fmap length entry_id].
    rewrite window_ids_snoc by done. by rewrite Nat.add_1_r.
  - apply Forall_app. split; [done|]. apply Forall_singleton. split; [done|].
    eexists _, _, p. split_and!; [| |reflexivity]; auto with atem.
  - rewrite length_app. cbn. lia.
Qed.

Lemma ep_ok_send_loop now queue ep : ep_ok ep → ep_ok (send_loop now queue ep).2.
Proof.
  revert ep. induction queue as [|p queue IH]; intros ep Hep; cbn [send_loop];
    (destruct (Nat.ltb_spec (length (in_flight ep)) (max_in_flight (config ep)));
      [|by apply ep_ok_set_outbound]).
  - by apply ep_ok_set_outbound.
  - pose proof (ep_ok_send_packet now p ep ltac:(lia) Hep) as Hs.
    destruct (send_packet now p ep) as [b ep']. cbn in Hs. specialize (IH ep' Hs).
    by destruct (send_loop now queue ep').
Qed.

Lemma ep_ok_ack_phase t1 t2 ep : ep_ok ep → ep_ok (ack_phase t1 t2 ep).2.
Proof.
  intros Hep. unfold ack_phase. case_match; [|done].
  pose proof (ep_ok_build_ack_packet t2 ep Hep) as Hb.
  by destruct (build_ack_packet t2 ep) as [[] ?].
Qed.

Lemma ep_ok_ping_phase now ep : ep_ok ep → ep_ok (ping_phase now ep).2.
Proof.
  intros Hep. unfold ping_phase. case_match eqn:Hc; [|done]. bool_to_prop.
  pose proof (ep_ok_send_packet now [] ep) as Hs.
  destruct (send_packet now [] ep) as [b ep']. cbn in *.
  apply ep_ok_set_last_ping_at, Hs; [|done].
  match goal with H : in_flight ep = [] |- _ => rewrite H end. cbn. lia.
Qed.

Lemma ep_ok_poll_outbound now t1 t2 ep : ep_ok ep → ep_ok (poll_outbound now t1 t2 ep).2.
Proof.
  intros Hep. unfold poll_outbound, send_phase.
  apply (ep_ok_retransmit_phase now) in Hep. destruct (retransmit_phase now ep) as [o1 ep1].
  apply (ep_ok_send_loop now (outbound ep1)) in Hep.
  cbn [snd] in Hep. destruct (send_loop now (outbound ep1) ep1) as [o2 ep2].
  apply (ep_ok_ack_phase t1 t2) in Hep. cbn [snd] in Hep. destruct (ack_phase t1 t2 ep2) as [o3 ep3].
  apply (ep_ok_ping_phase now) in Hep. cbn [snd] in Hep. by destruct (ping_phase now ep3).
Qed.

#[export] Hint Resolve ep_ok_new ep_ok_note_recv ep_ok_set_last_ping_at ep_ok_set_rel_opened
  ep_ok_set_session_id ep_ok_queue_payload ep_ok_queue_commands_packed ep_ok_on_ack_id
  ep_ok_accept_reliable ep_ok_build_ack_packet ep_ok_poll_outbound : atem.

(** ** Transitions of an endpoint

    Everything the upstream task and the server do to an endpoint they own. *)
Inductive ep_step : ReliableEndpoint → ReliableEndpoint → Prop :=
  | ep_step_recv now ep : ep_step ep (note_recv now ep)
  | ep_step_session s ep : is_u16 s → ep_step ep (set_session_id ep s)
  | ep_step_open b ep : ep_step ep (set_rel_opened ep b)
  | ep_step_queue p ep : ep_step ep (queue_payload p ep)
  | ep_step_queue_packed cmds ep : ep_step ep (queue_commands_packed cmds ep)
  | ep_step_ack id ep : is_u16 id → ep_step ep (on_ack_id id ep)
  | ep_step_accept id r ep : is_u16 id → ep_step ep (accept_reliable id r ep).2
  | ep_step_build_ack t ep : ep_step ep (build_ack_packet t ep).2
  | ep_step_poll now t1 t2 ep : ep_step ep (poll_outbound now t1 t2 ep).2.

Lemma ep_step_ok ep ep' : ep_step ep ep' → ep_ok ep → ep_ok ep'.
Proof. intros []; eauto with atem. Qed.

Lemma rtc_ep_ok ep ep' : rtc ep_step ep ep' → ep_ok ep → ep_ok ep'.
Proof. induction 1; eauto using ep_step_ok. Qed.

(** ** Acknowledgements *)

Lemma drop_acked_window q next id :
  entry_id <$> q = window_ids next (length q) → is_u16 id →
  let d := (id - (next - Z.of_nat (length q))) mod 32768 in
  drop_acked id q = drop (if d <? 256 then Z.to_nat (d + 1) else 0) q.
Proof.
  intros Hq Hid. induction q as [|e q IH]; [cbv zeta; by rewrite drop_nil|].
  cbn [length] in *. rewrite fmap_cons, window_ids_cons in Hq.
  injection Hq as He Hq. specialize (IH Hq). cbv zeta in *. cbn [drop_acked].
  destruct (is_ack_covering id (entry_id e)) eqn:Hc.
  - apply is_ack_covering_spec in Hc; [|done|unfold is_packet_id; lia]. rewrite IH, He in *.
    set (d := (id - (next - Z.of_nat (S (length q)))) mod 32768).
    assert (d < 256) as Hd by (unfold d; lia).
    destruct (Z.ltb_spec d 256); [|lia].
    destruct (Z.eq_dec d 0) as [E|E].
    + destruct (Z.ltb_spec ((id - (next - Z.of_nat (length q))) mod 32768) 256);
        [unfold d in E; lia|]. by rewrite E.
    + assert ((id - (next - Z.of_nat (length q))) mod 32768 = d - 1) as -> by (unfold d in *; lia).
      destruct (Z.ltb_spec (d - 1) 256); [|lia].
      replace (Z.to_nat (d + 1)) with (S (Z.to_nat (d - 1 + 1))) by (unfold d in *; lia). done.
  - assert (¬ (id - entry_id e) mod 32768 < 256) as Hn.
    { rewrite <- is_ack_covering_spec; [congruence|done|unfold is_packet_id; lia]. }
    rewrite He in Hn. destruct (Z.ltb_spec ((id - (next - Z.of_nat (S (length q)))) mod 32768) 256);
      [lia|done].
Qed.

Lemma ep_ok_lookup ep k e :
  ep_ok ep → in_flight ep !! k = Some e →
  entry_id e = (next_send_id ep - Z.of_nat (length (in_flight ep)) + Z.of_nat k) mod 32768.
Proof.
  intros Hep He. pose proof (f_equal (.!! k) (ep_ok_ids ep Hep)) as H.
  rewrite list_lookup_fmap, He in H. cbn in H. unfold window_ids in H.
  rewrite list_lookup_fmap, lookup_seq_lt in H by (by eapply lookup_lt_Some). cbn in H. congruence.
Qed.

(** Acknowledging the packet at position [k] of the window removes exactly the
    packets up to it, and an acknowledgement of any of the 32512 ids before the
    window (one that was already processed) removes nothing. *)
Lemma on_ack_id_cumulative ep :
  ep_ok ep → in_flight ep ≠ [] →
  (∀ k e, in_flight ep !! k = Some e → (k < 256)%nat →
    in_flight (on_ack_id (entry_id e) ep) = drop (S k) (in_flight ep)) ∧
  (∀ j, 1 ≤ j ≤ 32512 →
    in_flight (on_ack_id
      ((next_send_id ep - Z.of_nat (length (in_flight ep)) - j) mod 32768) ep) = in_flight ep).
Proof.
  intros Hep Hne. pose proof (ep_ok_next ep Hep) as Hn. unfold is_packet_id in Hn. split.
  - intros k e He Hk. rewrite (ep_ok_lookup _ _ _ Hep He). cbn [in_flight on_ack_id set_in_flight].
    rewrite (drop_acked_window _ (next_send_id ep)) by first [exact (ep_ok_ids ep Hep)|unfold is_u16; lia].
    cbv zeta. set (n := length (in_flight ep)).
    replace (((next_send_id ep - Z.of_nat n + Z.of_nat k) mod 32768 -
      (next_send_id ep - Z.of_nat n)) mod 32768) with (Z.of_nat k) by lia.
    destruct (Z.ltb_spec (Z.of_nat k) 256); [|lia]. f_equal. lia.
  - intros j Hj. cbn [in_flight on_ack_id set_in_flight].
    rewrite (drop_acked_window _ (next_send_id ep)) by first [exact (ep_ok_ids ep Hep)|unfold is_u16; lia].
    cbv zeta. set (n := length (in_flight ep)).
    destruct (Z.ltb_spec (((next_send_id ep - Z.of_nat n - j) mod 32768 -
      (next_send_id ep - Z.of_nat n)) mod 32768) 256); [lia|done].
Qed.

(** ** In-order delivery *)

(** What a sequence of arriving reliable packets delivers. *)
Fixpoint accept_all (arrivals : list (Z * bool)) (ep : ReliableEndpoint)
  : list Z * ReliableEndpoint :=
  match arrivals with
  | [] => ([], ep)
  | (id, r) :: arrivals =>
      let '(ok, ep) := accept_reliable id r ep in
      let '(ids, ep) := accept_all arrivals ep in
      (if ok then id :: ids else ids, ep)
  end.

Definition ids_from (start : Z) (n : nat) : list Z :=
  (λ i, (start + Z.of_nat i) mod 32768) <$> seq 0 n.

Lemma ids_from_cons start n :
  is_packet_id start → ids_from start (S n) = start :: ids_from (next_packet_id start) n.
Proof.
  intros Hs. unfold ids_from. rewrite next_packet_id_value by done.
  rewrite <- cons_seq, fmap_cons. f_equal; [unfold is_packet_id in *; lia|].
  rewrite <- fmap_S_seq, <- list_fmap_compose. apply list_fmap_ext. intros i x _.
  unfold is_packet_id in *. cbn [compose]. lia.
Qed.

(** Whatever arrives (duplicates, gaps, reordered or out-of-range ids, with or
    without the retransmit flag), the accepted packets are exactly the run of
    consecutive ids that starts at the expected one, in order and without
    repetition, and the packet that is expected next is always accepted. *)
Lemma accept_in_order arrivals ep ids ep' :
  ep_ok ep → Forall (λ '(id, _), is_u16 id) arrivals →
  accept_all arrivals ep = (ids, ep') →
  ids = ids_from (expected_recv (ack ep)) (length ids) ∧
  expected_recv (ack ep') = (expected_recv (ack ep) + Z.of_nat (length ids)) mod 32768 ∧
  ids `sublist_of` arrivals.*1 ∧
  (∀ r, (accept_reliable (expected_recv (ack ep')) r ep').1 = true).
Proof.
  revert ep ids. induction arrivals as [|[id r] arrivals IH]; intros ep ids Hep Ha H; cbn in H.
  { simplify_eq. pose proof (ep_ok_expected ep' Hep) as He. unfold is_packet_id in He.
    split_and!; [done|cbn; lia|constructor|]. intros r. unfold accept_reliable.
    by rewrite Z.eqb_refl. }
  apply Forall_cons in Ha as [Hid Ha].
  pose proof (ep_ok_accept_reliable id r ep Hid Hep) as Hep1.
  destruct (accept_reliable id r ep) as [ok ep1] eqn:E1. cbn [snd] in Hep1.
  destruct (accept_all arrivals ep1) as [ids1 ep2] eqn:E2. simplify_eq.
  destruct (IH ep1 ids1 Hep1 Ha E2) as (Hi & He & Hs & Hl). cbn [fmap list_fmap fst].
  pose proof (ep_ok_expected ep Hep) as Hx.
  unfold accept_reliable in E1. destruct (Z.eqb_spec id (expected_recv (ack ep))) as [Heq|Hne].
  - injection E1 as <- <-. cbn [ack set_ack expected_recv] in Hi, He. subst id.
    cbn [length]. split_and!; [|rewrite He, next_packet_id_value by done; lia|by constructor|done].
    rewrite ids_from_cons by done. by rewrite <- Hi.
  - assert (ok = false ∧ ep1 = ep) as [-> ->] by (destruct (r && _); by simplify_eq).
    split_and!; [done|done|by constructor|done].
Qed.

(** ** Packing commands into payloads *)

(** A payload is a run of consecutive commands that fits one packet of
    [MAX_PACKET_LEN] bytes, or one command that is too long on its own. *)
Definition packed_group (g : list bytes) : Prop :=
  g ≠ [] ∧
  ((HEADER_LEN + length (concat g) ≤ MAX_PACKET_LEN)%nat ∨
   ∃ c, g = [c] ∧ (MAX_PACKET_LEN < HEADER_LEN + length c)%nat).

Lemma pack_commands_groups cmds cur :
  Forall (λ c, c ≠ []) cmds → Forall (λ c, c ≠ []) cur →
  (HEADER_LEN + length (concat cur) ≤ MAX_PACKET_LEN)%nat →
  ∃ groups : list (list bytes), pack_commands (concat cur) cmds = concat (A:=byte) <$> groups ∧
    concat groups = cur ++ cmds ∧ Forall packed_group groups.
Proof.
  intros Hcmds. revert cur. induction Hcmds as [|c cmds Hc Hcmds IH]; intros cur Hcur Hlen.
  - destruct cur as [|d cur]; [by exists []|].
    apply Forall_cons in Hcur as [Hd Hcur]. exists [d :: cur]. cbn [pack_commands].
    destruct (concat (d :: cur)) eqn:E; [by destruct d|]. rewrite <- E in *.
    split_and!; [by cbn|by rewrite !app_nil_r; cbn; rewrite app_nil_r|].
    apply Forall_singleton. split; [done|]. by left.
  - cbn [pack_commands]. set (full := _ && _).
    assert (∃ (flushed : list (list bytes)) (cur' : list bytes), (if full then [concat cur] else []) = concat (A:=byte) <$> flushed ∧
      (if full then [] else concat cur) = concat cur' ∧ concat flushed ++ cur' = cur ∧
      Forall packed_group flushed ∧ Forall (λ c, c ≠ []) cur' ∧
      ((MAX_PACKET_LEN < HEADER_LEN + length c)%nat → cur' = []) ∧
      ((HEADER_LEN + length c ≤ MAX_PACKET_LEN)%nat →
        (HEADER_LEN + length (concat (cur' ++ [c])) ≤ MAX_PACKET_LEN)%nat))
      as (flushed & cur' & -> & -> & Hcat & Hfl & Hcur' & Hbig & Hfit).
    { destruct full eqn:Ef; subst full.
      - bool_to_prop. exists [cur], []. split_and!; try done; [by cbn; rewrite !app_nil_r| |].
        + apply Forall_singleton. split; [|by left]. intros ->. done.
        + intros ?. cbn. rewrite app_nil_r. lia.
      - exists [], cur. split_and!; try done.
        + intros Hb. apply andb_false_iff in Ef as [Ef|Ef]; bool_to_prop; [lia|].
          destruct cur as [|d cur]; [done|]. apply Forall_cons in Hcur as [Hd _].
          by destruct d.
        + intros Hb. rewrite concat_app, length_app. cbn [concat]. rewrite app_nil_r.
          apply andb_false_iff in Ef as [Ef|Ef]; bool_to_prop; [lia|].
          rewrite Ef. cbn [length]. lia. }
    destruct (Nat.ltb_spec MAX_PACKET_LEN (HEADER_LEN + length c)) as [Hb|Hb].
    + rewrite (Hbig Hb) in *. cbn [concat] in *. rewrite app_nil_r in Hcat. subst cur.
      destruct (IH [] ltac:(done)) as (groups & Hg & Hgc & Hgp);
        [cbn; unfold HEADER_LEN, MAX_PACKET_LEN; lia|]. cbn [concat] in Hg. rewrite Hg.
      exists (flushed ++ [c] :: groups). split_and!.
      * rewrite fmap_app, fmap_cons. cbn [concat app]. by rewrite app_nil_r.
      * rewrite concat_app. cbn [concat app]. by rewrite Hgc.
      * apply Forall_app. split; [done|]. constructor; [|done]. split; [done|]. right. by exists c.
    + specialize (Hfit Hb). rewrite concat_app in Hfit. cbn [concat] in Hfit. rewrite app_nil_r in Hfit.
      destruct (IH (cur' ++ [c])) as (groups & Hg & Hgc & Hgp).
      * apply Forall_app. split; [done|]. by constructor.
      * rewrite concat_app. cbn [concat]. by rewrite app_nil_r.
      * rewrite concat_app in Hg. cbn [concat] in Hg. rewrite app_nil_r in Hg. rewrite Hg.
        exists (flushed ++ groups). split_and!; [by rewrite fmap_app| |by apply Forall_app].
        rewrite concat_app, Hgc, <- Hcat, <- !app_assoc. done.
Qed.

(** Packing keeps every command whole and in order: the payloads are consecutive
    groups of the commands, each within the 1400-byte packet limit unless it is a
    single command that exceeds it alone. *)
Lemma queue_commands_packed_groups cmds ep :
  Forall (λ c, c ≠ []) cmds →
  ∃ groups : list (list bytes), outbound (queue_commands_packed cmds ep) = outbound ep ++ (concat (A:=byte) <$> groups) ∧
    concat groups = cmds ∧ Forall packed_group groups.
Proof.
  intros H. destruct (pack_commands_groups cmds [] H) as (groups & Hg & Hc & Hp);
    [done|cbn; unfold HEADER_LEN, MAX_PACKET_LEN; lia|].
  exists groups. cbn in *. by rewrite Hg.
Qed.

(** ** The stream of an endpoint *)

(** The payload bytes of a window entry. *)
Definition entry_payload (e : InFlightEntry) : bytes := drop HEADER_LEN (entry_bytes e).

(** What is still to be delivered: the unacknowledged payloads, then the queue. *)
Definition stream (ep : ReliableEndpoint) : list bytes :=
  (entry_payload <$> in_flight ep) ++ outbound ep.

Definition fits (p : bytes) : Prop := (length p ≤ MAX_PAYLOAD)%nat.

Lemma send_packet_payload now p ep :
  fits p → stream (send_packet now p ep).2 = (entry_payload <$> in_flight ep) ++ p :: outbound ep.
Proof.
  intros Hp. unfold stream, send_packet; cbn -[fmap list_fmap encode_packet].
  rewrite fmap_app, <- app_assoc. do 2 f_equal.
  cbn -[encode_packet]. f_equal. unfold entry_payload; cbn [entry_bytes].
  rewrite encode_packet_fits by done. by apply drop_app_length'.
Qed.

Lemma stream_set_outbound ep q :
  stream (set_outbound ep q) = (entry_payload <$> in_flight ep) ++ q.
Proof. done. Qed.

(** One iteration moves the front of the queue to the back of the window. *)
Lemma send_loop_stream now queue ep :
  Forall fits queue →
  stream (send_loop now queue ep).2 = (entry_payload <$> in_flight ep) ++ queue.
Proof.
  intros Hq. revert ep. induction Hq as [|p queue Hp Hq IH]; intros ep; cbn [send_loop];
    (case_match; [|done]); [done|].
  pose proof (send_packet_payload now p (set_outbound ep queue) Hp) as Hs.
  pose proof (IH (send_packet now p ep).2) as Hi.
  unfold send_packet in *. cbn [fst snd] in *.
  destruct (send_loop now queue _) as [out ep']. cbn [snd] in *. rewrite Hi.
  unfold stream in Hs. cbn [in_flight outbound set_in_flight set_next_send_id set_outbound] in Hs.
  cbn [in_flight set_in_flight]. done.
Qed.

Lemma retransmit_phase_stream now ep :
  stream (retransmit_phase now ep).2 = stream ep ∧
  outbound (retransmit_phase now ep).2 = outbound ep ∧
  (entry_payload <$> in_flight (retransmit_phase now ep).2) = entry_payload <$> in_flight ep.
Proof.
  unfold retransmit_phase. destruct (in_flight ep) as [|e q] eqn:E; cbn [snd]; [by rewrite E|].
  case_match; cbn [snd]; [|by rewrite E].
  rewrite <- E. unfold stream; cbn [in_flight outbound set_in_flight].
  by rewrite <- list_fmap_compose.
Qed.

Lemma ack_phase_frame t1 t2 ep :
  in_flight (ack_phase t1 t2 ep).2 = in_flight ep ∧
  outbound (ack_phase t1 t2 ep).2 = outbound ep ∧
  config (ack_phase t1 t2 ep).2 = config ep ∧
  next_send_id (ack_phase t1 t2 ep).2 = next_send_id ep ∧
  rel_session_id (ack_phase t1 t2 ep).2 = rel_session_id ep.
Proof. unfold ack_phase, build_ack_packet. repeat case_match; simplify_eq; done. Qed.

Lemma ping_phase_stream now ep :
  ((ping_phase now ep).1 = [] ∧ (ping_phase now ep).2 = ep) ∨
  (stream ep = [] ∧ rel_opened ep = true ∧ length (ping_phase now ep).1 = 1%nat ∧
   stream (ping_phase now ep).2 = [[]]).
Proof.
  unfold ping_phase. case_match eqn:Hc; [|by left]. right. bool_to_prop.
  assert (stream ep = []) as Hs.
  { unfold stream. by match goal with H : in_flight ep = [], H' : outbound ep = [] |- _ =>
      rewrite H, H' end. }
  pose proof (send_packet_payload now [] ep) as Hp.
  split_and!; [done|done|done|]. unfold stream in *.
  apply app_eq_nil in Hs as [Hs1 Hs2].
  destruct (send_packet now [] ep) as [b ep'] eqn:E. cbn [snd] in *.
  change (in_flight (set_last_ping_at ep' now)) with (in_flight ep').
  change (outbound (set_last_ping_at ep' now)) with (outbound ep').
  rewrite Hp by (unfold fits; cbn; lia). by rewrite Hs1, Hs2.
Qed.

Lemma send_loop_opened now queue ep : rel_opened (send_loop now queue ep).2 = rel_opened ep.
Proof.
  revert ep. induction queue as [|p queue IH]; intros ep; cbn [send_loop]; (case_match; [|done]);
    [done|].
  specialize (IH (send_packet now p ep).2). destruct (send_packet now p ep) as [b ep'] eqn:E.
  cbn [snd] in IH. destruct (send_loop now queue ep'). cbn [snd] in *. rewrite IH.
  by injection E as _ <-.
Qed.

(** Polling never loses, reorders or changes what is to be delivered; it adds at
    most one empty ping, and only to an open endpoint with nothing to deliver. *)
Lemma poll_outbound_stream now t1 t2 ep :
  Forall fits (outbound ep) →
  stream (poll_outbound now t1 t2 ep).2 = stream ep ∨
  (stream ep = [] ∧ rel_opened ep = true ∧ stream (poll_outbound now t1 t2 ep).2 = [[]]).
Proof.
  intros Hq. unfold poll_outbound, send_phase.
  destruct (retransmit_phase_stream now ep) as (Hs1 & Ho1 & He1).
  assert (rel_opened (retransmit_phase now ep).2 = rel_opened ep) as Hop1.
  { unfold retransmit_phase. by repeat case_match. }
  destruct (retransmit_phase now ep) as [o1 ep1]. cbn [snd] in *.
  rewrite <- Ho1 in Hq. pose proof (send_loop_stream now (outbound ep1) ep1 Hq) as Hs2.
  pose proof (send_loop_opened now (outbound ep1) ep1) as Hop2.
  destruct (send_loop now (outbound ep1) ep1) as [o2 ep2]. cbn [snd] in *.
  destruct (ack_phase_frame t1 t2 ep2) as (Hi3 & Ho3 & _).
  assert (rel_opened (ack_phase t1 t2 ep2).2 = rel_opened ep2) as Hop3.
  { unfold ack_phase, build_ack_packet. repeat case_match; simplify_eq; done. }
  destruct (ack_phase t1 t2 ep2) as [o3 ep3]. cbn [snd] in *.
  assert (stream ep3 = stream ep) as Hs3.
  { rewrite <- Hs1. unfold stream at 1. rewrite Hi3, Ho3. exact Hs2. }
  destruct (ping_phase_stream now ep3) as [[Hp1 Hp2]|(Hp1 & Hp2 & _ & Hp3)];
    destruct (ping_phase now ep3) as [o4 ep4]; cbn [fst snd] in *.
  - left. congruence.
  - right. split_and!; congruence.
Qed.

Lemma poll_outbound_opened now t1 t2 ep :
  rel_opened (poll_outbound now t1 t2 ep).2 = rel_opened ep.
Proof.
  unfold poll_outbound, send_phase.
  assert (rel_opened (retransmit_phase now ep).2 = rel_opened ep) as H1
    by (unfold retransmit_phase; by repeat case_match).
  destruct (retransmit_phase now ep) as [o1 ep1]. cbn [snd] in *.
  pose proof (send_loop_opened now (outbound ep1) ep1) as H2.
  destruct (send_loop now (outbound ep1) ep1) as [o2 ep2]. cbn [snd] in *.
  assert (rel_opened (ack_phase t1 t2 ep2).2 = rel_opened ep2) as H3
    by (unfold ack_phase, build_ack_packet; repeat case_match; by simplify_eq).
  destruct (ack_phase t1 t2 ep2) as [o3 ep3]. cbn [snd] in *.
  assert (rel_opened (ping_phase now ep3).2 = rel_opened ep3) as H4
    by (unfold ping_phase; case_match; [|done]; by destruct (send_packet _ _ _) eqn:E; injection E as <- <-).
  destruct (ping_phase now ep3) as [o4 ep4]. cbn [snd] in *. congruence.
Qed.

(** An endpoint that is not open and has nothing to deliver sends no reliable
    packet. *)
Lemma poll_outbound_silent now t1 t2 ep :
  rel_opened ep = false → in_flight ep = [] → outbound ep = [] →
  let ep' := (poll_outbound now t1 t2 ep).2 in
  in_flight ep' = in_flight ep ∧ outbound ep' = outbound ep ∧ next_send_id ep' = next_send_id ep.
Proof.
  intros Ho Hi Hq. unfold poll_outbound, send_phase, retransmit_phase. rewrite Hi.
  rewrite Hq. cbn [send_loop].
  assert (∀ ep1, rel_opened ep1 = false → (ping_phase now (ack_phase t1 t2 ep1).2).2 =
    (ack_phase t1 t2 ep1).2) as Hp.
  { intros ep1 H1. unfold ping_phase.
    replace (rel_opened (ack_phase t1 t2 ep1).2) with false; [done|].
    unfold ack_phase, build_ack_packet. by repeat case_match; simplify_eq. }
  assert (∀ ep1, in_flight (ack_phase t1 t2 ep1).2 = in_flight ep1 ∧
    outbound (ack_phase t1 t2 ep1).2 = outbound ep1 ∧
    next_send_id (ack_phase t1 t2 ep1).2 = next_send_id ep1) as Ha.
  { intros ep1. unfold ack_phase, build_ack_packet. by repeat case_match; simplify_eq. }
  assert ((if (length (in_flight ep) <? max_in_flight (config ep))%nat
           then ([] : list bytes, set_outbound ep []) else ([], set_outbound ep [])) =
          ([], set_outbound ep [])) as Hs by by case_match.
  rewrite Hs. specialize (Hp (set_outbound ep []) Ho). specialize (Ha (set_outbound ep [])).
  destruct (ack_phase t1 t2 (set_outbound ep [])) as [o3 ep3]. cbn [snd] in *.
  destruct (ping_phase now ep3) as [o4 ep4]. cbn [snd] in *. subst ep4.
  destruct Ha as (-> & -> & ->). by cbn.
Qed.

(** The payloads of a stream, the empty ones of its pings left out. *)
Definition nonempty (l : list bytes) : list bytes := filter (λ p, p ≠ []) l.

Lemma nonempty_app l1 l2 : nonempty (l1 ++ l2) = nonempty l1 ++ nonempty l2.
Proof. apply filter_app. Qed.

Lemma nonempty_all l : Forall (λ p, p ≠ []) l → nonempty l = l.
Proof.
  induction 1 as [|p l Hp Hl IH]; [done|]. unfold nonempty in *. rewrite filter_cons_True by done.
  by rewrite IH.
Qed.

(** ** What polling emits *)

(** The packets [send_loop] emits are the new window entries, as many as fit. *)
Lemma send_loop_spec now queue ep :
  let k := Nat.min (max_in_flight (config ep) - length (in_flight ep)) (length queue) in
  ∃ news, length news = k ∧
    (send_loop now queue ep).1 = entry_bytes <$> news ∧
    in_flight (send_loop now queue ep).2 = in_flight ep ++ news ∧
    outbound (send_loop now queue ep).2 = drop k queue ∧
    config (send_loop now queue ep).2 = config ep.
Proof.
  revert ep. induction queue as [|p queue IH]; intros ep; cbn [send_loop].
  - exists []. cbn [length]. rewrite Nat.min_0_r.
    destruct (Nat.ltb_spec (length (in_flight ep)) (max_in_flight (config ep)));
      cbn; by rewrite app_nil_r.
  - destruct (Nat.ltb_spec (length (in_flight ep)) (max_in_flight (config ep))) as [Hl|Hl].
    + specialize (IH (send_packet now p ep).2). unfold send_packet in *. cbn [snd] in IH.
      set (ep1 := set_in_flight _ _) in *. destruct IH as (news & Hn & Ho & Hi & Hout & Hc).
      destruct (send_loop now queue ep1) as [out ep2]. cbn [fst snd] in *.
      assert (config ep1 = config ep) as Hc1 by done.
      set (e := {| entry_id := next_send_id ep;
        entry_bytes := encode_packet (with_packet_id (PacketHeader_new ACK_REQUEST
          (rel_session_id ep) (as_u16 (Z.of_nat (HEADER_LEN + length p)))) (next_send_id ep)) p;
        sent_at := now |}).
      assert (in_flight ep1 = in_flight ep ++ [e]) as Hi1 by done.
      clearbody ep1. rewrite Hi1, Hc1, length_app in *. cbn [length] in *.
      exists (e :: news). split_and!; [cbn [length]; lia|by rewrite fmap_cons, Ho
        |by rewrite Hi, <- app_assoc| |done].
      rewrite Hout. destruct (Nat.min _ (S (length queue))) as [|k] eqn:E; [lia|].
      cbn [drop]. f_equal. lia.
    + exists []. cbn [length]. replace (max_in_flight (config ep) - length (in_flight ep))%nat
        with 0%nat by lia. cbn. by rewrite app_nil_r.
Qed.

(** The acknowledgement of everything sent. *)
Definition ack_all (ep : ReliableEndpoint) : ReliableEndpoint :=
  on_ack_id ((next_send_id ep - 1) mod 32768) ep.

Lemma ack_all_empties ep :
  ep_ok ep → (length (in_flight ep) ≤ 256)%nat → in_flight (ack_all ep) = [].
Proof.
  intros Hep Hl. pose proof (ep_ok_next ep Hep) as Hn. unfold is_packet_id in Hn.
  unfold ack_all; cbn [in_flight on_ack_id set_in_flight].
  destruct (in_flight ep) as [|e q] eqn:E; [done|]. rewrite <- E in *.
  assert (0 < length (in_flight ep))%nat as Hpos by (rewrite E; cbn; lia).
  rewrite (drop_acked_window _ (next_send_id ep))
    by first [exact (ep_ok_ids ep Hep)|unfold is_u16; lia].
  cbv zeta. set (n := length (in_flight ep)) in *.
  replace (((next_send_id ep - 1) mod 32768 - (next_send_id ep - Z.of_nat n)) mod 32768)
    with (Z.of_nat n - 1) by lia.
  destruct (Z.ltb_spec (Z.of_nat n - 1) 256); [|lia]. apply drop_ge. fold n. lia.
Qed.

Lemma poll_outbound_queue now t1 t2 ep :
  outbound (poll_outbound now t1 t2 ep).2 =
    drop (max_in_flight (config ep) - length (in_flight ep)) (outbound ep) ∧
  config (poll_outbound now t1 t2 ep).2 = config ep.
Proof.
  unfold poll_outbound, send_phase.
  assert (outbound (retransmit_phase now ep).2 = outbound ep ∧
    length (in_flight (retransmit_phase now ep).2) = length (in_flight ep) ∧
    config (retransmit_phase now ep).2 = config ep) as (Ho1 & Hl1 & Hc1).
  { unfold retransmit_phase. destruct (in_flight ep) eqn:E; cbn [snd]; [by rewrite E|].
    case_match; cbn [snd]; [|by rewrite E]. rewrite <- E. cbn. by rewrite length_fmap. }
  destruct (retransmit_phase now ep) as [o1 ep1]. cbn [snd] in *.
  destruct (send_loop_spec now (outbound ep1) ep1) as (news & _ & _ & _ & Ho2 & Hc2).
  destruct (send_loop now (outbound ep1) ep1) as [o2 ep2]. cbn [snd] in *.
  destruct (ack_phase_frame t1 t2 ep2) as (_ & Ho3 & Hc3 & _).
  destruct (ack_phase t1 t2 ep2) as [o3 ep3]. cbn [snd] in *.
  assert (outbound (ping_phase now ep3).2 = outbound ep3 ∧
    config (ping_phase now ep3).2 = config ep3) as [Ho4 Hc4].
  { unfold ping_phase. by case_match. }
  destruct (ping_phase now ep3) as [o4 ep4]. cbn [snd] in *.
  split; [|congruence]. rewrite Ho4, Ho3, Ho2, Ho1, Hl1, Hc1.
  destruct (Nat.le_ge_cases (max_in_flight (config ep) - length (in_flight ep)) (length (outbound ep))).
  - by rewrite Nat.min_l.
  - by rewrite Nat.min_r, !drop_ge by lia.
Qed.

(** ** Retransmission *)

Lemma lor_retransmit_range x : 0 ≤ x < 32 → 0 ≤ Z.lor x (bits IS_RETRANSMIT) < 32.
Proof.
  intros Hx.
  assert (Forall (λ x, 0 ≤ Z.lor x (bits IS_RETRANSMIT) < 32) (seqZ 0 32)) as H
    by (apply (bool_decide_unpack _); by vm_compute).
  rewrite Forall_forall in H. apply H, elem_of_seqZ. lia.
Qed.

(** A retransmitted packet decodes to the same header and payload, with the
    [IS_RETRANSMIT] flag added. *)
Lemma mark_retransmit_decodes b h payload :
  decode_packet b = Ok (h, payload) →
  ∃ h', decode_packet (mark_retransmit b) = Ok (h', payload) ∧
    flags h' = flags_union (flags h) IS_RETRANSMIT ∧ length_ h' = length_ h ∧
    session_id h' = session_id h ∧ ack_id h' = ack_id h ∧
    retransmit_request h' = retransmit_request h ∧ unknown h' = unknown h ∧
    packet_id h' = packet_id h.
Proof.
  unfold decode_packet at 1. rewrite bind_Ok. intros (h0 & Hd & Hp).
  unfold PacketHeader_decode in Hd.
  do 12 (destruct b as [|? b]; [done|]). cbn [mark_retransmit].
  set (w := from_be_bytes b0 b1) in *.
  pose proof (from_be_bytes_range b0 b1) as Hw. fold w in Hw. unfold is_u16 in Hw.
  assert (0 ≤ Z.shiftr w 11 < 32) as Hs by (rewrite Z.shiftr_div_pow2; lia).
  set (fl := Z.lor (Z.shiftr w 11) (bits IS_RETRANSMIT)).
  assert (0 ≤ fl < 32) as Hfl by by apply lor_retransmit_range.
  set (w' := Z.lor (as_u16 (Z.shiftl fl 11)) (Z.land w LENGTH_MASK)).
  assert (w' = flags_len_word fl w) as Hw' by done.
  assert (Z.land w' LENGTH_MASK = Z.land w LENGTH_MASK) as Hl.
  { rewrite Hw'. destruct (flags_len_word_split fl w Hfl) as [_ ->].
    change LENGTH_MASK with (2 ^ 11 - 1). by rewrite land_ones_mod. }
  assert (Z.land (Z.shiftr w' 11) PacketFlags_all = fl) as Hf.
  { rewrite Hw'. by destruct (flags_len_word_split fl w Hfl). }
  assert (from_be_bytes (byte_of_Z (w' / 256)) (byte_of_Z w') = w') as Hbe.
  { apply from_to_be_bytes. rewrite Hw'. by apply flags_len_word_range. }
  injection Hd as <-. cbn [length_ flags] in Hp.
  unfold decode_packet, PacketHeader_decode, to_be_bytes.
  cbn -[drop take Z.lor Z.shiftr Z.land]. rewrite Hbe, Hl. unfold from_bits_truncate. rewrite Hf.
  cbn -[drop take Z.lor Z.shiftr Z.land] in Hp. cbv zeta in *.
  destruct (Nat.ltb _ HEADER_LEN); [done|]. destruct (Nat.ltb _ _); [done|].
  injection Hp as <- <-. eexists. split.
  - unfold HEADER_LEN. do 2 f_equal. destruct (Z.to_nat (Z.land w LENGTH_MASK)) as [|[|n]]; done.
  - cbn. split_and!; try done. unfold flags_union; cbn. f_equal.
    change PacketFlags_all with (2 ^ 5 - 1). rewrite land_ones_mod by lia.
    change (2 ^ 5) with 32. rewrite Z.mod_small by lia. done.
Qed.

(** ** Acknowledging what was accepted *)

Lemma send_loop_frame now queue ep :
  ack (send_loop now queue ep).2 = ack ep ∧
  rel_session_id (send_loop now queue ep).2 = rel_session_id ep ∧
  config (send_loop now queue ep).2 = config ep.
Proof.
  revert ep. induction queue as [|p queue IH]; intros ep; cbn [send_loop]; (case_match; [|done]);
    [done|].
  specialize (IH (send_packet now p ep).2). destruct (send_packet now p ep) as [b ep'] eqn:E.
  cbn [snd] in IH. destruct (send_loop now queue ep'). cbn [snd] in *.
  injection E as _ <-. exact IH.
Qed.

Lemma retransmit_phase_frame now ep :
  ack (retransmit_phase now ep).2 = ack ep ∧
  rel_session_id (retransmit_phase now ep).2 = rel_session_id ep ∧
  config (retransmit_phase now ep).2 = config ep.
Proof. unfold retransmit_phase. by repeat case_match. Qed.

Lemma should_send_ack_ext t ep ep' :
  ack ep = ack ep' → config ep = config ep' → should_send_ack t ep = should_send_ack t ep'.
Proof. unfold should_send_ack. by intros -> ->. Qed.

(** The acknowledgement [poll_outbound] emits when one is due. *)
Lemma poll_outbound_acks now t1 t2 ep id :
  should_send_ack t1 ep = true → highest_recv (ack ep) = Some id →
  encode_packet (with_ack_id
    (PacketHeader_new ACK_REPLY (rel_session_id ep) (Z.of_nat HEADER_LEN)) id) []
    ∈ (poll_outbound now t1 t2 ep).1 ∧
  packets_since_ack (ack (poll_outbound now t1 t2 ep).2) = 0.
Proof.
  intros Hs Hid. unfold poll_outbound, send_phase.
  destruct (retransmit_phase_frame now ep) as (Ha1 & Hr1 & Hc1).
  destruct (retransmit_phase now ep) as [o1 ep1]. cbn [snd] in *.
  destruct (send_loop_frame now (outbound ep1) ep1) as (Ha2 & Hr2 & Hc2).
  destruct (send_loop now (outbound ep1) ep1) as [o2 ep2]. cbn [snd] in *.
  rewrite (should_send_ack_ext _ ep ep2) in Hs by congruence.
  unfold ack_phase. rewrite Hs. unfold build_ack_packet.
  assert (highest_recv (ack ep2) = Some id) as -> by congruence.
  assert (rel_session_id ep2 = rel_session_id ep) as -> by congruence.
  set (ep3 := set_ack ep2 _).
  assert (ack (ping_phase now ep3).2 = ack ep3) as Hp by (unfold ping_phase; by case_match).
  destruct (ping_phase now ep3) as [o4 ep4]. cbn [fst snd] in *.
  split; [|by rewrite Hp]. rewrite !elem_of_app. right; right; left.
  by apply list_elem_of_singleton.
Qed.

(** Every accepted packet is acknowledged: once the coalescing delay since the last
    acknowledgement has passed, the next poll emits a packet that decodes to an
    [ACK_REPLY] for the accepted id, and the count of unacknowledged packets
    starts again from zero. *)
Lemma accepted_is_acked id r ep ep1 now t1 t2 :
  ep_ok ep → accept_reliable id r ep = (true, ep1) →
  (∀ t0, last_ack_sent_at (ack ep) = Some t0 →
    ack_coalesce_after (config ep) ≤ duration_since t1 t0) →
  ∃ b h, b ∈ (poll_outbound now t1 t2 ep1).1 ∧ decode_packet b = Ok (h, []) ∧
    flags h = ACK_REPLY ∧ ack_id h = id ∧ session_id h = rel_session_id ep ∧
    packets_since_ack (ack (poll_outbound now t1 t2 ep1).2) = 0.
Proof.
  intros Hep Ha Ht. pose proof (ep_ok_counter ep Hep) as Hc. unfold is_u16 in Hc.
  pose proof (ep_ok_expected ep Hep) as Hx.
  unfold accept_reliable in Ha. destruct (Z.eqb_spec id (expected_recv (ack ep))) as [->|];
    [|destruct (r && _); done]. injection Ha as <-.
  set (ep1 := set_ack ep _).
  assert (should_send_ack t1 ep1 = true) as Hs.
  { unfold should_send_ack. subst ep1. cbn -[Z.leb Z.ltb]. case_match; [done|].
    assert ((0 <? u16_saturating_add (packets_since_ack (ack ep)) 1) = true) as ->
      by (unfold u16_saturating_add; lia).
    destruct (last_ack_sent_at (ack ep)) as [t0|]; [|done]. cbn [andb].
    apply Z.leb_le. by apply Ht. }
  destruct (poll_outbound_acks now t1 t2 ep1 (expected_recv (ack ep)) Hs eq_refl) as [Hin Hz].
  eexists _, _. split; [exact Hin|]. split.
  { rewrite <- (app_nil_r (encode_packet _ _)). apply decode_encode_packet.
    pose proof (ep_ok_session ep Hep).
    split; cbn; unfold flags_ok, is_u16, is_packet_id in *; cbn; unfold HEADER_LEN; (done || lia). }
  done.
Qed.
