(* ===== verification/Stream.v ===== *)
(** * The stream of an endpoint

    What an endpoint of [Reliable] puts on the wire, and the queue that it thereby
    implements: a specification with one labelled operation for each of the
    endpoint's, its state the payloads still to be delivered, how many of them are on
    the wire, and the next id.  [ep_apply_refines_fifo] proves that every operation of
    the endpoint does to its stream what the queue's does, and emits the packets that
    the queue's emits; [drain_terminates] that a queue whose packets are acknowledged
    is sent whole. *)

From S2P Require Export Session Reliable.
Open Scope Z_scope.

(** ** What an endpoint emits *)

(** A window entry is sound when its bytes decode to a reliable packet with the
    entry's id, no acknowledgement, and the entry's payload. *)
Definition entry_decodes (e : InFlightEntry) : Prop :=
  ∃ h, decode_packet (entry_bytes e) = Ok (h, entry_payload e) ∧
    flags h = ACK_REQUEST ∧ ack_id h = 0 ∧ packet_id h = entry_id e.

Lemma restamp_decodes now e : entry_decodes e → entry_decodes (restamp now e).
Proof. done. Qed.

Lemma send_packet_decodes now p ep :
  is_u16 (rel_session_id ep) → is_packet_id (next_send_id ep) → fits p →
  ∃ e, (send_packet now p ep).1 = entry_bytes e ∧
    in_flight (send_packet now p ep).2 = in_flight ep ++ [e] ∧
    entry_decodes e ∧ entry_payload e = p.
Proof.
  intros Hs Hn Hp.
  set (e := {| entry_id := next_send_id ep; entry_bytes := encode_packet
     (with_packet_id (PacketHeader_new ACK_REQUEST (rel_session_id ep)
        (as_u16 (Z.of_nat (HEADER_LEN + length p)))) (next_send_id ep)) p; sent_at := now |}).
  exists e. split; [done|]. split; [done|].
  assert (entry_payload e = p) as E.
  { unfold entry_payload; cbn [entry_bytes e]. rewrite encode_packet_fits by done.
    by apply drop_app_length'. }
  split; [|done]. unfold entry_decodes. rewrite E. cbn [entry_bytes e].
  rewrite decode_built; [by eexists| |done].
  split; cbn; auto with atem; unfold flags_ok, is_u16, is_packet_id in *; cbn; lia.
Qed.

(** The loop moves payloads from the queue into the window. *)
Lemma send_loop_window now queue ep :
  is_u16 (rel_session_id ep) → is_packet_id (next_send_id ep) → Forall fits queue →
  ∃ news, (send_loop now queue ep).1 = entry_bytes <$> news ∧
    in_flight (send_loop now queue ep).2 = in_flight ep ++ news ∧
    Forall entry_decodes news ∧
    (entry_payload <$> news) ++ outbound (send_loop now queue ep).2 = queue ∧
    next_send_id (send_loop now queue ep).2 =
      (next_send_id ep + Z.of_nat (length news)) mod 32768.
Proof.
  intros Hs Hn Hq. revert ep Hs Hn.
  induction Hq as [|p queue Hp Hq IH]; intros ep Hs Hn; cbn [send_loop]; case_match;
    try (exists []; cbn; unfold is_packet_id in Hn; by rewrite app_nil_r, Z.add_0_r, Z.mod_small).
  assert (next_send_id (send_packet now p ep).2 = next_packet_id (next_send_id ep)) as Hnx by done.
  destruct (send_packet_decodes now p ep Hs Hn Hp) as (e & He & Hi & Hd & Hpl).
  specialize (IH (send_packet now p ep).2 Hs (next_packet_id_range _)).
  destruct (send_packet now p ep) as [b ep1]. cbn [fst snd] in *.
  destruct IH as (news & Ho & Hi' & Hd' & Hq' & Hn').
  destruct (send_loop now queue ep1) as [out ep2]. cbn [fst snd] in *. exists (e :: news).
  split_and!; [by rewrite He, Ho|by rewrite Hi', Hi, <- app_assoc|by constructor| |].
  - cbn [fmap list_fmap app]. by rewrite Hpl, Hq'.
  - rewrite Hn', Hnx, next_packet_id_value by done. cbn [length]. lia.
Qed.

(** The acknowledgement of [id]. *)
Definition ack_packet (session id : Z) : bytes :=
  encode_packet (with_ack_id (PacketHeader_new ACK_REPLY session (Z.of_nat HEADER_LEN)) id) [].

Lemma ack_phase_emits t1 t2 ep :
  let '(out, ep') := ack_phase t1 t2 ep in
  expected_recv (ack ep') = expected_recv (ack ep) ∧
  highest_recv (ack ep') = highest_recv (ack ep) ∧
  ((out = [] ∧ packets_since_ack (ack ep') = packets_since_ack (ack ep)) ∨
   should_send_ack t1 ep = true ∧ packets_since_ack (ack ep') = 0 ∧
   ∃ id, highest_recv (ack ep) = Some id ∧ out = [ack_packet (rel_session_id ep) id]).
Proof.
  unfold ack_phase, build_ack_packet. destruct (should_send_ack t1 ep); [|by auto].
  destruct (highest_recv (ack ep)) as [id|] eqn:E; [|by rewrite E; auto].
  split_and!; [done..|]. right. eauto.
Qed.

Lemma retransmit_phase_window now ep :
  let '(out, ep') := retransmit_phase now ep in
  length (in_flight ep') = length (in_flight ep) ∧
  (entry_payload <$> in_flight ep') = entry_payload <$> in_flight ep ∧
  (Forall entry_decodes (in_flight ep) → Forall entry_decodes (in_flight ep')) ∧
  Forall (λ b, ∃ e, e ∈ in_flight ep' ∧ b = mark_retransmit (entry_bytes e)) out ∧
  outbound ep' = outbound ep ∧ ack ep' = ack ep ∧ config ep' = config ep ∧
  rel_session_id ep' = rel_session_id ep ∧ next_send_id ep' = next_send_id ep.
Proof.
  unfold retransmit_phase. destruct (in_flight ep) as [|o q] eqn:E; [by rewrite E|].
  destruct (retransmit_after (config ep) <=? duration_since now (sent_at o)); [|by rewrite E].
  rewrite <- E. cbn [in_flight set_in_flight].
  rewrite length_fmap, <- list_fmap_compose, !Forall_fmap. split_and!; try done.
  rewrite Forall_forall. intros e He. exists (restamp now e). split; [|done].
  by apply list_elem_of_fmap_2.
Qed.


(** ** The operations, labelled *)

(** Everything the upstream task and the server do to an endpoint after its
    handshake. *)
Inductive ep_op : Type :=
  | OpRecv (now : Instant)
  | OpSession (s : Z)
  | OpOpened (b : bool)
  | OpQueue (p : bytes)
  | OpQueuePacked (cmds : list bytes)
  | OpAckId (id : Z)
  | OpAccept (id : Z) (is_retransmit : bool)
  | OpBuildAck (t : Instant)
  | OpBuildRequest
  | OpPoll (now t_check t_build : Instant).

(** The packets that an operation gives its caller to send, and the endpoint. *)
Definition ep_apply (op : ep_op) (ep : ReliableEndpoint) : list bytes * ReliableEndpoint :=
  match op with
  | OpRecv now => ([], note_recv now ep)
  | OpSession s => ([], set_session_id ep s)
  | OpOpened b => ([], set_rel_opened ep b)
  | OpQueue p => ([], queue_payload p ep)
  | OpQueuePacked cmds => ([], queue_commands_packed cmds ep)
  | OpAckId id => ([], on_ack_id id ep)
  | OpAccept id r => ([], (accept_reliable id r ep).2)
  | OpBuildAck t => let '(b, ep) := build_ack_packet t ep in (option_list b, ep)
  | OpBuildRequest => ([build_retransmit_request ep], ep)
  | OpPoll now t1 t2 => poll_outbound now t1 t2 ep
  end.

(** Ids are u16, and payloads fit a packet. *)
Definition op_ok (op : ep_op) : Prop :=
  match op with
  | OpSession s => is_u16 s
  | OpQueue p => fits p
  | OpQueuePacked cmds => Forall fits cmds
  | OpAckId id | OpAccept id _ => is_u16 id
  | _ => True
  end.

(** What the peer reads in the reliable packets among some datagrams: whether it is a
    retransmission, the id, the payload. *)
Definition reliable_send (b : bytes) : option (bool * Z * bytes) :=
  match decode_packet b with
  | Ok (h, payload) =>
      if contains (flags h) ACK_REQUEST
      then Some (contains (flags h) IS_RETRANSMIT, packet_id h, payload) else None
  | Err _ => None
  end.
Definition reliable_sends (out : list bytes) : list (bool * Z * bytes) := omap reliable_send out.

(** ** The queue *)

Record Fifo : Type := {
  f_items : list bytes;
  (** How many of them, from the front, have been sent. *)
  f_sent : nat;
  f_next : Z;
}.

Definition fifo_of (ep : ReliableEndpoint) : Fifo :=
  {| f_items := stream ep; f_sent := length (in_flight ep); f_next := next_send_id ep |}.

Definition f_push (ps : list bytes) (f : Fifo) : Fifo :=
  {| f_items := f_items f ++ ps; f_sent := f_sent f; f_next := f_next f |}.

(** How many packets the acknowledgement of [id] covers: if [id] is among the 256 ids
    from that of the first packet sent, those up to it. *)
Definition f_acked (id : Z) (f : Fifo) : nat :=
  let d := (id - (f_next f - Z.of_nat (f_sent f))) mod 32768 in
  if d <? 256 then Nat.min (Z.to_nat (d + 1)) (f_sent f) else 0%nat.

Definition f_pop (k : nat) (f : Fifo) : Fifo :=
  {| f_items := drop k (f_items f); f_sent := f_sent f - k; f_next := f_next f |}.

Definition numbered (resent : bool) (ids : list Z) (ps : list bytes) : list (bool * Z * bytes) :=
  zip_with (λ id p, (resent, id, p)) ids ps.

(** A poll: everything sent is sent again if [resend]; then as much of the rest is
    sent as the window has room for, with consecutive ids; a queue with nothing to
    send gets an empty ping, if [ping], and sends it. *)
Definition f_poll (window : nat) (resend ping : bool) (f : Fifo) : list (bool * Z * bytes) * Fifo :=
  let again :=
    if resend then numbered true (window_ids (f_next f) (f_sent f)) (take (f_sent f) (f_items f))
    else [] in
  let pinged := ping && bool_decide (f_items f = []) in
  let items := if pinged then [[]] else f_items f in
  let n := if pinged then 1%nat
           else Nat.min (window - f_sent f) (length (f_items f) - f_sent f) in
  (again ++ numbered false (ids_from (f_next f) n) (take n (drop (f_sent f) items)),
   {| f_items := items; f_sent := f_sent f + n; f_next := (f_next f + Z.of_nat n) mod 32768 |}).

Definition f_apply (window : nat) (resend ping : bool) (op : ep_op) (f : Fifo) :
    list (bool * Z * bytes) * Fifo :=
  match op with
  | OpQueue p => ([], f_push [p] f)
  | OpQueuePacked cmds => ([], f_push (pack_commands [] cmds) f)
  | OpAckId id => ([], f_pop (f_acked id f) f)
  | OpPoll _ _ _ => f_poll window resend ping f
  | _ => ([], f)
  end.

(** The timers of a poll: the oldest packet sent is due again; a ping is due. *)
Definition resend_due (now : Instant) (ep : ReliableEndpoint) : bool :=
  match in_flight ep with
  | oldest :: _ => retransmit_after (config ep) <=? duration_since now (sent_at oldest)
  | [] => false
  end.
Definition ping_due (now : Instant) (ep : ReliableEndpoint) : bool :=
  rel_opened ep && (ping_interval (config ep) <=? duration_since now (last_ping_at ep)).

Definition timers (op : ep_op) (ep : ReliableEndpoint) : bool * bool :=
  match op with OpPoll now _ _ => (resend_due now ep, ping_due now ep) | _ => (false, false) end.

(** ** The invariant *)

Record stream_ok (ep : ReliableEndpoint) : Prop := {
  so_ep : ep_ok ep;
  so_fits : Forall fits (outbound ep);
  so_entries : Forall entry_decodes (in_flight ep);
}.

Lemma stream_ok_new now session cfg :
  is_u16 session → stream_ok (ReliableEndpoint_new now session cfg).
Proof. intros. split; [by apply ep_ok_new|constructor|constructor]. Qed.

(** ** Lemmas *)

Lemma reliable_sends_app l1 l2 : reliable_sends (l1 ++ l2) = reliable_sends l1 ++ reliable_sends l2.
Proof. apply omap_app. Qed.

Lemma entries_sent es :
  Forall entry_decodes es →
  reliable_sends (entry_bytes <$> es) = numbered false (entry_id <$> es) (entry_payload <$> es) ∧
  reliable_sends ((λ e, mark_retransmit (entry_bytes e)) <$> es) =
    numbered true (entry_id <$> es) (entry_payload <$> es).
Proof.
  induction 1 as [|e es (h & Hd & Hf & _ & Hp) Hes [IH1 IH2]]; [done|].
  destruct (mark_retransmit_decodes _ _ _ Hd) as (h' & Hd' & Hf' & _ & _ & _ & _ & _ & Hp').
  unfold reliable_sends, numbered in *. cbn [fmap list_fmap omap list_omap zip_with].
  change (list_fmap InFlightEntry bytes ?f es) with (f <$> es).
  split.
  - unfold reliable_send at 1. rewrite Hd, Hf, Hp. cbn -[entry_payload]. by rewrite <- IH1.
  - unfold reliable_send at 1. rewrite Hd', Hf', Hf, Hp', Hp. cbn -[entry_payload]. by rewrite <- IH2.
Qed.

Lemma ack_not_reliable session id :
  is_u16 session → is_u16 id → reliable_sends [ack_packet session id] = [].
Proof.
  intros. cbn. unfold reliable_send, ack_packet.
  rewrite decode_built; [done|solve_header|solve_fits].
Qed.

Lemma request_not_reliable ep : ep_ok ep → reliable_sends [build_retransmit_request ep] = [].
Proof.
  intros Hep. pose proof (ep_ok_session ep Hep). pose proof (ep_ok_expected ep Hep).
  cbn. unfold reliable_send, build_retransmit_request. rewrite decode_built; [done| |solve_fits].
  split; cbn; unfold flags_ok, is_u16, is_packet_id, HEADER_LEN in *; cbn; (done || lia).
Qed.

Lemma ack_phase_sends t1 t2 ep : ep_ok ep → reliable_sends (ack_phase t1 t2 ep).1 = [].
Proof.
  intros Hep. pose proof (ack_phase_emits t1 t2 ep) as H.
  destruct (ack_phase t1 t2 ep) as [out ep']. destruct H as (_ & _ & [[-> _]|(_ & _ & id & Hid & ->)]);
    [done|].
  apply ack_not_reliable; [by apply ep_ok_session|by apply (ep_ok_highest ep Hep)].
Qed.

(** The ids of the packets added to the window. *)
Lemma new_ids ep old news base :
  ep_ok ep → in_flight ep = old ++ news →
  next_send_id ep = (base + Z.of_nat (length news)) mod 32768 →
  entry_id <$> news = ids_from base (length news).
Proof.
  intros Hep Hi Hn. pose proof (f_equal (drop (length old)) (ep_ok_ids ep Hep)) as H.
  rewrite Hi, fmap_app, drop_app_length' in H by by rewrite length_fmap.
  rewrite drop_window_ids, length_app in H. rewrite H.
  replace (length old + length news - length old)%nat with (length news) by lia.
  unfold window_ids, ids_from. apply list_fmap_ext. intros i x _. rewrite Hn. lia.
Qed.

Lemma send_loop_timers now queue ep :
  rel_opened (send_loop now queue ep).2 = rel_opened ep ∧
  last_ping_at (send_loop now queue ep).2 = last_ping_at ep.
Proof.
  split; [apply send_loop_opened|].
  revert ep. induction queue as [|p queue IH]; intros ep; cbn [send_loop]; (case_match; [|done]);
    [done|].
  specialize (IH (send_packet now p ep).2). destruct (send_packet now p ep) as [b ep'] eqn:E.
  cbn [snd] in IH. destruct (send_loop now queue ep'). cbn [snd] in *. rewrite IH.
  by injection E as _ <-.
Qed.

Lemma ack_phase_timers t1 t2 ep :
  rel_opened (ack_phase t1 t2 ep).2 = rel_opened ep ∧
  last_ping_at (ack_phase t1 t2 ep).2 = last_ping_at ep.
Proof. unfold ack_phase, build_ack_packet. repeat case_match; simplify_eq; done. Qed.

Lemma retransmit_phase_sends now ep :
  ep_ok ep → Forall entry_decodes (in_flight ep) →
  let '(out, ep') := retransmit_phase now ep in
  reliable_sends out =
    (if resend_due now ep
     then numbered true (window_ids (next_send_id ep) (length (in_flight ep)))
            (entry_payload <$> in_flight ep) else []) ∧
  rel_opened ep' = rel_opened ep ∧ last_ping_at ep' = last_ping_at ep.
Proof.
  intros Hep Hes. unfold retransmit_phase, resend_due. destruct (in_flight ep) as [|e q] eqn:E; [done|].
  rewrite <- E in *. destruct (_ <=? _); [|done]. split; [|done].
  rewrite (proj2 (entries_sent _ Hes)). by rewrite (ep_ok_ids ep Hep).
Qed.

(** The ping, exactly. *)
Lemma ping_phase_sends now ep :
  is_u16 (rel_session_id ep) → is_packet_id (next_send_id ep) →
  let '(out, ep') := ping_phase now ep in
  ∃ news, out = entry_bytes <$> news ∧ in_flight ep' = in_flight ep ++ news ∧
    Forall entry_decodes news ∧
    entry_payload <$> news = (if ping_due now ep && bool_decide (stream ep = []) then [[]] else []) ∧
    outbound ep' = outbound ep ∧
    next_send_id ep' = (next_send_id ep + Z.of_nat (length news)) mod 32768.
Proof.
  intros Hs Hn. unfold ping_phase, ping_due.
  assert (bool_decide (stream ep = []) =
    bool_decide (in_flight ep = []) && bool_decide (outbound ep = [])) as ->.
  { unfold stream. apply eq_true_iff_eq. rewrite andb_true_iff, !bool_decide_eq_true.
    destruct (in_flight ep), (outbound ep); by split; [|intros []]. }
  destruct (rel_opened ep), (_ <=? _), (bool_decide (in_flight ep = [])),
    (bool_decide (outbound ep = [])); cbn [andb];
    try (exists []; unfold is_packet_id in Hn; cbn; by rewrite app_nil_r, Z.add_0_r, Z.mod_small).
  destruct (send_packet_decodes now [] ep Hs Hn) as (e & He & Hi & Hd & Hp);
    [unfold fits; cbn; lia|].
  destruct (send_packet now [] ep) as [b ep1] eqn:E. cbn [fst snd] in *.
  injection E as _ <-. exists [e]. split_and!; try done; [by rewrite He|by apply Forall_singleton| |].
  - cbn [fmap list_fmap]. by rewrite Hp.
  - by apply next_packet_id_value.
Qed.

(** The loop, with the number of packets it sends. *)
Lemma send_loop_sends now ep :
  ep_ok ep → Forall fits (outbound ep) →
  let '(out, ep') := send_loop now (outbound ep) ep in
  let n := Nat.min (max_in_flight (config ep) - length (in_flight ep)) (length (outbound ep)) in
  ∃ news, out = entry_bytes <$> news ∧ in_flight ep' = in_flight ep ++ news ∧ length news = n ∧
    Forall entry_decodes news ∧ entry_payload <$> news = take n (outbound ep) ∧
    outbound ep' = drop n (outbound ep) ∧
    next_send_id ep' = (next_send_id ep + Z.of_nat n) mod 32768.
Proof.
  intros Hep Hq.
  destruct (send_loop_window now (outbound ep) ep) as (news & Ho & Hi & Hd & Hp & Hn);
    [by apply ep_ok_session|by apply ep_ok_next|done|].
  destruct (send_loop_spec now (outbound ep) ep) as (news' & Hl & _ & Hi' & Hout & _).
  destruct (send_loop now (outbound ep) ep) as [out ep']. cbn [fst snd] in *.
  assert (news' = news) as -> by (apply (app_inv_head (in_flight ep)); congruence).
  set (n := Nat.min _ _) in *. exists news. rewrite Hl in Hn. split_and!; try done.
  rewrite <- (app_inv_tail_iff (outbound ep')), Hp, Hout. by rewrite take_drop.
Qed.

(** The phases of a poll together: [n2] are the packets of the loop, [n4] the ping. *)
Lemma poll_sends now t1 t2 ep :
  stream_ok ep →
  let '(out, ep') := poll_outbound now t1 t2 ep in
  let n := Nat.min (max_in_flight (config ep) - length (in_flight ep)) (length (outbound ep)) in
  ∃ old n2 n4, in_flight ep' = old ++ n2 ++ n4 ∧
    length old = length (in_flight ep) ∧ entry_payload <$> old = entry_payload <$> in_flight ep ∧
    length n2 = n ∧ entry_payload <$> n2 = take n (outbound ep) ∧
    entry_payload <$> n4 = (if ping_due now ep && bool_decide (stream ep = []) then [[]] else []) ∧
    Forall entry_decodes (in_flight ep') ∧ outbound ep' = drop n (outbound ep) ∧
    next_send_id ep' = (next_send_id ep + Z.of_nat (length (n2 ++ n4))) mod 32768 ∧
    reliable_sends out =
      (if resend_due now ep
       then numbered true (window_ids (next_send_id ep) (length (in_flight ep)))
              (entry_payload <$> in_flight ep) else []) ++
      numbered false (entry_id <$> n2 ++ n4) (entry_payload <$> n2 ++ n4).
Proof.
  intros [Hep Hq Hes]. unfold poll_outbound, send_phase.
  pose proof (ep_ok_retransmit_phase now ep Hep) as Hep1.
  pose proof (retransmit_phase_window now ep) as H1.
  pose proof (retransmit_phase_sends now ep Hep Hes) as Ho1.
  destruct (retransmit_phase now ep) as [o1 ep1]. cbn [snd] in Hep1.
  destruct H1 as (Hl1 & Hp1 & Hd1 & _ & Hq1 & Ha1 & Hc1 & Hs1 & Hn1).
  destruct Ho1 as (Ho1 & Hop1 & Hpi1). rewrite <- Hq1 in Hq.
  pose proof (send_loop_sends now ep1 Hep1 Hq) as H2.
  pose proof (ep_ok_send_loop now (outbound ep1) ep1 Hep1) as Hep2.
  pose proof (send_loop_frame now (outbound ep1) ep1) as (_ & _ & Hc2).
  pose proof (send_loop_timers now (outbound ep1) ep1) as [Hop2 Hpi2].
  destruct (send_loop now (outbound ep1) ep1) as [o2 ep2]. cbn [fst snd] in *.
  rewrite Hc1, Hl1, Hq1, Hn1 in H2.
  set (n := Nat.min _ _) in *. destruct H2 as (n2 & -> & Hi2 & Hln & Hd2 & Hp2 & Hq2 & Hn2).
  pose proof (ack_phase_sends t1 t2 ep2 Hep2) as Ho3. pose proof (ack_phase_frame t1 t2 ep2) as H3.
  pose proof (ep_ok_ack_phase t1 t2 ep2 Hep2) as Hep3.
  pose proof (ack_phase_timers t1 t2 ep2) as [Hop3 Hpi3].
  destruct (ack_phase t1 t2 ep2) as [o3 ep3]. cbn [fst snd] in *.
  destruct H3 as (Hi3 & Hq3 & Hc3 & Hn3 & _).
  assert (stream ep3 = stream ep) as Hst.
  { unfold stream. by rewrite Hi3, Hi2, fmap_app, Hp1, Hp2, Hq3, Hq2, <- app_assoc, take_drop. }
  assert (ping_due now ep3 = ping_due now ep) as Hpd by (unfold ping_due; congruence).
  pose proof (ping_phase_sends now ep3 (ep_ok_session _ Hep3) (ep_ok_next _ Hep3)) as H4.
  destruct (ping_phase now ep3) as [o4 ep4]. rewrite Hst, Hpd in H4.
  destruct H4 as (n4 & -> & Hi4 & Hd4 & Hp4 & Hq4 & Hn4).
  assert (in_flight ep4 = in_flight ep1 ++ n2 ++ n4) as Hi by (by rewrite Hi4, Hi3, Hi2, <- app_assoc).
  exists (in_flight ep1), n2, n4. split_and!; try done.
  - rewrite Hi, !Forall_app. auto.
  - congruence.
  - rewrite Hn4, Hn3, Hn2, length_app, Hln. lia.
  - rewrite !reliable_sends_app, Ho1, Ho3, app_nil_l, <- reliable_sends_app, <- fmap_app. f_equal.
    apply entries_sent. by apply Forall_app.
Qed.

Lemma poll_fifo now t1 t2 ep :
  stream_ok ep →
  let '(out, ep') := poll_outbound now t1 t2 ep in
  stream_ok ep' ∧
  f_poll (max_in_flight (config ep)) (resend_due now ep) (ping_due now ep) (fifo_of ep) =
    (reliable_sends out, fifo_of ep').
Proof.
  intros Hok. pose proof (ep_ok_poll_outbound now t1 t2 ep (so_ep _ Hok)) as Hep.
  pose proof (poll_sends now t1 t2 ep Hok) as H. destruct (poll_outbound now t1 t2 ep) as [out ep'].
  cbn [snd] in Hep. destruct H as (old & n2 & n4 & Hi & Hl & Hp & Hl2 & Hp2 & Hp4 & Hd & Hq & Hn & Hs).
  set (n := Nat.min _ _) in *.
  split; [split; [done| |done]; rewrite Hq; by apply Forall_drop, so_fits|].
  rewrite Hs, (new_ids ep' old (n2 ++ n4) (next_send_id ep) Hep Hi Hn), fmap_app, Hp2, Hp4.
  unfold f_poll, fifo_of. cbn [f_items f_sent f_next].
  set (pinged := ping_due now ep && bool_decide (stream ep = [])) in *.
  assert (pinged = true → in_flight ep = [] ∧ outbound ep = []) as Hnil.
  { intros [_ E%bool_decide_eq_true]%andb_true_iff.
    by apply app_eq_nil in E as [E%fmap_nil_inv E']. }
  assert (length (n2 ++ n4) = if pinged then 1%nat else n) as Hlen.
  { rewrite length_app, Hl2. apply (f_equal length) in Hp4. rewrite length_fmap in Hp4. rewrite Hp4.
    destruct pinged; cbn [length]; [|lia].
    destruct (Hnil eq_refl) as [_ E']. unfold n. rewrite E'. cbn [length]. lia. }
  assert (stream ep' = if pinged then [[]] else stream ep) as Hst.
  { unfold stream at 1. rewrite Hi, !fmap_app, Hp, Hp2, Hp4, Hq. destruct pinged.
    - destruct (Hnil eq_refl) as [-> ->]. by rewrite take_nil, drop_nil.
    - unfold stream. by rewrite app_nil_r, <- app_assoc, take_drop. }
  replace (length (stream ep) - length (in_flight ep))%nat with (length (outbound ep))
    by (unfold stream; rewrite length_app, length_fmap; lia).
  rewrite Hst, Hn, Hi, (length_app old), Hl, Hlen. fold n. f_equal. f_equal.
  - unfold stream. by rewrite take_app_length' by by rewrite length_fmap.
  - f_equal. destruct pinged.
    + destruct (Hnil eq_refl) as [-> ->]. by rewrite take_nil.
    + rewrite app_nil_r. unfold stream. by rewrite drop_app_length' by by rewrite length_fmap.
Qed.

Lemma pack_commands_fits cmds cur :
  Forall fits cmds → fits cur → Forall fits (pack_commands cur cmds).
Proof.
  intros Hcmds. revert cur. induction Hcmds as [|c cmds Hc Hcmds IH]; intros cur Hcur.
  - cbn. destruct cur; [done|by apply Forall_singleton].
  - cbn [pack_commands]. set (full := _ && _).
    assert (Forall fits (if full then [cur] else [])) as Hf
      by (destruct full; [by apply Forall_singleton|constructor]).
    assert (fits (if full then [] else cur)) as Hcur' by (destruct full; [unfold fits; cbn; lia|done]).
    destruct (Nat.ltb_spec MAX_PACKET_LEN (HEADER_LEN + length c)) as [Hb|Hb].
    + apply Forall_app. split; [done|]. apply Forall_cons. auto.
    + apply Forall_app. split; [done|]. apply IH. destruct full eqn:E; [done|].
      subst full. apply andb_false_iff in E as [E|E]; bool_to_prop.
      * unfold fits, MAX_PACKET_LEN, MAX_PAYLOAD, LENGTH_MASK, HEADER_LEN in *. rewrite length_app. lia.
      * by rewrite E.
Qed.

Lemma on_ack_id_fifo id ep :
  stream_ok ep → is_u16 id →
  stream_ok (on_ack_id id ep) ∧
  fifo_of (on_ack_id id ep) = f_pop (f_acked id (fifo_of ep)) (fifo_of ep).
Proof.
  intros [Hep Hq Hes] Hid.
  pose proof (drop_acked_window _ (next_send_id ep) id (ep_ok_ids ep Hep) Hid) as Hd. cbv zeta in Hd.
  set (d := (id - (next_send_id ep - Z.of_nat (length (in_flight ep)))) mod 32768) in *.
  assert (drop_acked id (in_flight ep) = drop (f_acked id (fifo_of ep)) (in_flight ep) ∧
    (f_acked id (fifo_of ep) ≤ length (in_flight ep))%nat) as [Hk Hle].
  { rewrite Hd. unfold f_acked, fifo_of. cbn [f_next f_sent]. fold d.
    destruct (d <? 256); [|split; [done|lia]]. split; [|lia].
    destruct (Nat.le_ge_cases (Z.to_nat (d + 1)) (length (in_flight ep))).
    - by rewrite Nat.min_l.
    - by rewrite Nat.min_r, !drop_ge by lia. }
  split.
  - split; [by apply ep_ok_on_ack_id|done|]. cbn. rewrite Hk. by apply Forall_drop.
  - set (k := f_acked id (fifo_of ep)) in *. unfold f_pop, fifo_of, stream.
    cbn [f_items f_sent f_next on_ack_id in_flight outbound set_in_flight next_send_id].
    rewrite Hk, fmap_drop, length_drop. f_equal. unfold stream.
    by rewrite drop_app_le by by rewrite length_fmap.
Qed.

(** C23. An endpoint is a numbered, acknowledged queue.  From any state of a session (the
    endpoint's invariant, its window decodes and what is queued fits a packet; a fresh
    endpoint is such a state, and so is the one after each operation), with u16 ids and
    payloads that fit, every operation has the effect that its label has on the queue
    ([f_apply]).  Queueing appends, in order; an acknowledgement removes the packets it
    covers, from the front and no other; a poll removes nothing, and what the peer
    reads in the datagrams that it emits is everything sent before, marked as
    retransmission, if the oldest is due, then as many new payloads as the window has
    room for, under consecutive ids, or a ping if one is due and nothing is pending.
    No other operation changes the queue or sends a reliable packet. *)
Theorem ep_apply_refines_fifo op ep :
  stream_ok ep → op_ok op →
  let '(out, ep') := ep_apply op ep in
  let '(resend, ping) := timers op ep in
  stream_ok ep' ∧
  f_apply (max_in_flight (config ep)) resend ping op (fifo_of ep) = (reliable_sends out, fifo_of ep').
Proof.
  intros Hok Hop. pose proof Hok as [Hep Hq Hes].
  destruct op as [now|s|b|p|cmds|id|id r|t| |now t1 t2]; cbn [ep_apply op_ok timers f_apply] in *;
    [by split; [split; eauto with atem|]|by split; [split; eauto with atem|]|by split; [split; eauto with atem|]|..].
  - split; [split; [by apply ep_ok_queue_payload| |done]|].
    + apply Forall_app. split; [done|]. by apply Forall_singleton.
    + unfold f_push, fifo_of, stream. cbn. by rewrite app_assoc.
  - split; [split; [by apply ep_ok_queue_commands_packed| |done]|].
    + apply Forall_app. split; [done|]. apply pack_commands_fits; [done|]. unfold fits. cbn. lia.
    + unfold f_push, fifo_of, stream. cbn. by rewrite app_assoc.
  - destruct (on_ack_id_fifo id ep Hok Hop) as [H ->]. done.
  - pose proof (ep_ok_accept_reliable id r ep Hop Hep) as H. unfold accept_reliable in *.
    repeat case_match; by split.
  - pose proof (ep_ok_build_ack_packet t ep Hep) as H. unfold build_ack_packet in *.
    destruct (highest_recv (ack ep)) as [id|] eqn:E; [|by split].
    split; [by split|]. exact (f_equal (λ l, (l, fifo_of ep))
      (eq_sym (ack_not_reliable _ _ (ep_ok_session ep Hep) (ep_ok_highest ep Hep id E)))).
  - split; [done|]. by rewrite request_not_reliable.
  - by apply poll_fifo.
Qed.

(** ** Draining

    The environment of the theorem: the endpoint is polled, and the peer acknowledges
    everything sent.  (In the program the polls are those of the 5 ms ticks.) *)
Definition drain_round (now : Instant) (ep : ReliableEndpoint) : list bytes * ReliableEndpoint :=
  let '(out, ep) := poll_outbound now now now ep in (out, ack_all ep).

Fixpoint drain (n : nat) (now : Instant) (ep : ReliableEndpoint) : list bytes * ReliableEndpoint :=
  match n with
  | O => ([], ep)
  | S n =>
      let '(out, ep) := drain_round now ep in
      let '(out', ep) := drain n now ep in
      (out ++ out', ep)
  end.

(** The packets sent for the first time: their ids and payloads. *)
Definition first_sends (out : list bytes) : list (Z * bytes) :=
  omap (λ '(resent, id, p), if resent : bool then None else Some (id, p)) (reliable_sends out).

Lemma first_sends_app l1 l2 : first_sends (l1 ++ l2) = first_sends l1 ++ first_sends l2.
Proof. unfold first_sends. by rewrite reliable_sends_app, omap_app. Qed.

Lemma omap_numbered resent ids ps :
  omap (λ '(resent, id, p), if resent : bool then None else Some (id, p)) (numbered resent ids ps) =
    if resent then [] else zip ids ps.
Proof.
  revert ps. induction ids as [|id ids IH]; intros ps; [by destruct resent|].
  destruct ps as [|p ps]; [by destruct resent|]. unfold numbered in *. cbn. rewrite IH.
  by destruct resent.
Qed.

Lemma ids_from_app base m n :
  ids_from base (m + n) = ids_from base m ++ ids_from ((base + Z.of_nat m) mod 32768) n.
Proof.
  unfold ids_from. rewrite seq_app, fmap_app. f_equal. rewrite Nat.add_0_l, <- (Nat.add_0_r m) at 1.
  rewrite <- (fmap_add_seq m 0 n), <- list_fmap_compose. apply list_fmap_ext. intros i x _.
  cbn [compose]. lia.
Qed.

(** One round: a window of payloads is sent, and all that was sent is acknowledged. *)
Lemma drain_round_spec now ep :
  stream_ok ep → (1 ≤ max_in_flight (config ep) ≤ 256)%nat →
  let '(out, ep') := drain_round now ep in
  let k := (max_in_flight (config ep) - length (in_flight ep))%nat in
  stream_ok ep' ∧ config ep' = config ep ∧ in_flight ep' = [] ∧ outbound ep' = drop k (outbound ep) ∧
  nonempty (snd <$> first_sends out) = nonempty (take k (outbound ep)) ∧
  fst <$> first_sends out = ids_from (next_send_id ep) (length (first_sends out)) ∧
  next_send_id ep' = (next_send_id ep + Z.of_nat (length (first_sends out))) mod 32768.
Proof.
  intros Hok Hw. unfold drain_round. pose proof (poll_fifo now now now ep Hok) as Hf.
  destruct (poll_outbound_queue now now now ep) as [Hq Hc].
  pose proof (poll_sends now now now ep Hok) as H.
  destruct (poll_outbound now now now ep) as [out ep1]. cbn [snd] in *. destruct Hf as [Hok' _].
  destruct H as (old & n2 & n4 & Hi & Hl & Hp & Hl2 & Hp2 & Hp4 & Hd & Hq' & Hn & Hs).
  set (k := (max_in_flight (config ep) - length (in_flight ep))%nat) in *.
  assert (length (in_flight ep1) ≤ 256)%nat as Hb.
  { pose proof (ep_ok_bound ep1 (so_ep _ Hok')). rewrite Hc in *. lia. }
  pose proof (ack_all_empties ep1 (so_ep _ Hok') Hb) as Hempty.
  pose proof (new_ids ep1 old (n2 ++ n4) (next_send_id ep) (so_ep _ Hok') Hi Hn) as Hids.
  assert (first_sends out = zip (entry_id <$> n2 ++ n4) (entry_payload <$> n2 ++ n4)) as ->.
  { unfold first_sends. rewrite Hs, omap_app, omap_numbered.
    destruct (resend_due now ep); [by rewrite omap_numbered|done]. }
  rewrite snd_zip, fst_zip by by rewrite !length_fmap.
  rewrite length_zip_with_l by by rewrite !length_fmap. rewrite length_fmap.
  split_and!; try done.
  - apply (on_ack_id_fifo _ ep1 Hok'). unfold is_u16. lia.
  - assert (nonempty (entry_payload <$> n4) = []) as Hp4' by (rewrite Hp4; by destruct (_ && _)).
    rewrite fmap_app, nonempty_app, Hp2, Hp4', app_nil_r. f_equal.
    destruct (Nat.le_ge_cases k (length (outbound ep))); [by rewrite Nat.min_l|].
    by rewrite Nat.min_r, !take_ge.
Qed.

Lemma drain_S n now ep :
  drain (S n) now ep =
    let '(out, ep) := drain_round now ep in
    let '(out', ep) := drain n now ep in (out ++ out', ep).
Proof. done. Qed.

Lemma drain_spec now n ep :
  stream_ok ep → (1 ≤ max_in_flight (config ep) ≤ 256)%nat →
  (length (outbound ep) ≤
     (max_in_flight (config ep) - length (in_flight ep)) + n * max_in_flight (config ep))%nat →
  let '(out, ep') := drain (S n) now ep in
  stream ep' = [] ∧ nonempty (snd <$> first_sends out) = nonempty (outbound ep) ∧
  fst <$> first_sends out = ids_from (next_send_id ep) (length (first_sends out)).
Proof.
  revert ep. induction n as [|n IH]; intros ep Hok Hw Hl;
    pose proof (drain_round_spec now ep Hok Hw) as H; rewrite drain_S;
    destruct (drain_round now ep) as [out ep1]; destruct H as (Hok1 & Hc & Hi1 & Ho & Hs & Hids & Hn).
  - cbn [drain]. rewrite app_nil_r. split_and!; [|rewrite Hs|done].
    + unfold stream. rewrite Hi1, Ho, drop_ge by lia. done.
    + by rewrite take_ge by lia.
  - specialize (IH ep1 Hok1). rewrite Hc, Hi1 in IH. specialize (IH Hw).
    destruct (drain (S n) now ep1) as [out' ep2].
    destruct IH as (Hst & Hs' & Hids'); [rewrite Ho, length_drop; cbn [length]; lia|].
    rewrite first_sends_app, !fmap_app, nonempty_app, Hs, Hs', Ho, <- nonempty_app, take_drop, Hids,
      Hids', length_app, ids_from_app, Hn. done.
Qed.

(** C24. Whatever is queued is sent.  From a state of a session whose window size is
    between 1 and 256, if every packet that the polls emit is acknowledged before the
    next poll, then after one round per window of queued payloads, plus the round for
    the window that was open, nothing is pending; and the datagrams emitted in these
    rounds carried, for the first time and in order, exactly the queued payloads
    (empty ones and pings apart), in packets whose ids are consecutive from the
    endpoint's next id. *)
Theorem drain_terminates now n ep :
  stream_ok ep → (1 ≤ max_in_flight (config ep) ≤ 256)%nat →
  (length (outbound ep) ≤ n * max_in_flight (config ep))%nat →
  let '(out, ep') := drain (S n) now ep in
  stream ep' = [] ∧ nonempty (snd <$> first_sends out) = nonempty (outbound ep) ∧
  fst <$> first_sends out = ids_from (next_send_id ep) (length (first_sends out)).
Proof. intros Hok Hw Hl. apply drain_spec; [done|done|lia]. Qed.
