(* ===== verification/IndexMap.v ===== *)
(** * Insertion-ordered maps

    The interface of the [indexmap] crate, as far as the state cache uses it, with
    its documented behaviour as laws: iteration follows the order in which keys were
    first inserted, and replacing the value of a present key keeps its position.
    Clients are proved against the class; an association list implements it. *)

From S2P Require Export Prelude.

Section assoc.
Context {K V : Type} {EqK : EqDecision K}.

(** Lookup in, and replacement in place or insertion at the end of, a list of
    entries: the contents of an index map. *)
Fixpoint assoc_get (k : K) (l : list (K * V)) : option V :=
  match l with
  | [] => None
  | (k', v) :: l => if decide (k = k') then Some v else assoc_get k l
  end.

Fixpoint assoc_put (k : K) (v : V) (l : list (K * V)) : list (K * V) :=
  match l with
  | [] => [(k, v)]
  | (k', v') :: l =>
      if decide (k = k') then (k', v) :: l else (k', v') :: assoc_put k v l
  end.

Lemma assoc_get_None k l : assoc_get k l = None ↔ k ∉ l.*1.
Proof.
  induction l as [|[k' v'] l IH]; cbn.
  { split; [|done]. intros _ H. by apply elem_of_nil in H. }
  rewrite elem_of_cons. case_decide as E.
  - subst. split; [done|]. intros Hn. exfalso. apply Hn. by left.
  - rewrite IH. split; [by intros Hn [?|?]|]. intros Hn Hin. apply Hn. by right.
Qed.

Lemma assoc_get_Some_elem k v l : assoc_get k l = Some v → (k, v) ∈ l.
Proof.
  induction l as [|[k' v'] l IH]; cbn; [done|]. case_decide.
  - intros [= ->]. subst. by left.
  - intros Hg. right. by apply IH.
Qed.

Lemma assoc_get_put k k' v l :
  assoc_get k (assoc_put k' v l) = if decide (k = k') then Some v else assoc_get k l.
Proof. induction l as [|[k1 v1] l IH]; cbn; repeat (case_decide; simplify_eq/=; try done). Qed.

Lemma assoc_put_fresh k v l : k ∉ l.*1 → assoc_put k v l = l ++ [(k, v)].
Proof.
  induction l as [|[k' v'] l IH]; cbn; [done|]. rewrite elem_of_cons. intros Hk.
  case_decide; [exfalso; apply Hk; by left|]. rewrite IH; [done|]. intros ?. apply Hk. by right.
Qed.

Lemma assoc_put_keys k v l :
  (assoc_put k v l).*1 = if decide (k ∈ l.*1) then l.*1 else l.*1 ++ [k].
Proof.
  induction l as [|[k' v'] l IH]; cbn; [done|].
  destruct (decide (k = k')) as [<-|Hne]; cbn.
  - by rewrite decide_True by by left.
  - rewrite IH. destruct (decide (k ∈ l.*1)).
    + by rewrite decide_True by by right.
    + rewrite decide_False; [done|]. rewrite elem_of_cons. by intros [?|?].
Qed.

Lemma assoc_put_NoDup k v l : NoDup l.*1 → NoDup (assoc_put k v l).*1.
Proof.
  rewrite assoc_put_keys. intros. case_decide; [done|].
  apply NoDup_app. split_and!; [done| |apply NoDup_singleton].
  intros x Hx ->%list_elem_of_singleton. done.
Qed.

Lemma assoc_put_Forall (P : K * V → Prop) k v l :
  (∀ k' v', P (k', v') → k' = k → P (k', v)) →
  (k ∉ l.*1 → P (k, v)) → Forall P l → Forall P (assoc_put k v l).
Proof.
  intros Hrep Hnew Hl. induction Hl as [|[k' v'] l Hp Hl IH]; cbn.
  - constructor; [|done]. apply Hnew. cbn. by intros ?%elem_of_nil.
  - case_decide; subst.
    + constructor; [|done]. by eapply Hrep.
    + constructor; [done|]. apply IH. intros Hk. apply Hnew. cbn. rewrite elem_of_cons.
      by intros [?|?].
Qed.

(** Entries with distinct keys are determined by their keys and their lookups. *)
Lemma assoc_ext (l1 l2 : list (K * V)) :
  NoDup l1.*1 → l1.*1 = l2.*1 → (∀ k, assoc_get k l1 = assoc_get k l2) → l1 = l2.
Proof.
  revert l2. induction l1 as [|[k v] l1 IH]; intros [|[k' v'] l2] Hnd Hk Hg; try done.
  cbn in *. injection Hk as <- Hk. apply NoDup_cons in Hnd as [Hn Hnd].
  pose proof (Hg k) as Hv. rewrite !decide_True in Hv by done. simplify_eq. f_equal.
  apply IH; [done|done|]. intros k1. specialize (Hg k1).
  case_decide; [|done]. subst. rewrite (proj2 (assoc_get_None k l1)) by done.
  symmetry. apply assoc_get_None. congruence.
Qed.
End assoc.

Class IndexMap (M K V : Type) `{EqDecision K} := {
  im_entries : M → list (K * V);
  im_new : M;
  im_get : K → M → option V;
  (** [if let Some(slot) = map.get_mut(&k) { *slot = v }] *)
  im_assign : K → V → M → M;
  im_insert : K → V → M → M;
  im_clear : M → M;
  im_values : M → list V;
  im_len : M → nat;
  im_new_entries : im_entries im_new = [];
  im_entries_NoDup m : NoDup (im_entries m).*1;
  im_get_entries k m : im_get k m = assoc_get k (im_entries m);
  im_assign_entries k v m :
    is_Some (im_get k m) → im_entries (im_assign k v m) = assoc_put k v (im_entries m);
  im_insert_entries k v m : im_entries (im_insert k v m) = assoc_put k v (im_entries m);
  im_clear_entries m : im_entries (im_clear m) = [];
  im_values_entries m : im_values m = (im_entries m).*2;
  im_len_entries m : im_len m = length (im_entries m);
}.

(** The association list, with its keys kept distinct by construction. *)
Record assoc_map (K V : Type) `{EqDecision K} : Type := AssocMap {
  am_list : list (K * V);
  am_nodup : bool_decide (NoDup am_list.*1) = true;
}.
Arguments AssocMap {K V _} am_list am_nodup.
Arguments am_list {K V _} _.

Section assoc_map.
Context {K V : Type} {EqK : EqDecision K}.

Lemma am_NoDup (m : assoc_map K V) : NoDup (am_list m).*1.
Proof. destruct m as [l Hl]. cbn. by apply bool_decide_eq_true in Hl. Qed.

Definition am_put (k : K) (v : V) (m : assoc_map K V) : assoc_map K V :=
  AssocMap (assoc_put k v (am_list m))
    (proj2 (bool_decide_eq_true _) (assoc_put_NoDup k v _ (am_NoDup m))).

Definition am_empty : assoc_map K V := AssocMap [] eq_refl.
End assoc_map.

#[export] Instance assoc_map_IndexMap {K V : Type} `{EqDecision K} :
  IndexMap (assoc_map K V) K V := {
  im_entries := am_list;
  im_new := am_empty;
  im_get k m := assoc_get k (am_list m);
  im_assign := am_put;
  im_insert := am_put;
  im_clear _ := am_empty;
  im_values m := (am_list m).*2;
  im_len m := length (am_list m);
  im_new_entries := eq_refl;
  im_entries_NoDup := am_NoDup;
  im_get_entries _ _ := eq_refl;
  im_assign_entries _ _ _ _ := eq_refl;
  im_insert_entries _ _ _ := eq_refl;
  im_clear_entries _ := eq_refl;
  im_values_entries _ := eq_refl;
  im_len_entries _ := eq_refl;
}.

(** Writing a key through either branch of "assign if present, else insert". *)
Definition im_put {M K V : Type} `{IndexMap M K V} (k : K) (v : V) (m : M) : M :=
  match im_get k m with
  | Some _ => im_assign k v m
  | None => im_insert k v m
  end.

Lemma im_put_entries {M K V : Type} `{IndexMap M K V} (k : K) (v : V) (m : M) :
  im_entries (im_put k v m) = assoc_put k v (im_entries m).
Proof.
  unfold im_put. destruct (im_get k m) eqn:E.
  - apply im_assign_entries. by rewrite E.
  - apply im_insert_entries.
Qed.
