(* ===== verification/Cache.v ===== *)
(** * The state cache

    [crates/atem-proxy/src/cache.rs]: the coalescing, ordered cache of the
    switcher's state from which late joiners get their init dump.  [StateCache]
    is [Inner] behind a lock; each method holds the lock for its whole body, so a
    method is a function on [Inner].  The index map is an [IndexMap]. *)

From S2P Require Export Command IndexMap.
Open Scope nat_scope.

Record CacheKey : Type := { key_name : CommandName; key_identity : bytes }.

#[global] Instance CacheKey_eq_dec : EqDecision CacheKey.
Proof. solve_decision. Defined.

Section cache.
Context {M : Type} `{!IndexMap M CacheKey bytes}.

Record Inner : Type := {
  cmap : M;
  version : option (Z * Z);
  product : option str;
  ready : bool;
}.

Definition StateCache_new : Inner :=
  {| cmap := im_new; version := None; product := None; ready := false |}.

Definition StateCache_clear (g : Inner) : Inner :=
  {| cmap := im_clear (cmap g); version := None; product := None; ready := false |}.

Definition StateCache_is_ready (g : Inner) : bool := ready g.

Definition StateCache_set_ready (b : bool) (g : Inner) : Inner :=
  {| cmap := cmap g; version := version g; product := product g; ready := b |}.

Definition StateCache_version (g : Inner) : option (Z * Z) := version g.
Definition StateCache_product (g : Inner) : option str := product g.
Definition StateCache_len (g : Inner) : nat := im_len (cmap g).
Definition StateCache_is_empty (g : Inner) : bool := StateCache_len g =? 0.

(** The body of the loop of [ingest_payload]. *)
Definition ingest_command (g : Inner) (cmd : CommandRef) : Inner :=
  if is_ephemeral_command (name cmd) || is_lock_command (name cmd)
     || is_transfer_command (name cmd) then g
  else if bool_decide (name cmd = INIT_COMPLETE) then StateCache_set_ready true g
  else
    let version' :=
      if bool_decide (name cmd = name4 "_ver") then parse_version (body cmd) else version g in
    let product' :=
      if bool_decide (name cmd = name4 "_pin") then
        match parse_product_name (body cmd) with
        | Some p => Some p
        | None => product g
        end
      else product g in
    let key := {| key_name := name cmd;
                  key_identity := command_identity (name cmd) (body cmd) |} in
    {| cmap := im_put key (raw cmd) (cmap g); version := version'; product := product';
       ready := ready g |}.

Definition ingest_payload (payload : bytes) (g : Inner) : Inner :=
  match parse_commands payload with
  | Err _ => g
  | Ok cmds => foldl ingest_command g cmds
  end.

Definition dump (g : Inner) : list bytes :=
  im_values (cmap g) ++ [synthetic_init_complete].

Definition upsert_raw (raw : bytes) (g : Inner) : Inner :=
  let g := ingest_payload raw g in
  match parse_commands raw with
  | Err _ => g
  | Ok cmds =>
      foldl (λ g cmd,
        if bool_decide (name cmd = INIT_COMPLETE) then StateCache_set_ready true g else g)
        g cmds
  end.
End cache.
Arguments Inner : clear implicits.

Definition framed (n : CommandName) (b : bytes) : bytes := serialize_command n b.

(** ** The abstract cache

    What the cache stands for: the last command of every key, in the order in which
    the keys were first seen.  [state_key] is the key of a command that is state,
    [None] for one that is not. *)
Definition state_key (c : CommandRef) : option CacheKey :=
  if is_ephemeral_command (name c) || is_lock_command (name c) || is_transfer_command (name c)
     || bool_decide (name c = INIT_COMPLETE) then None
  else Some {| key_name := name c; key_identity := command_identity (name c) (body c) |}.

(** The last raw command with key [k] of a history. *)
Fixpoint latest (k : CacheKey) (hist : list CommandRef) : option bytes :=
  match hist with
  | [] => None
  | c :: hist =>
      match latest k hist with
      | Some r => Some r
      | None => if bool_decide (state_key c = Some k) then Some (raw c) else None
      end
  end.

(** The keys of a history, in order of first occurrence. *)
Fixpoint first_seen (seen : list CacheKey) (hist : list CommandRef) : list CacheKey :=
  match hist with
  | [] => []
  | c :: hist =>
      match state_key c with
      | Some k =>
          if decide (k ∈ seen) then first_seen seen hist
          else k :: first_seen (k :: seen) hist
      | None => first_seen seen hist
      end
  end.

Definition coalesce (hist : list CommandRef) : list (CacheKey * bytes) :=
  omap (λ k, pair k <$> latest k hist) (first_seen [] hist).

(** ** The abstract cache: lemmas *)

Lemma latest_app k h1 h2 :
  latest k (h1 ++ h2) = match latest k h2 with Some r => Some r | None => latest k h1 end.
Proof. induction h1 as [|c h1 IH]; cbn; [by destruct (latest k h2)|]. rewrite IH. by destruct (latest k h2). Qed.

Lemma latest_snoc k h c :
  latest k (h ++ [c]) = if bool_decide (state_key c = Some k) then Some (raw c) else latest k h.
Proof. rewrite latest_app. cbn. by case_bool_decide. Qed.

Lemma latest_is_Some k h : is_Some (latest k h) ↔ ∃ c, c ∈ h ∧ state_key c = Some k.
Proof.
  induction h as [|c h IH]; cbn.
  - split; [by intros []|]. by intros (c & ?%elem_of_nil & _).
  - destruct (latest k h) eqn:E.
    + split; [|done]. intros _. destruct (proj1 IH) as (d & Hd & Hk); [done|].
      exists d. split; [by right|done].
    + case_bool_decide as Hc.
      * split; [|done]. intros _. exists c. split; [by left|done].
      * split; [by intros []|]. intros (d & Hd & Hk).
        apply elem_of_cons in Hd as [->|Hd]; [done|]. apply IH. eauto.
Qed.

Lemma elem_of_first_seen k seen h :
  k ∈ first_seen seen h ↔ (k ∉ seen) ∧ ∃ c, c ∈ h ∧ state_key c = Some k.
Proof.
  revert seen. induction h as [|c h IH]; intros seen; cbn.
  { split; [by intros ?%elem_of_nil|]. by intros (_ & c & ?%elem_of_nil & _). }
  destruct (state_key c) as [k'|] eqn:Hc; [case_decide as Hs|].
  - rewrite IH. split; intros [Hk (d & Hd & Hdk)]; (split; [done|]).
    + exists d. split; [by right|done].
    + apply elem_of_cons in Hd as [->|Hd]; [congruence|by eauto].
  - rewrite elem_of_cons, IH, elem_of_cons. split.
    + intros [->|[Hk (d & Hd & Hdk)]]; [split; [done|]; exists c; split; [by left|done]|].
      split; [by intros ?; apply Hk; right|]. exists d. split; [by right|done].
    + intros [Hk (d & Hd & Hdk)]. destruct (decide (k = k')) as [->|]; [by left|right].
      apply elem_of_cons in Hd as [->|Hd]; [congruence|]. split; [by intros [?|?]|by eauto].
  - rewrite IH. split; intros [Hk (d & Hd & Hdk)]; (split; [done|]).
    + exists d. split; [by right|done].
    + apply elem_of_cons in Hd as [->|Hd]; [congruence|by eauto].
Qed.

Lemma first_seen_NoDup seen h : NoDup (first_seen seen h).
Proof.
  revert seen. induction h as [|c h IH]; intros seen; cbn; [by apply NoDup_nil|].
  destruct (state_key c) as [k|]; [case_decide|]; [done| |done].
  apply NoDup_cons. split; [|done]. rewrite elem_of_first_seen. intros [Hk _].
  apply Hk. by left.
Qed.

Lemma first_seen_snoc seen h c :
  first_seen seen (h ++ [c]) =
    match state_key c with
    | Some k => if decide (k ∈ seen ∨ k ∈ first_seen seen h) then first_seen seen h
                else first_seen seen h ++ [k]
    | None => first_seen seen h
    end.
Proof.
  revert seen. induction h as [|d h IH]; intros seen; cbn.
  { destruct (state_key c) as [k|]; [|done].
    destruct (decide (k ∈ seen)) as [Hk|Hk].
    - by rewrite decide_True by by left.
    - rewrite decide_False; [done|]. by intros [?|?%elem_of_nil]. }
  destruct (state_key d) as [kd|]; [case_decide|]; rewrite IH; [done| |done].
  destruct (state_key c) as [k|]; [|done].
  destruct (decide (k ∈ kd :: seen ∨ k ∈ first_seen (kd :: seen) h)) as [Hin|Hin];
    destruct (decide (k ∈ seen ∨ k ∈ kd :: first_seen (kd :: seen) h)) as [Hin'|Hin']; try done;
    exfalso; rewrite !elem_of_cons in *; tauto.
Qed.

Lemma latest_Some_raw k h r :
  latest k h = Some r → ∃ c, c ∈ h ∧ state_key c = Some k ∧ raw c = r.
Proof.
  induction h as [|c h IH]; cbn; [done|]. destruct (latest k h) eqn:E.
  - intros [= ->]. destruct IH as (d & ? & ?); [done|]. exists d. split; [by right|done].
  - case_bool_decide; [|done]. intros [= <-]. exists c. split; [by left|done].
Qed.

Lemma coalesce_keys h : (coalesce h).*1 = first_seen [] h.
Proof.
  unfold coalesce.
  assert (∀ l, Forall (λ k, is_Some (latest k h)) l →
    (omap (λ k, pair k <$> latest k h) l).*1 = l) as Hl.
  { induction 1 as [|k l [r Hr] Hl IH]; cbn; [done|]. rewrite Hr. cbn. by rewrite IH. }
  apply Hl, Forall_forall. intros k Hk. apply elem_of_first_seen in Hk as [_ Hk].
  by apply latest_is_Some.
Qed.

Lemma coalesce_NoDup h : NoDup (coalesce h).*1.
Proof. rewrite coalesce_keys. apply first_seen_NoDup. Qed.

Lemma elem_of_coalesce k r h : (k, r) ∈ coalesce h ↔ latest k h = Some r.
Proof.
  unfold coalesce. rewrite list_elem_of_omap. split.
  - intros (k' & _ & Hk). destruct (latest k' h) eqn:E; [|done]. cbn in Hk. congruence.
  - intros Hr. exists k. rewrite Hr. split; [|done].
    apply elem_of_first_seen. split; [by intros ?%elem_of_nil|]. by apply latest_is_Some; eauto.
Qed.

Lemma assoc_get_coalesce k h : assoc_get k (coalesce h) = latest k h.
Proof.
  destruct (latest k h) as [r|] eqn:E.
  - destruct (assoc_get k (coalesce h)) as [r'|] eqn:E'.
    + apply assoc_get_Some_elem, elem_of_coalesce in E'. congruence.
    + apply assoc_get_None in E'. exfalso. apply E'. apply elem_of_coalesce in E.
      by apply (list_elem_of_fmap_2 fst) in E.
  - apply assoc_get_None. rewrite coalesce_keys, elem_of_first_seen. intros [_ H].
    apply latest_is_Some in H as [? ?]. congruence.
Qed.

(** One more command of history is one write to the entries. *)
Lemma coalesce_snoc h c :
  coalesce (h ++ [c]) =
    match state_key c with
    | Some k => assoc_put k (raw c) (coalesce h)
    | None => coalesce h
    end.
Proof.
  apply assoc_ext; [apply coalesce_NoDup| |].
  - rewrite coalesce_keys, first_seen_snoc. destruct (state_key c) as [k|]; [|by rewrite coalesce_keys].
    rewrite assoc_put_keys, coalesce_keys. apply decide_ext. split; [|by right].
    by intros [?%elem_of_nil|?].
  - intros k. rewrite assoc_get_coalesce, latest_snoc.
    destruct (state_key c) as [k'|] eqn:E.
    + rewrite assoc_get_put, assoc_get_coalesce. case_bool_decide; case_decide; congruence.
    + by rewrite assoc_get_coalesce.
Qed.

(** Replaying the end of a history onto its result changes nothing. *)
Lemma coalesce_replay h1 h2 : coalesce (h1 ++ h2 ++ h2) = coalesce (h1 ++ h2).
Proof.
  apply assoc_ext; [apply coalesce_NoDup| |].
  - rewrite !coalesce_keys.
    assert (∀ l, Forall (λ c, ∀ k, state_key c = Some k → k ∈ first_seen [] (h1 ++ h2)) l →
      first_seen [] ((h1 ++ h2) ++ l) = first_seen [] (h1 ++ h2)) as Hl.
    { induction l as [|c l IH] using rev_ind; [by rewrite app_nil_r|].
      intros [Hl Hc]%Forall_app. pose proof (Forall_inv Hc) as Hc'.
      rewrite app_assoc, first_seen_snoc, IH by done.
      destruct (state_key c) as [k|] eqn:Ek; [|done]. rewrite decide_True; [done|].
      right. by apply Hc'. }
    rewrite app_assoc. apply Hl, Forall_forall. intros c Hc k Hk.
    apply elem_of_first_seen. split; [by intros ?%elem_of_nil|].
    exists c. split; [|done]. rewrite elem_of_app. by right.
  - intros k. rewrite !assoc_get_coalesce, !latest_app. by destruct (latest k h2).
Qed.

(** ** The cache refines its history *)

(** The commands a payload contributes: none when it does not parse. *)
Definition commands_of (payload : bytes) : list CommandRef :=
  match parse_commands payload with Ok cmds => cmds | Err _ => [] end.

Lemma commands_of_frame_ok payload : Forall frame_ok (commands_of payload).
Proof.
  unfold commands_of. destruct (parse_commands payload) as [cs|] eqn:E; [|done].
  by apply parse_commands_Ok in E as [? _].
Qed.

(** What the rest of the program does to the cache. *)
Inductive cache_op : Type :=
  | OpIngest (payload : bytes)
  | OpSetReady (b : bool)
  | OpClear.

(** The commands ingested since the last [clear]. *)
Definition history_step (h : list CommandRef) (op : cache_op) : list CommandRef :=
  match op with
  | OpIngest p => h ++ commands_of p
  | OpSetReady _ => h
  | OpClear => []
  end.
Definition history (ops : list cache_op) : list CommandRef := foldl history_step [] ops.

Lemma history_frame_ok ops : Forall frame_ok (history ops).
Proof.
  unfold history. assert (Forall frame_ok []) as H by constructor. revert H.
  generalize (@nil CommandRef) as h. induction ops as [|op ops IH]; intros h Hh; [done|].
  cbn. apply IH. destruct op; cbn; [|done|constructor].
  apply Forall_app. split; [done|apply commands_of_frame_ok].
Qed.

Section cache_properties.
Context {M : Type} `{!IndexMap M CacheKey bytes}.
Implicit Types g : Inner M.

Definition apply_cache_op (g : Inner M) (op : cache_op) : Inner M :=
  match op with
  | OpIngest p => ingest_payload p g
  | OpSetReady b => StateCache_set_ready b g
  | OpClear => StateCache_clear g
  end.

Lemma ingest_command_entries g h c :
  im_entries (cmap g) = coalesce h →
  im_entries (cmap (ingest_command g c)) = coalesce (h ++ [c]).
Proof.
  intros Hg. rewrite coalesce_snoc. unfold ingest_command, state_key.
  destruct (_ || _ || _); [done|]. cbn [orb]. case_bool_decide; [done|].
  cbn [cmap]. by rewrite im_put_entries, Hg.
Qed.

Lemma ingest_commands_entries g h cs :
  im_entries (cmap g) = coalesce h →
  im_entries (cmap (foldl ingest_command g cs)) = coalesce (h ++ cs).
Proof.
  revert g h. induction cs as [|c cs IH]; intros g h Hg; cbn; [by rewrite app_nil_r|].
  rewrite (IH _ (h ++ [c])) by by apply ingest_command_entries.
  by rewrite <- app_assoc.
Qed.

Lemma ingest_payload_commands p g : ingest_payload p g = foldl ingest_command g (commands_of p).
Proof. unfold ingest_payload, commands_of. by destruct (parse_commands p). Qed.

Lemma ingest_payload_entries g h p :
  im_entries (cmap g) = coalesce h →
  im_entries (cmap (ingest_payload p g)) = coalesce (h ++ commands_of p).
Proof. rewrite ingest_payload_commands. apply ingest_commands_entries. Qed.

(** The value of the cache after any sequence of ingests, clears and readiness
    changes is the coalesced history since the last clear: for every key its
    latest command, in the order in which the keys were first seen. *)
Lemma cache_refines_history ops :
  im_entries (cmap (foldl apply_cache_op StateCache_new ops)) = coalesce (history ops).
Proof.
  unfold history.
  assert (im_entries (cmap (M:=M) StateCache_new) = coalesce []) as Hinit
    by apply im_new_entries.
  revert Hinit. generalize (StateCache_new (M:=M)) as g, (@nil CommandRef) as h.
  induction ops as [|op ops IH]; intros g h Hg; [done|]. cbn. apply IH.
  destruct op as [p|b|]; cbn; [by apply ingest_payload_entries|done|apply im_clear_entries].
Qed.

Lemma dump_entries g : dump g = (im_entries (cmap g)).*2 ++ [synthetic_init_complete].
Proof. unfold dump. by rewrite im_values_entries. Qed.

(** The commands behind the entries of a coalesced history. *)
Lemma coalesce_commands h :
  Forall frame_ok h →
  ∃ cs, Forall frame_ok cs ∧ (coalesce h).*2 = raw <$> cs ∧
    state_key <$> cs = Some <$> first_seen [] h.
Proof.
  intros Hh. rewrite <- coalesce_keys.
  assert (∀ l, Forall (λ '(k, r), latest k h = Some r) l →
    ∃ cs, Forall frame_ok cs ∧ l.*2 = raw <$> cs ∧ state_key <$> cs = Some <$> l.*1) as Hl.
  { induction 1 as [|[k r] l Hr Hl (cs & Hcs & Hraw & Hkey)]; [by exists []|].
    destruct (latest_Some_raw _ _ _ Hr) as (c & Hc & Hk & <-).
    exists (c :: cs). rewrite Forall_forall in Hh. split_and!.
    - constructor; [by apply Hh|done].
    - cbn. by rewrite Hraw.
    - cbn. by rewrite Hk, Hkey. }
  apply Hl, Forall_forall. intros [k r] Hk. by apply elem_of_coalesce.
Qed.

(** C28. A late-join dump is a well-formed command stream: it parses back into one
    command per cached key (distinct keys, every one of them state, none of them
    a historical [InCm], an ephemeral, a lock or a transfer command) followed by
    exactly one synthetic [InCm]. *)
Lemma dump_parses ops :
  let g := foldl apply_cache_op (StateCache_new (M:=M)) ops in
  ∃ cs incm keys,
    parse_commands (concat (dump g)) = Ok (cs ++ [incm]) ∧
    dump g = (raw <$> cs) ++ [synthetic_init_complete] ∧
    name incm = INIT_COMPLETE ∧ raw incm = synthetic_init_complete ∧
    state_key <$> cs = Some <$> keys ∧ NoDup keys.
Proof.
  intros g. pose proof (cache_refines_history ops) as Hg.
  destruct (coalesce_commands (history ops)) as (cs & Hcs & Hraw & Hkey).
  { apply history_frame_ok. }
  destruct synthetic_init_complete_parses as (_ & incm & Hp & Hn & Hr & _).
  apply parse_commands_Ok in Hp as [Hf Hcat].
  assert (dump g = (raw <$> cs) ++ [synthetic_init_complete]) as Hd.
  { rewrite dump_entries. fold g in Hg. by rewrite Hg, Hraw. }
  exists cs, incm, (first_seen [] (history ops)).
  split_and!; try done; [|apply first_seen_NoDup].
  rewrite Hd, <- Hr. change [raw incm] with (raw <$> [incm]). rewrite <- fmap_app.
  apply parse_commands_concat, Forall_app. split; [done|]. exact Hf.
Qed.

(** C29. Ingesting again, in order, the payloads that were ingested last (any number
    of them) leaves every entry as it is. *)
Lemma ingest_replay ops payloads :
  let g := foldl apply_cache_op (StateCache_new (M:=M)) (ops ++ (OpIngest <$> payloads)) in
  im_entries (cmap (foldl apply_cache_op g (OpIngest <$> payloads))) = im_entries (cmap g).
Proof.
  cbv zeta. rewrite <- foldl_app, !cache_refines_history. unfold history.
  rewrite !foldl_app.
  assert (∀ h, foldl history_step h (OpIngest <$> payloads) = h ++ concat (commands_of <$> payloads))
    as Hs.
  { induction payloads as [|p ps IH]; intros h; cbn; [by rewrite app_nil_r|].
    by rewrite IH, <- app_assoc. }
  rewrite !Hs, <- app_assoc. apply coalesce_replay.
Qed.

(** C30. A command outside the indexed families has one entry per name, however its
    body changes, and no identity is longer than four bytes. *)
Lemma cache_keys_bounded ops k1 k2 :
  let keys := (im_entries (cmap (foldl apply_cache_op (StateCache_new (M:=M)) ops))).*1 in
  k1 ∈ keys → k2 ∈ keys →
  length (key_identity k1) ≤ 4 ∧
  (key_name k1 = key_name k2 →
   matches_name (key_name k1) ["PrgI"; "PrvI"; "TrSS"; "TrPs"; "TrPr"; "FtbS"; "FtbP";
     "KeOn"; "KeBP"; "DskB"; "DskS"; "DskP"; "ColV"; "AuxS"; "MPCE"; "MPrp"; "CvlI";
     "InPr"; "InPX"] = false → k1 = k2).
Proof.
  cbv zeta. rewrite cache_refines_history, coalesce_keys, !elem_of_first_seen.
  assert (∀ c k, state_key c = Some k →
    k = {| key_name := name c; key_identity := command_identity (name c) (body c) |}) as Hkey.
  { intros c k. unfold state_key. case_match; [done|]. by intros [= <-]. }
  intros [_ (c1 & _ & ->%Hkey)] [_ (c2 & _ & ->%Hkey)]. cbn [key_name key_identity].
  split.
  - destruct (command_identity_prefix (name c1) (body c1)) as (n & Hn & ->).
    rewrite length_take. lia.
  - intros Heq Hm. rewrite <- Heq. f_equal.
    assert (∀ n b, matches_name n ["PrgI"; "PrvI"; "TrSS"; "TrPs"; "TrPr"; "FtbS"; "FtbP";
      "KeOn"; "KeBP"; "DskB"; "DskS"; "DskP"; "ColV"; "AuxS"; "MPCE"; "MPrp"; "CvlI";
      "InPr"; "InPX"] = false → command_identity n b = []) as H; [|by rewrite !H].
    clear. intros n b Hm. unfold command_identity, matches_name in *.
    cbn [existsb] in *. rewrite !orb_false_iff in Hm. rewrite !orb_false_r in *.
    destruct_and!. repeat match goal with H : bool_decide _ = false |- _ => rewrite H; clear H end.
    cbn [orb]. by case_match.
Qed.

(** [upsert_raw]'s second pass over the payload does nothing [ingest_payload] has
    not already done. *)
Lemma upsert_raw_is_ingest r g : upsert_raw r g = ingest_payload r g.
Proof.
  unfold upsert_raw, ingest_payload. destruct (parse_commands r) as [cs|e]; [|done].
  assert (∀ cs g, ready g = true → ready (foldl ingest_command g cs) = true) as Hmono.
  { clear. induction cs as [|c cs IH]; intros g Hr; [done|]. cbn. apply IH.
    unfold ingest_command. by repeat case_match. }
  assert (∀ c cs g, c ∈ cs → name c = INIT_COMPLETE →
    ready (foldl ingest_command g cs) = true) as Hready.
  { clear -Hmono. intros c cs. induction cs as [|d cs IH]; intros g Hc Hn.
    { by apply elem_of_nil in Hc. }
    apply elem_of_cons in Hc as [<-|Hc]; cbn; [|by apply IH].
    apply Hmono. unfold ingest_command. rewrite Hn. by vm_compute. }
  set (g1 := foldl ingest_command g cs).
  assert (∀ c, c ∈ cs → name c = INIT_COMPLETE → StateCache_set_ready true g1 = g1) as Hs.
  { intros c Hc Hn. pose proof (Hready c cs g Hc Hn) as Hr. fold g1 in Hr.
    unfold StateCache_set_ready. rewrite <- Hr. by destruct g1. }
  clearbody g1. clear Hready. induction cs as [|c cs IH]; cbn; [done|].
  case_bool_decide as Hn.
  - rewrite (Hs c) by (done || by left). apply IH. intros d Hd. apply Hs. by right.
  - apply IH. intros d Hd. apply Hs. by right.
Qed.
End cache_properties.
