(* ===== verification/Addr.v ===== *)
(** * Socket addresses

    [std::net::SocketAddr] as the source uses it: a value that is compared and
    hashed (a client is identified by it) and parsed from configuration text.
    The parser is the recursive-descent parser of the standard library
    ([core::net::parser]): a failed step leaves its input where it was, so a step
    is a function that returns the rest of its input or nothing. *)

From S2P Require Export Str.
Open Scope Z_scope.

(** An IPv4 address is its four octets; an IPv6 one its eight groups. *)
Inductive SocketAddr : Type :=
  | V4 (ip : list Z) (port : Z)
  | V6 (ip : list Z) (port : Z) (scope_id : Z).

#[global] Instance SocketAddr_eq_dec : EqDecision SocketAddr.
Proof. solve_decision. Defined.

#[global] Instance SocketAddr_countable : Countable SocketAddr.
Proof.
  refine (inj_countable
    (λ a, match a with
          | V4 ip port => inl (ip, port)
          | V6 ip port scope_id => inr (ip, port, scope_id)
          end)
    (λ e, match e with
          | inl (ip, port) => Some (V4 ip port)
          | inr (ip, port, scope_id) => Some (V6 ip port scope_id)
          end) _).
  by intros [].
Defined.

Definition addr_port (a : SocketAddr) : Z :=
  match a with V4 _ port => port | V6 _ port _ => port end.

(** ** Parsing *)
Definition to_digit (radix c : Z) : option Z :=
  let d :=
    if between 0x30 0x39 c then c - 0x30
    else if between 0x61 0x7A c then c - 0x61 + 10
    else if between 0x41 0x5A c then c - 0x41 + 10
    else radix in
  if d <? radix then Some d else None.

Definition read_given_char (x : Z) (s : str) : option str :=
  match s with
  | c :: s => if c =? x then Some s else None
  | [] => None
  end.

(** The digits at the head of the input, with the value so far; [None] past
    [bound] (the overflow checks of an unbounded read, whose values only grow). *)
Fixpoint read_digits (radix bound : Z) (acc : Z) (count : nat) (s : str) :
    option (Z * nat * str) :=
  match s with
  | c :: s' =>
      match to_digit radix c with
      | Some d =>
          let acc := acc * radix + d in
          if bound <? acc then None else read_digits radix bound acc (S count) s'
      | None => Some (acc, count, s)
      end
  | [] => Some (acc, count, [])
  end.

(** [read_number]: at most [max_digits] digits when given, at most [bound]; a
    leading zero only where allowed or alone. *)
Definition read_number (radix bound : Z) (max_digits : option nat) (allow_zero_prefix : bool)
    (s : str) : option (Z * str) :=
  let has_leading_zero := match s with c :: _ => c =? 0x30 | [] => false end in
  match read_digits radix bound 0 0 s with
  | None => None
  | Some (n, count, rest) =>
      if match max_digits with Some m => (m <? count)%nat | None => false end then None
      else if (count =? 0)%nat then None
      else if negb allow_zero_prefix && has_leading_zero && (1 <? count)%nat then None
      else Some (n, rest)
  end.

Definition read_u8 : str → option (Z * str) := read_number 10 255 (Some 3%nat) false.
Definition read_group : str → option (Z * str) := read_number 16 0xFFFF (Some 4%nat) true.

(** [read_separator]: the separator before every element but the first. *)
Definition read_separator {A} (sep : Z) (index : nat) (inner : str → option (A * str)) (s : str) :
    option (A * str) :=
  match index with
  | O => inner s
  | S _ => read_given_char sep s ≫= inner
  end.

Definition read_ipv4_addr (s : str) : option (list Z * str) :=
  '(a, s) ← read_separator 0x2E 0 read_u8 s;
  '(b, s) ← read_separator 0x2E 1 read_u8 s;
  '(c, s) ← read_separator 0x2E 2 read_u8 s;
  '(d, s) ← read_separator 0x2E 3 read_u8 s;
  Some ([a; b; c; d], s).

(** [read_groups], from group [i] of [limit]: the groups read, whether the last two
    were an embedded IPv4 address, and the rest of the input.  [fuel] is the number
    of groups left, [limit - i]. *)
Fixpoint read_groups (fuel i limit : nat) (s : str) : list Z * bool * str :=
  match fuel with
  | O => ([], false, s)
  | S fuel =>
      match (if (i <? limit - 1)%nat then read_separator 0x3A i read_ipv4_addr s else None) with
      | Some ([a; b; c; d], s') => ([a * 256 + b; c * 256 + d], true, s')
      | _ =>
          match read_separator 0x3A i read_group s with
          | Some (g, s') =>
              let '(gs, v4, s'') := read_groups fuel (S i) limit s' in (g :: gs, v4, s'')
          | None => ([], false, s)
          end
      end
  end.

Definition read_ipv6_addr (s : str) : option (list Z * str) :=
  let '(head, head_ipv4, s) := read_groups 8 0 8 s in
  if (length head =? 8)%nat then Some (head, s)
  else if head_ipv4 then None
  else
    s ← read_given_char 0x3A s;
    s ← read_given_char 0x3A s;
    let limit := (8 - (length head + 1))%nat in
    let '(tail, _, s) := read_groups limit 0 limit s in
    Some (head ++ replicate (8 - length head - length tail) 0 ++ tail, s).

Definition read_port (s : str) : option (Z * str) :=
  read_given_char 0x3A s ≫= read_number 10 0xFFFF None true.

Definition read_scope_id (s : str) : option (Z * str) :=
  read_given_char 0x25 s ≫= read_number 10 0xFFFFFFFF None true.

Definition read_socket_addr_v4 (s : str) : option (SocketAddr * str) :=
  '(ip, s) ← read_ipv4_addr s;
  '(port, s) ← read_port s;
  Some (V4 ip port, s).

Definition read_socket_addr_v6 (s : str) : option (SocketAddr * str) :=
  s ← read_given_char 0x5B s;
  '(ip, s) ← read_ipv6_addr s;
  let '(scope_id, s) :=
    match read_scope_id s with Some (i, s') => (i, s') | None => (0, s) end in
  s ← read_given_char 0x5D s;
  '(port, s) ← read_port s;
  Some (V6 ip port scope_id, s).

Definition read_socket_addr (s : str) : option (SocketAddr * str) :=
  match read_socket_addr_v4 s with
  | Some r => Some r
  | None => read_socket_addr_v6 s
  end.

(** [SocketAddr::from_str]: the whole input must be consumed. *)
Definition parse_socket_addr (s : str) : option SocketAddr :=
  match read_socket_addr s with
  | Some (a, []) => Some a
  | _ => None
  end.

(** ** Printing

    [Display] of a machine integer, in decimal. *)
Fixpoint show_fuel (fuel : nat) (n : Z) (acc : str) : str :=
  match fuel with
  | O => acc
  | S fuel =>
      let acc := (0x30 + n mod 10) :: acc in
      if n <? 10 then acc else show_fuel fuel (n / 10) acc
  end.
(** Twenty digits are enough for a [u64]. *)
Definition show_int (n : Z) : str := show_fuel 20 n [].

Definition show_ipv4 (a b c d : Z) : str :=
  show_int a ++ chars "." ++ show_int b ++ chars "." ++ show_int c ++ chars "." ++ show_int d.

Example parse_v4 : parse_socket_addr (chars "0.0.0.0:9910") = Some (V4 [0; 0; 0; 0] 9910).
Proof. vm_compute. reflexivity. Qed.
Example parse_v6 : parse_socket_addr (chars "[fe80::1%3]:80") = Some (V6 [0xFE80; 0; 0; 0; 0; 0; 0; 1] 80 3).
Proof. vm_compute. reflexivity. Qed.
Example parse_v6_v4 : parse_socket_addr (chars "[::ffff:1.2.3.4]:80") = Some (V6 [0; 0; 0; 0; 0; 0xFFFF; 0x102; 0x304] 80 0).
Proof. vm_compute. reflexivity. Qed.
Example parse_bare_v6 : parse_socket_addr (chars "::1") = None.
Proof. vm_compute. reflexivity. Qed.
Example parse_zero_prefix : parse_socket_addr (chars "1.02.3.4:80") = None.
Proof. vm_compute. reflexivity. Qed.

(** ** Lemmas *)

Definition is_digit (c : Z) : bool := between 0x30 0x39 c.

Lemma to_digit_10 c : to_digit 10 c = if is_digit c then Some (c - 0x30) else None.
Proof.
  unfold to_digit, is_digit. destruct (between 0x30 0x39 c) eqn:E.
  - apply between_true in E. by rewrite (proj2 (Z.ltb_lt _ _)) by lia.
  - destruct (between 0x61 0x7A c) eqn:E2; [apply between_true in E2|destruct (between 0x41 0x5A c) eqn:E3];
      try (apply between_true in E3); by rewrite (proj2 (Z.ltb_ge _ _)) by lia.
Qed.

Lemma read_digits_digit bound acc count d s :
  0 ≤ d < 10 → acc * 10 + d ≤ bound →
  read_digits 10 bound acc count ((0x30 + d) :: s) = read_digits 10 bound (acc * 10 + d) (S count) s.
Proof.
  intros Hd Hb. cbn [read_digits]. rewrite to_digit_10. unfold is_digit.
  rewrite (proj2 (between_true _ _ _)) by lia. replace (0x30 + d - 0x30) with d by lia.
  by rewrite (proj2 (Z.ltb_ge _ _)) by lia.
Qed.

(** Reading back printed digits: [k] of them, worth [n]. *)
Lemma read_digits_show fuel n bound acc count tl :
  0 ≤ acc → 0 ≤ n < 10 ^ Z.of_nat (S fuel) →
  ∃ k, (0 < k)%nat ∧ (∀ m, (0 < m)%nat → n < 10 ^ Z.of_nat m → (k ≤ m)%nat) ∧
    (acc * 10 ^ Z.of_nat k + n ≤ bound →
     read_digits 10 bound acc count (show_fuel (S fuel) n tl) =
       read_digits 10 bound (acc * 10 ^ Z.of_nat k + n) (count + k) tl).
Proof.
  intros Ha. revert n tl. induction fuel as [|fuel IH]; intros n tl Hn.
  - exists 1%nat. split; [lia|]. split; [lia|]. intros Hb. change (10 ^ Z.of_nat 1) with 10 in *.
    cbn [show_fuel]. rewrite (proj2 (Z.ltb_lt n 10)) by lia. rewrite Z.mod_small by lia.
    rewrite read_digits_digit by lia. f_equal; lia.
  - remember (S fuel) as f. cbn [show_fuel]. destruct (Z.ltb_spec n 10) as [Hlt|Hge].
    + exists 1%nat. split; [lia|]. split; [lia|]. intros Hb. change (10 ^ Z.of_nat 1) with 10 in *.
      rewrite Z.mod_small by lia. rewrite read_digits_digit by lia. f_equal; lia.
    + destruct (IH (n / 10) ((0x30 + n mod 10) :: tl)) as (k & Hk & Hm & Hr).
      { replace (Z.of_nat (S f)) with (1 + Z.of_nat f) in Hn by lia.
        rewrite Z.pow_add_r in Hn by lia. change (10 ^ 1) with 10 in Hn. lia. }
      assert (10 ^ Z.of_nat (S k) = 10 * 10 ^ Z.of_nat k) as Hp.
      { replace (Z.of_nat (S k)) with (1 + Z.of_nat k) by lia. by rewrite Z.pow_add_r by lia. }
      assert (0 < 10 ^ Z.of_nat k) by lia.
      exists (S k). split; [lia|]. split.
      * intros [|[|m]] Hm0 Hnm; [lia|change (10 ^ Z.of_nat 1) with 10 in *; lia|].
        apply le_n_S, Hm; [lia|]. replace (Z.of_nat (S (S m))) with (1 + Z.of_nat (S m)) in Hnm by lia.
        rewrite Z.pow_add_r in Hnm by lia. change (10 ^ 1) with 10 in Hnm. lia.
      * intros Hb. rewrite Hr by nia. rewrite read_digits_digit by nia. f_equal; [nia|lia].
Qed.

Lemma show_fuel_head fuel n tl :
  0 < n < 10 ^ Z.of_nat fuel → ∃ c s, show_fuel fuel n tl = c :: s ∧ 0x30 < c ≤ 0x39.
Proof.
  revert n tl. induction fuel as [|fuel IH]; intros n tl Hn; [lia|]. cbn [show_fuel].
  destruct (Z.ltb_spec n 10) as [Hlt|Hge].
  - rewrite Z.mod_small by lia. eexists _, _. split; [done|lia].
  - apply IH. replace (Z.of_nat (S fuel)) with (1 + Z.of_nat fuel) in Hn by lia.
    rewrite Z.pow_add_r in Hn by lia. change (10 ^ 1) with 10 in Hn. lia.
Qed.

Lemma show_fuel_app fuel n a b : show_fuel fuel n (a ++ b) = show_fuel fuel n a ++ b.
Proof.
  revert n a. induction fuel as [|fuel IH]; intros n a; [done|]. cbn [show_fuel].
  case_match; [done|]. by rewrite app_comm_cons, IH.
Qed.

Lemma show_fuel_chars fuel n acc x :
  0 ≤ n → (x ∉ acc) → is_digit x = false → x ∉ show_fuel fuel n acc.
Proof.
  revert n acc. induction fuel as [|fuel IH]; intros n acc Hn Hx Hd; [done|]. cbn [show_fuel].
  assert (x ∉ (0x30 + n mod 10) :: acc).
  { rewrite not_elem_of_cons. split; [|done]. intros ->. apply between_false in Hd. lia. }
  case_match; [done|]. apply IH; [lia|done|done].
Qed.

(** The text that follows a number does not start with a digit. *)
Definition no_digit (s : str) : Prop :=
  match s with c :: _ => is_digit c = false | [] => True end.

Lemma read_digits_stop bound acc count s :
  no_digit s → read_digits 10 bound acc count s = Some (acc, count, s).
Proof. destruct s as [|c s]; cbn; [done|]. intros Hc. by rewrite to_digit_10, Hc. Qed.

Lemma read_number_show n bound maxd allow tl :
  0 ≤ n ≤ bound → n < 10 ^ 20 →
  match maxd with Some m => (0 < m)%nat ∧ n < 10 ^ Z.of_nat m | None => True end →
  no_digit tl → read_number 10 bound maxd allow (show_int n ++ tl) = Some (n, tl).
Proof.
  intros Hn Hn2 Hm Htl. unfold read_number, show_int.
  change (show_fuel 20 n [] ++ tl) with (show_fuel 20 n [] ++ tl).
  rewrite <- (show_fuel_app 20 n [] tl), app_nil_l.
  destruct (read_digits_show 19 n bound 0 0 tl) as (k & Hk & Hkm & Hr); [lia|lia|].
  rewrite Hr by lia. rewrite read_digits_stop by done.
  replace (0 * 10 ^ Z.of_nat k + n) with n by lia. rewrite Nat.add_0_l.
  assert (match maxd with Some m => (m <? k)%nat | None => false end = false) as ->.
  { destruct maxd as [m|]; [|done]. destruct Hm. apply Nat.ltb_ge. by apply Hkm. }
  rewrite (proj2 (Nat.eqb_neq k 0)) by lia.
  destruct (Z.eq_dec n 0) as [->|Hnz].
  - assert (k ≤ 1)%nat by (apply Hkm; [lia|done]). rewrite (proj2 (Nat.ltb_ge 1 k)) by lia.
    by rewrite andb_false_r.
  - destruct (show_fuel_head 20 n tl) as (c & s & -> & Hc); [lia|].
    by rewrite (proj2 (Z.eqb_neq c 0x30)), andb_false_r by lia.
Qed.

Lemma read_given_char_cons c s : read_given_char c (c :: s) = Some s.
Proof. cbn. by rewrite Z.eqb_refl. Qed.

Lemma read_ipv4_show a b c d tl :
  0 ≤ a ≤ 255 → 0 ≤ b ≤ 255 → 0 ≤ c ≤ 255 → 0 ≤ d ≤ 255 → no_digit tl →
  read_ipv4_addr (show_ipv4 a b c d ++ tl) = Some ([a; b; c; d], tl).
Proof.
  intros Ha Hb Hc Hd Htl. unfold read_ipv4_addr, show_ipv4, read_separator, read_u8.
  rewrite <- !app_assoc. change (chars ".") with [0x2E]. cbn [app].
  rewrite read_number_show by (cbn; lia || done). cbn [mbind option_bind].
  do 3 (rewrite read_given_char_cons; cbn [mbind option_bind];
        rewrite read_number_show by (cbn; lia || done); cbn [mbind option_bind]).
  done.
Qed.

(** The text of an IPv4 socket address parses to that address. *)
Lemma parse_socket_addr_v4 a b c d port :
  0 ≤ a ≤ 255 → 0 ≤ b ≤ 255 → 0 ≤ c ≤ 255 → 0 ≤ d ≤ 255 → is_u16 port →
  parse_socket_addr (show_ipv4 a b c d ++ chars ":" ++ show_int port) = Some (V4 [a; b; c; d] port).
Proof.
  intros Ha Hb Hc Hd Hp. unfold parse_socket_addr, read_socket_addr, read_socket_addr_v4, read_port.
  change (chars ":") with [0x3A]. cbn [app]. unfold is_u16 in Hp.
  rewrite read_ipv4_show by done. cbn [mbind option_bind].
  rewrite read_given_char_cons. cbn [mbind option_bind].
  rewrite <- (app_nil_r (show_int port)).
  by rewrite read_number_show by (done || lia).
Qed.

(** Text that starts with neither a digit nor a bracket names no address. *)
Lemma parse_socket_addr_head c s :
  is_digit c = false → c ≠ 0x5B → parse_socket_addr (c :: s) = None.
Proof.
  intros Hd Hb. unfold parse_socket_addr, read_socket_addr.
  assert (read_socket_addr_v4 (c :: s) = None) as ->.
  { unfold read_socket_addr_v4, read_ipv4_addr, read_separator, read_u8, read_number.
    by rewrite read_digits_stop. }
  unfold read_socket_addr_v6. cbn. by rewrite (proj2 (Z.eqb_neq c 0x5B)).
Qed.
