(* ===== verification/Config.v ===== *)
(** * Configuration

    [crates/atem-proxy/src/config.rs] and [load_cfg] of [main.rs]: the
    configuration record, its defaults, the SoftAtem profile, and the layering of
    file, environment and command line.  The environment, the file system and the
    TOML reader are arguments.  A path is the [str] that names it. *)

From S2P Require Export Packet Addr.
Open Scope nat_scope.

Inductive LockMode : Type := Deny | SingleOwner.

#[global] Instance LockMode_eq_dec : EqDecision LockMode.
Proof. solve_decision. Defined.

Record CompatConfig : Type := { softatem : bool }.
Record LocksConfig : Type := { mode : LockMode }.
Record MediaConfig : Type := {
  enabled : bool;
  cfg_chunk_delay_ms : Z;
  max_upload_mb : Z;
}.
Record DiscoveryConfig : Type := { discovery_mdns : bool }.

Record Config : Type := {
  atem : str;
  bind : SocketAddr;
  mdns : bool;
  client_idle_ms : Z;
  reconnect_ms : Z;
  log : str;
  log_file : option str;
  compat : CompatConfig;
  locks : LocksConfig;
  media : MediaConfig;
  discovery : DiscoveryConfig;
}.

Definition LocksConfig_default : LocksConfig := {| mode := Deny |}.
Definition MediaConfig_default : MediaConfig :=
  {| enabled := false; cfg_chunk_delay_ms := 0; max_upload_mb := 64 |}.

(** [parse().expect("static bind")] of the source does not panic:
    [default_bind_parses]. *)
Definition Config_default : Config := {|
  atem := chars "192.168.1.50";
  bind := default (V4 [] 0) (parse_socket_addr (chars "0.0.0.0:9910"));
  mdns := false;
  client_idle_ms := 5000;
  reconnect_ms := 1000;
  log := chars "info";
  log_file := None;
  compat := {| softatem := false |};
  locks := LocksConfig_default;
  media := MediaConfig_default;
  discovery := {| discovery_mdns := false |};
|}.

(** Assignments [cfg.field = v]. *)
Definition set_atem (v : str) (c : Config) : Config :=
  {| atem := v; bind := bind c; mdns := mdns c; client_idle_ms := client_idle_ms c;
     reconnect_ms := reconnect_ms c; log := log c; log_file := log_file c; compat := compat c;
     locks := locks c; media := media c; discovery := discovery c |}.
Definition set_bind (v : SocketAddr) (c : Config) : Config :=
  {| atem := atem c; bind := v; mdns := mdns c; client_idle_ms := client_idle_ms c;
     reconnect_ms := reconnect_ms c; log := log c; log_file := log_file c; compat := compat c;
     locks := locks c; media := media c; discovery := discovery c |}.
Definition set_mdns (v : bool) (c : Config) : Config :=
  {| atem := atem c; bind := bind c; mdns := v; client_idle_ms := client_idle_ms c;
     reconnect_ms := reconnect_ms c; log := log c; log_file := log_file c; compat := compat c;
     locks := locks c; media := media c; discovery := discovery c |}.
Definition set_log (v : str) (c : Config) : Config :=
  {| atem := atem c; bind := bind c; mdns := mdns c; client_idle_ms := client_idle_ms c;
     reconnect_ms := reconnect_ms c; log := v; log_file := log_file c; compat := compat c;
     locks := locks c; media := media c; discovery := discovery c |}.
Definition set_softatem (v : bool) (c : Config) : Config :=
  {| atem := atem c; bind := bind c; mdns := mdns c; client_idle_ms := client_idle_ms c;
     reconnect_ms := reconnect_ms c; log := log c; log_file := log_file c;
     compat := {| softatem := v |};
     locks := locks c; media := media c; discovery := discovery c |}.
Definition set_discovery_mdns (v : bool) (c : Config) : Config :=
  {| atem := atem c; bind := bind c; mdns := mdns c; client_idle_ms := client_idle_ms c;
     reconnect_ms := reconnect_ms c; log := log c; log_file := log_file c; compat := compat c;
     locks := locks c; media := media c; discovery := {| discovery_mdns := v |} |}.
Definition set_profile (m : LockMode) (e : bool) (c : Config) : Config :=
  {| atem := atem c; bind := bind c; mdns := mdns c; client_idle_ms := client_idle_ms c;
     reconnect_ms := reconnect_ms c; log := log c; log_file := log_file c; compat := compat c;
     locks := {| mode := m |};
     media := {| enabled := e; cfg_chunk_delay_ms := cfg_chunk_delay_ms (media c);
                 max_upload_mb := max_upload_mb (media c) |};
     discovery := discovery c |}.

Definition normalize (c : Config) : Config :=
  let c := if mdns c then set_discovery_mdns true c else c in
  if softatem (compat c) then set_discovery_mdns true (set_profile SingleOwner true c) else c.

Inductive ConfigError : Type :=
  | ReadingConfig (path : str)
  | ParsingConfig (path : str)
  | BadBind (text : str)
  | BadAtem (text : str).

(** [ok_or(e)]. *)
Definition ok_or {A} (e : ConfigError) (o : option A) : Result ConfigError A :=
  match o with Some a => Ok a | None => Err e end.

(** [matches!(v.to_ascii_lowercase().as_str(), ...)] with the three words that
    mean true. *)
Definition env_flag (v : str) : bool :=
  let w := to_ascii_lowercase v in
  bool_decide (w = chars "1") || bool_decide (w = chars "true") || bool_decide (w = chars "yes").

(** [if let Some(v) = o { cfg.field = v }] *)
Definition apply_opt {A} (set : A → Config → Config) (o : option A) (c : Config) : Config :=
  match o with Some v => set v c | None => c end.

Section load.
  Context (env : string → option str).
  Context (path_exists : str → bool) (read_to_string : str → option str).
  Context (toml_from_str : str → option Config).

Definition read_config (path : str) : Result ConfigError Config :=
  if path_exists path then
    text ← ok_or (ReadingConfig path) (read_to_string path);
    ok_or (ParsingConfig path) (toml_from_str text)
  else Ok Config_default.

Definition Config_load (config_path : option str) (atem : option str) (bind : option SocketAddr)
    (mdns : option bool) (log : option str) : Result ConfigError Config :=
  cfg ← match config_path with
        | Some path => read_config path
        | None =>
            match env "ATEM_PROXY_CONFIG" with
            | Some path => read_config path
            | None => Ok Config_default
            end
        end;
  let cfg := apply_opt set_atem (env "ATEM_PROXY_ATEM") cfg in
  cfg ← match env "ATEM_PROXY_BIND" with
        | Some v => b ← ok_or (BadBind v) (parse_socket_addr v); Ok (set_bind b cfg)
        | None => Ok cfg
        end;
  let cfg := apply_opt (λ v, set_mdns (env_flag v)) (env "ATEM_PROXY_MDNS") cfg in
  let cfg := apply_opt set_log (env "ATEM_PROXY_LOG") cfg in
  let cfg := apply_opt (λ v, set_softatem (env_flag v)) (env "ATEM_PROXY_SOFTATEM") cfg in
  let cfg := apply_opt set_atem atem cfg in
  let cfg := apply_opt set_bind bind cfg in
  let cfg := apply_opt set_mdns mdns cfg in
  let cfg := apply_opt set_log log cfg in
  Ok (normalize cfg).

(** The parsed command line of [main.rs], without its subcommand. *)
Record Cli : Type := {
  cli_config : option str;
  cli_atem : option str;
  cli_bind : option SocketAddr;
  cli_mdns : option bool;
  cli_softatem : option bool;
  cli_log : option str;
}.

Definition load_cfg (cli : Cli) : Result ConfigError Config :=
  cfg ← Config_load (cli_config cli) (cli_atem cli) (cli_bind cli) (cli_mdns cli) (cli_log cli);
  match cli_softatem cli with
  | Some v => Ok (normalize (set_softatem v cfg))
  | None => Ok cfg
  end.
End load.

Definition atem_addr (c : Config) : Result ConfigError SocketAddr :=
  let text :=
    if bool_decide (0x3A%Z ∈ atem c) then atem c
    else atem c ++ chars ":" ++ show_int ATEM_UDP_PORT in
  ok_or (BadAtem text) (parse_socket_addr text).

(** ** Properties *)

(** The default bind address is the one its text names. *)
Lemma default_bind_parses :
  parse_socket_addr (chars "0.0.0.0:9910") = Some (bind Config_default) ∧
  bind Config_default = V4 [0; 0; 0; 0]%Z ATEM_UDP_PORT.
Proof. by vm_compute. Qed.

(** [normalize] in one line per field it can change. *)
Lemma normalize_spec c :
  atem (normalize c) = atem c ∧ bind (normalize c) = bind c ∧ mdns (normalize c) = mdns c ∧
  log (normalize c) = log c ∧ client_idle_ms (normalize c) = client_idle_ms c ∧
  reconnect_ms (normalize c) = reconnect_ms c ∧ compat (normalize c) = compat c ∧
  mode (locks (normalize c)) = (if softatem (compat c) then SingleOwner else mode (locks c)) ∧
  enabled (media (normalize c)) = softatem (compat c) || enabled (media c) ∧
  cfg_chunk_delay_ms (media (normalize c)) = cfg_chunk_delay_ms (media c) ∧
  max_upload_mb (media (normalize c)) = max_upload_mb (media c) ∧
  discovery_mdns (discovery (normalize c)) =
    softatem (compat c) || mdns c || discovery_mdns (discovery c).
Proof.
  unfold normalize. destruct (mdns c) eqn:Em, (softatem (compat c)) eqn:Es; cbn;
    rewrite ?Em, ?Es; cbn; by rewrite ?Em, ?Es.
Qed.

Lemma normalize_record c :
  normalize c =
    {| atem := atem c; bind := bind c; mdns := mdns c; client_idle_ms := client_idle_ms c;
       reconnect_ms := reconnect_ms c; log := log c; log_file := log_file c; compat := compat c;
       locks := {| mode := if softatem (compat c) then SingleOwner else mode (locks c) |};
       media := {| enabled := softatem (compat c) || enabled (media c);
                   cfg_chunk_delay_ms := cfg_chunk_delay_ms (media c);
                   max_upload_mb := max_upload_mb (media c) |};
       discovery := {| discovery_mdns := softatem (compat c) || mdns c || discovery_mdns (discovery c) |} |}.
Proof. by destruct c as [? ? [] ? ? ? ? [[]] [?] [? ? ?] [?]]. Qed.

Lemma normalize_idempotent c : normalize (normalize c) = normalize c.
Proof.
  destruct c as [? ? m ? ? ? ? [s] [md] [e ? ?] [d]].
  unfold normalize; destruct m, s; done.
Qed.

Section load_properties.
  Context (env : string → option str).
  Context (path_exists : str → bool) (read_to_string : str → option str).
  Context (toml_from_str : str → option Config).

Abbreviation load := (Config_load env path_exists read_to_string toml_from_str).
Abbreviation read := (read_config path_exists read_to_string toml_from_str).

(** The configuration the layers start from: the file that the command line, or
    else the environment, names when it exists, and the defaults otherwise. *)
Definition base_config (config_path : option str) : Result ConfigError Config :=
  match config_path, env "ATEM_PROXY_CONFIG" with
  | Some path, _ | None, Some path => read path
  | None, None => Ok Config_default
  end.

(** The highest layer that sets a value. *)
Definition layered {A} (cli env : option A) (base : A) : A :=
  match cli, env with Some v, _ => v | None, Some v => v | None, None => base end.

(** The configuration whose settings are [base]'s, then the environment's, then the
    arguments', and with what SoftAtem enables if [profile] says so. *)
Definition layered_config (base : Config) (a : option str) (b : option SocketAddr)
    (m : option bool) (l : option str) (softatem' profile : bool) : Config :=
  let mdns' := layered m (env_flag <$> env "ATEM_PROXY_MDNS") (mdns base) in
  {| atem := layered a (env "ATEM_PROXY_ATEM") (atem base);
     bind := layered b (env "ATEM_PROXY_BIND" ≫= parse_socket_addr) (bind base);
     mdns := mdns';
     client_idle_ms := client_idle_ms base;
     reconnect_ms := reconnect_ms base;
     log := layered l (env "ATEM_PROXY_LOG") (log base);
     log_file := log_file base;
     compat := {| softatem := softatem' |};
     locks := {| mode := if profile then SingleOwner else mode (locks base) |};
     media := {| enabled := profile || enabled (media base);
                 cfg_chunk_delay_ms := cfg_chunk_delay_ms (media base);
                 max_upload_mb := max_upload_mb (media base) |};
     discovery := {| discovery_mdns := profile || mdns' || discovery_mdns (discovery base) |} |}.

Definition env_softatem (base : Config) : bool :=
  layered None (env_flag <$> env "ATEM_PROXY_SOFTATEM") (softatem (compat base)).

Lemma normalize_layered base a b m l s p :
  normalize (layered_config base a b m l s p) = layered_config base a b m l s (s || p).
Proof. rewrite normalize_record. unfold layered_config. cbn. by destruct (layered m _ (mdns base)), s, p. Qed.

(** Without the command line's SoftAtem flag. *)
Lemma Config_load_Ok config_path a b m l cfg :
  load config_path a b m l = Ok cfg →
  ∃ base, base_config config_path = Ok base ∧
    cfg = layered_config base a b m l (env_softatem base) (env_softatem base).
Proof.
  unfold Config_load. intros H. apply bind_Ok in H as (base & Hbase & H).
  apply bind_Ok in H as (c2 & Hc2 & H). injection H as <-.
  exists base. split.
  { unfold base_config. destruct config_path; [done|]. by destruct (env "ATEM_PROXY_CONFIG"). }
  set (c1 := apply_opt set_atem (env "ATEM_PROXY_ATEM") base) in *.
  assert (∃ eb, env "ATEM_PROXY_BIND" ≫= parse_socket_addr = eb ∧ c2 = apply_opt set_bind eb c1)
    as (eb & He & ->).
  { destruct (env "ATEM_PROXY_BIND") as [v|]; [|by exists None; simplify_eq].
    apply bind_Ok in Hc2 as (b' & Hb' & [= <-]). cbn. exists (Some b').
    destruct (parse_socket_addr v); by simplify_eq/=. }
  clear Hc2 Hbase. subst c1.
  rewrite normalize_record. unfold layered_config, env_softatem. rewrite He.
  destruct base as [? ? ? ? ? ? ? [?] [?] [? ? ?] [?]], (env "ATEM_PROXY_ATEM"), eb, a, b.
  all: destruct (env "ATEM_PROXY_MDNS"), (env "ATEM_PROXY_LOG"), (env "ATEM_PROXY_SOFTATEM"), m, l; done.
Qed.

(** Loading fails only on an unreadable or malformed file, or on a malformed bind
    address in the environment. *)
Lemma Config_load_Err config_path a b m l e :
  load config_path a b m l = Err e →
  base_config config_path = Err e ∨
  ∃ v, env "ATEM_PROXY_BIND" = Some v ∧ parse_socket_addr v = None ∧ e = BadBind v.
Proof.
  unfold Config_load. intros [H|(base & _ & H)]%bind_Err.
  - left. unfold base_config. destruct config_path; [done|]. by destruct (env "ATEM_PROXY_CONFIG").
  - right. apply bind_Err in H as [H|(? & _ & H)]; [|done].
    destruct (env "ATEM_PROXY_BIND") as [v|]; [|done].
    apply bind_Err in H as [H|(? & _ & H)]; [|done]. exists v.
    destruct (parse_socket_addr v); cbn in H; by simplify_eq.
Qed.
End load_properties.

Section load_cfg_properties.
  Context (env : string → option str).
  Context (path_exists : str → bool) (read_to_string : str → option str).
  Context (toml_from_str : str → option Config).

Abbreviation load_main := (load_cfg env path_exists read_to_string toml_from_str).

(** C31. Layering: when loading succeeds, the configuration is, in every field, the one
    of the layers.  The upstream address, the bind address, the log filter and the
    mDNS and SoftAtem flags are the command line's, else the environment's, else the
    file's or the default; the file or the default alone gives the rest: idle and
    reconnect times, log file, chunk delay and upload limit.  Three settings depend
    on more: SoftAtem enabled by any layer means single-owner locks, media transfers
    and discovery, whatever the file says, except that the command line can only
    clear the flag, not what the file or the environment has enabled with it; and
    mDNS means discovery. *)
Theorem config_layers cli cfg :
  load_main cli = Ok cfg →
  ∃ base, base_config env path_exists read_to_string toml_from_str (cli_config cli) = Ok base ∧
    let from_env := layered None (env_flag <$> env "ATEM_PROXY_SOFTATEM") (softatem (compat base)) in
    let softatem' := default from_env (cli_softatem cli) in
    let profile := softatem' || from_env in
    let mdns' := layered (cli_mdns cli) (env_flag <$> env "ATEM_PROXY_MDNS") (mdns base) in
    cfg =
      {| atem := layered (cli_atem cli) (env "ATEM_PROXY_ATEM") (atem base);
         bind := layered (cli_bind cli) (env "ATEM_PROXY_BIND" ≫= parse_socket_addr) (bind base);
         mdns := mdns';
         client_idle_ms := client_idle_ms base;
         reconnect_ms := reconnect_ms base;
         log := layered (cli_log cli) (env "ATEM_PROXY_LOG") (log base);
         log_file := log_file base;
         compat := {| softatem := softatem' |};
         locks := {| mode := if profile then SingleOwner else mode (locks base) |};
         media := {| enabled := profile || enabled (media base);
                     cfg_chunk_delay_ms := cfg_chunk_delay_ms (media base);
                     max_upload_mb := max_upload_mb (media base) |};
         discovery := {| discovery_mdns := profile || mdns' || discovery_mdns (discovery base) |} |}.
Proof.
  unfold load_cfg. intros (c & Hc & H)%bind_Ok.
  apply Config_load_Ok in Hc as (base & Hb & ->). exists base. split; [done|].
  destruct (cli_softatem cli) as [v|]; injection H as <-; cbn [default from_option].
  - change (set_softatem v (layered_config env base ?a ?b ?m ?l ?s ?p)) with
      (layered_config env base a b m l v p).
    by rewrite normalize_layered.
  - by rewrite orb_diag.
Qed.
End load_cfg_properties.

(** An upstream given as an IPv4 address is that address at the ATEM port; one
    given with a port keeps it. *)
Lemma atem_addr_ipv4 c w x y z port :
  (0 ≤ w ≤ 255)%Z → (0 ≤ x ≤ 255)%Z → (0 ≤ y ≤ 255)%Z → (0 ≤ z ≤ 255)%Z → is_u16 port →
  (atem c = show_ipv4 w x y z → atem_addr c = Ok (V4 [w; x; y; z] ATEM_UDP_PORT)) ∧
  (atem c = show_ipv4 w x y z ++ chars ":" ++ show_int port →
   atem_addr c = Ok (V4 [w; x; y; z] port)).
Proof.
  intros Hw Hx Hy Hz Hp. unfold atem_addr. split; intros ->.
  - rewrite bool_decide_false.
    + rewrite parse_socket_addr_v4; [done|done..|unfold ATEM_UDP_PORT, is_u16; lia].
    + unfold show_ipv4. change (chars ".") with [0x2E]%Z.
      assert (∀ n, (0 ≤ n)%Z → (0x3A%Z ∉ show_int n)) as Hn.
      { intros n Hn. unfold show_int. apply show_fuel_chars; [done|apply not_elem_of_nil|done]. }
      rewrite !elem_of_app, !list_elem_of_singleton.
      pose proof (Hn w). pose proof (Hn x). pose proof (Hn y). pose proof (Hn z). intuition lia.
  - rewrite bool_decide_true.
    + by rewrite parse_socket_addr_v4.
    + rewrite !elem_of_app. right; left. by left.
Qed.

(** An upstream given as a host name is refused: only literal addresses parse. *)
Lemma atem_addr_hostname c x s :
  atem c = x :: s → is_digit x = false → x ≠ 0x5B%Z → ∃ e, atem_addr c = Err e.
Proof.
  intros Ha Hd Hb. unfold atem_addr. rewrite Ha. case_bool_decide; cbn [app];
    rewrite parse_socket_addr_head by done; by eexists.
Qed.
