(* ===== verification/Locks.v ===== *)
(** * The lock broker

    [crates/atem-proxy/src/locks.rs]: one owner per media or macro store.
    [LockBroker] is a map behind a lock; each method holds it for the part of its
    body that touches the map, so a method is a function on the map. *)

From S2P Require Export Command Addr.
Open Scope nat_scope.

Module LockDecision.
Inductive t : Type := Forward | Drop.
End LockDecision.

#[global] Instance LockDecision_eq_dec : EqDecision LockDecision.t.
Proof. solve_decision. Defined.

Record StoreLock : Type := {
  lock_owner : option SocketAddr;
  upstream_locked : bool;
}.

Definition StoreLock_default : StoreLock := {| lock_owner := None; upstream_locked := false |}.

(** [entry.owner = o] *)
Definition set_owner (o : option SocketAddr) (e : StoreLock) : StoreLock :=
  {| lock_owner := o; upstream_locked := upstream_locked e |}.

Abbreviation LockBroker := (gmap Z StoreLock).

Definition LockBroker_new : LockBroker := ∅.
Definition LockBroker_clear (g : LockBroker) : LockBroker := ∅.

Definition owner_of (store : Z) (g : LockBroker) : option SocketAddr :=
  g !! store ≫= lock_owner.

(** [entry(store).or_default()] *)
Definition lock_entry (store : Z) (g : LockBroker) : StoreLock :=
  default StoreLock_default (g !! store).

Definition client_lock_request (from : SocketAddr) (name : CommandName) (body : bytes)
    (g : LockBroker) : LockDecision.t * LockBroker :=
  if negb (is_lock_request name) then (LockDecision.Forward, g)
  else
    match lock_store_id body with
    | None => (LockDecision.Drop, g)
    | Some store =>
        let want_lock := lock_request_enabled body in
        let entry := lock_entry store g in
        let g := <[store := entry]> g in
        if want_lock then
          match lock_owner entry with
          | None => (LockDecision.Forward, <[store := set_owner (Some from) entry]> g)
          | Some owner =>
              if decide (owner = from) then (LockDecision.Forward, g)
              else (LockDecision.Drop, g)
          end
        else
          if bool_decide (lock_owner entry = Some from) || bool_decide (lock_owner entry = None)
          then (LockDecision.Forward, <[store := set_owner None entry]> g)
          else (LockDecision.Drop, g)
    end.

(** The body of the loop of [on_upstream_lock_status]. *)
Definition lock_status_command (g : LockBroker) (cmd : CommandRef) : LockBroker :=
  if negb (is_lock_status (name cmd)) then g
  else
    match lock_store_id (body cmd) with
    | None => g
    | Some store =>
        let locked := lock_request_enabled (body cmd) in
        let entry := {| lock_owner := lock_owner (lock_entry store g);
                        upstream_locked := locked |} in
        <[store := if negb locked then set_owner None entry else entry]> g
    end.

Definition on_upstream_lock_status (payload : bytes) (g : LockBroker) : LockBroker :=
  match parse_commands payload with
  | Err _ => g
  | Ok cmds => foldl lock_status_command g cmds
  end.

Section iteration.
  Context `{!HashIter Z StoreLock}.

Definition stores_owned_by (addr : SocketAddr) (g : LockBroker) : list Z :=
  omap (λ '(store, s), if bool_decide (lock_owner s = Some addr) then Some store else None)
    (hash_iter g).

(** The body of the loop of [client_disconnected]. *)
Definition release_entry (addr : SocketAddr) (st : LockBroker * list bytes)
    (e : Z * StoreLock) : LockBroker * list bytes :=
  let '(g, unlocks) := st in
  let '(store, entry) := e in
  if bool_decide (lock_owner entry = Some addr) then
    (<[store := set_owner None entry]> g,
     if upstream_locked entry then unlocks ++ [synthesize_unlock store] else unlocks)
  else (g, unlocks).

(** The unlock commands to forward, and the map. *)
Definition LockBroker_client_disconnected (addr : SocketAddr) (g : LockBroker) :
    list bytes * LockBroker :=
  let '(g, unlocks) := foldl (release_entry addr) (g, []) (hash_iter g) in
  (unlocks, g).

Definition is_owner (addr : SocketAddr) (g : LockBroker) : bool :=
  existsb (λ '(_, s), bool_decide (lock_owner s = Some addr)) (hash_iter g).
End iteration.

(** ** Properties *)

Lemma owner_of_insert s s' e g :
  owner_of s (<[s' := e]> g) = if decide (s = s') then lock_owner e else owner_of s g.
Proof.
  unfold owner_of. case_decide; subst; [by rewrite lookup_insert_eq|by rewrite lookup_insert_ne].
Qed.

Lemma owner_of_entry s g : lock_owner (lock_entry s g) = owner_of s g.
Proof. unfold owner_of, lock_entry. by destruct (g !! s). Qed.

Definition upstream_locked_of (store : Z) (g : LockBroker) : bool :=
  upstream_locked (lock_entry store g).

Lemma upstream_locked_of_insert s s' e g :
  upstream_locked_of s (<[s' := e]> g) =
    if decide (s = s') then upstream_locked e else upstream_locked_of s g.
Proof.
  unfold upstream_locked_of, lock_entry.
  case_decide; subst; [by rewrite lookup_insert_eq|by rewrite lookup_insert_ne].
Qed.

(** A lock request for a store is forwarded exactly when nobody else owns the
    store; forwarding assigns or clears the owner, dropping changes no owner; no
    request touches another store or the upstream's lock state. *)
Lemma client_lock_request_spec from n b g store :
  is_lock_request n = true → lock_store_id b = Some store →
  let '(d, g') := client_lock_request from n b g in
  (d = LockDecision.Forward ↔ owner_of store g = None ∨ owner_of store g = Some from) ∧
  owner_of store g' =
    (if decide (d = LockDecision.Forward)
     then (if lock_request_enabled b then Some from else None)
     else owner_of store g) ∧
  (∀ s, s ≠ store → owner_of s g' = owner_of s g) ∧
  (∀ s, upstream_locked_of s g' = upstream_locked_of s g).
Proof.
  intros Hn Hb. unfold client_lock_request. rewrite Hn, Hb. cbn [negb]. rewrite owner_of_entry.
  assert (∀ s, upstream_locked_of s (<[store := lock_entry store g]> g) = upstream_locked_of s g) as Hu.
  { intros s. rewrite upstream_locked_of_insert. case_decide; by subst. }
  assert (∀ s, owner_of s (<[store := lock_entry store g]> g) = owner_of s g) as Ho.
  { intros s. rewrite owner_of_insert. case_decide; [subst; apply owner_of_entry|done]. }
  assert (∀ o, ∀ s, upstream_locked_of s
    (<[store := set_owner o (lock_entry store g)]> (<[store := lock_entry store g]> g)) =
      upstream_locked_of s g) as Hu2.
  { intros o s. rewrite upstream_locked_of_insert. case_decide; [by subst|apply Hu]. }
  assert (∀ o s, owner_of s
    (<[store := set_owner o (lock_entry store g)]> (<[store := lock_entry store g]> g)) =
      if decide (s = store) then o else owner_of s g) as Ho2.
  { intros o s. rewrite owner_of_insert. case_decide; [done|apply Ho]. }
  destruct (lock_request_enabled b).
  - destruct (owner_of store g) as [o|] eqn:E; [case_decide; subst|]; split_and!; try done.
    all: rewrite ?Ho, ?Ho2, ?E, ?decide_True by done; try done; eauto.
    all: try (intros s Hs; rewrite ?Ho2, ?decide_False by done; done).
    all: intuition congruence.
  - repeat case_bool_decide; cbn [orb]; split_and!; try done.
    all: rewrite ?Ho, ?Ho2, ?decide_True by done; try done; eauto.
    all: try (intros s Hs; rewrite ?Ho2, ?decide_False by done; done).
    all: intuition congruence.
Qed.

(** A command that is no lock request, and a lock request that names no store,
    change nothing. *)
Lemma client_lock_request_other from n b g :
  (is_lock_request n = false → client_lock_request from n b g = (LockDecision.Forward, g)) ∧
  (is_lock_request n = true → lock_store_id b = None →
   client_lock_request from n b g = (LockDecision.Drop, g)).
Proof. unfold client_lock_request. by split; [intros ->|intros -> ->]. Qed.

(** ** The ownership specification

    What the broker promises, one store at a time: the owner is set by the request
    of a client when there is none, and removed by that client's unlock, by its
    disconnection, by the switcher's report that the store is unlocked, and by
    the loss of the switcher. *)
Inductive lock_op : Type :=
  | LockRequest (from : SocketAddr) (n : CommandName) (b : bytes)
  | LockStatus (payload : bytes)
  | LockDisconnect (addr : SocketAddr)
  | LockClear.

(** The commands of a payload that report that [store] is unlocked. *)
Definition reports_unlocked (store : Z) (cmd : CommandRef) : bool :=
  is_lock_status (name cmd) && bool_decide (lock_store_id (body cmd) = Some store)
  && negb (lock_request_enabled (body cmd)).

Definition payload_unlocks (store : Z) (payload : bytes) : bool :=
  match parse_commands payload with
  | Ok cmds => existsb (reports_unlocked store) cmds
  | Err _ => false
  end.

Definition owner_step (store : Z) (o : option SocketAddr) (op : lock_op) : option SocketAddr :=
  match op with
  | LockRequest from n b =>
      if is_lock_request n && bool_decide (lock_store_id b = Some store)
         && bool_decide (o = None ∨ o = Some from)
      then (if lock_request_enabled b then Some from else None) else o
  | LockStatus p => if payload_unlocks store p then None else o
  | LockDisconnect addr => if decide (o = Some addr) then None else o
  | LockClear => None
  end.

Lemma lock_status_command_owner store g cmd :
  owner_of store (lock_status_command g cmd) =
    if reports_unlocked store cmd then None else owner_of store g.
Proof.
  unfold lock_status_command, reports_unlocked. destruct (is_lock_status (name cmd)); [|done].
  cbn [negb andb]. destruct (lock_store_id (body cmd)) as [s|]; [|done]. rewrite owner_of_insert.
  destruct (decide (store = s)) as [->|Hne].
  - rewrite bool_decide_true by done. destruct (lock_request_enabled (body cmd)); [|done].
    cbn. apply owner_of_entry.
  - by rewrite bool_decide_false by congruence.
Qed.

Lemma on_upstream_lock_status_owner store p g :
  owner_of store (on_upstream_lock_status p g) =
    if payload_unlocks store p then None else owner_of store g.
Proof.
  unfold on_upstream_lock_status, payload_unlocks. destruct (parse_commands p) as [cs|]; [|done].
  revert g. induction cs as [|c cs IH]; intros g; [done|]. cbn [foldl existsb].
  rewrite IH, lock_status_command_owner. by destruct (reports_unlocked store c), (existsb _ cs).
Qed.

Section lock_properties.
  Context `{!HashIter Z StoreLock}.

Definition broker_step (g : LockBroker) (op : lock_op) : LockBroker :=
  match op with
  | LockRequest from n b => (client_lock_request from n b g).2
  | LockStatus p => on_upstream_lock_status p g
  | LockDisconnect addr => (LockBroker_client_disconnected addr g).2
  | LockClear => LockBroker_clear g
  end.

(** The disconnection loop: its map is a pointwise update, its commands are the
    unlocks of the stores that are both owned by the client and locked upstream. *)
Definition release (addr : SocketAddr) (e : StoreLock) : StoreLock :=
  if bool_decide (lock_owner e = Some addr) then set_owner None e else e.

Lemma release_loop addr l g us :
  NoDup l.*1 → (∀ k e, (k, e) ∈ l → g !! k = Some e) →
  foldl (release_entry addr) (g, us) l =
    (foldl (λ m '(k, v), <[k := release addr v]> m) g l,
     us ++ omap (λ '(store, e),
             if bool_decide (lock_owner e = Some addr) && upstream_locked e
             then Some (synthesize_unlock store) else None) l).
Proof.
  revert g us. induction l as [|[k e] l IH]; intros g us Hnd Hl; cbn; [by rewrite app_nil_r|].
  cbn in Hnd. apply NoDup_cons in Hnd as [Hk Hnd].
  assert (g !! k = Some e) as Hg by (apply Hl; by left).
  assert (∀ e', ∀ k1 e1, (k1, e1) ∈ l → <[k := e']> g !! k1 = Some e1) as Hl'.
  { intros e' k1 e1 Hin. rewrite lookup_insert_ne; [apply Hl; by right|].
    intros ->. by apply (list_elem_of_fmap_2 fst) in Hin. }
  unfold release at 2. case_bool_decide; cbn [andb].
  - rewrite (IH _ _ Hnd (Hl' _)). f_equal. destruct (upstream_locked e); [by rewrite <- app_assoc|done].
  - rewrite (insert_id g k e) by done. rewrite IH; [done..|]. intros k1 e1 Hin. apply Hl. by right.
Qed.

Lemma client_disconnected_eq addr g :
  LockBroker_client_disconnected addr g =
    (omap (λ '(store, e), if bool_decide (lock_owner e = Some addr) && upstream_locked e
                          then Some (synthesize_unlock store) else None) (hash_iter g),
     foldl (λ m '(k, v), <[k := release addr v]> m) g (hash_iter g)).
Proof.
  unfold LockBroker_client_disconnected. rewrite release_loop; [done|apply hash_iter_NoDup|].
  intros k e. apply elem_of_hash_iter.
Qed.

Lemma client_disconnected_lookup addr g k :
  (LockBroker_client_disconnected addr g).2 !! k = release addr <$> g !! k.
Proof. rewrite client_disconnected_eq. cbn [snd]. apply (hash_iter_update (λ _, release addr)). Qed.

Lemma broker_step_owner store g op :
  owner_of store (broker_step g op) = owner_step store (owner_of store g) op.
Proof.
  destruct op as [from n b|p|addr|]; cbn [broker_step owner_step].
  - destruct (is_lock_request n) eqn:Hn; cbn [andb];
      [|by rewrite (proj1 (client_lock_request_other from n b g) Hn)].
    destruct (lock_store_id b) as [s|] eqn:Hs;
      [|by rewrite (proj2 (client_lock_request_other from n b g) Hn Hs)].
    pose proof (client_lock_request_spec from n b g s Hn Hs) as Hspec.
    destruct (client_lock_request from n b g) as [d g']. cbn [snd].
    destruct Hspec as (Hd & Ho & Hne & _).
    destruct (decide (s = store)) as [->|Hss].
    + rewrite (bool_decide_true (Some store = _)), Ho by done. cbn [andb].
      case_decide as Hf; case_bool_decide as Hb; tauto.
    + rewrite (bool_decide_false (Some s = _)) by congruence. by apply Hne.
  - apply on_upstream_lock_status_owner.
  - unfold owner_of. rewrite client_disconnected_lookup. unfold release.
    destruct (g !! store) as [e|]; cbn; [|done]. by case_bool_decide; case_decide.
  - unfold owner_of, LockBroker_clear. by rewrite lookup_empty.
Qed.

(** C16. The broker refines the ownership specification: after any sequence of requests,
    status reports, disconnections and clears, each store has the owner that its
    own specification gives it. *)
Lemma broker_refines_owner ops store :
  owner_of store (foldl broker_step LockBroker_new ops) = foldl (owner_step store) None ops.
Proof.
  assert (∀ g, owner_of store (foldl broker_step g ops) =
               foldl (owner_step store) (owner_of store g) ops) as H.
  { induction ops as [|op ops IH]; intros g; [done|]. cbn. by rewrite IH, broker_step_owner. }
  rewrite H. done.
Qed.
End lock_properties.

Section lock_guarantees.
  Context `{!HashIter Z StoreLock}.

Lemma is_owner_spec addr g : is_owner addr g = true ↔ ∃ store, owner_of store g = Some addr.
Proof.
  unfold is_owner, owner_of. rewrite existsb_exists. split.
  - intros ([s e] & Hin & He%bool_decide_eq_true). rewrite <- list_elem_of_In in Hin.
    apply elem_of_hash_iter in Hin. exists s. by rewrite Hin.
  - intros (s & (e & Hs & He)%bind_Some). exists (s, e). rewrite <- list_elem_of_In.
    split; [by apply elem_of_hash_iter|by apply bool_decide_eq_true].
Qed.

Lemma stores_owned_by_spec addr g store :
  store ∈ stores_owned_by addr g ↔ owner_of store g = Some addr.
Proof.
  unfold stores_owned_by, owner_of. rewrite list_elem_of_omap. split.
  - intros ([s e] & Hin & He). apply elem_of_hash_iter in Hin. case_bool_decide; [|done].
    simplify_eq. by rewrite Hin.
  - intros (e & Hs & He)%bind_Some. exists (store, e). split; [by apply elem_of_hash_iter|].
    by rewrite bool_decide_true.
Qed.

(** What can end a client's ownership of a store. *)
Definition releases (store : Z) (owner : SocketAddr) (op : lock_op) : Prop :=
  match op with
  | LockRequest from n b =>
      from = owner ∧ is_lock_request n = true ∧ lock_store_id b = Some store ∧
      lock_request_enabled b = false
  | LockStatus p => payload_unlocks store p = true
  | LockDisconnect addr => addr = owner
  | LockClear => True
  end.

Lemma owner_step_stable store a op :
  ¬ releases store a op → owner_step store (Some a) op = Some a.
Proof.
  destruct op as [from n b|p|addr|]; cbn [owner_step releases]; intros Hr.
  - destruct (is_lock_request n); cbn [andb]; [|done].
    case_bool_decide; cbn [andb]; [|done]. case_bool_decide as Hc; [|done].
    assert (from = a) as -> by (destruct Hc as [Hc|Hc]; congruence).
    destruct (lock_request_enabled b); [done|]. exfalso. by apply Hr.
  - by destruct (payload_unlocks store p).
  - case_decide; [|done]. simplify_eq.
  - done.
Qed.

Lemma owner_stable store a ops g :
  owner_of store g = Some a → Forall (λ op, ¬ releases store a op) ops →
  owner_of store (foldl broker_step g ops) = Some a.
Proof.
  intros Hg Hops. revert g Hg. induction Hops as [|op ops Hop Hops IH]; intros g Hg; [done|].
  cbn. apply IH. rewrite broker_step_owner, Hg. by apply owner_step_stable.
Qed.

(** C15. Mutual exclusion: from the moment a client owns a store until one of the events
    that release it, however many other events happen in between, the client keeps
    it, its own requests are forwarded, and every lock or unlock request of another
    client for that store is dropped. *)
Lemma lock_exclusive store a b n body g ops :
  owner_of store g = Some a → Forall (λ op, ¬ releases store a op) ops →
  is_lock_request n = true → lock_store_id body = Some store →
  let g' := foldl broker_step g ops in
  owner_of store g' = Some a ∧
  (client_lock_request b n body g').1 =
    (if decide (b = a) then LockDecision.Forward else LockDecision.Drop).
Proof.
  intros Hg Hops Hn Hb g'. assert (owner_of store g' = Some a) as Ho by by apply owner_stable.
  split; [done|]. pose proof (client_lock_request_spec b n body g' store Hn Hb) as Hspec.
  destruct (client_lock_request b n body g') as [d g'']. cbn [fst].
  destruct Hspec as (Hd & _). rewrite Ho in Hd.
  destruct (decide (b = a)) as [->|Hne].
  - apply Hd. by right.
  - destruct d; [|done]. exfalso. destruct (proj1 Hd eq_refl); congruence.
Qed.

(** Hand-over: once released, the store goes to whichever client asks first. *)
Lemma lock_handover store a b n body g op :
  owner_of store g = Some a → releases store a op →
  is_lock_request n = true → lock_store_id body = Some store → lock_request_enabled body = true →
  let g' := broker_step g op in
  owner_of store g' = None ∧
  (client_lock_request b n body g').1 = LockDecision.Forward ∧
  owner_of store (client_lock_request b n body g').2 = Some b.
Proof.
  intros Hg Hr Hn Hb He g'. assert (owner_of store g' = None) as Ho.
  { subst g'. rewrite broker_step_owner, Hg. destruct op as [from n' b'|p|addr|]; cbn [owner_step releases] in *.
    - destruct Hr as (-> & -> & -> & ->). rewrite (bool_decide_true (Some store = _)) by done.
      by rewrite bool_decide_true by by right.
    - by rewrite Hr.
    - subst. by rewrite decide_True.
    - done. }
  split; [done|]. pose proof (client_lock_request_spec b n body g' store Hn Hb) as Hspec.
  destruct (client_lock_request b n body g') as [d g'']. cbn [fst snd].
  destruct Hspec as (Hd & Ho' & _). rewrite Ho, He in *.
  assert (d = LockDecision.Forward) as -> by (apply Hd; by left).
  by rewrite decide_True in Ho'.
Qed.

(** A disconnected client owns nothing, everyone else keeps what they own, and the
    unlocks to send are, in some order, one for each store that the client owned
    and the switcher holds locked: each a single frame that asks to unlock that
    store. *)
Lemma client_disconnected_releases addr g :
  let '(unlocks, g') := LockBroker_client_disconnected addr g in
  (∀ store, owner_of store g' =
     if decide (owner_of store g = Some addr) then None else owner_of store g) ∧
  is_owner addr g' = false ∧
  ∃ stores, NoDup stores ∧ unlocks = synthesize_unlock <$> stores ∧
    ∀ store, store ∈ stores ↔ owner_of store g = Some addr ∧ upstream_locked_of store g = true.
Proof.
  pose proof (λ store, broker_step_owner store g (LockDisconnect addr)) as Ho.
  cbn [broker_step owner_step] in Ho.
  destruct (LockBroker_client_disconnected addr g) as [us g'] eqn:E. cbn [snd] in Ho.
  split; [done|]. split.
  { apply not_true_is_false. rewrite is_owner_spec. intros (s & Hs). rewrite Ho in Hs.
    by case_decide. }
  rewrite client_disconnected_eq in E. injection E as <- _.
  set (f := λ '(store, e), if bool_decide (lock_owner e = Some addr) && upstream_locked e
                           then Some (store : Z) else None : option Z).
  exists (omap f (hash_iter g)). split_and!.
  - assert (∀ l : list (Z * StoreLock), NoDup l.*1 → NoDup (omap f l)) as H;
      [|apply H, hash_iter_NoDup].
    intros l. induction l as [|[k e] l IH]; cbn; [done|]. intros [Hk Hnd]%NoDup_cons.
    destruct (_ && _); [|by apply IH]. apply NoDup_cons. split; [|by apply IH].
    rewrite list_elem_of_omap. intros ([k' e'] & Hin & Hf). apply Hk.
    cbn in Hf. destruct (_ && _); simplify_eq. by apply (list_elem_of_fmap_2 fst) in Hin.
  - induction (hash_iter g) as [|[k e] l IH]; [done|]. cbn. destruct (_ && _); cbn; by rewrite IH.
  - intros store. rewrite list_elem_of_omap. unfold owner_of, upstream_locked_of, lock_entry. split.
    + intros ([k e] & Hin & Hf). cbn in Hf. apply elem_of_hash_iter in Hin.
      destruct (_ && _) eqn:Eb; simplify_eq. bool_to_prop. by rewrite Hin.
    + intros [(e & Hs & He)%bind_Some Hu]. exists (store, e).
      split; [by apply elem_of_hash_iter|]. cbn. rewrite Hs in Hu. cbn in Hu.
      by rewrite bool_decide_true, Hu.
Qed.
End lock_guarantees.

(** A status report of two bytes has no flag byte: the second byte of the store id
    is read as the flag, so the report for store 0 counts as "unlocked" and takes
    the store from its owner, while that for store 255 counts as "locked". *)
Lemma short_status_reads_store_as_flag g n :
  is_lock_status n = true →
  owner_of 0 (on_upstream_lock_status (serialize_command n [Byte.x00; Byte.x00]) g) = None ∧
  owner_of 255 (on_upstream_lock_status (serialize_command n [Byte.x00; Byte.xff]) g) =
    owner_of 255 g.
Proof.
  intros Hn. rewrite !on_upstream_lock_status_owner. unfold payload_unlocks.
  rewrite !parse_serialize_command by (cbn [length]; lia). cbn [existsb].
  unfold reports_unlocked. cbn [name body]. by rewrite Hn.
Qed.

(** C38. A lock nobody holds.  A client that asks for a free store and leaves before the
    switcher has reported it locked is released without an unlock for that store:
    its request is on its way, and when the report comes, the switcher holds the
    store for the proxy while no client owns it. *)
Lemma orphaned_lock `{!HashIter Z StoreLock} store a n b n' report g :
  is_lock_request n = true → lock_store_id b = Some store → lock_request_enabled b = true →
  owner_of store g = None → upstream_locked_of store g = false →
  is_lock_status n' = true → lock_store_id report = Some store → lock_request_enabled report = true →
  8 + length report < Z.to_nat 65536 →
  let r1 := client_lock_request a n b g in
  let r2 := LockBroker_client_disconnected a r1.2 in
  let g3 := on_upstream_lock_status (serialize_command n' report) r2.2 in
  r1.1 = LockDecision.Forward ∧
  (∀ raw, raw ∈ r2.1 → ∃ s, s ≠ store ∧ raw = synthesize_unlock s) ∧
  owner_of store g3 = None ∧ upstream_locked_of store g3 = true.
Proof.
  intros Hn Hb He Ho Hu Hn' Hr Her Hlen r1 r2 g3.
  pose proof (client_lock_request_spec a n b g store Hn Hb) as Hspec. subst r2 g3.
  assert (r1.1 = LockDecision.Forward ∧ upstream_locked_of store r1.2 = false) as [Hd Hu1].
  { subst r1. destruct (client_lock_request a n b g) as [d g1]. cbn [fst snd].
    destruct Hspec as (Hd & _ & _ & Hus). rewrite Hus. split; [apply Hd; by left|done]. }
  assert (owner_of store r1.2 = Some a) as Ho1.
  { subst r1. destruct (client_lock_request a n b g) as [d g1]. cbn [fst snd] in *.
    destruct Hspec as (_ & Ho' & _). by rewrite Ho', Hd, decide_True, He by done. }
  pose proof (client_disconnected_releases a r1.2) as Hrel.
  destruct (LockBroker_client_disconnected a r1.2) as [unlocks g2]. cbn [fst snd].
  destruct Hrel as (Ho2 & _ & stores & _ & -> & Hin).
  split; [done|]. split.
  { intros raw (s & -> & Hs)%list_elem_of_fmap. exists s. split; [|done]. intros ->.
    apply Hin in Hs as [_ Hs]. congruence. }
  rewrite on_upstream_lock_status_owner. unfold on_upstream_lock_status, payload_unlocks.
  rewrite parse_serialize_command by done. cbn [foldl existsb].
  unfold reports_unlocked, lock_status_command. cbn [name body].
  rewrite Hn', Hr, Her. cbn [negb andb]. rewrite andb_false_r. cbn [orb].
  split; [|by rewrite upstream_locked_of_insert, decide_True].
  by rewrite Ho2, decide_True.
Qed.
