(* ===== verification/Transfer.v ===== *)
(** * The media transfer lane

    [crates/atem-proxy/src/transfer.rs]: at most one client at a time moves media
    to or from the switcher.  The lane asks the lock broker who owns what; it does
    so through the interface [StoreOwners], which the broker implements. *)

From S2P Require Export Config Locks.
Open Scope nat_scope.

(** What the lane relies on of the lock broker: an owner per store, and a test
    whether a client owns any. *)
Class StoreOwners (L : Type) := {
  so_owner_of : Z → L → option SocketAddr;
  so_is_owner : SocketAddr → L → bool;
  so_is_owner_spec a l : so_is_owner a l = true ↔ ∃ store, so_owner_of store l = Some a;
}.

#[export] Instance LockBroker_StoreOwners `{!HashIter Z StoreLock} : StoreOwners LockBroker := {
  so_owner_of := owner_of;
  so_is_owner := is_owner;
  so_is_owner_spec := is_owner_spec;
}.

Module TransferClientDecision.
Inductive t : Type := Forward | Drop.
End TransferClientDecision.

#[global] Instance TransferClientDecision_eq_dec : EqDecision TransferClientDecision.t.
Proof. solve_decision. Defined.

Record ActiveTransfer : Type := {
  lane_owner : SocketAddr;
  lane_store : option Z;
  bytes_forwarded : Z;
  started : option Instant;
}.

(** The lane's own state, behind its lock; its configuration does not change. *)
Abbreviation Lane := (option ActiveTransfer).

Definition TransferLane_new : Lane := None.
Definition TransferLane_enabled (cfg : MediaConfig) : bool := enabled cfg.
Definition chunk_delay_ms (cfg : MediaConfig) : Z := cfg_chunk_delay_ms cfg.
Definition TransferLane_clear (active : Lane) : Lane := None.
Definition current_owner (active : Lane) : option SocketAddr := lane_owner <$> active.

(** [a.or(b)] of options. *)
Definition option_or {A} (a b : option A) : option A :=
  match a with Some _ => a | None => b end.

Definition start_transfer (store : option Z) (now : Instant) (a : ActiveTransfer) :
    ActiveTransfer :=
  {| lane_owner := lane_owner a; lane_store := option_or store (lane_store a);
     bytes_forwarded := 0; started := Some now |}.

Definition count_chunk (body : bytes) (a : ActiveTransfer) : ActiveTransfer :=
  {| lane_owner := lane_owner a; lane_store := lane_store a;
     bytes_forwarded := u64_saturating_add (bytes_forwarded a) (Z.of_nat (length body));
     started := started a |}.

(** The test of [max_upload_mb], whose only effect is a warning: chunks beyond the
    cap are forwarded all the same. *)
Definition over_soft_cap (cfg : MediaConfig) (a : ActiveTransfer) : bool :=
  let max := u64_saturating_mul (max_upload_mb cfg) (1024 * 1024) in
  (0 <? max)%Z && (max <? bytes_forwarded a)%Z.

(** The commands that open a transfer anew, carry a chunk, and end the transfer. *)
Definition starts_transfer (n : CommandName) : bool := matches_name n ["FTSD"; "FTSU"].
Definition is_chunk (n : CommandName) : bool := matches_name n ["FTDa"].
Definition ends_transfer (n : CommandName) : bool :=
  matches_name n ["FTFD"; "FTDC"; "FTDE"] && matches_name n ["FTDC"; "FTDE"].

Section transfer.
  Context {L : Type} `{!StoreOwners L}.

Definition client_transfer (cfg : MediaConfig) (locks : L) (from : SocketAddr)
    (name : CommandName) (body : bytes) (now : Instant) (active : Lane) :
    TransferClientDecision.t * Lane :=
  if negb (enabled cfg) then (TransferClientDecision.Drop, active)
  else if negb (is_transfer_command name) then (TransferClientDecision.Forward, active)
  else if negb (so_is_owner from locks) then (TransferClientDecision.Drop, active)
  else
    let store := lock_store_id body in
    match active with
    | None =>
        (TransferClientDecision.Forward,
         Some {| lane_owner := from; lane_store := store; bytes_forwarded := 0;
                 started := Some now |})
    | Some a =>
        if decide (lane_owner a = from) then
          let a := if starts_transfer name then start_transfer store now a else a in
          let a := if is_chunk name then count_chunk body a else a in
          (TransferClientDecision.Forward, if ends_transfer name then None else Some a)
        else (TransferClientDecision.Drop, active)
    end.

Definition fanout_owner (cfg : MediaConfig) (locks : L) (active : Lane) : option SocketAddr :=
  if negb (enabled cfg) then None
  else
    match current_owner active with
    | Some a => Some a
    | None =>
        match so_owner_of 0 locks with
        | Some a => Some a
        | None => so_owner_of 255 locks
        end
    end.
End transfer.

Definition TransferLane_client_disconnected (addr : SocketAddr) (active : Lane) : Lane :=
  match active with
  | Some a => if decide (lane_owner a = addr) then None else active
  | None => None
  end.

(** ** Properties *)

Section transfer_properties.
  Context {L : Type} `{!StoreOwners L}.
  Implicit Types locks : L.

(** A transfer command is forwarded exactly when media is enabled, the client owns
    the lock of some store, and the lane is free or its own; the lane then belongs
    to the client unless it was free to begin with or the command ends the
    transfer, and a dropped command leaves it as it was. *)
Lemma client_transfer_spec cfg locks from n b now active :
  is_transfer_command n = true →
  let '(d, active') := client_transfer cfg locks from n b now active in
  (d = TransferClientDecision.Forward ↔
     enabled cfg = true ∧ (∃ store, so_owner_of store locks = Some from) ∧
     (current_owner active = None ∨ current_owner active = Some from)) ∧
  current_owner active' =
    (if decide (d = TransferClientDecision.Forward)
     then (if bool_decide (current_owner active = Some from) && ends_transfer n
           then None else Some from)
     else current_owner active) ∧
  (d = TransferClientDecision.Drop → active' = active).
Proof.
  intros Hn. unfold client_transfer. rewrite Hn. pose proof (so_is_owner_spec from locks) as Hown.
  destruct (enabled cfg); cbn [negb]; [|split; [by split; [|intros (? & _)]|done]].
  destruct (so_is_owner from locks); cbn [negb];
    [|split; [|done]; split; [done|]; intros (_ & Hs & _); by apply Hown in Hs].
  pose proof (proj1 Hown eq_refl) as Hs.
  destruct active as [a|]; cbn [current_owner fmap option_fmap option_map].
  - case_decide as Ho.
    + rewrite decide_True, bool_decide_true by congruence. cbn [andb].
      subst from. split; [by split; [auto|]|]. split; [|done].
      by destruct (ends_transfer n), (starts_transfer n), (is_chunk n).
    + rewrite decide_False by done. split; [|done]. split; [done|].
      intros (_ & _ & [?|?]); congruence.
  - rewrite decide_True, bool_decide_false by done. cbn. split; [|done]. by split; [auto|].
Qed.

(** What can take the lane from its owner. *)
Inductive lane_op : Type :=
  | LaneCommand (locks : L) (from : SocketAddr) (n : CommandName) (b : bytes) (now : Instant)
  | LaneDisconnect (addr : SocketAddr)
  | LaneClear.

Definition lane_step (cfg : MediaConfig) (active : Lane) (op : lane_op) : Lane :=
  match op with
  | LaneCommand locks from n b now => (client_transfer cfg locks from n b now active).2
  | LaneDisconnect addr => TransferLane_client_disconnected addr active
  | LaneClear => TransferLane_clear active
  end.

Definition lane_releases (owner : SocketAddr) (op : lane_op) : Prop :=
  match op with
  | LaneCommand _ from n _ _ => from = owner ∧ is_transfer_command n = true ∧ ends_transfer n = true
  | LaneDisconnect addr => addr = owner
  | LaneClear => True
  end.

Lemma lane_step_stable cfg a op active :
  current_owner active = Some a → ¬ lane_releases a op →
  current_owner (lane_step cfg active op) = Some a.
Proof.
  intros Ha Hr. destruct op as [locks from n b now|addr|]; cbn [lane_step lane_releases] in *.
  - destruct (is_transfer_command n) eqn:Hn.
    + pose proof (client_transfer_spec cfg locks from n b now active Hn) as Hspec.
      destruct (client_transfer _ _ _ _ _ _ _) as [d active']. cbn [snd].
      destruct Hspec as (Hd & -> & _). case_decide as Hf; [|done].
      apply Hd in Hf as (_ & _ & Hf). rewrite Ha in *. destruct Hf as [?|[= ->]]; [done|].
      rewrite bool_decide_true by done. cbn [andb].
      destruct (ends_transfer n); [|done]. exfalso. by apply Hr.
    + unfold client_transfer. rewrite Hn. by destruct (enabled cfg).
  - unfold TransferLane_client_disconnected. destruct active as [t|]; [|done]. cbn in Ha.
    case_decide; [|done]. exfalso. apply Hr. congruence.
  - by exfalso.
Qed.

(** C17. Exclusive transfers: from the moment the lane is a client's until that client
    ends the transfer or disconnects, or the lane is cleared, every transfer
    command of every other client is dropped, whatever locks it holds. *)
Lemma lane_exclusive cfg a b ops active locks n body now :
  current_owner active = Some a → Forall (λ op, ¬ lane_releases a op) ops →
  is_transfer_command n = true → b ≠ a →
  let active' := foldl (lane_step cfg) active ops in
  current_owner active' = Some a ∧
  client_transfer cfg locks b n body now active' = (TransferClientDecision.Drop, active').
Proof.
  intros Ha Hops Hn Hb active'.
  assert (current_owner active' = Some a) as Ho.
  { subst active'. revert active Ha. induction Hops as [|op ops Hop Hops IH]; intros active Ha; [done|].
    cbn. apply IH. by apply lane_step_stable. }
  split; [done|]. clearbody active'.
  pose proof (client_transfer_spec cfg locks b n body now active' Hn) as Hspec.
  destruct (client_transfer _ _ _ _ _ _ _) as [d active'']. destruct Hspec as (Hd & _ & Hdrop).
  rewrite Ho in Hd. destruct d; [|by rewrite Hdrop].
  destruct (proj1 Hd eq_refl) as (_ & _ & [?|?]); congruence.
Qed.

(** The lane does not follow the locks.  When its owner has lost every lock and
    another client holds the lock of every store, the new lock holder's transfer
    commands are dropped and the switcher's transfer traffic still goes to the old
    owner. *)
Lemma lane_outlives_lock cfg locks a b n body now active :
  enabled cfg = true → current_owner active = Some a → a ≠ b →
  (∀ store, so_owner_of store locks = Some b) → is_transfer_command n = true →
  client_transfer cfg locks b n body now active = (TransferClientDecision.Drop, active) ∧
  fanout_owner cfg locks active = Some a.
Proof.
  intros He Ha Hab Hl Hn. split.
  - unfold client_transfer. rewrite He, Hn. cbn [negb].
    rewrite (proj2 (so_is_owner_spec b locks)) by by exists 0%Z. cbn [negb].
    destruct active as [t|]; [|done]. cbn in Ha. by rewrite decide_False by congruence.
  - unfold fanout_owner. by rewrite He, Ha.
Qed.

(** The switcher's transfer traffic goes to the lane's owner, else to the owner of
    store 0, else to that of store 255, and to nobody when media is disabled. *)
Lemma fanout_owner_spec cfg locks active a :
  fanout_owner cfg locks active = Some a ↔
  enabled cfg = true ∧
  (current_owner active = Some a ∨
   current_owner active = None ∧
     (so_owner_of 0 locks = Some a ∨ so_owner_of 0 locks = None ∧ so_owner_of 255 locks = Some a)).
Proof.
  unfold fanout_owner. destruct (enabled cfg); cbn [negb]; [|by split; [|intros [? _]]].
  destruct (current_owner active), (so_owner_of 0 locks); intuition congruence.
Qed.

(** The byte counter after a (re)start and a run of chunks is the number of bytes
    of the chunks, up to the largest [u64]. *)
Lemma chunk_count cfg locks a start start_body t0 chunks (t : Instant) active :
  enabled cfg = true → so_is_owner a locks = true → current_owner active = Some a →
  starts_transfer start = true →
  let active1 := (client_transfer cfg locks a start start_body t0 active).2 in
  let active2 :=
    foldl (λ l chunk, (client_transfer cfg locks a (name4 "FTDa") chunk t l).2) active1 chunks in
  current_owner active2 = Some a ∧
  bytes_forwarded <$> active2 = Some (Z.min (2 ^ 64 - 1) (Z.of_nat (length (concat chunks)))).
Proof.
  intros He Ho Ha Hs. cbv zeta.
  assert (is_transfer_command start = true ∧ is_chunk start = false ∧ ends_transfer start = false)
    as (Ht & Hc & Hd).
  { unfold starts_transfer in Hs. name_cases Hs; by vm_compute. }
  destruct active as [x|]; [|done]. cbn in Ha. injection Ha as <-.
  assert (∀ cs y, lane_owner y = lane_owner x → (0 ≤ bytes_forwarded y ≤ 2 ^ 64 - 1)%Z →
    ∃ z, foldl (λ l chunk,
        (client_transfer cfg locks (lane_owner x) (name4 "FTDa") chunk t l).2) (Some y) cs = Some z ∧
      lane_owner z = lane_owner x ∧
      bytes_forwarded z = Z.min (2 ^ 64 - 1) (bytes_forwarded y + Z.of_nat (length (concat cs))))
    as Hcs.
  { induction cs as [|c cs IH]; intros y Hy Hb; [exists y; cbn [foldl concat length]; split_and!; [done|done|lia]|].
    cbn [foldl]. unfold client_transfer at 2. rewrite He, Ho. cbn [negb].
    replace (is_transfer_command (name4 "FTDa")) with true by by vm_compute.
    replace (starts_transfer (name4 "FTDa")) with false by by vm_compute.
    replace (is_chunk (name4 "FTDa")) with true by by vm_compute.
    replace (ends_transfer (name4 "FTDa")) with false by by vm_compute.
    cbn [negb]. rewrite decide_True by done. cbn [snd].
    destruct (IH (count_chunk c y)) as (z & Hz & Hzo & Hzb); [done| |].
    { unfold count_chunk, u64_saturating_add; cbn [bytes_forwarded]. lia. }
    exists z. split_and!; [done|done|]. rewrite Hzb. cbn [count_chunk bytes_forwarded concat].
    rewrite length_app. unfold u64_saturating_add. lia. }
  unfold client_transfer at 2 4. rewrite He, Ht, Ho, Hs, Hc, Hd. cbn [negb].
  rewrite decide_True by done. cbn [snd].
  destruct (Hcs chunks (start_transfer (lock_store_id start_body) t0 x)) as (z & -> & Hzo & Hzb);
    [done|cbn; lia|].
  cbn. rewrite Hzo, Hzb. cbn [start_transfer bytes_forwarded]. done.
Qed.
End transfer_properties.
