(* ===== verification/Filter.v ===== *)
(** * The fan-in filter

    [crates/atem-proxy/src/filter.rs]: what of a client's command payload reaches
    the switcher.  [CommandFilter] holds its audio subscribers and the set of
    warnings given; through shared pointers it also reaches the lock broker and the
    transfer lane, so a state here is all four.  The two log levels of
    [warn_once] are not modelled, the set that chooses between them is. *)

From S2P Require Export Transfer.
Open Scope nat_scope.

#[global] Arguments is_lock_request : simpl never.
#[global] Arguments is_lock_status : simpl never.
#[global] Arguments is_transfer_command : simpl never.
#[global] Arguments is_audio_levels_subscribe : simpl never.

#[global] Instance CommandName_countable : Countable CommandName.
Proof.
  refine (inj_countable' (λ n, (n0 n, n1 n, n2 n, n3 n)) (λ '(a, b, c, d), CN a b c d) _).
  by intros [].
Defined.

Module FilterAction.
Inductive t : Type :=
  | Forward (raw : bytes)
  | Dropped (name : CommandName) (reason : string)
  | AudioSubscribe (enable : bool) (forward : option bytes).
End FilterAction.

Record AudioSubs : Type := {
  clients : gset SocketAddr;
  last_enable : option bytes;
}.

(** The configuration the filter acts on: [FilterPolicy] without its pointers. *)
Record FilterPolicy : Type := {
  lock_mode : LockMode;
  transfer_cfg : MediaConfig;
}.

Record FilterState : Type := {
  audio : AudioSubs;
  warned : gset (SocketAddr * CommandName);
  f_locks : LockBroker;
  f_lane : Lane;
}.

Definition CommandFilter_new : FilterState :=
  {| audio := {| clients := ∅; last_enable := None |}; warned := ∅;
     f_locks := LockBroker_new; f_lane := TransferLane_new |}.

Definition set_audio (a : AudioSubs) (st : FilterState) : FilterState :=
  {| audio := a; warned := warned st; f_locks := f_locks st; f_lane := f_lane st |}.
Definition set_locks (g : LockBroker) (st : FilterState) : FilterState :=
  {| audio := audio st; warned := warned st; f_locks := g; f_lane := f_lane st |}.
Definition set_lane (l : Lane) (st : FilterState) : FilterState :=
  {| audio := audio st; warned := warned st; f_locks := f_locks st; f_lane := l |}.

Definition warn_once (from : SocketAddr) (n : CommandName) (st : FilterState) : FilterState :=
  {| audio := audio st; warned := {[(from, n)]} ∪ warned st; f_locks := f_locks st;
     f_lane := f_lane st |}.

Definition audio_subscriber_count (st : FilterState) : nat := size (clients (audio st)).

Definition parse_enable_flag (body : bytes) : option bool :=
  (λ b, bool_decide (b ≠ Byte.x00)) <$> last body.

(** [*out.last_mut() = 0] of a copy. *)
Definition synthesize_audio_disable (enable_cmd : bytes) : bytes :=
  match enable_cmd with
  | [] => []
  | _ => take (length enable_cmd - 1) enable_cmd ++ [Byte.x00]
  end.

Section filter.
  Context `{!HashIter Z StoreLock}.

(** The lock request branch of [process_payload]. *)
Definition filter_lock (p : FilterPolicy) (from : SocketAddr) (cmd : CommandRef)
    (st : FilterState) : FilterAction.t * FilterState :=
  match lock_mode p with
  | Deny =>
      (FilterAction.Dropped (name cmd)
         "lock commands denied (enable compat.softatem or locks.mode=single_owner)",
       warn_once from (name cmd) st)
  | SingleOwner =>
      let '(d, g) := client_lock_request from (name cmd) (body cmd) (f_locks st) in
      (match d with
       | LockDecision.Forward => FilterAction.Forward (raw cmd)
       | LockDecision.Drop =>
           FilterAction.Dropped (name cmd) "lock store busy or not owned by this client"
       end, set_locks g st)
  end.

(** The transfer branch. *)
Definition filter_transfer (p : FilterPolicy) (from : SocketAddr) (now : Instant)
    (cmd : CommandRef) (st : FilterState) : FilterAction.t * FilterState :=
  if negb (TransferLane_enabled (transfer_cfg p)) then
    (FilterAction.Dropped (name cmd)
       "media transfer disabled (enable compat.softatem or media.enabled)",
     warn_once from (name cmd) st)
  else
    let '(d, l) :=
      client_transfer (transfer_cfg p) (f_locks st) from (name cmd) (body cmd) now (f_lane st) in
    (match d with
     | TransferClientDecision.Forward => FilterAction.Forward (raw cmd)
     | TransferClientDecision.Drop =>
         FilterAction.Dropped (name cmd) "transfer not allowed for this client (need lock ownership)"
     end, set_lane l st).

(** The audio subscription branch. *)
Definition filter_audio (from : SocketAddr) (cmd : CommandRef) (st : FilterState) :
    FilterAction.t * FilterState :=
  let enable := default true (parse_enable_flag (body cmd)) in
  let g := audio st in
  let before := size (clients g) in
  let g :=
    if enable then {| clients := {[from]} ∪ clients g; last_enable := Some (raw cmd) |}
    else {| clients := clients g ∖ {[from]}; last_enable := last_enable g |} in
  let after := size (clients g) in
  let edge :=
    if (before =? 0) && (0 <? after) then Some true
    else if (0 <? before) && (after =? 0) then Some false
    else None in
  let forward :=
    (λ en : bool, if en then raw cmd else synthesize_audio_disable (raw cmd)) <$> edge in
  (FilterAction.AudioSubscribe (default enable edge) forward, set_audio g st).

(** The body of the loop of [process_payload]. *)
Definition filter_command (p : FilterPolicy) (from : SocketAddr) (now : Instant)
    (cmd : CommandRef) (st : FilterState) : FilterAction.t * FilterState :=
  if is_lock_request (name cmd) then filter_lock p from cmd st
  else if is_transfer_command (name cmd) then filter_transfer p from now cmd st
  else if is_audio_levels_subscribe (name cmd) then filter_audio from cmd st
  else (FilterAction.Forward (raw cmd), st).

Fixpoint process_commands (p : FilterPolicy) (from : SocketAddr) (now : Instant)
    (cmds : list CommandRef) (st : FilterState) : list FilterAction.t * FilterState :=
  match cmds with
  | [] => ([], st)
  | cmd :: cmds =>
      let '(a, st) := filter_command p from now cmd st in
      let '(actions, st) := process_commands p from now cmds st in
      (a :: actions, st)
  end.

(** [now] is the clock reading of the transfer lane, which only logs it. *)
Definition process_payload (p : FilterPolicy) (from : SocketAddr) (now : Instant)
    (payload : bytes) (st : FilterState) : list FilterAction.t * FilterState :=
  match parse_commands payload with
  | Err _ => ([FilterAction.Forward payload], st)
  | Ok cmds => process_commands p from now cmds st
  end.

Definition CommandFilter_client_disconnected (addr : SocketAddr) (st : FilterState) :
    list bytes * FilterState :=
  let g := audio st in
  let g' := {| clients := clients g ∖ {[addr]}; last_enable := last_enable g |} in
  let out :=
    if bool_decide (addr ∈ clients g) && bool_decide (clients g' = ∅) then
      match last_enable g' with
      | Some enable_cmd => [synthesize_audio_disable enable_cmd]
      | None => []
      end
    else [] in
  let lane := TransferLane_client_disconnected addr (f_lane st) in
  let '(unlocks, locks) := LockBroker_client_disconnected addr (f_locks st) in
  (out ++ unlocks, set_locks locks (set_lane lane (set_audio g' st))).
End filter.

(** What the server sends upstream for an action. *)
Definition action_forwards (a : FilterAction.t) : list bytes :=
  match a with
  | FilterAction.Forward raw => [raw]
  | FilterAction.Dropped _ _ => []
  | FilterAction.AudioSubscribe _ forward => match forward with Some raw => [raw] | None => [] end
  end.

Definition forwards (actions : list FilterAction.t) : list bytes :=
  concat (action_forwards <$> actions).

(** ** Lemmas *)

Lemma gset_union_singleton_ne (x : SocketAddr) (X : gset SocketAddr) : {[x]} ∪ X ≠ ∅.
Proof.
  intros H. assert (x ∈ ({[x]} ∪ X : gset SocketAddr)) as Hx
    by (apply elem_of_union_l, elem_of_singleton; done).
  rewrite H in Hx. by apply elem_of_empty in Hx.
Qed.

Lemma gset_empty_difference (X : gset SocketAddr) : ∅ ∖ X = ∅.
Proof. apply leibniz_equiv. intros x. rewrite elem_of_difference, elem_of_empty. tauto. Qed.

Lemma gset_difference_not_in (x : SocketAddr) (X : gset SocketAddr) : (x ∉ X) → X ∖ {[x]} = X.
Proof.
  intros Hx. apply leibniz_equiv. intros y. rewrite elem_of_difference, elem_of_singleton.
  split; [tauto|]. intros Hy. split; [done|]. by intros ->.
Qed.

Lemma size_zero (X : gset SocketAddr) : (size X =? 0) = bool_decide (X = ∅).
Proof.
  apply eq_true_iff_eq. rewrite Nat.eqb_eq, bool_decide_eq_true. rewrite size_empty_iff.
  split; [apply leibniz_equiv|by intros ->].
Qed.

Lemma size_pos (X : gset SocketAddr) : (0 <? size X) = negb (bool_decide (X = ∅)).
Proof. rewrite <- size_zero. destruct (size X); done. Qed.

(** The audio edge in closed form: the subscriber set gains or loses the sender, and
    a command goes upstream exactly when the set becomes non-empty or empty. *)
Lemma filter_audio_eq from c st :
  let enable := default true (parse_enable_flag (body c)) in
  let cl := clients (audio st) in
  let cl' := if enable then {[from]} ∪ cl else cl ∖ {[from]} in
  filter_audio from c st =
    (FilterAction.AudioSubscribe enable
       (if bool_decide (cl = ∅ ↔ cl' = ∅) then None
        else Some (if enable then raw c else synthesize_audio_disable (raw c))),
     set_audio {| clients := cl';
                  last_enable := if enable then Some (raw c) else last_enable (audio st) |} st).
Proof.
  cbv zeta. unfold filter_audio. rewrite !size_zero, !size_pos.
  destruct (default true (parse_enable_flag (body c))); cbn [clients last_enable].
  - assert ({[from]} ∪ clients (audio st) ≠ ∅) as Hne by apply gset_union_singleton_ne.
    rewrite (bool_decide_false ({[from]} ∪ _ = ∅)) by done.
    case_bool_decide as He; cbn [negb andb].
    + rewrite bool_decide_false; [done|]. intros [H _]. by apply Hne, H.
    + by rewrite bool_decide_true.
  - case_bool_decide as He; cbn [negb andb].
    + assert (clients (audio st) ∖ {[from]} = ∅) as He' by (rewrite He; apply gset_empty_difference).
      rewrite (bool_decide_true (_ ∖ _ = ∅)) by done. cbn [negb]. by rewrite bool_decide_true.
    + case_bool_decide as He'; cbn [negb andb].
      * rewrite bool_decide_false; [done|]. tauto.
      * by rewrite bool_decide_true by tauto.
Qed.

(** Switching a subscription command off leaves a frame of the same name and
    length whose flag is off, provided the command has a body. *)
Definition disabled (c : CommandRef) : CommandRef :=
  {| name := name c; raw := synthesize_audio_disable (raw c);
     body := synthesize_audio_disable (body c) |}.

Lemma synthesize_audio_disable_snoc b x : synthesize_audio_disable (b ++ [x]) = b ++ [Byte.x00].
Proof.
  unfold synthesize_audio_disable. destruct (b ++ [x]) eqn:E; [by destruct b|]. rewrite <- E.
  rewrite length_app. cbn [length]. rewrite Nat.add_sub. by rewrite take_app_length.
Qed.

Lemma disabled_frame_ok c :
  frame_ok c → body c ≠ [] →
  frame_ok (disabled c) ∧ parse_enable_flag (body (disabled c)) = Some false.
Proof.
  intros (Hl & r0 & r1 & Hraw) Hb. unfold disabled, frame_ok. cbn [name raw body]. rewrite Hraw.
  destruct (body c) as [|b0 b1 _] using rev_ind; [done|].
  rewrite !app_assoc, !synthesize_audio_disable_snoc. rewrite !length_app in *. cbn [length] in *.
  split; [|unfold parse_enable_flag; by rewrite last_snoc].
  split; [done|]. exists r0, r1. by rewrite <- !app_assoc.
Qed.

(** A subscription without a body also counts as "enable"; switching it off
    overwrites the last byte of its name instead of a flag, so that what goes
    upstream is another command. *)
Lemma disable_without_body_renames n0 n1 n2 n3 :
  synthesize_audio_disable (serialize_command (CN n0 n1 n2 n3) []) =
    serialize_command (CN n0 n1 n2 Byte.x00) [].
Proof. done. Qed.

Section filter_properties.
  Context `{!HashIter Z StoreLock}.
  Implicit Types st : FilterState.

(** Safe mode: with locks denied and media disabled, nothing a well-formed payload
    contains reaches the lock broker or the lane, and no lock request and no
    transfer command is forwarded. *)
Lemma process_commands_safe_mode p from now cs st :
  lock_mode p = Deny → enabled (transfer_cfg p) = false →
  let '(actions, st') := process_commands p from now cs st in
  f_locks st' = f_locks st ∧ f_lane st' = f_lane st ∧
  Forall2 (λ c a, is_lock_request (name c) = true ∨ is_transfer_command (name c) = true →
                  action_forwards a = []) cs actions.
Proof.
  intros Hm He. revert st. induction cs as [|c cs IH]; intros st; cbn; [by split_and!|].
  assert (∃ a st', filter_command p from now c st = (a, st') ∧ f_locks st' = f_locks st ∧
    f_lane st' = f_lane st ∧
    (is_lock_request (name c) = true ∨ is_transfer_command (name c) = true → action_forwards a = []))
    as (a & st' & -> & Hlk & Hln & Hf).
  { unfold filter_command, filter_lock, filter_transfer, TransferLane_enabled. rewrite Hm, He.
    destruct (is_lock_request (name c)); [by eexists _, _|].
    destruct (is_transfer_command (name c)); [by eexists _, _|].
    destruct (is_audio_levels_subscribe (name c)).
    - rewrite filter_audio_eq. eexists _, _. split_and!; [done..|]. by intros [?|?].
    - eexists _, _. split_and!; [done..|]. by intros [?|?]. }
  specialize (IH st'). destruct (process_commands p from now cs st') as [acts st''].
  destruct IH as (-> & -> & IH). split_and!; [done..|by constructor].
Qed.

(** C36. A payload that does not parse to its end skips the policy: with locks denied, a
    well-formed lock request followed by a stray byte goes upstream whole. *)
Lemma malformed_payload_bypasses_policy p from now c b st :
  frame_ok c → is_lock_request (name c) = true → lock_mode p = Deny →
  process_payload p from now (raw c) st =
    ([FilterAction.Dropped (name c)
       "lock commands denied (enable compat.softatem or locks.mode=single_owner)"],
     warn_once from (name c) st) ∧
  process_payload p from now (raw c ++ [b]) st = ([FilterAction.Forward (raw c ++ [b])], st).
Proof.
  intros Hc Hl Hm. split.
  - unfold process_payload. rewrite frame_ok_parse_raw by done. cbn [process_commands].
    unfold filter_command, filter_lock. by rewrite Hl, Hm.
  - unfold process_payload.
    rewrite (parse_commands_stray_byte c b) by done. done.
Qed.
End filter_properties.

(** ** The switcher's audio subscription

    What the switcher makes of the commands it is sent: a subscription command
    turns audio levels on or off, anything else leaves them. *)
Definition audio_view (on : bool) (sent : bytes) : bool :=
  match parse_commands sent with
  | Ok [c] =>
      if is_audio_levels_subscribe (name c) then default true (parse_enable_flag (body c)) else on
  | _ => on
  end.

(** What can happen to the filter. *)
Inductive filter_op : Type :=
  | FilterPayload (from : SocketAddr) (now : Instant) (cmds : list CommandRef)
  | FilterDisconnect (addr : SocketAddr).

(** Payloads of well-formed frames, whose audio subscriptions carry their flag. *)
Definition op_well_formed (op : filter_op) : Prop :=
  match op with
  | FilterPayload _ _ cmds =>
      Forall (λ c, frame_ok c ∧ (is_audio_levels_subscribe (name c) = true → body c ≠ [])) cmds
  | FilterDisconnect _ => True
  end.

Section audio_properties.
  Context `{!HashIter Z StoreLock}.
  Implicit Types st : FilterState.

(** The commands sent upstream, and the filter. *)
Definition filter_step (p : FilterPolicy) (op : filter_op) (st : FilterState) :
    list bytes * FilterState :=
  match op with
  | FilterPayload from now cmds =>
      let '(actions, st) := process_payload p from now (concat (raw <$> cmds)) st in
      (forwards actions, st)
  | FilterDisconnect addr => CommandFilter_client_disconnected addr st
  end.

(** The switcher's view and the filter's subscribers, related. *)
Definition audio_inv (on : bool) (st : FilterState) : Prop :=
  on = negb (bool_decide (clients (audio st) = ∅)) ∧
  (clients (audio st) ≠ ∅ → ∃ c, last_enable (audio st) = Some (raw c) ∧ frame_ok c ∧
     is_audio_levels_subscribe (name c) = true ∧ body c ≠ []).

Lemma audio_view_frame on c :
  frame_ok c → is_audio_levels_subscribe (name c) = true →
  audio_view on (raw c) = default true (parse_enable_flag (body c)).
Proof. intros Hc Ha. unfold audio_view. rewrite frame_ok_parse_raw by done. by rewrite Ha. Qed.

Lemma audio_view_disabled on c :
  frame_ok c → is_audio_levels_subscribe (name c) = true → body c ≠ [] →
  audio_view on (synthesize_audio_disable (raw c)) = false.
Proof.
  intros Hc Ha Hb. destruct (disabled_frame_ok c Hc Hb) as [Hd Hf].
  change (synthesize_audio_disable (raw c)) with (raw (disabled c)).
  rewrite audio_view_frame by done. by rewrite Hf.
Qed.

(** Any other command leaves the subscribers, and is forwarded as it is or not at
    all. *)
Lemma filter_command_other p from now c st :
  is_audio_levels_subscribe (name c) = false →
  let r := filter_command p from now c st in
  audio r.2 = audio st ∧ (action_forwards r.1 = [] ∨ action_forwards r.1 = [raw c]).
Proof.
  intros Ha. unfold filter_command, filter_lock, filter_transfer. rewrite Ha.
  repeat case_match; simplify_eq/=; auto.
Qed.

Lemma filter_command_audio p from now c st on :
  frame_ok c → (is_audio_levels_subscribe (name c) = true → body c ≠ []) → audio_inv on st →
  let '(a, st') := filter_command p from now c st in
  audio_inv (foldl audio_view on (action_forwards a)) st'.
Proof.
  intros Hc Hb [Hon Hle].
  destruct (is_audio_levels_subscribe (name c)) eqn:Ha.
  - destruct (filter_classes_disjoint (name c)) as [Hd1 Hd2]. unfold filter_command.
    destruct (is_lock_request (name c)) eqn:Hl; [by destruct (Hd1 eq_refl); congruence|].
    destruct (is_transfer_command (name c)) eqn:Ht; [by rewrite Hd2 in Ha|].
    rewrite Ha, filter_audio_eq. specialize (Hb eq_refl).
    set (en := default true (parse_enable_flag (body c))).
    set (cl := clients (audio st)) in *.
    set (cl' := if en then {[from]} ∪ cl else cl ∖ {[from]}).
    split; cbn [audio set_audio clients last_enable].
    + cbn [action_forwards]. destruct (decide (cl = ∅ ↔ cl' = ∅)) as [He|He];
        [rewrite (bool_decide_true (_ ↔ _)) by done|rewrite (bool_decide_false (_ ↔ _)) by done];
        cbn [foldl].
      * rewrite Hon. f_equal. by apply bool_decide_ext.
      * assert (cl' = ∅ ↔ en = false) as Hen.
        { subst cl'. destruct en; [split; [by intros ?%gset_union_singleton_ne|done]|].
          destruct (decide (cl = ∅)) as [Hcl|Hcl];
            [rewrite Hcl, gset_empty_difference in He; tauto|].
          split; [done|]. intros _. destruct (decide (cl ∖ {[from]} = ∅)); [done|tauto]. }
        destruct en eqn:Een.
        -- rewrite audio_view_frame by done. fold en. rewrite Een, bool_decide_false; [done|].
           intros H. by apply Hen in H.
        -- rewrite audio_view_disabled by done. rewrite bool_decide_true; [done|]. by apply Hen.
    + intros Hne. destruct en; [by exists c|]. apply Hle. intros Hcl. apply Hne. subst cl'.
      rewrite Hcl. apply gset_empty_difference.
  - pose proof (filter_command_other p from now c st Ha) as H.
    destruct (filter_command p from now c st) as [a st']. cbn [fst snd] in H. destruct H as [Hst Hf].
    unfold audio_inv. rewrite Hst. split; [|done].
    destruct Hf as [-> | ->]; cbn [foldl]; [done|].
    unfold audio_view. rewrite frame_ok_parse_raw by done. by rewrite Ha.
Qed.

Lemma process_commands_audio p from now cs st on :
  Forall (λ c, frame_ok c ∧ (is_audio_levels_subscribe (name c) = true → body c ≠ [])) cs →
  audio_inv on st →
  let '(actions, st') := process_commands p from now cs st in
  audio_inv (foldl audio_view on (forwards actions)) st'.
Proof.
  intros Hcs. revert st on. induction Hcs as [|c cs [Hc Hb] Hcs IH]; intros st on Hinv; [done|].
  cbn [process_commands]. pose proof (filter_command_audio p from now c st on Hc Hb Hinv) as H.
  destruct (filter_command p from now c st) as [a st']. specialize (IH _ _ H).
  destruct (process_commands p from now cs st') as [acts st''].
  unfold forwards. cbn [fmap list_fmap concat]. by rewrite foldl_app.
Qed.

Lemma client_disconnected_audio addr st on :
  audio_inv on st →
  let '(out, st') := CommandFilter_client_disconnected addr st in
  audio_inv (foldl audio_view on out) st'.
Proof.
  intros [Hon Hle]. unfold CommandFilter_client_disconnected. cbn [last_enable clients].
  pose proof (client_disconnected_releases addr (f_locks st)) as Hrel.
  destruct (LockBroker_client_disconnected addr (f_locks st)) as [unlocks g].
  destruct Hrel as (_ & _ & stores & _ & -> & _).
  assert (∀ on, foldl audio_view on (synthesize_unlock <$> stores) = on) as Hu.
  { clear. induction stores as [|s stores IH]; intros on; [done|]. cbn [fmap list_fmap foldl].
    rewrite IH. unfold audio_view, synthesize_unlock.
    rewrite parse_serialize_command; [|rewrite !length_app, length_to_be_bytes; cbn [length]; lia].
    done. }
  rewrite foldl_app, Hu. set (cl := clients (audio st)) in *.
  split; cbn [audio set_audio set_locks set_lane clients last_enable].
  - destruct (decide (addr ∈ cl)) as [Hin|Hin].
    + rewrite (bool_decide_true (addr ∈ cl)) by done. cbn [andb].
      assert (cl ≠ ∅) as Hcl by by intros Hcl; rewrite Hcl in Hin; apply elem_of_empty in Hin.
      destruct (decide (cl ∖ {[addr]} = ∅)) as [He|He];
        [rewrite !(bool_decide_true (_ ∖ _ = ∅)) by done|
         rewrite !(bool_decide_false (_ ∖ _ = ∅)) by done]; cbn [negb].
      * destruct (Hle Hcl) as (c & -> & Hc & Ha & Hb). cbn [foldl]. by rewrite audio_view_disabled.
      * cbn [foldl]. rewrite Hon. by rewrite bool_decide_false.
    + rewrite (bool_decide_false (addr ∈ cl)) by done. cbn [andb foldl]. rewrite Hon.
      by rewrite gset_difference_not_in.
  - intros Hne. apply Hle. intros Hcl. apply Hne. rewrite Hcl. apply gset_empty_difference.
Qed.

(** C18. The switcher sends audio levels exactly when some client wants them: after any
    sequence of disconnections and of client payloads made of well-formed frames
    whose audio subscriptions have a body, the subscription state that the forwarded
    commands leave the switcher in is "on" if and only if the set of subscribers is
    not empty.  (A subscription without a body is left out: what switches it off is
    another command, [disable_without_body_renames].) *)
Lemma audio_subscription_tracks p ops :
  Forall op_well_formed ops →
  let '(sent, st) :=
    foldl (λ '(sent, st) op, let '(out, st) := filter_step p op st in (sent ++ out, st))
      ([], CommandFilter_new) ops in
  foldl audio_view false sent = negb (bool_decide (clients (audio st) = ∅)).
Proof.
  assert (audio_inv (foldl audio_view false []) CommandFilter_new) as Hinit.
  { split; [by rewrite bool_decide_true|by intros []]. }
  revert Hinit. generalize (@nil bytes) as sent, CommandFilter_new as st.
  intros sent st Hinv Hops. revert sent st Hinv.
  induction Hops as [|op ops Hop Hops IH]; intros sent st Hinv; [by destruct Hinv|].
  cbn [foldl]. destruct op as [from now cmds|addr]; cbn [filter_step op_well_formed] in *.
  - unfold process_payload. rewrite parse_commands_concat.
    + pose proof (process_commands_audio p from now cmds st _ Hop Hinv) as H.
      destruct (process_commands p from now cmds st) as [acts st']. apply IH. by rewrite foldl_app.
    + eapply Forall_impl; [exact Hop|]. by intros c [? _].
  - pose proof (client_disconnected_audio addr st _ Hinv) as H.
    destruct (CommandFilter_client_disconnected addr st) as [out st']. apply IH.
    by rewrite foldl_app.
Qed.

(** The filter forgets no subscriber when the switcher is lost, so a switcher that
    has just come back (its audio off) is not asked for audio again: while any
    other client is subscribed, a new subscription sends nothing. *)
Lemma resubscription_not_forwarded p from now c st :
  frame_ok c → is_audio_levels_subscribe (name c) = true → clients (audio st) ≠ ∅ →
  default true (parse_enable_flag (body c)) = true →
  (process_payload p from now (raw c) st).1 = [FilterAction.AudioSubscribe true None].
Proof.
  intros Hc Ha Hne He. destruct (filter_classes_disjoint (name c)) as [Hd1 Hd2].
  unfold process_payload. rewrite frame_ok_parse_raw by done. cbn [process_commands].
  unfold filter_command.
  destruct (is_lock_request (name c)) eqn:Hl; [by destruct (Hd1 eq_refl); congruence|].
  destruct (is_transfer_command (name c)) eqn:Ht; [by rewrite Hd2 in Ha|].
  rewrite Ha, filter_audio_eq, He. cbn [fst]. rewrite bool_decide_true; [done|].
  split; [done|]. by intros ?%gset_union_singleton_ne.
Qed.

(** A client that leaves takes its locks, its lane and its audio subscription with
    it, and nothing of any other client. *)
Lemma filter_client_disconnected addr st :
  let '(out, st') := CommandFilter_client_disconnected addr st in
  clients (audio st') = clients (audio st) ∖ {[addr]} ∧
  is_owner addr (f_locks st') = false ∧
  current_owner (f_lane st') ≠ Some addr ∧
  (∀ other, other ≠ addr →
     (∀ store, owner_of store (f_locks st') = Some other ↔ owner_of store (f_locks st) = Some other) ∧
     (current_owner (f_lane st') = Some other ↔ current_owner (f_lane st) = Some other)).
Proof.
  unfold CommandFilter_client_disconnected.
  pose proof (client_disconnected_releases addr (f_locks st)) as Hrel.
  destruct (LockBroker_client_disconnected addr (f_locks st)) as [unlocks g].
  destruct Hrel as (Ho & Hown & _). cbn [audio f_locks f_lane set_audio set_locks set_lane clients].
  split_and!; [done|done| |].
  - unfold TransferLane_client_disconnected. destruct (f_lane st) as [a|]; [|done].
    case_decide; cbn; congruence.
  - intros other Hne. split.
    + intros store. rewrite Ho. case_decide; [|done]. split; congruence.
    + unfold TransferLane_client_disconnected. destruct (f_lane st) as [a|]; [|done].
      case_decide; cbn; [|done]. split; congruence.
Qed.
End audio_properties.

(** ** The policy

    What the filter promises, on an abstract state: who owns which store, who has
    the lane, and who listens to audio. *)
Record PolicyView : Type := {
  pv_owners : gmap Z SocketAddr;
  pv_lane : option SocketAddr;
  pv_audio : AudioSubs;
}.

Definition view_of (st : FilterState) : PolicyView :=
  {| pv_owners := omap lock_owner (f_locks st); pv_lane := current_owner (f_lane st);
     pv_audio := audio st |}.

(** An action up to the text of its reason. *)
Definition without_reason (a : FilterAction.t) : FilterAction.t :=
  match a with FilterAction.Dropped n _ => FilterAction.Dropped n EmptyString | _ => a end.

(** The sender may use what is free or its own. *)
Definition free_or_own (from : SocketAddr) (owner : option SocketAddr) : bool :=
  bool_decide (owner = None ∨ owner = Some from).

Definition policy_lock (p : FilterPolicy) (from : SocketAddr) (c : CommandRef) (v : PolicyView) :
    FilterAction.t * PolicyView :=
  match lock_mode p, lock_store_id (body c) with
  | SingleOwner, Some store =>
      if free_or_own from (pv_owners v !! store) then
        (FilterAction.Forward (raw c),
         {| pv_owners := if lock_request_enabled (body c) then <[store := from]> (pv_owners v)
                         else delete store (pv_owners v);
            pv_lane := pv_lane v; pv_audio := pv_audio v |})
      else (FilterAction.Dropped (name c) EmptyString, v)
  | _, _ => (FilterAction.Dropped (name c) EmptyString, v)
  end.

Definition policy_transfer (p : FilterPolicy) (from : SocketAddr) (c : CommandRef) (v : PolicyView) :
    FilterAction.t * PolicyView :=
  if enabled (transfer_cfg p) && bool_decide (from ∈ (map_img (pv_owners v) : gset SocketAddr))
     && free_or_own from (pv_lane v)
  then
    (FilterAction.Forward (raw c),
     {| pv_owners := pv_owners v;
        pv_lane := if bool_decide (pv_lane v = Some from) && ends_transfer (name c) then None
                   else Some from;
        pv_audio := pv_audio v |})
  else (FilterAction.Dropped (name c) EmptyString, v).

(** Upstream only sees whether anyone listens: a subscription is sent when the set
    of subscribers becomes inhabited, and switched off when it becomes empty. *)
Definition policy_audio (from : SocketAddr) (c : CommandRef) (v : PolicyView) :
    FilterAction.t * PolicyView :=
  let enable := default true (parse_enable_flag (body c)) in
  let before := clients (pv_audio v) in
  let after := if enable then {[from]} ∪ before else before ∖ {[from]} in
  (FilterAction.AudioSubscribe enable
     (if bool_decide (before = ∅ ↔ after = ∅) then None
      else Some (if enable then raw c else synthesize_audio_disable (raw c))),
   {| pv_owners := pv_owners v; pv_lane := pv_lane v;
      pv_audio := {| clients := after;
                     last_enable := if enable then Some (raw c) else last_enable (pv_audio v) |} |}).

Definition policy_command (p : FilterPolicy) (from : SocketAddr) (c : CommandRef) (v : PolicyView) :
    FilterAction.t * PolicyView :=
  if is_lock_request (name c) then policy_lock p from c v
  else if is_transfer_command (name c) then policy_transfer p from c v
  else if is_audio_levels_subscribe (name c) then policy_audio from c v
  else (FilterAction.Forward (raw c), v).

Fixpoint policy_commands (p : FilterPolicy) (from : SocketAddr) (cs : list CommandRef)
    (v : PolicyView) : list FilterAction.t * PolicyView :=
  match cs with
  | [] => ([], v)
  | c :: cs =>
      let r := policy_command p from c v in
      let rs := policy_commands p from cs r.2 in
      (r.1 :: rs.1, rs.2)
  end.

Section filter_policy.
  Context `{!HashIter Z StoreLock}.
  Implicit Types st : FilterState.

Lemma owners_lookup g store : (omap lock_owner (g : LockBroker) : gmap Z SocketAddr) !! store = owner_of store g.
Proof. apply lookup_omap. Qed.

Lemma owners_img from (g : LockBroker) :
  from ∈ (map_img (omap lock_owner g : gmap Z SocketAddr) : gset SocketAddr) ↔
  ∃ store, owner_of store g = Some from.
Proof. rewrite elem_of_map_img. by setoid_rewrite owners_lookup. Qed.

Lemma filter_lock_policy p from c st :
  is_lock_request (name c) = true →
  let r := filter_lock p from c st in
  policy_lock p from c (view_of st) = (without_reason r.1, view_of r.2).
Proof.
  intros Hn. unfold filter_lock, policy_lock. destruct (lock_mode p); [done|].
  destruct (lock_store_id (body c)) as [store|] eqn:Hb;
    [|by rewrite (proj2 (client_lock_request_other from _ _ _) Hn Hb)].
  pose proof (client_lock_request_spec from (name c) (body c) (f_locks st) store Hn Hb) as H.
  destruct (client_lock_request _ _ _ _) as [d g]. destruct H as (Hd & Ho & Hne & _).
  cbn [pv_owners view_of]. rewrite owners_lookup. unfold free_or_own.
  assert (∀ m : gmap Z SocketAddr, m !! store = owner_of store g →
    (∀ s, s ≠ store → m !! s = owner_of s (f_locks st)) → m = omap lock_owner g) as Hm.
  { intros m Hs Hother. apply map_eq. intros s. rewrite owners_lookup.
    destruct (decide (s = store)) as [->|Hs']; [done|]. by rewrite Hother, Hne. }
  unfold view_of. destruct d; [rewrite bool_decide_true by by apply Hd|
    rewrite bool_decide_false by (intros Hx; by apply Hd in Hx)];
    cbn [fst snd without_reason set_locks audio f_locks f_lane].
  - rewrite decide_True in Ho by done. do 2 f_equal. apply Hm.
    + rewrite Ho. by destruct (lock_request_enabled _); rewrite ?lookup_insert_eq, ?lookup_delete_eq.
    + intros s Hs. by destruct (lock_request_enabled _);
        rewrite ?lookup_insert_ne, ?lookup_delete_ne, owners_lookup.
  - rewrite decide_False in Ho by done. do 2 f_equal. apply Hm; intros; by rewrite owners_lookup.
Qed.

Lemma filter_transfer_policy p from now c st :
  is_transfer_command (name c) = true →
  let r := filter_transfer p from now c st in
  policy_transfer p from c (view_of st) = (without_reason r.1, view_of r.2).
Proof.
  intros Hn. unfold filter_transfer, policy_transfer, TransferLane_enabled.
  destruct (enabled (transfer_cfg p)) eqn:He; cbn [negb andb]; [|done].
  pose proof (client_transfer_spec (transfer_cfg p) (f_locks st) from (name c) (body c) now
    (f_lane st) Hn) as H.
  destruct (client_transfer _ _ _ _ _ _ _) as [d l]. destruct H as (Hd & Hl & Hdrop).
  cbn [pv_owners pv_lane view_of]. unfold free_or_own.
  assert (bool_decide (from ∈ (map_img (omap lock_owner (f_locks st) : gmap Z SocketAddr) : gset SocketAddr))
    && bool_decide (current_owner (f_lane st) = None ∨ current_owner (f_lane st) = Some from)
    = bool_decide (d = TransferClientDecision.Forward)) as ->.
  { apply eq_true_iff_eq. rewrite andb_true_iff, !bool_decide_eq_true, owners_img, Hd. tauto. }
  unfold view_of. destruct d; cbn [fst snd without_reason set_lane audio f_locks f_lane].
  - rewrite bool_decide_true by done. by rewrite Hl, decide_True.
  - rewrite bool_decide_false by done. by rewrite Hdrop.
Qed.

Lemma filter_command_policy p from now c st :
  let r := filter_command p from now c st in
  policy_command p from c (view_of st) = (without_reason r.1, view_of r.2).
Proof.
  unfold policy_command, filter_command.
  destruct (is_lock_request (name c)) eqn:Hl; [by apply filter_lock_policy|].
  destruct (is_transfer_command (name c)) eqn:Ht; [by apply filter_transfer_policy|].
  destruct (is_audio_levels_subscribe (name c)); [|done]. by rewrite filter_audio_eq.
Qed.

Lemma process_commands_policy p from now cs st :
  let '(actions, st') := process_commands p from now cs st in
  policy_commands p from cs (view_of st) = (without_reason <$> actions, view_of st').
Proof.
  revert st. induction cs as [|c cs IH]; intros st; [done|]. cbn [process_commands policy_commands].
  pose proof (filter_command_policy p from now c st) as H.
  destruct (filter_command p from now c st) as [a st']. cbv zeta in H. rewrite H. cbn [fst snd].
  specialize (IH st'). destruct (process_commands p from now cs st') as [acts st'']. by rewrite IH.
Qed.
End filter_policy.

Section filter_guarantees.
  Context `{!HashIter Z StoreLock}.

(** C20. The filter implements the policy: a well-formed payload gives one action per
    command, in order, and these are the actions that [policy_commands] prescribes
    from the owners, the lane and the subscribers before it.  Plain commands are
    forwarded as they are; a lock request is forwarded when locks have a single owner
    and the store is free or the sender's, which then takes or gives back the store;
    a transfer command when media is enabled, the sender owns a store and the lane is
    free or its own; a subscription enters or removes the sender, and one command
    goes upstream exactly when the first subscriber arrives or the last one leaves.
    The state afterwards is the policy's as well. *)
Theorem process_payload_actions p from now payload cs st :
  parse_commands payload = Ok cs →
  let '(actions, st') := process_payload p from now payload st in
  policy_commands p from cs (view_of st) = (without_reason <$> actions, view_of st').
Proof. intros Hp. unfold process_payload. rewrite Hp. apply process_commands_policy. Qed.

(** C19. Safe mode: with locks denied and media disabled, a well-formed payload changes
    neither lock broker nor lane, and none of its lock requests and transfer
    commands is forwarded. *)
Theorem safe_mode p from now payload cs st :
  parse_commands payload = Ok cs → lock_mode p = Deny → enabled (transfer_cfg p) = false →
  let '(actions, st') := process_payload p from now payload st in
  f_locks st' = f_locks st ∧ f_lane st' = f_lane st ∧
  Forall2 (λ c a, is_lock_request (name c) = true ∨ is_transfer_command (name c) = true →
                  action_forwards a = []) cs actions.
Proof. intros Hp Hm He. unfold process_payload. rewrite Hp. by apply process_commands_safe_mode. Qed.
End filter_guarantees.
