(* ===== verification/Upstream.v ===== *)
(** * The upstream session

    [crates/atem-proxy/src/upstream.rs]: the one connection to the switcher.  The
    handshake, the body of each arm of the session's [select!] loop, the routing
    of a command payload, and the reconnection loop.  An arm is a function of what
    woke it (a datagram, queued commands, the tick) and of the clock readings it
    makes; what it sends and broadcasts is its output.  The socket, the channels
    and the timer are the environment: an error of the socket is an input. *)

From S2P Require Export Session Reliable Cache Filter.
Open Scope nat_scope.

#[global] Arguments is_ephemeral_command : simpl never.
#[global] Arguments is_lock_command : simpl never.

Inductive UpstreamEvent : Type :=
  | Connected
  | Disconnected
  | StatePayload (payload : bytes)
  | AudioLevels (payload : bytes)
  | TransferPayload (payload : bytes).

#[global] Instance UpstreamEvent_eq_dec : EqDecision UpstreamEvent.
Proof. solve_decision. Defined.

(** A datagram to the switcher, or an event to the server. *)
Inductive up_out : Type :=
  | UpSend (pkt : bytes)
  | UpEvent (e : UpstreamEvent).

Inductive SessionError : Type :=
  | HandshakePacket (e : ProtocolError)
  | NotHandshake
  | Rejected (status : option byte)
  | UpstreamIdle
  | IoError.

Section upstream.
  Context {M : Type} `{!IndexMap M CacheKey bytes}.

(** The state that [run_session] and [handle_upstream_payload] work on: the shared
    cache, lock broker and flag, and the session's own variables. *)
Record Upstream : Type := {
  u_cache : Inner M;
  u_locks : LockBroker;
  connected : bool;
  reached_ready : bool;
  init_complete : bool;
  u_rel : ReliableEndpoint;
  pending_cmds : list bytes;
}.

Definition set_u_rel (r : ReliableEndpoint) (u : Upstream) : Upstream :=
  {| u_cache := u_cache u; u_locks := u_locks u; connected := connected u;
     reached_ready := reached_ready u; init_complete := init_complete u; u_rel := r;
     pending_cmds := pending_cmds u |}.
Definition set_u_cache (c : Inner M) (u : Upstream) : Upstream :=
  {| u_cache := c; u_locks := u_locks u; connected := connected u;
     reached_ready := reached_ready u; init_complete := init_complete u; u_rel := u_rel u;
     pending_cmds := pending_cmds u |}.
Definition set_u_locks (g : LockBroker) (u : Upstream) : Upstream :=
  {| u_cache := u_cache u; u_locks := g; connected := connected u;
     reached_ready := reached_ready u; init_complete := init_complete u; u_rel := u_rel u;
     pending_cmds := pending_cmds u |}.
Definition set_pending (p : list bytes) (u : Upstream) : Upstream :=
  {| u_cache := u_cache u; u_locks := u_locks u; connected := connected u;
     reached_ready := reached_ready u; init_complete := init_complete u; u_rel := u_rel u;
     pending_cmds := p |}.

(** ** Routing of a payload *)
Record Chunks : Type := {
  state_chunk : bytes;
  audio_chunk : bytes;
  transfer_chunk : bytes;
  saw_incm : bool;
}.

Definition no_chunks : Chunks :=
  {| state_chunk := []; audio_chunk := []; transfer_chunk := []; saw_incm := false |}.

(** The body of the loop over the commands. *)
Definition route_command (k : Chunks) (cmd : CommandRef) : Chunks :=
  if bool_decide (name cmd = INIT_COMPLETE) then
    {| state_chunk := state_chunk k; audio_chunk := audio_chunk k;
       transfer_chunk := transfer_chunk k; saw_incm := true |}
  else if is_transfer_command (name cmd) then
    {| state_chunk := state_chunk k; audio_chunk := audio_chunk k;
       transfer_chunk := transfer_chunk k ++ raw cmd; saw_incm := saw_incm k |}
  else if is_lock_status (name cmd) then
    {| state_chunk := state_chunk k ++ raw cmd; audio_chunk := audio_chunk k;
       transfer_chunk := transfer_chunk k; saw_incm := saw_incm k |}
  else if is_ephemeral_command (name cmd) then
    {| state_chunk := state_chunk k; audio_chunk := audio_chunk k ++ raw cmd;
       transfer_chunk := transfer_chunk k; saw_incm := saw_incm k |}
  else
    {| state_chunk := state_chunk k ++ raw cmd; audio_chunk := audio_chunk k;
       transfer_chunk := transfer_chunk k; saw_incm := saw_incm k |}.

Definition is_nil (b : bytes) : bool := match b with [] => true | _ => false end.

(** The part after [saw_incm]: readiness, and the first [Connected]. *)
Definition mark_ready (u : Upstream) : list up_out * Upstream :=
  let first := negb (connected u) in
  let r := u_rel u in
  let u :=
    {| u_cache := StateCache_set_ready true (u_cache u); u_locks := u_locks u;
       connected := true; reached_ready := true; init_complete := true;
       u_rel := if first then set_rel_opened r true else r;
       pending_cmds := pending_cmds u |} in
  if first then
    ([UpEvent Connected;
      UpSend (build_init_complete_ack (rel_session_id r) (default 0%Z (highest_recv (ack r))))], u)
  else ([], u).

Definition handle_upstream_payload (payload : bytes) (u : Upstream) : list up_out * Upstream :=
  match parse_commands payload with
  | Err _ =>
      ([UpEvent (StatePayload payload)], set_u_cache (ingest_payload payload (u_cache u)) u)
  | Ok cmds =>
      let k := foldl route_command no_chunks cmds in
      let '(state_out, u) :=
        if is_nil (state_chunk k) then ([], u)
        else
          ([UpEvent (StatePayload (state_chunk k))],
           set_u_cache (ingest_payload (state_chunk k) (u_cache u))
             (set_u_locks (on_upstream_lock_status (state_chunk k) (u_locks u)) u)) in
      let audio_out := if is_nil (audio_chunk k) then [] else [UpEvent (AudioLevels (audio_chunk k))] in
      let transfer_out :=
        if is_nil (transfer_chunk k) then [] else [UpEvent (TransferPayload (transfer_chunk k))] in
      let '(ready_out, u) := if saw_incm k then mark_ready u else ([], u) in
      (state_out ++ audio_out ++ transfer_out ++ ready_out, u)
  end.

(** ** The session *)

(** The greeting; [random] stands for the hash that [random_session] computes. *)
Definition session_hello (random : Z) : bytes := build_client_handshake (Z.land random 0x7FFF).

(** From the reply to the greeting to the start of the loop: the session's endpoint
    and the acknowledgement sent. *)
Definition session_open (t_new t_ack : Instant) (reply : bytes) :
    Result SessionError (ReliableEndpoint * list bytes) :=
  match decode_packet reply with
  | Err e => Err (HandshakePacket e)
  | Ok (hdr, payload) =>
      if negb (is_handshake_packet (flags hdr)) then Err NotHandshake
      else if bool_decide (parse_handshake_status payload ≠ Some HANDSHAKE_OK_STATUS) then
        Err (Rejected (parse_handshake_status payload))
      else
        let rel := ReliableEndpoint_new t_new (session_id hdr) ReliableConfig_default in
        let a := ack rel in
        let rel := set_ack rel
          {| highest_recv := Some (packet_id hdr);
             expected_recv := next_packet_id (packet_id hdr);
             last_ack_sent_at := last_ack_sent_at a; packets_since_ack := packets_since_ack a;
             need_init_ack := need_init_ack a |} in
        let rel := set_next_send_id rel 1 in
        let '(ack, rel) := build_ack_packet t_ack rel in
        Ok (rel, match ack with Some b => [b] | None => [] end)
  end.

(** What wakes the loop. *)
Inductive up_input : Type :=
  | UCancel
  | UChannelClosed
  | UCommand (raw : bytes) (more : list bytes) (now t_check t_build : Instant)
  | UDatagram (data : bytes) (now : Instant)
  | UTick (t_idle now t_check t_build : Instant)
  | UIoError.

Inductive session_result : Type :=
  | Continue (out : list up_out) (u : Upstream)
  | Ended (r : Result SessionError unit).

Definition queue_pending (u : Upstream) : Upstream :=
  set_pending [] (set_u_rel (queue_commands_packed (pending_cmds u) (u_rel u)) u).

Definition flush (now t_check t_build : Instant) (u : Upstream) : list up_out * Upstream :=
  let '(pkts, rel) := poll_outbound now t_check t_build (u_rel u) in
  (UpSend <$> pkts, set_u_rel rel u).

Definition long_enough (raw : bytes) : bool := 8 <=? length raw.

(** The arm that takes commands: [raw] is the command received, [more] what
    [try_recv] finds in the channel after it. *)
Definition on_command (raw : bytes) (more : list bytes) (now t_check t_build : Instant)
    (u : Upstream) : list up_out * Upstream :=
  if long_enough raw then
    let u := set_pending (pending_cmds u ++ [raw]) u in
    let u := set_pending (pending_cmds u ++ filter (λ m, long_enough m = true) more) u in
    flush now t_check t_build (queue_pending u)
  else ([], u).

Definition on_datagram (data : bytes) (now : Instant) (u : Upstream) : list up_out * Upstream :=
  let u := set_u_rel (note_recv now (u_rel u)) u in
  match decode_packet data with
  | Err _ => ([], u)
  | Ok (hdr, payload) =>
      let rel := u_rel u in
      let rel := if negb (session_id hdr =? 0)%Z then set_session_id rel (session_id hdr) else rel in
      let rel :=
        if contains (flags hdr) ACK_REPLY || negb (ack_id hdr =? 0)%Z
        then on_ack_id (ack_id hdr) rel else rel in
      if is_handshake_packet (flags hdr) then ([], set_u_rel rel u)
      else if contains (flags hdr) ACK_REQUEST then
        let '(ok, rel) :=
          accept_reliable (packet_id hdr) (contains (flags hdr) IS_RETRANSMIT) rel in
        let u := set_u_rel rel u in
        if negb ok then ([UpSend (build_retransmit_request rel)], u)
        else if negb (is_nil payload) then handle_upstream_payload payload u
        else ([], u)
      else
        let u := set_u_rel rel u in
        if negb (is_nil payload) then handle_upstream_payload payload u else ([], u)
  end.

Definition on_tick (now t_check t_build : Instant) (u : Upstream) : list up_out * Upstream :=
  let u := if bool_decide (pending_cmds u = []) then u else queue_pending u in
  flush now t_check t_build u.

(** One turn of the [select!] loop. *)
Definition session_step (i : up_input) (u : Upstream) : session_result :=
  match i with
  | UCancel | UChannelClosed => Ended (Ok tt)
  | UCommand raw more now t_check t_build =>
      let '(out, u) := on_command raw more now t_check t_build u in Continue out u
  | UDatagram data now => let '(out, u) := on_datagram data now u in Continue out u
  | UTick t_idle now t_check t_build =>
      if is_timed_out t_idle (u_rel u) then Ended (Err UpstreamIdle)
      else let '(out, u) := on_tick now t_check t_build u in Continue out u
  | UIoError => Ended (Err IoError)
  end.

(** What [spawn_upstream] does when a session has ended, before it sleeps. *)
Definition session_end (u : Upstream) : list up_out * Upstream :=
  ([UpEvent Disconnected],
   {| u_cache := StateCache_clear (u_cache u); u_locks := LockBroker_clear (u_locks u);
      connected := false; reached_ready := reached_ready u; init_complete := init_complete u;
      u_rel := u_rel u; pending_cmds := pending_cmds u |}).

(** The variables of a new session, its shared state as the last one left it. *)
Definition session_start (rel : ReliableEndpoint) (u : Upstream) : Upstream :=
  {| u_cache := u_cache u; u_locks := u_locks u; connected := connected u;
     reached_ready := false; init_complete := false; u_rel := rel; pending_cmds := [] |}.
End upstream.
Arguments Upstream : clear implicits.
Arguments session_result : clear implicits.

(** ** The reconnection loop *)

Definition backoff_base (reconnect_ms : Z) : Duration := from_millis (Z.max reconnect_ms 200).

(** One turn: the time slept after a session that did ([ok]) or did not reach
    readiness, and the backoff left for the next turn. *)
Definition backoff_turn (base : Duration) (ok : bool) (backoff : Duration) : Duration * Duration :=
  let backoff := if ok then base else backoff in
  (backoff, if negb ok then Z.min (backoff * 2) (from_secs 30) else backoff).

(** The sleeps of a run of sessions. *)
Fixpoint backoff_sleeps (base backoff : Duration) (oks : list bool) : list Duration :=
  match oks with
  | [] => []
  | ok :: oks =>
      let '(sleep, backoff) := backoff_turn base ok backoff in
      sleep :: backoff_sleeps base backoff oks
  end.

(** ** Properties of the routing *)

Inductive route : Type := RState | RAudio | RTransfer | RInit.

#[global] Instance route_eq_dec : EqDecision route.
Proof. solve_decision. Defined.

(** Where a command goes: lock status reports are state although they are lock
    commands, and the [InCm] goes nowhere. *)
Definition route_of (n : CommandName) : route :=
  if bool_decide (n = INIT_COMPLETE) then RInit
  else if is_transfer_command n then RTransfer
  else if is_lock_status n then RState
  else if is_ephemeral_command n then RAudio
  else RState.

(** The frames of the commands on one route, in their order. *)
Definition routed (r : route) (cs : list CommandRef) : list CommandRef :=
  filter (λ c, route_of (name c) = r) cs.
Definition chunk_of (r : route) (cs : list CommandRef) : bytes := concat (raw <$> routed r cs).

Definition events_of (out : list up_out) : list UpstreamEvent :=
  omap (λ o, match o with UpEvent e => Some e | UpSend _ => None end) out.

(** The event of a non-empty chunk. *)
Definition chunk_event (ev : bytes → UpstreamEvent) (b : bytes) : list UpstreamEvent :=
  if is_nil b then [] else [ev b].

Lemma routed_cons r c cs :
  routed r (c :: cs) = if decide (route_of (name c) = r) then c :: routed r cs else routed r cs.
Proof. unfold routed. by rewrite filter_cons. Qed.

Lemma chunk_of_cons r c cs :
  chunk_of r (c :: cs) = (if decide (route_of (name c) = r) then raw c else []) ++ chunk_of r cs.
Proof. unfold chunk_of. rewrite routed_cons. by case_decide. Qed.

Lemma route_commands cs k :
  foldl route_command k cs =
    {| state_chunk := state_chunk k ++ chunk_of RState cs;
       audio_chunk := audio_chunk k ++ chunk_of RAudio cs;
       transfer_chunk := transfer_chunk k ++ chunk_of RTransfer cs;
       saw_incm := saw_incm k || existsb (λ c, bool_decide (name c = INIT_COMPLETE)) cs |}.
Proof.
  revert k. induction cs as [|c cs IH]; intros k.
  { cbn. rewrite !app_nil_r, orb_false_r. by destruct k. }
  cbn [foldl]. rewrite IH, !chunk_of_cons. unfold route_command, route_of. cbn [existsb].
  destruct (bool_decide (name c = INIT_COMPLETE));
    [|destruct (is_transfer_command (name c)); [|destruct (is_lock_status (name c));
      [|destruct (is_ephemeral_command (name c))]]];
    cbn [state_chunk audio_chunk transfer_chunk saw_incm];
    repeat (rewrite decide_True by done || rewrite decide_False by done);
    rewrite ?app_nil_l, <- ?app_assoc, ?orb_true_r; done.
Qed.

Lemma chunk_of_parses r cs :
  Forall frame_ok cs → parse_commands (chunk_of r cs) = Ok (routed r cs).
Proof.
  intros H. apply parse_commands_concat, Forall_forall.
  intros c [_ Hc]%list_elem_of_filter. by eapply Forall_forall.
Qed.

Lemma commands_of_chunk r cs :
  Forall frame_ok cs → commands_of (chunk_of r cs) = routed r cs.
Proof. intros H. unfold commands_of. by rewrite chunk_of_parses. Qed.

Section upstream_properties.
  Context {M : Type} `{!IndexMap M CacheKey bytes}.
  Implicit Types u : Upstream M.

Lemma events_of_app o1 o2 : events_of (o1 ++ o2) = events_of o1 ++ events_of o2.
Proof. apply omap_app. Qed.

Lemma events_of_sends pkts : events_of (UpSend <$> pkts) = [].
Proof. by induction pkts. Qed.

(** A well-formed payload is split without loss: the frames of its state commands
    go, in order, to all clients, those of its ephemeral commands to the audio
    subscribers, those of its transfer commands to the transfer owner, and the
    switcher's own [InCm] to nobody; the first one announces readiness. *)
Lemma handle_upstream_payload_events payload cs u :
  parse_commands payload = Ok cs →
  let '(out, u') := handle_upstream_payload payload u in
  events_of out =
    chunk_event StatePayload (chunk_of RState cs) ++
    chunk_event AudioLevels (chunk_of RAudio cs) ++
    chunk_event TransferPayload (chunk_of RTransfer cs) ++
    (if existsb (λ c, bool_decide (name c = INIT_COMPLETE)) cs && negb (connected u)
     then [Connected] else []) ∧
  cs ≡ₚ routed RState cs ++ routed RAudio cs ++ routed RTransfer cs ++ routed RInit cs.
Proof.
  intros Hp. unfold handle_upstream_payload. rewrite Hp, route_commands. cbn [state_chunk
    audio_chunk transfer_chunk saw_incm no_chunks app orb].
  assert (cs ≡ₚ routed RState cs ++ routed RAudio cs ++ routed RTransfer cs ++ routed RInit cs)
    as Hperm.
  { clear. induction cs as [|c cs IH]; [done|]. rewrite !routed_cons.
    etrans; [apply perm_skip, IH|].
    generalize (routed RState cs), (routed RAudio cs), (routed RTransfer cs), (routed RInit cs).
    intros l1 l2 l3 l4. destruct (route_of (name c));
      repeat (case_decide; try done); cbn [app].
    - by rewrite <- Permutation_middle.
    - rewrite (app_assoc l1), (app_assoc l1 l2). by rewrite <- Permutation_middle.
    - rewrite (app_assoc l2), (app_assoc l1), (app_assoc l2), (app_assoc l1 (l2 ++ l3)).
      by rewrite <- Permutation_middle. }
  unfold chunk_event, mark_ready.
  destruct (is_nil (chunk_of RState cs)), (is_nil (chunk_of RAudio cs)),
    (is_nil (chunk_of RTransfer cs)), (existsb _ cs), (connected u) eqn:Hc;
    cbn [set_u_cache set_u_locks connected negb andb app]; rewrite ?Hc; by split.
Qed.

(** C21. A well-formed payload of the switcher is split without loss: the frames of its
    state commands go, in order, to all clients, those of its ephemeral commands to
    the audio subscribers, those of its transfer commands to the transfer owner,
    and its [InCm] to nobody; the first one announces readiness. *)
Theorem upstream_routing payload cs u :
  parse_commands payload = Ok cs →
  events_of (handle_upstream_payload payload u).1 =
    chunk_event StatePayload (chunk_of RState cs) ++
    chunk_event AudioLevels (chunk_of RAudio cs) ++
    chunk_event TransferPayload (chunk_of RTransfer cs) ++
    (if existsb (λ c, bool_decide (name c = INIT_COMPLETE)) cs && negb (connected u)
     then [Connected] else []) ∧
  cs ≡ₚ routed RState cs ++ routed RAudio cs ++ routed RTransfer cs ++ routed RInit cs.
Proof.
  intros Hp. pose proof (handle_upstream_payload_events payload cs u Hp) as H.
  by destruct (handle_upstream_payload payload u).
Qed.

(** ** The cache and the broadcast *)

(** The state commands in a list of events, from the last loss of the switcher. *)
Definition event_step (h : list CommandRef) (e : UpstreamEvent) : list CommandRef :=
  match e with
  | Disconnected => []
  | StatePayload p => h ++ commands_of p
  | Connected | AudioLevels _ | TransferPayload _ => h
  end.
Definition event_history (h : list CommandRef) (evs : list UpstreamEvent) : list CommandRef :=
  foldl event_step h evs.

Lemma event_history_app h e1 e2 :
  event_history h (e1 ++ e2) = event_history (event_history h e1) e2.
Proof. apply foldl_app. Qed.

(** The cache is the coalesced history of the broadcast. *)
Definition cache_agrees (h : list CommandRef) (u : Upstream M) : Prop :=
  im_entries (cmap (u_cache u)) = coalesce h.

Lemma mark_ready_agrees h u :
  cache_agrees h u →
  event_history h (events_of (mark_ready u).1) = h ∧ cache_agrees h (mark_ready u).2.
Proof. unfold mark_ready. by destruct (negb (connected u)). Qed.

Lemma handle_upstream_payload_agrees h payload u :
  cache_agrees h u →
  let '(out, u') := handle_upstream_payload payload u in
  cache_agrees (event_history h (events_of out)) u'.
Proof.
  intros Hu. unfold handle_upstream_payload. destruct (parse_commands payload) as [cs|e] eqn:E.
  - set (k := foldl route_command no_chunks cs).
    assert (∀ b, event_history b (events_of
      (if is_nil (audio_chunk k) then [] else [UpEvent (AudioLevels (audio_chunk k))])) = b) as Ha
      by by destruct (is_nil _).
    assert (∀ b, event_history b (events_of
      (if is_nil (transfer_chunk k) then [] else [UpEvent (TransferPayload (transfer_chunk k))])) = b)
      as Ht by (intros b; by destruct (is_nil (transfer_chunk k))).
    destruct (is_nil (state_chunk k)).
    + destruct (saw_incm k).
      * pose proof (mark_ready_agrees h u Hu) as [Hh Hr].
        destruct (mark_ready u) as [out u']. cbn [fst snd app] in *.
        by rewrite !events_of_app, !event_history_app, Ha, Ht, Hh.
      * cbn [app]. by rewrite !events_of_app, !event_history_app, Ha, Ht.
    + set (u1 := set_u_cache _ _).
      assert (cache_agrees (h ++ commands_of (state_chunk k)) u1) as Hu1
        by by apply ingest_payload_entries.
      destruct (saw_incm k).
      * pose proof (mark_ready_agrees _ u1 Hu1) as [Hh Hr].
        destruct (mark_ready u1) as [out u']. cbn [fst snd] in *.
        rewrite !events_of_app, !event_history_app. cbn [events_of omap list_omap event_history foldl
          event_step]. fold (event_history (h ++ commands_of (state_chunk k))).
        by rewrite Ha, Ht, Hh.
      * rewrite !events_of_app, !event_history_app. cbn [events_of omap list_omap event_history foldl
          event_step]. fold (event_history (h ++ commands_of (state_chunk k))).
        by rewrite Ha, Ht.
  - by apply ingest_payload_entries.
Qed.

(** ** Runs of the upstream task *)

(** Everything the task does: a session opens, takes a turn, or ends. *)
Inductive up_step : Upstream M → list up_out → Upstream M → Prop :=
  | up_step_open t_new t_ack reply rel acks u :
      session_open t_new t_ack reply = Ok (rel, acks) →
      up_step u (UpSend <$> acks) (session_start rel u)
  | up_step_turn i u out u' :
      session_step i u = Continue out u' → up_step u out u'
  | up_step_end u :
      up_step u (session_end u).1 (session_end u).2.

Inductive up_run : Upstream M → list up_out → Upstream M → Prop :=
  | up_run_refl u : up_run u [] u
  | up_run_step u out u' out' u'' :
      up_run u out u' → up_step u' out' u'' → up_run u (out ++ out') u''.

Lemma flush_frame now t1 t2 u :
  events_of (flush now t1 t2 u).1 = [] ∧
  (flush now t1 t2 u).2 = set_u_rel (poll_outbound now t1 t2 (u_rel u)).2 u.
Proof.
  unfold flush. destruct (poll_outbound now t1 t2 (u_rel u)) as [pkts rel]. cbn [fst snd].
  by rewrite events_of_sends.
Qed.

(** What a turn of the loop leaves alone unless it handles a payload: everything but
    the endpoint and the pending commands, and it announces nothing. *)
Definition same_shared (u u' : Upstream M) : Prop :=
  u_cache u' = u_cache u ∧ u_locks u' = u_locks u ∧ connected u' = connected u ∧
  reached_ready u' = reached_ready u ∧ init_complete u' = init_complete u.

(** The payload that a turn takes from the switcher: of a reliable packet with the
    next expected id, or of an unreliable one. *)
Definition turn_payload (i : up_input) u : option bytes :=
  match i with
  | UDatagram data _ =>
      match decode_packet data with
      | Ok (hdr, payload) =>
          if is_handshake_packet (flags hdr) || is_nil payload
             || contains (flags hdr) ACK_REQUEST
                && negb (packet_id hdr =? expected_recv (ack (u_rel u)))%Z
          then None else Some payload
      | Err _ => None
      end
  | _ => None
  end.

(** A turn handles the payload it takes, if any, and does nothing else that anyone
    sees. *)
Lemma session_step_payload i u out u' :
  session_step i u = Continue out u' →
  match turn_payload i u with
  | None => events_of out = [] ∧ same_shared u u'
  | Some payload =>
      ∃ u1, handle_upstream_payload payload u1 = (out, u') ∧ same_shared u u1 ∧
        (length payload ≤ MAX_PAYLOAD)%nat ∧ payload ≠ []
  end.
Proof.
  destruct i as [| |cmd more now t1 t2|data now|ti now t1 t2|]; cbn [session_step turn_payload]; try done.
  - unfold on_command. destruct (long_enough cmd); [|by intros [= <- <-]].
    destruct (flush_frame now t1 t2 (queue_pending (set_pending
      (pending_cmds (set_pending (pending_cmds u ++ [cmd]) u) ++
        filter (λ m, long_enough m = true) more) (set_pending (pending_cmds u ++ [cmd]) u)))) as [He Hu].
    destruct (flush _ _ _ _) as [o v]. cbn [fst snd] in *. intros [= <- <-]. split; [done|]. by rewrite Hu.
  - unfold on_datagram. destruct (decode_packet data) as [[hdr payload]|e] eqn:Hd; [|by intros [= <- <-]].
    apply encode_decode_packet in Hd as (_ & _ & Hlen & _).
    destruct (is_handshake_packet (flags hdr)); [by intros [= <- <-]|]. cbn [orb].
    set (r := if contains (flags hdr) ACK_REPLY || _ then _ else _).
    assert (ack r = ack (u_rel u)) as Hack.
    { subst r. destruct (_ || negb (ack_id hdr =? 0)%Z); by destruct (negb (session_id hdr =? 0)%Z). }
    clearbody r. destruct (contains (flags hdr) ACK_REQUEST); cbn [andb].
    + unfold accept_reliable. rewrite Hack.
      destruct (packet_id hdr =? expected_recv (ack (u_rel u)))%Z; cbn [negb].
      * rewrite orb_false_r. destruct payload as [|b payload]; cbn [is_nil negb]; [by intros [= <- <-]|].
        destruct (handle_upstream_payload _ _) as [o v] eqn:E. intros [= <- <-]. eexists.
        split; [exact E|]. by repeat split.
      * rewrite orb_true_r. destruct (_ && is_ack_covering _ _); by intros [= <- <-].
    + rewrite orb_false_r. destruct payload as [|b payload]; cbn [is_nil negb]; [by intros [= <- <-]|].
      destruct (handle_upstream_payload _ _) as [o v] eqn:E. intros [= <- <-]. eexists.
      split; [exact E|]. by repeat split.
  - destruct (is_timed_out ti (u_rel u)); [done|]. unfold on_tick.
    case_bool_decide.
    + destruct (flush_frame now t1 t2 u) as [He Hu]. destruct (flush _ _ _ _) as [o v]. cbn [fst snd] in *.
      intros [= <- <-]. split; [done|]. by rewrite Hu.
    + destruct (flush_frame now t1 t2 (queue_pending u)) as [He Hu].
      destruct (flush _ _ _ _) as [o v]. cbn [fst snd] in *. intros [= <- <-]. split; [done|]. by rewrite Hu.
Qed.

Lemma session_step_cases i u out u' :
  session_step i u = Continue out u' →
  (events_of out = [] ∧ same_shared u u') ∨
  ∃ payload u1, handle_upstream_payload payload u1 = (out, u') ∧ same_shared u u1 ∧
    (length payload ≤ MAX_PAYLOAD)%nat ∧ payload ≠ [].
Proof.
  intros H%session_step_payload. destruct (turn_payload i u) as [payload|]; [right; by exists payload|by left].
Qed.

Lemma up_step_agrees h u out u' :
  cache_agrees h u → up_step u out u' → cache_agrees (event_history h (events_of out)) u'.
Proof.
  intros Hu Hs. destruct Hs as [t1 t2 reply rel acks u _|i u out u' Hi|u].
  - by rewrite events_of_sends.
  - destruct (session_step_cases i u out u' Hi) as [(-> & Hc & _)|(payload & u1 & Hp & (Hc & _) & _)].
    + unfold cache_agrees. by rewrite Hc.
    + pose proof (handle_upstream_payload_agrees h payload u1) as H. rewrite Hp in H. apply H.
      unfold cache_agrees. by rewrite Hc.
  - apply im_clear_entries.
Qed.

(** C10. The cache is at every moment the coalesced form of what has been broadcast
    since the switcher was last lost: a late joiner's dump holds, for every key,
    exactly the last command that the clients already connected were sent. *)
Lemma cache_agrees_with_broadcast u out u' :
  cache_agrees [] u → up_run u out u' →
  im_entries (cmap (u_cache u')) = coalesce (event_history [] (events_of out)).
Proof.
  intros Hu Hr. induction Hr as [|u out u1 out' u2 Hr IH Hs]; [done|].
  rewrite events_of_app, event_history_app. by apply (up_step_agrees _ u1); [apply IH|].
Qed.

(** ** Readiness *)

(** Within a session the four flags agree, and are up once the switcher's [InCm] has
    been seen.  (Between sessions [init_complete] and [reached_ready] keep the
    value that the dead session left them.) *)
Definition ready_inv (b : bool) (u : Upstream M) : Prop :=
  connected u = b ∧ ready (u_cache u) = b ∧ reached_ready u = b ∧ init_complete u = b.

Lemma ingest_payload_ready payload g cs :
  parse_commands payload = Ok cs → Forall (λ c, name c ≠ INIT_COMPLETE) cs →
  ready (ingest_payload (M:=M) payload g) = ready g.
Proof.
  intros Hp Hcs. unfold ingest_payload. rewrite Hp. clear Hp.
  revert g. induction Hcs as [|c cs Hc Hcs IH]; intros g; [done|]. cbn [foldl]. rewrite IH.
  unfold ingest_command. destruct (_ || _ || _); [done|]. by rewrite bool_decide_false.
Qed.

Lemma routed_state_no_incm cs : Forall (λ c, name c ≠ INIT_COMPLETE) (routed RState cs).
Proof.
  apply Forall_forall. intros c [Hr _]%list_elem_of_filter Hn. unfold route_of in Hr.
  by rewrite bool_decide_true in Hr.
Qed.

(** The announcements among events: [true] for readiness, [false] for the loss. *)
Definition lifecycle (evs : list UpstreamEvent) : list bool :=
  omap (λ e, match e with Connected => Some true | Disconnected => Some false | _ => None end) evs.

Lemma lifecycle_app e1 e2 : lifecycle (e1 ++ e2) = lifecycle e1 ++ lifecycle e2.
Proof. apply omap_app. Qed.

Lemma handle_upstream_payload_ready b payload u :
  ready_inv b u →
  let '(out, u') := handle_upstream_payload payload u in
  let incm := existsb (λ c, bool_decide (name c = INIT_COMPLETE)) (commands_of payload) in
  ready_inv (b || incm) u' ∧
  lifecycle (events_of out) = if incm && negb b then [true] else [].
Proof.
  intros Hb. unfold handle_upstream_payload, commands_of.
  destruct (parse_commands payload) as [cs|e] eqn:E.
  - rewrite route_commands. cbn [state_chunk audio_chunk transfer_chunk saw_incm no_chunks app orb].
    pose proof (parse_commands_Ok payload cs) as [Hcs _]. specialize (Hcs E). destruct Hcs as [Hf _].
    set (st := chunk_of RState cs).
    set (u1 := set_u_cache (ingest_payload st (u_cache u))
                 (set_u_locks (on_upstream_lock_status st (u_locks u)) u)).
    assert (ready_inv b u1) as Hb1.
    { destruct Hb as (? & ? & ? & ?). unfold u1, ready_inv. cbn [connected u_cache reached_ready
        init_complete set_u_cache set_u_locks]. split_and!; try done.
      rewrite (ingest_payload_ready st _ (routed RState cs)); [done| |apply routed_state_no_incm].
      by apply chunk_of_parses. }
    clearbody u1. set (incm := existsb _ cs).
    assert (∀ v, ready_inv b v →
      let '(out, v') := if incm then mark_ready v else ([], v) in
      ready_inv (b || incm) v' ∧ events_of out = if incm && negb b then [Connected] else []) as Hm.
    { intros v (Hc & Hr & Hrr & Hi). destruct incm; [|by rewrite orb_false_r].
      rewrite orb_true_r. unfold mark_ready. rewrite Hc. by destruct b. }
    assert (∀ pre, lifecycle pre = [] →
      lifecycle (pre ++ (if incm && negb b then [Connected] else [])) =
        if incm && negb b then [true] else []) as Hpre.
    { intros pre H. rewrite lifecycle_app, H. by destruct (incm && negb b). }
    destruct (is_nil st).
    + specialize (Hm u Hb). destruct (if incm then mark_ready u else ([], u)) as [out v].
      destruct Hm as [Hv He]. split; [done|]. rewrite !app_assoc, events_of_app, He. apply Hpre.
      by destruct (is_nil (chunk_of RAudio cs)), (is_nil (chunk_of RTransfer cs)).
    + specialize (Hm u1 Hb1). destruct (if incm then mark_ready u1 else ([], u1)) as [out v].
      destruct Hm as [Hv He]. split; [done|]. rewrite !app_assoc, events_of_app, He. apply Hpre.
      by destruct (is_nil (chunk_of RAudio cs)), (is_nil (chunk_of RTransfer cs)).
  - cbn [existsb]. rewrite orb_false_r. destruct Hb as (? & ? & ? & ?). split; [|done].
    unfold ready_inv, ingest_payload. cbn [u_cache set_u_cache connected reached_ready init_complete].
    by rewrite E.
Qed.

(** A payload with the switcher's end of dump. *)
Definition ends_dump (payload : bytes) : bool :=
  existsb (λ c, bool_decide (name c = INIT_COMPLETE)) (commands_of payload).

(** A run of turns of one session, with the payloads it takes from the switcher. *)
Inductive turns : Upstream M → list bytes → list up_out → Upstream M → Prop :=
  | turns_nil u : turns u [] [] u
  | turns_snoc u ps out u1 i out' u2 :
      turns u ps out u1 → session_step i u1 = Continue out' u2 →
      turns u (ps ++ option_list (turn_payload i u1)) (out ++ out') u2.

(** C14. A session is ready only after a real end of the init dump.  After any turns of
    a session that starts when the previous one was torn down: if one of the
    payloads taken from the switcher had an [InCm], the session has announced
    readiness, once, and the shared [connected] flag, the cache's [ready] flag and
    the session's own two flags are up; if none had, nothing has been announced and
    all four are down. *)
Lemma session_readiness u0 rel ps out u' :
  turns (session_start rel (session_end u0).2) ps out u' →
  let b := existsb ends_dump ps in
  connected u' = b ∧ ready (u_cache u') = b ∧ reached_ready u' = b ∧ init_complete u' = b ∧
  lifecycle (events_of out) = if b then [true] else [].
Proof.
  intros Ht. assert (let b := existsb ends_dump ps in
    ready_inv b u' ∧ lifecycle (events_of out) = if b then [true] else []) as [(H1 & H2 & H3 & H4) H5];
    [|by split_and!].
  remember (session_start rel (session_end u0).2) as u eqn:Hu.
  induction Ht as [u|u ps out u1 i out' u2 Ht IH Hs]; [by subst|].
  destruct (IH Hu) as [Hb Hl]. rewrite events_of_app, lifecycle_app, Hl, existsb_app.
  apply session_step_payload in Hs. destruct (turn_payload i u1) as [payload|]; cbn [option_list option_rect existsb];
    rewrite orb_false_r.
  - destruct Hs as (v & Hp & (Hc & _ & Hcon & Hr & Hi) & _).
    assert (ready_inv (existsb ends_dump ps) v) as Hv by (unfold ready_inv in *; by rewrite Hc, Hcon, Hr, Hi).
    pose proof (handle_upstream_payload_ready _ payload v Hv) as H. rewrite Hp in H.
    fold (ends_dump payload) in H. destruct H as [H ->]. split; [exact H|].
    by destruct (existsb ends_dump ps), (ends_dump payload).
  - destruct Hs as (-> & Hc & _ & Hcon & Hr & Hi).
    split; [|by rewrite app_nil_r]. unfold ready_inv in *. by rewrite Hc, Hcon, Hr, Hi.
Qed.

(** ** The endpoint of the session *)

Lemma handle_upstream_payload_frame payload u :
  (u_rel (handle_upstream_payload payload u).2 = u_rel u ∨
   u_rel (handle_upstream_payload payload u).2 = set_rel_opened (u_rel u) true) ∧
  pending_cmds (handle_upstream_payload payload u).2 = pending_cmds u.
Proof.
  assert (∀ v : Upstream M, (u_rel (mark_ready v).2 = u_rel v ∨
    u_rel (mark_ready v).2 = set_rel_opened (u_rel v) true) ∧
    pending_cmds (mark_ready v).2 = pending_cmds v) as Hm.
  { intros v. unfold mark_ready. destruct (negb (connected v)); cbn; split; auto. }
  unfold handle_upstream_payload. destruct (parse_commands payload) as [cs|e]; [|by split; [left|]].
  rewrite route_commands. destruct (is_nil _); destruct (existsb _ cs); cbn [orb saw_incm no_chunks];
    try by split; [left|].
  - specialize (Hm u). by destruct (mark_ready u).
  - set (u1 := set_u_cache _ _). specialize (Hm u1). by destruct (mark_ready u1).
Qed.

Lemma handle_upstream_payload_rel payload u :
  rtc ep_step (u_rel u) (u_rel (handle_upstream_payload payload u).2).
Proof.
  destruct (handle_upstream_payload_frame payload u) as [[->| ->] _]; [done|].
  apply rtc_once, ep_step_open.
Qed.

(** Every turn is a sequence of endpoint transitions, so that the invariant of the
    reliable endpoint holds of the session. *)
Lemma session_step_rel i u out u' :
  session_step i u = Continue out u' → rtc ep_step (u_rel u) (u_rel u').
Proof.
  assert (∀ now t1 t2 v, rtc ep_step (u_rel v) (u_rel (flush (M:=M) now t1 t2 v).2)) as Hf.
  { intros now t1 t2 v. destruct (flush_frame now t1 t2 v) as [_ ->]. apply rtc_once.
    apply ep_step_poll. }
  assert (∀ v, rtc ep_step (u_rel v) (u_rel (queue_pending (M:=M) v))) as Hq.
  { intros v. apply rtc_once, ep_step_queue_packed. }
  destruct i as [| |cmd more now t1 t2|data now|ti now t1 t2|]; cbn [session_step]; try done.
  - unfold on_command. destruct (long_enough cmd); [|by intros [= <- <-]].
    set (v := set_pending _ (set_pending _ u)). pose proof (Hf now t1 t2 (queue_pending v)) as H.
    destruct (flush _ _ _ _) as [o w]. intros [= <- <-]. etrans; [|exact H]. exact (Hq v).
  - unfold on_datagram. cbn [u_rel set_u_rel].
    assert (rtc ep_step (u_rel u) (note_recv now (u_rel u))) as H0
      by apply rtc_once, ep_step_recv.
    destruct (decode_packet data) as [[hdr payload]|e] eqn:Hd; [|by intros [= <- <-]].
    apply encode_decode_packet in Hd as (Hok & _ & _ & _). destruct Hok.
    set (r1 := if negb (session_id hdr =? 0)%Z then _ else _).
    set (r2 := if contains (flags hdr) ACK_REPLY || negb (ack_id hdr =? 0)%Z then _ else _).
    assert (rtc ep_step (u_rel u) r2) as H2.
    { etrans; [exact H0|]. trans r1.
      - subst r1. destruct (negb (session_id hdr =? 0)%Z); [|apply rtc_refl]. by apply rtc_once, ep_step_session.
      - subst r2. destruct (_ || _); [|apply rtc_refl]. by apply rtc_once, ep_step_ack. }
    clearbody r2. clear r1.
    assert (∀ r, rtc ep_step (u_rel u) r → ∀ o v,
      (if negb (is_nil payload) then
         handle_upstream_payload payload (set_u_rel r (set_u_rel (note_recv now (u_rel u)) u))
       else ([], set_u_rel r (set_u_rel (note_recv now (u_rel u)) u))) = (o, v) →
      rtc ep_step (u_rel u) (u_rel v)) as Hh.
    { intros r Hr o v. destruct (negb (is_nil payload)); [|by intros [= <- <-]].
      pose proof (handle_upstream_payload_rel payload
        (set_u_rel r (set_u_rel (note_recv now (u_rel u)) u))) as H.
      destruct (handle_upstream_payload _ _). intros [= <- <-]. by etrans. }
    destruct (is_handshake_packet (flags hdr)); [by intros [= <- <-]|].
    destruct (contains (flags hdr) ACK_REQUEST).
    + pose proof (ep_step_accept (packet_id hdr) (contains (flags hdr) IS_RETRANSMIT) r2) as Ha.
      destruct (accept_reliable _ _ r2) as [[] r3]; cbn [negb snd] in *.
      * destruct (if negb (is_nil payload) then _ else _) as [o v] eqn:E. intros [= <- <-].
        eapply Hh; [|exact E]. etrans; [exact H2|]. by apply rtc_once, Ha.
      * intros [= <- <-]. etrans; [exact H2|]. by apply rtc_once, Ha.
    + destruct (if negb (is_nil payload) then _ else _) as [o v] eqn:E. intros [= <- <-].
      by eapply Hh.
  - destruct (is_timed_out ti (u_rel u)); [done|]. unfold on_tick.
    case_bool_decide.
    + pose proof (Hf now t1 t2 u) as H'. destruct (flush _ _ _ _) as [o w]. by intros [= <- <-].
    + pose proof (Hf now t1 t2 (queue_pending u)) as H'. destruct (flush _ _ _ _) as [o w].
      intros [= <- <-]. etrans; [|exact H']. exact (Hq u).
Qed.

(** A session opens exactly on a handshake packet whose status is "accepted"; its
    endpoint acknowledges that packet, expects the id after it, and sends from 1. *)
Lemma session_open_spec t1 t2 reply rel acks :
  session_open t1 t2 reply = Ok (rel, acks) →
  ∃ hdr payload, decode_packet reply = Ok (hdr, payload) ∧
    is_handshake_packet (flags hdr) = true ∧ head payload = Some HANDSHAKE_OK_STATUS ∧
    ep_ok rel ∧ stream rel = [] ∧ rel_session_id rel = session_id hdr ∧ next_send_id rel = 1%Z ∧
    expected_recv (ack rel) = next_packet_id (packet_id hdr) ∧
    ∃ b h, acks = [b] ∧ decode_packet b = Ok (h, []) ∧ flags h = ACK_REPLY ∧
      session_id h = session_id hdr ∧ ack_id h = packet_id hdr.
Proof.
  unfold session_open. destruct (decode_packet reply) as [[hdr payload]|e] eqn:Hd; [|done].
  destruct (is_handshake_packet (flags hdr)) eqn:Hh; [|done]. cbn [negb].
  case_bool_decide as Hs; [done|]. unfold parse_handshake_status in Hs.
  pose proof Hd as (Hok & _)%encode_decode_packet. destruct Hok. intros [= <- <-].
  exists hdr, payload. split_and!; try done.
  - split; cbn; try done; auto with atem; try (unfold is_packet_id, is_u16; lia).
    by intros ? [= <-].
  - destruct (ack_reply_decodes (session_id hdr) (packet_id hdr) 0%Z) as (h & Hdec & Hf & Hs1 & Ha & _);
      [done|done|unfold is_u16; lia|].
    eexists _, h. split; [reflexivity|]. done.
Qed.
End upstream_properties.

(** ** The reconnection loop *)

(** A run of failed sessions doubles the wait from the configured one up to thirty
    seconds; a session that reached readiness resets it. *)
Lemma backoff_failures base n :
  (0 < base ≤ from_secs 30)%Z →
  backoff_sleeps base base (replicate n false) =
    (λ i, Z.min (base * 2 ^ Z.of_nat i) (from_secs 30)) <$> seq 0 n.
Proof.
  intros Hb.
  assert (∀ n i b, b = Z.min (base * 2 ^ Z.of_nat i) (from_secs 30) →
    backoff_sleeps base b (replicate n false) =
      (λ i, Z.min (base * 2 ^ Z.of_nat i) (from_secs 30)) <$> seq i n) as H.
  { clear n. induction n as [|n IH]; intros i b Hi; [done|]. cbn. f_equal; [done|]. apply IH.
    subst b. replace (Z.of_nat (S i)) with (Z.of_nat i + 1)%Z by lia.
    rewrite Z.pow_add_r by lia. change (2 ^ 1)%Z with 2%Z. lia. }
  apply H. cbn. lia.
Qed.

Lemma backoff_reset base b oks :
  backoff_sleeps base b (true :: oks) = base :: backoff_sleeps base base oks.
Proof. done. Qed.

(** No wait is ever shorter than the smaller of the configured wait (itself at
    least 200 ms) and thirty seconds. *)
Lemma backoff_never_short reconnect_ms oks :
  let base := backoff_base reconnect_ms in
  Forall (λ s, Z.min base (from_secs 30) ≤ s ∧ from_millis 200 ≤ s)%Z
    (backoff_sleeps base base oks).
Proof.
  cbv zeta. unfold backoff_base, from_millis. set (base := (Z.max reconnect_ms 200 * 1000000)%Z).
  assert (200000000 ≤ base)%Z by lia.
  assert (∀ b, (Z.min base (from_secs 30) ≤ b)%Z →
    Forall (λ s, Z.min base (from_secs 30) ≤ s ∧ 200 * 1000000 ≤ s)%Z (backoff_sleeps base b oks)) as H';
    [|apply H'; lia].
  unfold from_secs. induction oks as [|ok oks IH]; intros b Hb; [done|].
  destruct ok; cbn; unfold from_secs; (apply Forall_cons; split; [lia|apply IH; lia]).
Qed.

(** A configured wait above thirty seconds does not survive the first failure: the
    second wait is the cap, shorter than the first. *)
Lemma backoff_cap_below_base base :
  (from_secs 30 < base)%Z →
  backoff_sleeps base base [false; false] = [base; from_secs 30].
Proof. intros H. cbn. unfold from_secs in *. do 2 f_equal. lia. Qed.
