(* ===== verification/Server.v ===== *)
(** * The client server

    [crates/atem-proxy/src/server.rs]: the sessions of the clients.  Three tasks
    share the session map: the receive loop ([handle_datagram]), the fan-out of
    upstream events ([on_event]) and the 5 ms tick ([tick]).  Each holds the map's
    lock while it changes it; a handler is a function on the server's state, what
    it sends to clients and to the upstream channel is its output. *)

From S2P Require Export Upstream.
Open Scope nat_scope.

Record ClientSession : Type := {
  rel : ReliableEndpoint;
  dump_sent : bool;
  opened : bool;
  sess_audio : bool;
}.

Definition set_rel (r : ReliableEndpoint) (s : ClientSession) : ClientSession :=
  {| rel := r; dump_sent := dump_sent s; opened := opened s; sess_audio := sess_audio s |}.
Definition set_sess_audio (a : bool) (s : ClientSession) : ClientSession :=
  {| rel := rel s; dump_sent := dump_sent s; opened := opened s; sess_audio := a |}.

Abbreviation Sessions := (gmap SocketAddr ClientSession).

(** The state behind the server: its sessions and session counter, and the filter
    (with the lock broker and transfer lane behind it). *)
Record Server : Type := {
  sessions : Sessions;
  next_sid : Z;
  s_filter : FilterState;
}.

Definition set_sessions (g : Sessions) (s : Server) : Server :=
  {| sessions := g; next_sid := next_sid s; s_filter := s_filter s |}.
Definition set_filter (f : FilterState) (s : Server) : Server :=
  {| sessions := sessions s; next_sid := next_sid s; s_filter := f |}.

Definition server_new : Server :=
  {| sessions := ∅; next_sid := 1; s_filter := CommandFilter_new |}.

(** A datagram to a client, a command to the upstream channel, or a pause. *)
Inductive sv_out : Type :=
  | SvSend (addr : SocketAddr) (pkt : bytes)
  | SvCommand (raw : bytes)
  | SvSleep (d : Duration).

(** The endpoint configuration and initial counters of a client session. *)
Definition client_rel_config : ReliableConfig := {|
  max_in_flight := max_in_flight ReliableConfig_default;
  retransmit_after := retransmit_after ReliableConfig_default;
  ack_coalesce_count := ack_coalesce_count ReliableConfig_default;
  ack_coalesce_after := ack_coalesce_after ReliableConfig_default;
  ping_interval := ping_interval ReliableConfig_default;
  idle_timeout := from_millis 5000;
|}.

Definition new_session (t_new now : Instant) (session : Z) : ClientSession :=
  let r := ReliableEndpoint_new t_new session client_rel_config in
  let r := set_next_send_id r 1 in
  let a := ack r in
  let r := set_ack r
    {| highest_recv := highest_recv a; expected_recv := 1;
       last_ack_sent_at := last_ack_sent_at a; packets_since_ack := packets_since_ack a;
       need_init_ack := need_init_ack a |} in
  {| rel := note_recv now r; dump_sent := false; opened := false; sess_audio := false |}.

Section server.
  Context {M : Type} `{!IndexMap M CacheKey bytes}.
  Context `{!HashIter Z StoreLock} `{!HashIter SocketAddr ClientSession}.

(** ** Datagrams from clients *)

(** The first acknowledgement opens a session and queues its init dump. *)
Definition open_session (g : Inner M) (s : ClientSession) : ClientSession :=
  if opened s then s
  else
    let r := set_rel_opened (rel s) true in
    if dump_sent s then
      {| rel := r; dump_sent := true; opened := true; sess_audio := sess_audio s |}
    else
      {| rel := queue_commands_packed (dump g) r; dump_sent := true; opened := true;
         sess_audio := sess_audio s |}.

(** The loop over the filter's actions. *)
Definition apply_action (st : list bytes * ClientSession) (a : FilterAction.t) :
    list bytes * ClientSession :=
  let '(cmds, s) := st in
  match a with
  | FilterAction.Forward raw => (cmds ++ [raw], s)
  | FilterAction.Dropped _ _ => (cmds, s)
  | FilterAction.AudioSubscribe enable forward =>
      (match forward with Some raw => cmds ++ [raw] | None => cmds end, set_sess_audio enable s)
  end.

(** A [send_to] that fails ends [handle_datagram] with [?]; here every send succeeds.
    What a failure changes is the greeting, whose session is then not inserted
    ([ts_greet_lost] in [Tasks]); a failed retransmit request is only not sent, as
    there are no commands after one.

    The part of [handle_datagram] for a packet of a known session; the commands to
    forward, the retransmit request, the session and the filter. *)
Definition session_datagram (p : FilterPolicy) (hdr : PacketHeader) (payload : bytes)
    (addr : SocketAddr) (g : Inner M) (now : Instant) (s : ClientSession) (f : FilterState) :
    option bytes * list bytes * ClientSession * FilterState :=
  let s := set_rel (note_recv now (rel s)) s in
  let s :=
    if contains (flags hdr) ACK_REPLY || negb (ack_id hdr =? 0)%Z
    then open_session g (set_rel (on_ack_id (ack_id hdr) (rel s)) s) else s in
  if contains (flags hdr) ACK_REQUEST then
    let '(ok, r) :=
      accept_reliable (packet_id hdr) (contains (flags hdr) IS_RETRANSMIT) (rel s) in
    let s := set_rel r s in
    if negb ok then (Some (build_retransmit_request r), [], s, f)
    else if negb (is_nil payload) then
      let '(actions, f) := process_payload p addr now payload f in
      let '(cmds, s) := foldl apply_action ([], s) actions in
      (None, cmds, s, f)
    else (None, [], s, f)
  else (None, [], s, f).

Definition handle_datagram (p : FilterPolicy) (data : bytes) (addr : SocketAddr)
    (connected : bool) (g : Inner M) (t_new now : Instant) (srv : Server) :
    Result ProtocolError (list sv_out * Server) :=
  '(hdr, payload) ← decode_packet data;
  if is_handshake_packet (flags hdr) then
    if negb connected || negb (StateCache_is_ready g) then Ok ([], srv)
    else
      let session := server_session_id (next_sid srv) in
      Ok ([SvSend addr (build_server_handshake_reply session)],
          {| sessions := <[addr := new_session t_new now session]> (sessions srv);
             next_sid := as_u16 (next_sid srv + 1); s_filter := s_filter srv |})
  else
    match sessions srv !! addr with
    | None => Ok ([], srv)
    | Some s =>
        let '(retransmit, cmds, s, f) :=
          session_datagram p hdr payload addr g now s (s_filter srv) in
        Ok (match retransmit with Some req => [SvSend addr req] | None => [] end
              ++ (SvCommand <$> cmds),
            {| sessions := <[addr := s]> (sessions srv); next_sid := next_sid srv;
               s_filter := f |})
    end.

(** The receive loop logs a malformed packet and goes on. *)
Definition on_client_packet (p : FilterPolicy) (data : bytes) (addr : SocketAddr)
    (connected : bool) (g : Inner M) (t_new now : Instant) (srv : Server) :
    list sv_out * Server :=
  match handle_datagram p data addr connected g t_new now srv with
  | Ok r => r
  | Err _ => ([], srv)
  end.

(** ** Events from upstream *)

Definition queue_if (b : bool) (payload : bytes) (s : ClientSession) : ClientSession :=
  if b then set_rel (queue_payload payload (rel s)) s else s.

(** What the broadcast channel yields: an event, or the news that events were lost. *)
Inductive fan_in : Type :=
  | FanEvent (e : UpstreamEvent)
  | FanLagged.

Definition on_event (cfg : MediaConfig) (e : fan_in) (g : Inner M) (srv : Server) : Server :=
  match e with
  | FanEvent Connected => srv
  | FanEvent Disconnected =>
      set_filter (set_lane (TransferLane_clear (f_lane (s_filter srv))) (s_filter srv))
        (set_sessions ∅ srv)
  | FanEvent (StatePayload payload) =>
      set_sessions ((λ s, queue_if (opened s) payload s) <$> sessions srv) srv
  | FanEvent (AudioLevels payload) =>
      set_sessions ((λ s, queue_if (opened s && sess_audio s) payload s) <$> sessions srv) srv
  | FanEvent (TransferPayload payload) =>
      match fanout_owner cfg (f_locks (s_filter srv)) (f_lane (s_filter srv)) with
      | Some owner =>
          match sessions srv !! owner with
          | Some s => set_sessions (<[owner := queue_if (opened s) payload s]> (sessions srv)) srv
          | None => srv
          end
      | None => srv
      end
  | FanLagged =>
      let d := dump g in
      set_sessions
        ((λ s, if opened s then set_rel (queue_commands_packed d (rel s)) s else s) <$> sessions srv)
        srv
  end.

(** ** The tick *)

(** The loop over the sessions: the map, the dead clients and the packets to send;
    [clock] gives the readings inside [poll_outbound] of each session. *)
Definition tick_session (idle : Duration) (now : Instant) (clock : SocketAddr → Instant * Instant)
    (st : Sessions * list SocketAddr * list (SocketAddr * bytes)) (e : SocketAddr * ClientSession) :
    Sessions * list SocketAddr * list (SocketAddr * bytes) :=
  let '(g, dead, packets) := st in
  let '(addr, s) := e in
  if (idle <? duration_since now (last_recv_at (rel s)))%Z then (g, dead ++ [addr], packets)
  else
    let '(t_check, t_build) := clock addr in
    let '(pkts, r) := poll_outbound now t_check t_build (rel s) in
    (<[addr := set_rel r s]> g, dead, packets ++ (pair addr <$> pkts)).

(** Releasing what the dead clients held. *)
Definition release_dead (st : list sv_out * FilterState) (addr : SocketAddr) :
    list sv_out * FilterState :=
  let '(out, f) := st in
  let '(cmds, f) := CommandFilter_client_disconnected addr f in
  (out ++ (SvCommand <$> cmds), f).

(** Sending a packet, after a pause when it is a media chunk and a delay is set. *)
Definition send_paced (cfg : MediaConfig) (lane : Lane) (ap : SocketAddr * bytes) : list sv_out :=
  let '(addr, pkt) := ap in
  let delay := from_millis (chunk_delay_ms cfg) in
  (if (0 <? delay)%Z && bool_decide (current_owner lane = Some addr) && (12 <? length pkt)
   then [SvSleep delay] else []) ++ [SvSend addr pkt].

Definition idle_of (client_idle_ms : Z) : Duration := from_millis (Z.max client_idle_ms 500).

Definition tick (cfg : MediaConfig) (idle : Duration) (now : Instant)
    (clock : SocketAddr → Instant * Instant) (srv : Server) : list sv_out * Server :=
  let '(g, dead, packets) :=
    foldl (tick_session idle now clock) (sessions srv, [], []) (hash_iter (sessions srv)) in
  let g := foldl (λ g addr, delete addr g) g dead in
  let '(out, f) := foldl release_dead ([], s_filter srv) dead in
  (out ++ concat (send_paced cfg (f_lane f) <$> packets), set_filter f (set_sessions g srv)).
End server.

(** ** The session invariant *)

(** Before its first acknowledgement a session has nothing to send and sends
    nothing; the three "opened" flags agree; the endpoint is well formed. *)
Record session_ok (s : ClientSession) : Prop := {
  session_ok_ep : ep_ok (rel s);
  session_ok_opened : rel_opened (rel s) = opened s;
  session_ok_dump : dump_sent s = opened s;
  session_ok_quiet : opened s = false →
    in_flight (rel s) = [] ∧ outbound (rel s) = [] ∧ next_send_id (rel s) = 1%Z;
}.

Lemma new_session_ok t_new now session : is_u16 session → session_ok (new_session t_new now session).
Proof.
  intros H. split; cbn; try done. split; cbn; try done; unfold is_packet_id, is_u16; try lia.
Qed.

Lemma session_ok_set_audio b s : session_ok s → session_ok (set_sess_audio b s).
Proof. by intros []. Qed.

(** An endpoint transition that leaves a silent endpoint silent. *)
Lemma session_ok_set_rel r s :
  session_ok s → ep_ok r → rel_opened r = rel_opened (rel s) →
  (opened s = false → in_flight r = in_flight (rel s) ∧ outbound r = outbound (rel s) ∧
     next_send_id r = next_send_id (rel s)) →
  session_ok (set_rel r s).
Proof.
  intros [] Hr Ho Hq. split; cbn; [done|congruence|done|].
  intros Hs. destruct (Hq Hs) as (-> & -> & ->). by apply session_ok_quiet0.
Qed.

Lemma note_recv_session_ok now s : session_ok s → session_ok (set_rel (note_recv now (rel s)) s).
Proof.
  intros Hs. apply session_ok_set_rel; [done|apply ep_ok_note_recv; apply Hs|done|done].
Qed.

Lemma on_ack_session_ok id s :
  session_ok s → session_ok (set_rel (on_ack_id id (rel s)) s).
Proof.
  intros Hs. apply session_ok_set_rel; [done|apply ep_ok_on_ack_id; apply Hs|done|].
  intros Ho. apply Hs in Ho as (Hi & _). cbn. by rewrite Hi.
Qed.

Lemma accept_session_ok id r s :
  is_u16 id → session_ok s → session_ok (set_rel (accept_reliable id r (rel s)).2 s).
Proof.
  intros Hid Hs. apply session_ok_set_rel; [done|by apply ep_ok_accept_reliable; [|apply Hs]| |].
  - unfold accept_reliable. by repeat case_match.
  - intros _. unfold accept_reliable. by repeat case_match.
Qed.

Lemma queue_session_ok f s :
  session_ok s → opened s = true → session_ok (set_rel (set_outbound (rel s) f) s).
Proof.
  intros Hs Ho. apply session_ok_set_rel; [done|apply ep_ok_set_outbound; apply Hs|done|congruence].
Qed.

Lemma queue_if_session_ok b payload s :
  (b = true → opened s = true) → session_ok s → session_ok (queue_if b payload s).
Proof. intros Hb Hs. destruct b; [|done]. by apply queue_session_ok; [|apply Hb]. Qed.

Lemma poll_session_ok now t1 t2 s :
  session_ok s → session_ok (set_rel (poll_outbound now t1 t2 (rel s)).2 s).
Proof.
  intros Hs. pose proof Hs as [Hep Hop _ Hq].
  assert (rel_opened (poll_outbound now t1 t2 (rel s)).2 = rel_opened (rel s)) as Ho
    by apply poll_outbound_opened.
  destruct (opened s) eqn:E.
  - apply session_ok_set_rel; [done|by apply ep_ok_poll_outbound|done|congruence].
  - destruct (Hq eq_refl) as (Hi & Hout & Hn).
    apply session_ok_set_rel; [done|by apply ep_ok_poll_outbound|done|].
    intros _. by apply poll_outbound_silent.
Qed.

(** ** Opening *)

Lemma on_client_ack_opens {M : Type} `{!IndexMap M CacheKey bytes} (g : Inner M) s :
  session_ok s → opened s = false →
  let s' := open_session g s in
  session_ok s' ∧ opened s' = true ∧ stream (rel s') = pack_commands [] (dump g) ∧
  next_send_id (rel s') = 1%Z ∧ dump_sent s' = true ∧ in_flight (rel s') = [].
Proof.
  intros Hs Ho. unfold open_session. rewrite Ho, (session_ok_dump s Hs), Ho.
  pose proof (session_ok_quiet s Hs Ho) as (Hi & Hout & Hn).
  split_and!; [|done| |done|done|done].
  - split; cbn; [|done|done|done]. apply ep_ok_set_outbound, ep_ok_set_rel_opened, Hs.
  - unfold stream. cbn. by rewrite Hi, Hout.
Qed.

Lemma open_session_ok {M : Type} `{!IndexMap M CacheKey bytes} (g : Inner M) s :
  session_ok s → session_ok (open_session g s).
Proof.
  intros Hs. destruct (opened s) eqn:Ho.
  - unfold open_session. by rewrite Ho.
  - by apply on_client_ack_opens.
Qed.

(** ** The audio flag of a session and the filter's subscribers *)

Section server_properties.
  Context {M : Type} `{!IndexMap M CacheKey bytes}.
  Context `{!HashIter Z StoreLock} `{!HashIter SocketAddr ClientSession}.
  Implicit Types g : Inner M.

(** One command changes the subscription of its sender only, and an action that
    subscribes or unsubscribes it says which. *)
Lemma filter_command_clients p from now c f :
  let '(a, f') := filter_command p from now c f in
  (∀ other, other ≠ from → other ∈ clients (audio f') ↔ other ∈ clients (audio f)) ∧
  match a with
  | FilterAction.AudioSubscribe enable _ => enable = true ↔ from ∈ clients (audio f')
  | _ => clients (audio f') = clients (audio f)
  end.
Proof.
  unfold filter_command, filter_lock, filter_transfer.
  destruct (is_lock_request (name c)).
  { destruct (lock_mode p); [by cbn|]. by destruct (client_lock_request _ _ _ _) as [[] g']; cbn. }
  destruct (is_transfer_command (name c)).
  { destruct (negb _); [by cbn|]. by destruct (client_transfer _ _ _ _ _ _ _) as [[] l]; cbn. }
  destruct (is_audio_levels_subscribe (name c)); [|by cbn].
  rewrite filter_audio_eq. cbn [audio set_audio clients].
  destruct (default true (parse_enable_flag (body c))); split.
  - intros other Ho. rewrite elem_of_union, elem_of_singleton. tauto.
  - split; [|done]. intros _. rewrite elem_of_union, elem_of_singleton. by left.
  - intros other Ho. rewrite elem_of_difference, elem_of_singleton. tauto.
  - split; [done|]. rewrite elem_of_difference, elem_of_singleton. by intros [_ []].
Qed.

Lemma process_commands_clients p from now cs f cmds s :
  (sess_audio s = true → from ∈ clients (audio f)) →
  let '(actions, f') := process_commands p from now cs f in
  let '(cmds', s') := foldl apply_action (cmds, s) actions in
  (∀ other, other ≠ from → other ∈ clients (audio f') ↔ other ∈ clients (audio f)) ∧
  (sess_audio s' = true → from ∈ clients (audio f')) ∧
  cmds' = cmds ++ forwards actions ∧ rel s' = rel s ∧ dump_sent s' = dump_sent s ∧
  opened s' = opened s.
Proof.
  revert f cmds s. induction cs as [|c cs IH]; intros f cmds s Hs; cbn [process_commands].
  { cbn. by rewrite app_nil_r. }
  pose proof (filter_command_clients p from now c f) as Hc.
  destruct (filter_command p from now c f) as [a f1]. destruct Hc as [Hother Ha].
  set (st := apply_action (cmds, s) a).
  assert (st.1 = cmds ++ action_forwards a ∧ (sess_audio st.2 = true → from ∈ clients (audio f1)) ∧
    rel st.2 = rel s ∧ dump_sent st.2 = dump_sent s ∧ opened st.2 = opened s) as (H1 & H2 & H3 & H4 & H5).
  { subst st. destruct a as [r|n r|en [r|]]; cbn; rewrite ?app_nil_r; rewrite ?Ha; try done.
    all: split_and!; try done; by intros ?%Ha. }
  specialize (IH f1 st.1 st.2 H2).
  destruct (process_commands p from now cs f1) as [actions f2]. cbn [foldl]. fold st.
  rewrite <- (surjective_pairing st) in IH.
  destruct (foldl apply_action st actions) as [cmds' s'].
  destruct IH as (IHo & IHa & IHc & IHr & IHd & IHop).
  split_and!; try done.
  - intros other Hne. by rewrite IHo, Hother.
  - rewrite IHc, H1. unfold forwards. cbn [fmap list_fmap concat]. by rewrite app_assoc.
  - by rewrite IHr.
  - by rewrite IHd.
  - by rewrite IHop.
Qed.

Lemma process_payload_clients p from now payload f s :
  (sess_audio s = true → from ∈ clients (audio f)) →
  let '(actions, f') := process_payload p from now payload f in
  let '(cmds', s') := foldl apply_action ([], s) actions in
  (∀ other, other ≠ from → other ∈ clients (audio f') ↔ other ∈ clients (audio f)) ∧
  (sess_audio s' = true → from ∈ clients (audio f')) ∧
  cmds' = forwards actions ∧ rel s' = rel s ∧ dump_sent s' = dump_sent s ∧ opened s' = opened s.
Proof.
  intros Hs. unfold process_payload. destruct (parse_commands payload) as [cs|e]; [|done].
  by apply (process_commands_clients p from now cs f [] s).
Qed.

(** Applying the filter's actions leaves a session's endpoint alone. *)
Lemma process_payload_frame p addr now payload f s :
  let '(actions, f') := process_payload p addr now payload f in
  let '(cmds, s') := foldl apply_action ([], s) actions in
  cmds = forwards actions ∧ rel s' = rel s ∧ opened s' = opened s.
Proof.
  destruct (process_payload p addr now payload f) as [actions f']. unfold forwards.
  assert (∀ cmds, let '(cmds', s') := foldl apply_action (cmds, s) actions in
    cmds' = cmds ++ concat (action_forwards <$> actions) ∧ rel s' = rel s ∧ opened s' = opened s) as H;
    [|exact (H [])].
  revert s. induction actions as [|a actions IH]; intros s cmds; [by rewrite app_nil_r|].
  cbn [foldl fmap list_fmap concat].
  destruct a as [r|n r|en [r|]]; cbn [apply_action action_forwards app];
    [specialize (IH s (cmds ++ [r]))|specialize (IH s cmds)
    |specialize (IH (set_sess_audio en s) (cmds ++ [r]))
    |specialize (IH (set_sess_audio en s) cmds)];
    destruct (foldl apply_action _ actions) as [cmds' s']; destruct IH as (-> & -> & ->);
    by rewrite <- ?app_assoc.
Qed.

(** ** The server invariant *)
Definition server_ok (srv : Server) : Prop :=
  is_u16 (next_sid srv) ∧
  map_Forall (λ addr s, session_ok s ∧ (sess_audio s = true → addr ∈ clients (audio (s_filter srv))))
    (sessions srv).

Lemma server_new_ok : server_ok server_new.
Proof. split; [unfold is_u16; cbn; lia|]. by apply map_Forall_empty. Qed.

(** The sessions alone: every one is well formed. *)
Definition sessions_ok (srv : Server) : Prop :=
  is_u16 (next_sid srv) ∧ map_Forall (λ _, session_ok) (sessions srv).

Lemma server_sessions_ok srv : server_ok srv → sessions_ok srv.
Proof. intros [H1 H2]. split; [done|]. intros a s Hs. by destruct (H2 a s Hs). Qed.

(** The filter's actions touch the audio flag only. *)
Lemma apply_actions_frame actions st :
  let r := foldl apply_action st actions in
  rel r.2 = rel st.2 ∧ dump_sent r.2 = dump_sent st.2 ∧ opened r.2 = opened st.2.
Proof.
  revert st. induction actions as [|a actions IH]; intros st; [done|]. cbn [foldl].
  specialize (IH (apply_action st a)). cbv zeta in *. destruct IH as (-> & -> & ->).
  by destruct st as [cmds s], a.
Qed.

Lemma session_datagram_session_ok p hdr payload addr g now s f :
  header_ok hdr → session_ok s → session_ok (session_datagram p hdr payload addr g now s f).1.2.
Proof.
  intros [] Hs. unfold session_datagram. cbn [rel set_rel].
  set (s1 := set_rel (note_recv now (rel s)) s).
  assert (session_ok s1) as H1 by by apply note_recv_session_ok.
  set (s2 := if contains (flags hdr) ACK_REPLY || negb (ack_id hdr =? 0)%Z then _ else _).
  assert (session_ok s2) as H2.
  { subst s2. destruct (_ || _); [|done]. apply open_session_ok. exact (on_ack_session_ok (ack_id hdr) s1 H1). }
  clearbody s2. destruct (contains (flags hdr) ACK_REQUEST); [|exact H2].
  pose proof (accept_session_ok (packet_id hdr) (contains (flags hdr) IS_RETRANSMIT) s2 ltac:(done) H2) as H3.
  destruct (accept_reliable _ _ (rel s2)) as [ok r]. cbn [snd] in H3.
  destruct ok; cbn [negb]; [|exact H3]. destruct (is_nil payload); cbn [negb]; [exact H3|].
  destruct (process_payload p addr now payload f) as [actions f'].
  pose proof (apply_actions_frame actions ([], set_rel r s2)) as Ha.
  destruct (foldl apply_action _ actions) as [cmds s']. destruct Ha as (Hr & Hd & Ho). cbn [snd] in *.
  destruct H3 as [E1 E2 E3 E4]. cbn [fst snd]. split; rewrite ?Hr, ?Hd, ?Ho; done.
Qed.

Lemma session_datagram_ok p hdr payload addr g now s f :
  header_ok hdr → session_ok s → (sess_audio s = true → addr ∈ clients (audio f)) →
  let '(req, cmds, s', f') := session_datagram p hdr payload addr g now s f in
  session_ok s' ∧ (sess_audio s' = true → addr ∈ clients (audio f')) ∧
  (∀ other, other ≠ addr → other ∈ clients (audio f') ↔ other ∈ clients (audio f)).
Proof.
  intros Hh Hs Ha. pose proof (session_datagram_session_ok p hdr payload addr g now s f Hh Hs) as Hok.
  unfold session_datagram in *. cbn [rel set_rel] in *.
  set (s1 := set_rel (note_recv now (rel s)) s) in *.
  set (s2 := if contains (flags hdr) ACK_REPLY || negb (ack_id hdr =? 0)%Z then _ else _) in *.
  assert (sess_audio s2 = sess_audio s) as A2.
  { subst s2. destruct (_ || _); [|done]. unfold open_session. by repeat case_match. }
  clearbody s2. destruct (contains (flags hdr) ACK_REQUEST); [|by rewrite A2].
  destruct (accept_reliable _ _ (rel s2)) as [ok r].
  destruct ok; cbn [negb] in *; [|split; [exact Hok|cbn; by rewrite A2]].
  destruct (is_nil payload); cbn [negb] in *; [split; [exact Hok|cbn; by rewrite A2]|].
  pose proof (process_payload_clients p addr now payload f (set_rel r s2)) as Hp.
  cbn [sess_audio set_rel] in Hp. rewrite A2 in Hp. specialize (Hp Ha).
  destruct (process_payload p addr now payload f) as [actions f'].
  destruct (foldl apply_action _ actions) as [cmds s'].
  destruct Hp as (Hother & Haud & _). by split_and!.
Qed.

Lemma handle_datagram_ok p data addr connected g t_new now srv :
  server_ok srv → server_ok (on_client_packet p data addr connected g t_new now srv).2.
Proof.
  intros Hsrv. unfold on_client_packet, handle_datagram.
  destruct (decode_packet data) as [[hdr payload]|e] eqn:Hd; cbn [mbind Result_bind]; [|done].
  apply encode_decode_packet in Hd as (Hok & _). destruct Hsrv as [Hsid Hall].
  destruct (is_handshake_packet (flags hdr)).
  { destruct (negb connected || _); [done|]. cbn [snd]. split; [apply as_u16_range|].
    cbn [sessions s_filter]. apply map_Forall_insert_2; [|done]. split; [|done].
    apply new_session_ok. unfold is_u16 in *. rewrite server_session_id_value by lia. lia. }
  destruct (sessions srv !! addr) as [s|] eqn:Hs; [|done].
  destruct (Hall addr s Hs) as [Hsok Haud].
  pose proof (session_datagram_ok p hdr payload addr g now s (s_filter srv) Hok Hsok Haud) as H.
  destruct (session_datagram _ _ _ _ _ _ _ _) as [[[req cmds] s'] f']. cbn [snd].
  destruct H as (H1 & H2 & H3). split; [done|]. cbn [sessions s_filter].
  intros a s1 Ha. destruct (decide (a = addr)) as [->|Hne].
  - rewrite lookup_insert_eq in Ha. by simplify_eq.
  - rewrite lookup_insert_ne in Ha by done. destruct (Hall a s1 Ha) as [? Hau].
    split; [done|]. intros ?. by apply H3, Hau.
Qed.

Lemma handle_datagram_sessions_ok p data addr connected g t_new now srv :
  sessions_ok srv → sessions_ok (on_client_packet p data addr connected g t_new now srv).2.
Proof.
  intros Hsrv. unfold on_client_packet, handle_datagram.
  destruct (decode_packet data) as [[hdr payload]|e] eqn:Hd; cbn [mbind Result_bind]; [|done].
  apply encode_decode_packet in Hd as (Hok & _). destruct Hsrv as [Hsid Hall].
  destruct (is_handshake_packet (flags hdr)).
  { destruct (negb connected || _); [done|]. cbn [snd]. split; [apply as_u16_range|].
    cbn [sessions]. apply map_Forall_insert_2; [|done].
    apply new_session_ok. unfold is_u16 in *. rewrite server_session_id_value by lia. lia. }
  destruct (sessions srv !! addr) as [s|] eqn:Hs; [|done].
  pose proof (session_datagram_session_ok p hdr payload addr g now s (s_filter srv) Hok (Hall addr s Hs)) as H.
  destruct (session_datagram _ _ _ _ _ _ _ _) as [[[req cmds] s'] f']. cbn [snd fst] in *.
  split; [done|]. by apply map_Forall_insert_2.
Qed.

(** An event leaves a session well formed and its audio flag alone. *)
Lemma on_event_session cfg e g srv a s' :
  sessions (on_event cfg e g srv) !! a = Some s' →
  ∃ s, sessions srv !! a = Some s ∧ (session_ok s → session_ok s') ∧ sess_audio s' = sess_audio s.
Proof.
  assert (∀ f : ClientSession → ClientSession,
    (∀ s, (session_ok s → session_ok (f s)) ∧ sess_audio (f s) = sess_audio s) →
    (f <$> sessions srv) !! a = Some s' →
    ∃ s, sessions srv !! a = Some s ∧ (session_ok s → session_ok s') ∧ sess_audio s' = sess_audio s) as Hf.
  { intros f Hf (s & <- & Hs)%lookup_fmap_Some. exists s. split; [done|apply Hf]. }
  assert (∀ s, sessions srv !! a = Some s → s = s' →
    ∃ s, sessions srv !! a = Some s ∧ (session_ok s → session_ok s') ∧ sess_audio s' = sess_audio s) as Hid.
  { intros s Hs ->. by exists s'. }
  destruct e as [[| |payload|payload|payload]|]; cbn [on_event].
  - intros Hs. by eapply Hid.
  - cbn. intros Hs. by rewrite lookup_empty in Hs.
  - apply Hf. intros s. split; [by apply queue_if_session_ok|]. by destruct (opened s).
  - apply Hf. intros s. split; [|by destruct (opened s && sess_audio s)].
    apply queue_if_session_ok. by intros [? _]%andb_true_iff.
  - destruct (fanout_owner _ _ _) as [owner|]; [|intros Hs; by eapply Hid].
    destruct (sessions srv !! owner) as [s|] eqn:Hs; [|intros Hs'; by eapply Hid].
    cbn [sessions set_sessions]. intros [[<- <-]|[Hne Hs']]%lookup_insert_Some; [|by eapply Hid].
    exists s. split; [done|]. split; [by apply queue_if_session_ok|]. by destruct (opened s).
  - apply Hf. intros s. destruct (opened s) eqn:Ho; [|done]. split; [|done].
    intros ?. by apply queue_session_ok.
Qed.

Lemma on_event_next_sid cfg e g srv :
  next_sid (on_event cfg e g srv) = next_sid srv ∧
  (∀ a, a ∈ clients (audio (s_filter (on_event cfg e g srv))) ↔ a ∈ clients (audio (s_filter srv))).
Proof. destruct e as [[| |payload|payload|payload]|]; cbn [on_event]; by repeat case_match. Qed.

Lemma on_event_ok cfg e g srv : server_ok srv → server_ok (on_event cfg e g srv).
Proof.
  intros [Hsid Hall]. destruct (on_event_next_sid cfg e g srv) as [Hn Hc]. split; [by rewrite Hn|].
  intros a s' (s & Hs & Hok & Ha)%on_event_session. destruct (Hall a s Hs) as [H1 H2].
  split; [by apply Hok|]. rewrite Ha, Hc. exact H2.
Qed.

Lemma on_event_sessions_ok cfg e g srv : sessions_ok srv → sessions_ok (on_event cfg e g srv).
Proof.
  intros [Hsid Hall]. destruct (on_event_next_sid cfg e g srv) as [Hn _]. split; [by rewrite Hn|].
  intros a s' (s & Hs & Hok & _)%on_event_session. by apply Hok, (Hall a).
Qed.

(** ** The tick *)

Definition expired (idle now : Z) (s : ClientSession) : bool :=
  (idle <? duration_since now (last_recv_at (rel s)))%Z.

Definition polled (now : Instant) (clock : SocketAddr → Instant * Instant) (addr : SocketAddr)
    (s : ClientSession) : list bytes * ReliableEndpoint :=
  poll_outbound now (clock addr).1 (clock addr).2 (rel s).

Definition tick_update (idle now : Z) (clock : SocketAddr → Instant * Instant)
    (addr : SocketAddr) (s : ClientSession) : ClientSession :=
  if expired idle now s then s else set_rel (polled now clock addr s).2 s.

Lemma tick_loop idle now clock l (g : Sessions) dead packets :
  NoDup l.*1 → (∀ a s, (a, s) ∈ l → g !! a = Some s) →
  foldl (tick_session idle now clock) (g, dead, packets) l =
    (foldl (λ m '(a, s), <[a := tick_update idle now clock a s]> m) g l,
     dead ++ omap (λ '(a, s), if expired idle now s then Some a else None) l,
     packets ++ concat ((λ '(a, s), if expired idle now s then []
                                    else pair a <$> (polled now clock a s).1) <$> l)).
Proof.
  revert g dead packets. induction l as [|[a s] l IH]; intros g dead packets Hnd Hl; cbn.
  { by rewrite !app_nil_r. }
  cbn in Hnd. apply NoDup_cons in Hnd as [Ha Hnd].
  assert (∀ s', ∀ a1 s1, (a1, s1) ∈ l → <[a := s']> g !! a1 = Some s1) as Hl'.
  { intros s' a1 s1 Hin. rewrite lookup_insert_ne; [apply Hl; by right|].
    intros ->. by apply (list_elem_of_fmap_2 fst) in Hin. }
  unfold tick_update at 2. fold (expired idle now s). destruct (expired idle now s) eqn:E.
  - rewrite IH; [|done|intros a1 s1 Hin; apply Hl; by right].
    rewrite (insert_id g a s) by (apply Hl; by left). by rewrite <- app_assoc.
  - unfold polled at 1 2. destruct (clock a) as [t1 t2]. cbn [fst snd].
    destruct (poll_outbound now t1 t2 (rel s)) as [pkts r] eqn:Ep. cbn [fst snd].
    rewrite (IH _ _ _ Hnd (Hl' _)). by rewrite <- app_assoc.
Qed.

Lemma tick_sessions cfg idle now clock srv a :
  sessions (tick cfg idle now clock srv).2 !! a =
    (s ← sessions srv !! a;
     if expired idle now s then None else Some (set_rel (polled now clock a s).2 s)).
Proof.
  unfold tick. rewrite tick_loop; [|apply hash_iter_NoDup|intros ? ?; apply elem_of_hash_iter].
  cbn [app]. set (dead := omap _ _). destruct (foldl release_dead _ dead) as [out f].
  cbn [snd sessions set_filter set_sessions].
  assert (∀ (l : list SocketAddr) (m : Sessions),
    foldl (λ (g : Sessions) addr, delete addr g) m l !! a = if decide (a ∈ l) then None else m !! a) as Hdel.
  { induction l as [|b l IH]; intros m; [done|]. cbn [foldl]. rewrite IH.
    destruct (decide (a ∈ l)) as [Hin|Hin].
    - by rewrite decide_True by by right.
    - destruct (decide (a = b)) as [->|Hne].
      + rewrite lookup_delete_eq. by rewrite decide_True by by left.
      + rewrite lookup_delete_ne by done. rewrite decide_False; [done|].
        rewrite elem_of_cons. by intros [?|?]. }
  rewrite Hdel, hash_iter_update. subst dead.
  destruct (sessions srv !! a) as [s|] eqn:Hs.
  - cbn [fmap option_fmap option_map mbind option_bind]. unfold tick_update.
    destruct (expired idle now s) eqn:E.
    + rewrite decide_True; [done|]. apply list_elem_of_omap. exists (a, s).
      rewrite E. split; [by apply elem_of_hash_iter|done].
    + rewrite decide_False; [done|]. intros ([a1 s1] & Hin & He)%list_elem_of_omap.
      apply elem_of_hash_iter in Hin. destruct (expired idle now s1) eqn:E1; [|done]. injection He as ->. congruence.
  - by case_decide.
Qed.

(** The filter after a tick: everyone who timed out has been disconnected. *)
Lemma release_dead_spec l out f :
  (∀ a, a ∈ clients (audio (foldl release_dead (out, f) l).2) ↔ a ∈ clients (audio f) ∧ (a ∉ l)) ∧
  (∀ a, a ∈ l → is_owner a (f_locks (foldl release_dead (out, f) l).2) = false ∧
                current_owner (f_lane (foldl release_dead (out, f) l).2) ≠ Some a) ∧
  (∀ a, (a ∉ l) → ∀ store,
     owner_of store (f_locks (foldl release_dead (out, f) l).2) = Some a ↔
     owner_of store (f_locks f) = Some a) ∧
  (∀ a, (a ∉ l) → current_owner (f_lane (foldl release_dead (out, f) l).2) = Some a ↔
     current_owner (f_lane f) = Some a).
Proof.
  revert out f. induction l as [|b l IH]; intros out f.
  { cbn. split_and!; try done.
    - intros a. by rewrite elem_of_nil; tauto.
    - by intros a ?%elem_of_nil. }
  cbn [foldl]. pose proof (filter_client_disconnected b f) as Hb.
  cbn [release_dead]. destruct (CommandFilter_client_disconnected b f) as [cmds f1].
  destruct Hb as (Hcl & Hown & Hcur & Hoth).
  destruct (IH (out ++ (SvCommand <$> cmds)) f1) as (IH1 & IH2 & IH3 & IH4).
  split_and!.
  - intros a. rewrite IH1, Hcl, elem_of_difference, elem_of_singleton, elem_of_cons. tauto.
  - intros a Ha. destruct (decide (a ∈ l)) as [Hin|Hin]; [by apply IH2|].
    apply elem_of_cons in Ha as [->|Ha]; [|done]. split.
    + apply not_true_is_false. intros (store & Hst)%is_owner_spec. apply IH3 in Hst; [|done].
      apply not_true_iff_false in Hown. apply Hown, is_owner_spec. by exists store.
    + intros Hc. by apply IH4 in Hc.
  - intros a Ha store. apply not_elem_of_cons in Ha as [Hne Ha]. rewrite (IH3 a Ha).
    by apply Hoth.
  - intros a Ha. apply not_elem_of_cons in Ha as [Hne Ha]. rewrite (IH4 a Ha). by apply Hoth.
Qed.
End server_properties.

(** ** The server as a transition system *)

Section server_steps.
  Context {M : Type} `{!IndexMap M CacheKey bytes}.
  Context `{!HashIter Z StoreLock} `{!HashIter SocketAddr ClientSession}.
  Implicit Types g : Inner M.

(** What wakes the server's tasks; the flag and the cache are those it finds. *)
Inductive server_op : Type :=
  | OpDatagram (data : bytes) (addr : SocketAddr) (up : bool) (g : Inner M) (t_new now : Instant)
  | OpEvent (e : fan_in) (g : Inner M)
  | OpTick (now : Instant) (clock : SocketAddr → Instant * Instant).

Definition server_do (p : FilterPolicy) (client_idle_ms : Z) (srv : Server) (op : server_op) :
    list sv_out * Server :=
  match op with
  | OpDatagram data addr up g t_new now => on_client_packet p data addr up g t_new now srv
  | OpEvent e g => ([], on_event (transfer_cfg p) e g srv)
  | OpTick now clock => tick (transfer_cfg p) (idle_of client_idle_ms) now clock srv
  end.

Lemma tick_filter cfg idle now clock srv :
  ∃ dead out, (∀ a, a ∈ dead ↔ ∃ s, sessions srv !! a = Some s ∧ expired idle now s = true) ∧
    foldl release_dead ([], s_filter srv) dead = (out, s_filter (tick cfg idle now clock srv).2) ∧
    next_sid (tick cfg idle now clock srv).2 = next_sid srv ∧
    ∀ raw, SvCommand raw ∈ (tick cfg idle now clock srv).1 ↔ SvCommand raw ∈ out.
Proof.
  unfold tick. rewrite tick_loop; [|apply hash_iter_NoDup|intros ? ?; apply elem_of_hash_iter].
  cbn [app]. set (dead := omap _ _). set (packets := concat _).
  destruct (foldl release_dead ([], s_filter srv) dead) as [out f] eqn:E.
  exists dead, out. split_and!; [|done|done|].
  - intros a. subst dead. rewrite list_elem_of_omap. split.
    + intros ([a1 s1] & Hin & He). apply elem_of_hash_iter in Hin.
      destruct (expired idle now s1) eqn:E1; [|done]. injection He as ->. eauto.
    + intros (s & Hs & He). exists (a, s). rewrite He. split; [by apply elem_of_hash_iter|done].
  - intros raw. cbn [fst]. rewrite elem_of_app. split; [|by left]. intros [?|Hin]; [done|].
    exfalso. apply list_elem_of_In, in_concat in Hin as (l & Hl & Hr).
    apply list_elem_of_In, list_elem_of_fmap in Hl as ([a pkt] & -> & _). cbn in Hr.
    destruct (_ && _); cbn in Hr; repeat (destruct Hr as [Hr|Hr]; [done|]); done.
Qed.

Lemma tick_ok cfg idle now clock srv : server_ok srv → server_ok (tick cfg idle now clock srv).2.
Proof.
  intros [Hsid Hall].
  destruct (tick_filter cfg idle now clock srv) as (dead & out & Hdead & Hf & Hn & _).
  split; [by rewrite Hn|]. intros a s' Ha. rewrite tick_sessions in Ha.
  apply bind_Some in Ha as (s & Hs & Ha). destruct (Hall a s Hs) as [H1 H2].
  destruct (expired idle now s) eqn:E; [done|]. injection Ha as <-.
  split; [by apply poll_session_ok|]. cbn [sess_audio set_rel]. intros Haud.
  pose proof (release_dead_spec dead [] (s_filter srv)) as (Hcl & _). rewrite Hf in Hcl.
  apply Hcl. split; [by apply H2|]. rewrite Hdead. intros (s1 & Hs1 & He). congruence.
Qed.

Lemma tick_sessions_ok cfg idle now clock srv :
  sessions_ok srv → sessions_ok (tick cfg idle now clock srv).2.
Proof.
  intros [Hsid Hall].
  destruct (tick_filter cfg idle now clock srv) as (dead & out & _ & _ & Hn & _).
  split; [by rewrite Hn|]. intros a s' Ha. rewrite tick_sessions in Ha.
  apply bind_Some in Ha as (s & Hs & Ha). destruct (expired idle now s); [done|]. injection Ha as <-.
  apply poll_session_ok. by apply (Hall a).
Qed.

(** Every session of every reachable server is well formed: its endpoint satisfies
    the endpoint invariant, nothing is queued, in flight or numbered before the
    client's first acknowledgement, and a session marked for audio is counted by
    the filter. *)
Lemma server_invariant p client_idle_ms ops :
  server_ok (foldl (λ srv op, (server_do p client_idle_ms srv op).2) server_new ops).
Proof.
  assert (∀ srv, server_ok srv →
    server_ok (foldl (λ srv op, (server_do p client_idle_ms srv op).2) srv ops)) as H;
    [|apply H, server_new_ok].
  induction ops as [|op ops IH]; intros srv Hsrv; [done|]. cbn [foldl]. apply IH.
  destruct op as [data addr up g t_new now|e g|now clock]; cbn [server_do].
  - by apply handle_datagram_ok.
  - by apply on_event_ok.
  - by apply tick_ok.
Qed.


(** Traffic from an address without a session changes nothing and is not answered. *)
Lemma unknown_client_ignored p addr up g t_new now srv data hdr payload :
  decode_packet data = Ok (hdr, payload) → is_handshake_packet (flags hdr) = false →
  sessions srv !! addr = None →
  on_client_packet p data addr up g t_new now srv = ([], srv).
Proof.
  intros Hd Hh Hs. unfold on_client_packet, handle_datagram. rewrite Hd. cbn [mbind Result_bind].
  by rewrite Hh, Hs.
Qed.

(** C13. A session opens with the dump.  The first packet that carries an acknowledgement
    (by its flag or by its field) and no data opens the session and queues the dump of
    the cache as it is then: nothing else is pending, and it goes out from packet id 1
    on.  Nothing is answered or forwarded, and no other session, no lock, lane or
    subscription changes. *)
Lemma first_ack_queues_dump p addr up g t_new now srv data hdr s :
  decode_packet data = Ok (hdr, []) → is_handshake_packet (flags hdr) = false →
  contains (flags hdr) ACK_REPLY || negb (ack_id hdr =? 0)%Z = true →
  contains (flags hdr) ACK_REQUEST = false →
  sessions srv !! addr = Some s → session_ok s → opened s = false →
  let '(out, srv') := on_client_packet p data addr up g t_new now srv in
  out = [] ∧ s_filter srv' = s_filter srv ∧ next_sid srv' = next_sid srv ∧
  (∀ a, a ≠ addr → sessions srv' !! a = sessions srv !! a) ∧
  ∃ s', sessions srv' !! addr = Some s' ∧ opened s' = true ∧ dump_sent s' = true ∧
    stream (rel s') = pack_commands [] (dump g) ∧ in_flight (rel s') = [] ∧
    next_send_id (rel s') = 1%Z.
Proof.
  intros Hd Hh Hr Hq Hs Hok Ho. unfold on_client_packet, handle_datagram. rewrite Hd.
  cbn [mbind Result_bind]. rewrite Hh, Hs. unfold session_datagram. rewrite Hr, Hq.
  set (s1 := set_rel (note_recv now (rel s)) s).
  assert (session_ok (set_rel (on_ack_id (ack_id hdr) (rel s1)) s1)) as Hok1
    by by apply on_ack_session_ok, note_recv_session_ok.
  destruct (on_client_ack_opens g _ Hok1) as (_ & Hop & Hst & Hn & Hds & Hi); [done|].
  cbn [sessions s_filter next_sid fst snd]. split_and!; [done|done|done| |].
  - intros a Ha. by rewrite lookup_insert_ne.
  - eexists. split; [apply lookup_insert_eq|]. split_and!; try done.
Qed.

(** C11. In-order, at-most-once commands: of a reliable packet, only one with the next
    expected id has its commands processed, and it moves the expectation on, so
    that a repetition is not processed again; any other is answered with a request
    for the expected id. *)
Lemma client_commands_in_order p addr up g t_new now srv data hdr payload s :
  decode_packet data = Ok (hdr, payload) → is_handshake_packet (flags hdr) = false →
  contains (flags hdr) ACK_REQUEST = true →
  sessions srv !! addr = Some s →
  let '(out, srv') := on_client_packet p data addr up g t_new now srv in
  ∃ s', sessions srv' !! addr = Some s' ∧
  if decide (packet_id hdr = expected_recv (ack (rel s))) then
    expected_recv (ack (rel s')) = next_packet_id (packet_id hdr) ∧
    let '(actions, f') :=
      if is_nil payload then ([], s_filter srv) else process_payload p addr now payload (s_filter srv) in
    out = SvCommand <$> forwards actions ∧ s_filter srv' = f'
  else
    expected_recv (ack (rel s')) = expected_recv (ack (rel s)) ∧ s_filter srv' = s_filter srv ∧
    ∃ req, out = [SvSend addr req] ∧
      req = build_retransmit_request (rel s').
Proof.
  intros Hd Hh Hq Hs. unfold on_client_packet, handle_datagram. rewrite Hd.
  cbn [mbind Result_bind]. rewrite Hh, Hs. unfold session_datagram. rewrite Hq.
  cbn [rel set_rel]. set (s1 := set_rel (note_recv now (rel s)) s).
  set (s2 := if contains (flags hdr) ACK_REPLY || negb (ack_id hdr =? 0)%Z then _ else _).
  assert (ack (rel s2) = ack (rel s)) as Hack.
  { subst s2. destruct (_ || _); [|done]. unfold open_session. by repeat case_match. }
  clearbody s2. unfold accept_reliable. rewrite Hack.
  destruct (Z.eqb_spec (packet_id hdr) (expected_recv (ack (rel s)))) as [He|He].
  - cbn [negb]. destruct (is_nil payload); cbn [negb].
    + eexists. split; [apply lookup_insert_eq|]. rewrite decide_True by done. cbn. by rewrite He.
    + set (s3 := set_rel _ s2).
      pose proof (process_payload_frame p addr now payload (s_filter srv) s3) as Hfr.
      destruct (process_payload p addr now payload (s_filter srv)) as [actions f'].
      destruct (foldl apply_action _ actions) as [cmds' s'].
      destruct Hfr as (-> & Hrel & _). eexists. split; [apply lookup_insert_eq|].
      rewrite decide_True by done. rewrite Hrel. subst s3. cbn. by rewrite He.
  - destruct (contains (flags hdr) IS_RETRANSMIT && _); cbn [negb];
      (eexists; split; [apply lookup_insert_eq|]; rewrite decide_False by done;
       cbn [rel set_rel]; rewrite Hack; split_and!; [done|done|]; by eexists).
Qed.

(** C22. Idle clients: a tick removes exactly the sessions that have been silent for
    longer than the configured time (half a second at least); what they held is
    released, and everyone else's locks, lane and subscriptions stay. *)
Lemma tick_expires cfg client_idle_ms now clock srv a :
  let idle := idle_of client_idle_ms in
  let srv' := (tick cfg idle now clock srv).2 in
  let gone := ∃ s, sessions srv !! a = Some s ∧ expired idle now s = true in
  (from_millis 500 ≤ idle)%Z ∧
  (is_Some (sessions srv' !! a) ↔ is_Some (sessions srv !! a) ∧ ¬ gone) ∧
  (gone → (a ∉ clients (audio (s_filter srv'))) ∧ is_owner a (f_locks (s_filter srv')) = false ∧
          current_owner (f_lane (s_filter srv')) ≠ Some a) ∧
  (¬ gone → (a ∈ clients (audio (s_filter srv')) ↔ a ∈ clients (audio (s_filter srv))) ∧
            (∀ store, owner_of store (f_locks (s_filter srv')) = Some a ↔
                      owner_of store (f_locks (s_filter srv)) = Some a) ∧
            (current_owner (f_lane (s_filter srv')) = Some a ↔
             current_owner (f_lane (s_filter srv)) = Some a)).
Proof.
  cbv zeta. set (idle := idle_of client_idle_ms).
  destruct (tick_filter cfg idle now clock srv) as (dead & out & Hdead & Hf & _ & _).
  pose proof (release_dead_spec dead [] (s_filter srv)) as (H1 & H2 & H3 & H4).
  rewrite Hf in *. cbn [snd] in *. split; [unfold idle, idle_of, from_millis; lia|]. split.
  - rewrite tick_sessions. destruct (sessions srv !! a) as [s|] eqn:Hs; cbn.
    + destruct (expired idle now s) eqn:E; split.
      * by intros [].
      * intros [_ []]. by exists s.
      * intros _. split; [by eexists|]. intros (s' & Hs' & He). congruence.
      * intros _. by eexists.
    + split; [by intros []|by intros [[] _]].
  - split; intros Hg.
    + apply Hdead in Hg. split; [|by apply H2]. rewrite H1. tauto.
    + rewrite <- Hdead in Hg. split_and!; [|by apply H3|by apply H4]. rewrite H1. tauto.
Qed.

(** C37. When the switcher is lost, every session and the transfer lane are dropped, but
    the filter's subscribers stay.  A subscriber that is gone for good therefore
    silences audio for everyone: once the switcher is back, the subscription of a
    new client is not forwarded. *)
Lemma stale_subscriber_silences_audio p e_now g srv stale c from :
  stale ∈ clients (audio (s_filter srv)) →
  frame_ok c → is_audio_levels_subscribe (name c) = true →
  default true (parse_enable_flag (body c)) = true →
  let srv' := on_event (transfer_cfg p) (FanEvent Disconnected) g srv in
  sessions srv' = ∅ ∧ current_owner (f_lane (s_filter srv')) = None ∧
  forwards (process_payload p from e_now (raw c) (s_filter srv')).1 = [].
Proof.
  intros Hin Hc Ha He. cbn [on_event]. split_and!; [done|done|].
  set (f := s_filter _). assert (clients (audio f) ≠ ∅) as Hne.
  { intros H. change (clients (audio f)) with (clients (audio (s_filter srv))) in H.
    rewrite H in Hin. by apply elem_of_empty in Hin. }
  destruct (filter_classes_disjoint (name c)) as [Hd1 Hd2].
  unfold process_payload. rewrite frame_ok_parse_raw by done. cbn [process_commands].
  unfold filter_command.
  destruct (is_lock_request (name c)) eqn:Hl; [by destruct (Hd1 eq_refl); congruence|].
  destruct (is_transfer_command (name c)) eqn:Ht; [by rewrite Hd2 in Ha|].
  rewrite Ha, filter_audio_eq, He. cbn [fst]. rewrite bool_decide_true; [done|].
  split; [done|]. by intros ?%gset_union_singleton_ne.
Qed.
End server_steps.
