(* ===== verification/Link.v ===== *)
(** * Two endpoints and the network between them

    Each endpoint of [Reliable] is proved against arbitrary packets; here two of
    them talk over a network that loses, duplicates and reorders datagrams.  The
    theorems are about a transition system of two [ReliableEndpoint]s in which each
    side queues, polls and receives as [run_session] (upstream.rs) and
    [handle_datagram] (server.rs) do. *)

From S2P Require Export Server Stream.
Open Scope Z_scope.

(** ** What one poll does *)

(** What one poll does: the window keeps its entries and gains [news], taken from
    the front of the queue and at most one ping; every packet sent is an entry of
    the new window, possibly marked, or the acknowledgement of the last packet
    accepted. *)
Record polled_window (t1 : Instant) (ep : ReliableEndpoint) (out : list bytes) (ep' : ReliableEndpoint)
    (news : list InFlightEntry) : Prop := {
  pw_window : ∃ old, in_flight ep' = old ++ news ∧ length old = length (in_flight ep) ∧
    (entry_payload <$> old) = entry_payload <$> in_flight ep ∧
    (Forall entry_decodes (in_flight ep) → Forall entry_decodes old);
  pw_news : Forall entry_decodes news;
  pw_queue : nonempty (entry_payload <$> news) ++ nonempty (outbound ep') = nonempty (outbound ep);
  pw_outbound : ∃ k, outbound ep' = drop k (outbound ep);
  pw_out : Forall (λ b,
    (∃ e, e ∈ in_flight ep' ∧ (b = entry_bytes e ∨ b = mark_retransmit (entry_bytes e))) ∨
    (should_send_ack t1 ep = true ∧
     ∃ id, highest_recv (ack ep) = Some id ∧ b = ack_packet (rel_session_id ep) id)) out;
  pw_count : packets_since_ack (ack ep') = packets_since_ack (ack ep) ∨
    should_send_ack t1 ep = true ∧ packets_since_ack (ack ep') = 0;
  pw_expected : expected_recv (ack ep') = expected_recv (ack ep);
  pw_highest : highest_recv (ack ep') = highest_recv (ack ep);
  pw_config : config ep' = config ep;
  pw_session : rel_session_id ep' = rel_session_id ep;
  pw_next : next_send_id ep' = (next_send_id ep + Z.of_nat (length news)) mod 32768;
}.

Lemma polled_window_ping now ep :
  is_u16 (rel_session_id ep) → is_packet_id (next_send_id ep) →
  let '(out, ep') := ping_phase now ep in
  ∃ news, out = entry_bytes <$> news ∧ in_flight ep' = in_flight ep ++ news ∧
    Forall entry_decodes news ∧ nonempty (entry_payload <$> news) = [] ∧
    outbound ep' = outbound ep ∧ ack ep' = ack ep ∧ config ep' = config ep ∧
    rel_session_id ep' = rel_session_id ep ∧
    next_send_id ep' = (next_send_id ep + Z.of_nat (length news)) mod 32768.
Proof.
  intros Hs Hn. unfold ping_phase.
  match goal with |- context [if ?c then _ else _] => destruct c end;
    [|exists []; unfold is_packet_id in Hn; cbn; by rewrite app_nil_r, Z.add_0_r, Z.mod_small].
  destruct (send_packet_decodes now [] ep Hs Hn) as (e & He & Hi & Hd & Hp);
    [unfold fits; cbn; lia|].
  destruct (send_packet now [] ep) as [b ep1] eqn:E. cbn [fst snd] in *.
  injection E as _ <-. exists [e]. split_and!; try done; [by rewrite He|by apply Forall_singleton| |].
  - cbn [fmap list_fmap]. by rewrite Hp.
  - by apply next_packet_id_value.
Qed.

Lemma poll_outbound_window now t1 t2 ep :
  ep_ok ep → Forall fits (outbound ep) →
  let '(out, ep') := poll_outbound now t1 t2 ep in ∃ news, polled_window t1 ep out ep' news.
Proof.
  intros Hep Hq. unfold poll_outbound, send_phase.
  pose proof (ep_ok_retransmit_phase now ep Hep) as Hep1.
  pose proof (retransmit_phase_window now ep) as H1.
  destruct (retransmit_phase now ep) as [o1 ep1]. cbn [snd] in Hep1.
  destruct H1 as (Hl1 & Hp1 & Hd1 & Ho1 & Hq1 & Ha1 & Hc1 & Hs1 & Hn1).
  rewrite <- Hq1 in Hq.
  destruct (send_loop_window now (outbound ep1) ep1) as (n2 & Ho2 & Hi2 & Hd2 & Hq2 & Hn2);
    [by apply ep_ok_session|by apply ep_ok_next|done|].
  pose proof (ep_ok_send_loop now (outbound ep1) ep1 Hep1) as Hep2.
  pose proof (send_loop_frame now (outbound ep1) ep1) as (Ha2 & Hs2 & Hc2).
  destruct (send_loop now (outbound ep1) ep1) as [o2 ep2]. cbn [fst snd] in *.
  pose proof (ack_phase_emits t1 t2 ep2) as Ho3. pose proof (ack_phase_frame t1 t2 ep2) as H3.
  pose proof (ep_ok_ack_phase t1 t2 ep2 Hep2) as Hep3.
  assert (should_send_ack t1 ep2 = should_send_ack t1 ep) as Hss
    by (apply should_send_ack_ext; congruence).
  destruct (ack_phase t1 t2 ep2) as [o3 ep3]. cbn [snd] in *.
  destruct H3 as (Hi3 & Hq3 & Hc3 & Hn3 & Hs3). destruct Ho3 as (He3 & Hh3 & Ho3).
  rewrite Hss in Ho3.
  pose proof (polled_window_ping now ep3 (ep_ok_session _ Hep3) (ep_ok_next _ Hep3)) as H4.
  destruct (ping_phase now ep3) as [o4 ep4].
  destruct H4 as (n4 & Ho4 & Hi4 & Hd4 & Hp4 & Hq4 & Ha4 & Hc4 & Hs4 & Hn4).
  assert (in_flight ep4 = in_flight ep1 ++ n2 ++ n4) as Hi by (rewrite Hi4, Hi3, Hi2, <- app_assoc; done).
  exists (n2 ++ n4). split; try congruence.
  - exists (in_flight ep1). split_and!; done.
  - by apply Forall_app.
  - rewrite fmap_app, nonempty_app, Hp4, app_nil_r, <- nonempty_app, <- Hq1.
    by rewrite Hq4, Hq3, Hq2.
  - exists (length n2). rewrite Hq4, Hq3, <- Hq1, <- Hq2.
    by rewrite drop_app_length' by by rewrite length_fmap.
  - rewrite !Forall_app. split_and!.
    + eapply Forall_impl; [exact Ho1|]. intros b (e & He & ->). left. exists e.
      rewrite Hi. split; [apply elem_of_app; by left|by right].
    + rewrite Ho2, Forall_fmap, Forall_forall. intros e He. left. exists e.
      rewrite Hi, !elem_of_app. auto.
    + destruct Ho3 as [[-> _]|(? & _ & id & Hid & ->)]; [constructor|]. apply Forall_singleton.
      right. split; [done|]. exists id. split; congruence.
    + rewrite Ho4, Forall_fmap, Forall_forall. intros e He. left. exists e.
      rewrite Hi, !elem_of_app. auto.
  - rewrite Ha4, <- Ha1, <- Ha2. destruct Ho3 as [[_ ?]|(? & ? & _)]; auto.
  - rewrite Hn4, Hn3, Hn2, Hn1, length_app. lia.
Qed.

(** ** What an endpoint does with a datagram

    The part that [on_datagram] (upstream.rs) and [session_datagram] (server.rs)
    share: the payload it accepts in order, its replies, and its next state. *)
Definition receive (data : bytes) (now : Instant) (ep : ReliableEndpoint) :
    option bytes * list bytes * ReliableEndpoint :=
  let ep := note_recv now ep in
  match decode_packet data with
  | Err _ => (None, [], ep)
  | Ok (hdr, payload) =>
      let ep :=
        if contains (flags hdr) ACK_REPLY || negb (ack_id hdr =? 0)
        then on_ack_id (ack_id hdr) ep else ep in
      if contains (flags hdr) ACK_REQUEST then
        let '(ok, ep) :=
          accept_reliable (packet_id hdr) (contains (flags hdr) IS_RETRANSMIT) ep in
        if ok then (Some payload, [], ep) else (None, [build_retransmit_request ep], ep)
      else (None, [], ep)
  end.

Section handlers.
  Context {M : Type} `{!IndexMap M CacheKey bytes}.
  Context `{!HashIter Z StoreLock} `{!HashIter SocketAddr ClientSession}.

(** The upstream session's handler is [receive], after it has adopted the session id
    of the header; what is accepted is handled. *)
Lemma on_datagram_receive data now (u : Upstream M) hdr payload :
  decode_packet data = Ok (hdr, payload) → is_handshake_packet (flags hdr) = false →
  contains (flags hdr) ACK_REQUEST = true →
  let '(got, replies, ep) := receive data now
    (if negb (session_id hdr =? 0) then set_session_id (u_rel u) (session_id hdr) else u_rel u) in
  on_datagram data now u =
    match got with
    | Some p => if is_nil p then ([], set_u_rel ep u) else handle_upstream_payload p (set_u_rel ep u)
    | None => (UpSend <$> replies, set_u_rel ep u)
    end.
Proof.
  intros Hd Hh Hr. unfold receive, on_datagram. rewrite Hd, Hh, Hr. cbn [u_rel set_u_rel].
  assert (note_recv now (if negb (session_id hdr =? 0)
      then set_session_id (u_rel u) (session_id hdr) else u_rel u) =
    if negb (session_id hdr =? 0) then set_session_id (note_recv now (u_rel u)) (session_id hdr)
    else note_recv now (u_rel u)) as -> by by destruct (negb _).
  destruct (accept_reliable _ _ _) as [[] ep]; cbn [negb]; [|done]. by destruct (is_nil payload).
Qed.

(** So is the server's, for a session that is open; what is accepted is filtered. *)
Lemma session_datagram_receive p data hdr payload addr (g : Inner M) now s f :
  decode_packet data = Ok (hdr, payload) → opened s = true →
  let '(got, replies, ep) := receive data now (rel s) in
  let '(retransmit, cmds, s', f') := session_datagram p hdr payload addr g now s f in
  rel s' = ep ∧ opened s' = true ∧
  replies = match retransmit with Some req => [req] | None => [] end ∧
  match got with
  | Some q => if is_nil q then cmds = [] ∧ f' = f else
      cmds = forwards (process_payload p addr now q f).1 ∧
      f' = (process_payload p addr now q f).2
  | None => cmds = [] ∧ f' = f
  end.
Proof.
  intros Hd Ho. unfold receive, session_datagram. rewrite Hd. cbn [rel set_rel].
  set (r1 := if contains (flags hdr) ACK_REPLY || _ then _ else note_recv now (rel s)).
  set (s1 := if _ || _ then open_session g _ else _).
  assert (s1 = set_rel r1 s) as ->.
  { subst s1 r1. destruct (_ || _); [|done]. unfold open_session. cbn [opened set_rel]. by rewrite Ho. }
  cbn [rel set_rel]. destruct (contains (flags hdr) ACK_REQUEST); [|done].
  destruct (accept_reliable _ _ r1) as [[] ep]; cbn [negb]; [|done].
  destruct (is_nil payload); cbn [negb]; [done|].
  pose proof (process_payload_frame p addr now payload f (set_rel ep (set_rel r1 s))) as Ha.
  destruct (process_payload p addr now payload f) as [actions f'].
  destruct (foldl apply_action _ actions) as [cmds s2]. destruct Ha as (-> & -> & ->). done.
Qed.
End handlers.

(** ** The link

    A datagram in the network, stamped with the numbers of reliable packets its
    sender and its receiver had sent when it was emitted. *)
Record Datagram : Type := { d_src : nat; d_dst : nat; d_bytes : bytes }.

(** One side: its endpoint and the datagrams it has in the network, and as history
    variables the payloads queued ([pushed]), those given a packet id ([sent], pings
    included) and those accepted from the peer ([got]). *)
Record Side : Type := {
  s_ep : ReliableEndpoint;
  s_net : list Datagram;
  pushed : list bytes;
  sent : list bytes;
  got : list bytes;
}.

Definition emit (src : Side) (peer : Side) (out : list bytes) : list Datagram :=
  (λ b, {| d_src := length (sent src); d_dst := length (sent peer); d_bytes := b |}) <$> out.

Definition side_ep (f : ReliableEndpoint → ReliableEndpoint) (s : Side) : Side :=
  {| s_ep := f (s_ep s); s_net := s_net s; pushed := pushed s; sent := sent s; got := got s |}.

Definition push (ps : list bytes) (ep : ReliableEndpoint) (s : Side) : Side :=
  {| s_ep := ep; s_net := s_net s; pushed := pushed s ++ ps; sent := sent s; got := got s |}.

(** A poll: the new window entries are those past the old window. *)
Definition poll (now t1 t2 : Instant) (peer s : Side) : Side :=
  let '(out, ep) := poll_outbound now t1 t2 (s_ep s) in
  let s' := {| s_ep := ep; s_net := s_net s; pushed := pushed s;
     sent := sent s ++ (entry_payload <$> drop (length (in_flight (s_ep s))) (in_flight ep));
     got := got s |} in
  {| s_ep := ep; s_net := s_net s ++ emit s' peer out; pushed := pushed s; sent := sent s';
     got := got s |}.

Definition deliver (data : bytes) (now : Instant) (peer s : Side) : Side :=
  let '(p, replies, ep) := receive data now (s_ep s) in
  {| s_ep := ep; s_net := s_net s ++ emit s peer replies; pushed := pushed s; sent := sent s;
     got := got s ++ match p with Some p => [p] | None => [] end |}.

Definition lose (i : nat) (s : Side) : Side :=
  {| s_ep := s_ep s; s_net := delete i (s_net s); pushed := pushed s; sent := sent s; got := got s |}.

(** How many newer packets a datagram may be overtaken by before it arrives, on
    either side: the network's maximum packet lifetime, in packets. *)
Definition LIFETIME : nat := Z.to_nat 32000.

Definition fresh (d : Datagram) (src dst : Side) : Prop :=
  (length (sent src) ≤ d_src d + LIFETIME ∧ length (sent dst) ≤ d_dst d + LIFETIME)%nat.

(** What one side does, beside its peer.  Delivering a datagram leaves it in the
    network, so that it may arrive again. *)
Inductive side_step (peer : Side) : Side → Side → Prop :=
  | step_queue p s : p ≠ [] → fits p →
      side_step peer s (push [p] (queue_payload p (s_ep s)) s)
  | step_queue_packed cmds s :
      Forall (λ p, p ≠ [] ∧ fits p) (pack_commands [] cmds) →
      side_step peer s (push (pack_commands [] cmds) (queue_commands_packed cmds (s_ep s)) s)
  | step_poll now t1 t2 s : side_step peer s (poll now t1 t2 peer s)
  | step_deliver d now s :
      d ∈ s_net peer → fresh d peer s → side_step peer s (deliver (d_bytes d) now peer s)
  | step_lose i s : side_step peer s (lose i s)
  | step_open b s : side_step peer s (side_ep (λ ep, set_rel_opened ep b) s)
  | step_session id s : is_u16 id → side_step peer s (side_ep (λ ep, set_session_id ep id) s).

Inductive link_step : Side * Side → Side * Side → Prop :=
  | link_left a a' b : side_step b a a' → link_step (a, b) (a', b)
  | link_right a b b' : side_step a b b' → link_step (a, b) (a, b').

(** Two endpoints that have just agreed: each expects the id the other will send
    first, and nothing is queued. *)
Definition starts_with_id (src dst : ReliableEndpoint) : Prop :=
  in_flight src = [] ∧ outbound src = [] ∧
  expected_recv (ack dst) = next_send_id src ∧
  (∀ id, highest_recv (ack dst) = Some id → id = (next_send_id src - 1) mod 32768) ∧
  packets_since_ack (ack dst) = 0.

(** A bare acknowledgement of the handshake, whose packet came just before the
    first packet of [src]. *)
Definition greeting (src : ReliableEndpoint) (b : bytes) : Prop :=
  ∃ h, decode_packet b = Ok (h, []) ∧ contains (flags h) ACK_REQUEST = false ∧
    ack_id h = (next_send_id src - 1) mod 32768.

Record synced (x : ReliableEndpoint) (greetings : list bytes) (y : ReliableEndpoint) : Prop := {
  sy_greetings : Forall (greeting y) greetings;
  sy_ok : ep_ok x ∧ ep_ok y;
  sy_window : (max_in_flight (config x) ≤ 256 ∧ max_in_flight (config y) ≤ 256)%nat;
  sy_left : starts_with_id x y;
  sy_right : starts_with_id y x;
}.

Definition new_side (ep : ReliableEndpoint) (greetings : list bytes) : Side :=
  {| s_ep := ep; s_net := (λ b, {| d_src := 0; d_dst := 0; d_bytes := b |}) <$> greetings;
     pushed := []; sent := []; got := [] |}.

Definition linked (x : ReliableEndpoint) (greetings : list bytes) (y : ReliableEndpoint) :
    Side * Side → Prop :=
  rtc link_step (new_side x greetings, new_side y []).

(** ** Decoding what is in the network *)

(** A header that carries an acknowledgement, and one that carries data. *)
Definition acks (h : PacketHeader) : bool := contains (flags h) ACK_REPLY || negb (ack_id h =? 0).
Definition reliable (h : PacketHeader) : bool := contains (flags h) ACK_REQUEST.

Lemma entry_emits_decodes e b :
  entry_decodes e → b = entry_bytes e ∨ b = mark_retransmit (entry_bytes e) →
  ∃ h, decode_packet b = Ok (h, entry_payload e) ∧ reliable h = true ∧ acks h = false ∧
    packet_id h = entry_id e.
Proof.
  intros (h & Hd & Hf & Ha & Hp). unfold reliable, acks. intros [->| ->].
  - exists h. by rewrite Hf, Ha.
  - destruct (mark_retransmit_decodes _ _ _ Hd) as (h' & Hd' & Hf' & _ & _ & Ha' & _ & _ & Hp').
    exists h'. rewrite Hf', Hf, Ha', Ha, Hp'. done.
Qed.

Lemma ack_packet_decodes session id :
  is_u16 session → is_u16 id →
  ∃ h, decode_packet (ack_packet session id) = Ok (h, []) ∧ reliable h = false ∧ acks h = true ∧
    ack_id h = id.
Proof.
  intros. unfold ack_packet. rewrite decode_built; [by eexists|solve_header|solve_fits].
Qed.

Lemma request_decodes ep :
  ep_ok ep →
  ∃ h, decode_packet (build_retransmit_request ep) = Ok (h, []) ∧ reliable h = false ∧
    acks h = false.
Proof.
  intros Hep. pose proof (ep_ok_session ep Hep). pose proof (ep_ok_expected ep Hep).
  unfold build_retransmit_request. rewrite decode_built; [by eexists| |solve_fits].
  split; cbn; unfold flags_ok, is_u16, is_packet_id, HEADER_LEN in *; cbn; (done || lia).
Qed.

(** ** The invariant of one direction

    The [n]-th reliable packet of [src] has id [base + n]; other packets are empty. *)
Definition data_ok (base : Z) (src : Side) (d : Datagram) : Prop :=
  (d_src d ≤ length (sent src))%nat ∧
  ∀ h p, decode_packet (d_bytes d) = Ok (h, p) →
    if reliable h then
      ∃ i, (i < d_src d ≤ i + 256)%nat ∧ sent src !! i = Some p ∧
        packet_id h = (base + Z.of_nat i) mod 32768
    else p = [].

Definition ack_ok (base : Z) (src dst : Side) (d : Datagram) : Prop :=
  (d_dst d ≤ length (sent src))%nat ∧
  ∀ h p, decode_packet (d_bytes d) = Ok (h, p) → acks h = true →
    ∃ k, (k ≤ length (got dst))%nat ∧ (d_dst d ≤ k + 256)%nat ∧
      ack_id h = (base + Z.of_nat k - 1) mod 32768.

Record half (base : Z) (src dst : Side) : Prop := {
  h_ok : ep_ok (s_ep src);
  h_cap : (max_in_flight (config (s_ep src)) ≤ 256)%nat;
  h_fits : Forall fits (outbound (s_ep src));
  h_entries : Forall entry_decodes (in_flight (s_ep src));
  h_window : ∃ n, (n ≤ length (got dst))%nat ∧
    length (sent src) = (n + length (in_flight (s_ep src)))%nat ∧
    entry_payload <$> in_flight (s_ep src) = drop n (sent src);
  h_next : next_send_id (s_ep src) = (base + Z.of_nat (length (sent src))) mod 32768;
  h_got : got dst `prefix_of` sent src;
  h_expected : expected_recv (ack (s_ep dst)) = (base + Z.of_nat (length (got dst))) mod 32768;
  h_highest : ∀ id, highest_recv (ack (s_ep dst)) = Some id →
    id = (base + Z.of_nat (length (got dst)) - 1) mod 32768;
  h_owes : 0 < packets_since_ack (ack (s_ep dst)) → is_Some (highest_recv (ack (s_ep dst)));
  h_pushed : pushed src = nonempty (sent src) ++ nonempty (outbound (s_ep src));
  h_data : Forall (data_ok base src) (s_net src);
  h_acks : Forall (ack_ok base src dst) (s_net dst);
}.

Lemma data_ok_grow base src src' d :
  sent src `prefix_of` sent src' → data_ok base src d → data_ok base src' d.
Proof.
  intros Hp [Hl Hd]. pose proof (prefix_length _ _ Hp). split; [lia|]. intros h p H1.
  specialize (Hd h p H1). destruct (reliable h); [|done].
  destruct Hd as (i & Hi & Hs & Hid). exists i. split_and!; [lia..| |done].
  by eapply prefix_lookup_Some.
Qed.

Lemma ack_ok_grow base src src' dst dst' d :
  sent src `prefix_of` sent src' → got dst `prefix_of` got dst' →
  ack_ok base src dst d → ack_ok base src' dst' d.
Proof.
  intros Hp%prefix_length Hg%prefix_length [Hl Hd]. split; [lia|]. intros h p H1 H2.
  destruct (Hd h p H1 H2) as (k & Hk & Hk' & Hid). exists k. split_and!; [lia..|done].
Qed.

(** The window holds the last packets sent, at most 256 of them. *)
Lemma half_window base src dst :
  half base src dst →
  (length (in_flight (s_ep src)) ≤ 256 ∧ length (got dst) ≤ length (sent src) ≤ length (got dst) + 256)%nat.
Proof.
  intros []. pose proof (ep_ok_bound _ h_ok0). destruct h_window0 as (n & Hn & Hl & _).
  apply prefix_length in h_got0. lia.
Qed.

Lemma half_lookup base src dst j e :
  half base src dst → in_flight (s_ep src) !! j = Some e →
  ∃ i, length (sent src) = (i + (length (in_flight (s_ep src)) - j))%nat ∧
    sent src !! i = Some (entry_payload e) ∧ entry_id e = (base + Z.of_nat i) mod 32768.
Proof.
  intros Hh He. pose proof (lookup_lt_Some _ _ _ He) as Hj.
  destruct (h_window _ _ _ Hh) as (n & Hn & Hl & Hw). exists (n + j)%nat. split_and!; [lia| |].
  - rewrite <- lookup_drop, <- Hw, list_lookup_fmap, He. done.
  - rewrite (ep_ok_lookup _ _ _ (h_ok _ _ _ Hh) He), (h_next _ _ _ Hh), Hl. lia.
Qed.

(** ** Receiving preserves the invariant *)

Record received (ep ep' : ReliableEndpoint) : Prop := {
  rc_ok : ep_ok ep → ep_ok ep';
  rc_outbound : outbound ep' = outbound ep;
  rc_config : config ep' = config ep;
  rc_next : next_send_id ep' = next_send_id ep;
}.

Lemma receive_frame data now ep :
  let '(_, _, ep') := receive data now ep in received ep ep'.
Proof.
  unfold receive. destruct (decode_packet data) as [[h p]|e] eqn:Hd; [|by split; [apply ep_ok_note_recv|..]].
  apply encode_decode_packet in Hd as (Hok & _). destruct Hok.
  set (ep1 := if _ || _ then _ else _).
  assert (received ep ep1) as H1.
  { subst ep1. destruct (_ || _); split; auto with atem; try done. }
  destruct (contains (flags h) ACK_REQUEST); [|exact H1]. destruct H1.
  pose proof (ep_ok_accept_reliable (packet_id h) (contains (flags h) IS_RETRANSMIT) ep1) as Ha.
  assert (received ep (accept_reliable (packet_id h) (contains (flags h) IS_RETRANSMIT) ep1).2) as Hr.
  { split; [by auto| |..]; unfold accept_reliable; repeat case_match; simplify_eq/=; done. }
  destruct (accept_reliable _ _ ep1) as [[] ep2]; exact Hr.
Qed.

(** The acknowledgement part and the acceptance part of a received packet. *)
Lemma receive_spec data now ep :
  let '(g, replies, ep') := receive data now ep in
  match decode_packet data with
  | Err _ => g = None ∧ replies = [] ∧ in_flight ep' = in_flight ep ∧ ack ep' = ack ep
  | Ok (h, p) =>
      in_flight ep' = (if acks h then drop_acked (ack_id h) (in_flight ep) else in_flight ep) ∧
      if reliable h && (packet_id h =? expected_recv (ack ep)) then
        g = Some p ∧ replies = [] ∧ highest_recv (ack ep') = Some (packet_id h) ∧
        expected_recv (ack ep') = next_packet_id (expected_recv (ack ep)) ∧
        packets_since_ack (ack ep') = u16_saturating_add (packets_since_ack (ack ep)) 1
      else
        g = None ∧ ack ep' = ack ep ∧ (replies = [] ∨ replies = [build_retransmit_request ep'])
  end.
Proof.
  unfold receive. destruct (decode_packet data) as [[h p]|e]; [|done].
  fold (acks h). fold (reliable h).
  set (ep1 := if acks h then _ else _).
  assert (in_flight ep1 = (if acks h then drop_acked (ack_id h) (in_flight ep) else in_flight ep)
    ∧ ack ep1 = ack ep) as [Hi Ha] by (subst ep1; by destruct (acks h)).
  rewrite <- Hi. destruct (reliable h); [|cbn; auto]. cbn [andb]. unfold accept_reliable. rewrite Ha.
  destruct (Z.eqb_spec (packet_id h) (expected_recv (ack ep))); [done|].
  destruct (_ && _); auto.
Qed.

(** The replies to a datagram carry neither data nor an acknowledgement. *)
Lemma replies_ok P src peer replies ep :
  ep_ok ep → replies = [] ∨ replies = [build_retransmit_request ep] →
  (∀ d, d_src d = length (sent src) → d_dst d = length (sent peer) →
     (∃ h, decode_packet (d_bytes d) = Ok (h, []) ∧ reliable h = false ∧ acks h = false) → P d) →
  Forall P (emit src peer replies).
Proof.
  intros Hep [->| ->] HP; [constructor|]. apply Forall_singleton, HP; [done|done|].
  by apply request_decodes.
Qed.

(** Whatever acknowledgement is still in the network, it removes from the window
    only packets that the peer has accepted. *)
Lemma half_ack base src dst d h p :
  half base src dst → d ∈ s_net dst → fresh d dst src →
  decode_packet (d_bytes d) = Ok (h, p) → acks h = true →
  ∃ k, drop_acked (ack_id h) (in_flight (s_ep src)) = drop k (in_flight (s_ep src)) ∧
    (k ≤ length (in_flight (s_ep src)))%nat ∧
    (length (sent src) + k ≤ length (got dst) + length (in_flight (s_ep src)) ∨ k = 0)%nat.
Proof.
  intros Hh Hd [Hf1 Hf2] Hdec Ha. pose proof (half_window _ _ _ Hh) as [Hw1 Hw2].
  destruct (h_window _ _ _ Hh) as (n & Hn & Hl & Hw).
  pose proof (h_acks _ _ _ Hh) as Hacks. rewrite Forall_forall in Hacks.
  destruct (Hacks d Hd) as [Hs Hk]. destruct (Hk h p Hdec Ha) as (k & Hk1 & Hk2 & Hid).
  unfold LIFETIME in *. set (m := length (in_flight (s_ep src))) in *.
  rewrite (drop_acked_window _ (next_send_id (s_ep src)))
    by first [exact (ep_ok_ids _ (h_ok _ _ _ Hh)) | rewrite Hid; unfold is_u16; lia].
  fold m. cbv zeta. rewrite (h_next _ _ _ Hh), Hid.
  set (x := ((base + Z.of_nat k - 1) mod 32768 -
    ((base + Z.of_nat (length (sent src))) mod 32768 - Z.of_nat m)) mod 32768).
  assert (x = (Z.of_nat k - 1 - Z.of_nat n) mod 32768) as Hx by (subst x; lia).
  clearbody x. destruct (Nat.le_gt_cases k n) as [Hkn|Hkn].
  - exists 0%nat. destruct (Z.ltb_spec x 256); [lia|]. split_and!; [done|lia|by right].
  - rewrite Z.mod_small in Hx by lia. exists (k - n)%nat.
    destruct (Z.ltb_spec x 256); [|lia]. split_and!; [f_equal; lia|lia|left; lia].
Qed.

Lemma half_deliver_src base data now src dst d :
  half base src dst → d ∈ s_net dst → fresh d dst src → data = d_bytes d →
  half base (deliver data now dst src) dst.
Proof.
  intros Hh Hd Hf ->. pose proof (receive_frame (d_bytes d) now (s_ep src)) as Hr.
  pose proof (receive_spec (d_bytes d) now (s_ep src)) as Hs.
  assert (∃ k, let '(_, _, ep') := receive (d_bytes d) now (s_ep src) in
    in_flight ep' = drop k (in_flight (s_ep src)) ∧ (k ≤ length (in_flight (s_ep src)))%nat ∧
    (length (sent src) + k ≤ length (got dst) + length (in_flight (s_ep src)) ∨ k = 0)%nat) as Hk.
  { destruct (receive (d_bytes d) now (s_ep src)) as [[g replies] ep'].
    destruct (decode_packet (d_bytes d)) as [[h p]|e] eqn:Hdec.
    - destruct Hs as [Hi _]. destruct (acks h) eqn:Ha; [|exists 0%nat; rewrite Hi; split_and!; [done|lia|auto]].
      rewrite Hi. by apply (half_ack base src dst d h p).
    - destruct Hs as (_ & _ & Hi & _). exists 0%nat. rewrite Hi. split_and!; [done|lia|auto]. }
  unfold deliver. destruct (receive (d_bytes d) now (s_ep src)) as [[g replies] ep'].
  destruct Hk as (k & Hi & Hk & Hk'). destruct Hr as [Hok Ho Hc Hn]. specialize (Hok (h_ok _ _ _ Hh)).
  assert (replies = [] ∨ replies = [build_retransmit_request ep']) as Hrep.
  { destruct (decode_packet (d_bytes d)) as [[h p]|e]; [|left; apply Hs].
    destruct Hs as [_ Hs]. destruct (_ && _); [left|]; apply Hs. }
  destruct Hh. split; cbn [s_ep s_net pushed sent got]; try done; try (by rewrite Ho);
    try (by rewrite Hc); try (by rewrite Hn).
  - rewrite Hi. by apply Forall_drop.
  - destruct h_window0 as (n & Hn1 & Hl & Hw). exists (n + k)%nat.
    rewrite Hi, length_drop, fmap_drop, Hw, drop_drop. split_and!; [lia..|done].
  - apply Forall_app. split.
    + eapply Forall_impl; [exact h_data0|]. intros d'. by apply data_ok_grow.
    + apply (replies_ok _ _ _ _ _ Hok Hrep). intros d' Hd1 _ (h & Hdec & Hr & _).
      split; [by rewrite Hd1|]. intros h' p' Hdec'. rewrite Hdec in Hdec'. injection Hdec' as <- <-. by rewrite Hr.
Qed.

Lemma half_accept base src dst d h p :
  half base src dst → d ∈ s_net src → fresh d src dst →
  decode_packet (d_bytes d) = Ok (h, p) → reliable h = true →
  packet_id h = expected_recv (ack (s_ep dst)) →
  sent src !! length (got dst) = Some p.
Proof.
  intros Hh Hd [Hf1 Hf2] Hdec Hr Hid. pose proof (half_window _ _ _ Hh) as [Hw1 Hw2].
  pose proof (h_data _ _ _ Hh) as Hdata. rewrite Forall_forall in Hdata.
  destruct (Hdata d Hd) as [Hs Hi]. specialize (Hi h p Hdec). rewrite Hr in Hi.
  destruct Hi as (i & Hi1 & Hi2 & Hi3).
  rewrite (h_expected _ _ _ Hh), Hi3 in Hid. unfold LIFETIME in *.
  pose proof (lookup_lt_Some _ _ _ Hi2).
  assert (i = length (got dst)) as <- by lia. done.
Qed.

Lemma half_deliver_dst base data now src dst d :
  half base src dst → ep_ok (s_ep dst) → d ∈ s_net src → fresh d src dst → data = d_bytes d →
  half base src (deliver data now src dst).
Proof.
  intros Hh Hok Hd Hf ->. pose proof (receive_frame (d_bytes d) now (s_ep dst)) as Hr.
  pose proof (receive_spec (d_bytes d) now (s_ep dst)) as Hs. unfold deliver.
  destruct (receive (d_bytes d) now (s_ep dst)) as [[g replies] ep']. destruct Hr as [Hok' Ho Hc Hn].
  specialize (Hok' Hok).
  set (got' := got dst ++ match g with Some p => [p] | None => [] end).
  assert ((replies = [] ∨ replies = [build_retransmit_request ep']) ∧
    got' `prefix_of` sent src ∧
    expected_recv (ack ep') = (base + Z.of_nat (length got')) mod 32768 ∧
    (∀ id, highest_recv (ack ep') = Some id → id = (base + Z.of_nat (length got') - 1) mod 32768) ∧
    (0 < packets_since_ack (ack ep') → is_Some (highest_recv (ack ep'))))
    as (Hrep & Hg & He & Hhi & Howe).
  { destruct (decode_packet (d_bytes d)) as [[h p]|e] eqn:Hdec.
    2:{ destruct Hs as (-> & -> & _ & ->). subst got'. rewrite app_nil_r. destruct Hh. auto. }
    destruct Hs as [_ Hs]. destruct (reliable h && _) eqn:Hr.
    - bool_to_prop. destruct Hs as (-> & -> & -> & -> & _). subst got'. rewrite length_app.
      pose proof (half_accept base src dst d h p Hh Hd Hf Hdec) as Hl.
      rewrite H, H0 in Hl. specialize (Hl eq_refl eq_refl).
      pose proof (ep_ok_expected _ Hok) as Hx. rewrite next_packet_id_value by done.
      destruct Hh. cbn [length]. split_and!; [by left| |lia| |done].
      + destruct h_got0 as [tl Htl]. rewrite Htl in Hl |- *.
        rewrite lookup_app_r, Nat.sub_diag in Hl by lia. destruct tl as [|x tl]; [done|].
        injection Hl as ->. apply prefix_app. exists tl. done.
      + intros ? [= <-]. lia.
    - destruct Hs as (-> & -> & Hs). subst got'. rewrite app_nil_r. destruct Hh. auto. }
  assert (got dst `prefix_of` got') as Hgrow by by apply prefix_app_r.
  destruct Hh. split; cbn [s_ep s_net pushed sent got]; try done.
  - destruct h_window0 as (n & Hn1 & Hl & Hw). exists n. apply prefix_length in Hgrow. split_and!; [lia|done|done].
  - apply Forall_app. split.
    + eapply Forall_impl; [exact h_acks0|]. intros d'. by apply ack_ok_grow.
    + apply (replies_ok _ _ _ _ _ Hok' Hrep). intros d' _ Hd2 (h & Hdec & _ & Ha).
      split; [by rewrite Hd2|]. intros h' p' Hdec' Ha'. rewrite Hdec in Hdec'. injection Hdec' as <- _. congruence.
Qed.

(** ** Polling preserves the invariant *)

Lemma half_poll_src base now t1 t2 src dst :
  half base src dst → half base (poll now t1 t2 dst src) dst.
Proof.
  intros Hh. pose proof (half_window _ _ _ Hh) as [Hw1 Hw2].
  pose proof (ep_ok_poll_outbound now t1 t2 _ (h_ok _ _ _ Hh)) as Hok.
  pose proof (poll_outbound_window now t1 t2 _ (h_ok _ _ _ Hh) (h_fits _ _ _ Hh)) as Hp.
  unfold poll. destruct (poll_outbound now t1 t2 (s_ep src)) as [out ep']. cbn [snd] in Hok.
  destruct Hp as (news & Hp). destruct Hp. destruct pw_window0 as (old & Hi & Hlo & Hpo & Hdo).
  assert (drop (length (in_flight (s_ep src))) (in_flight ep') = news) as ->
    by (rewrite Hi, <- Hlo; by apply drop_app_length).
  set (sent' := sent src ++ (entry_payload <$> news)).
  assert (sent src `prefix_of` sent') as Hgrow by by apply prefix_app_r.
  set (src1 := {| s_ep := ep'; s_net := s_net src; pushed := pushed src; sent := sent'; got := got src |}).
  assert (half base src1 dst) as H1.
  { destruct Hh. split; cbn [s_ep s_net pushed sent got src1]; try done.
    - by rewrite pw_config0.
    - destruct pw_outbound0 as [k ->]. by apply Forall_drop.
    - rewrite Hi. apply Forall_app. auto.
    - destruct h_window0 as (n & Hn & Hl & Hw). exists n.
      rewrite Hi. subst sent'. rewrite !length_app, length_fmap, fmap_app, Hpo, Hw.
      split_and!; [done|lia|]. by rewrite drop_app_le by lia.
    - rewrite pw_next0, h_next0. subst sent'. rewrite length_app, length_fmap. lia.
    - by transitivity (sent src).
    - subst sent'. by rewrite nonempty_app, <- app_assoc, pw_queue0.
    - eapply Forall_impl; [exact h_data0|]. intros d. by apply data_ok_grow.
    - eapply Forall_impl; [exact h_acks0|]. intros d. by apply ack_ok_grow. }
  clear Hh. destruct H1 eqn:E1. split; cbn [s_ep s_net pushed sent got src1]; try done.
  apply Forall_app. split; [done|]. unfold emit. rewrite Forall_fmap.
  eapply Forall_impl; [exact pw_out0|]. intros b Hb. cbn.
  split; [done|]. cbn [d_bytes d_src sent]. intros h p Hdec.
  destruct Hb as [(e & He & Hb)|(_ & id & Hid & ->)].
  - pose proof (h_entries _ _ _ H1) as Hes. rewrite Forall_forall in Hes.
    destruct (entry_emits_decodes e b (Hes e He) Hb) as (h' & Hdec' & Hr & _ & Hid).
    rewrite Hdec in Hdec'. injection Hdec' as <- ->. rewrite Hr.
    apply list_elem_of_lookup in He as [j He]. pose proof (lookup_lt_Some _ _ _ He).
    destruct (half_lookup _ _ _ _ _ H1 He) as (i & Hli & Hs & Hei).
    pose proof (half_window _ _ _ H1). cbn [s_ep sent src1] in *.
    exists i. rewrite Hid, Hei. split_and!; [lia..|done|done].
  - destruct (ack_packet_decodes (rel_session_id (s_ep src)) id) as (h' & Hdec' & Hr' & _).
    + pose proof (ep_ok_session _ Hok). congruence.
    + eapply ep_ok_highest; [exact Hok|]. cbn in *. congruence.
    + rewrite Hdec in Hdec'. injection Hdec' as <- ->. by rewrite Hr'.
Qed.

Lemma half_poll_dst base base' now t1 t2 src dst :
  half base src dst → half base' dst src → half base src (poll now t1 t2 src dst).
Proof.
  intros Hh Hh'. pose proof (half_window _ _ _ Hh) as [Hw1 Hw2].
  pose proof (ep_ok_poll_outbound now t1 t2 _ (h_ok _ _ _ Hh')) as Hok.
  pose proof (poll_outbound_window now t1 t2 _ (h_ok _ _ _ Hh') (h_fits _ _ _ Hh')) as Hp.
  unfold poll. destruct (poll_outbound now t1 t2 (s_ep dst)) as [out ep']. cbn [snd] in Hok.
  destruct Hp as (news & Hp). destruct Hp. destruct pw_window0 as (old & Hi & Hlo & Hpo & Hdo).
  pose proof (h_entries _ _ _ Hh') as Hes.
  assert (Forall entry_decodes (in_flight ep')) as Hes' by (rewrite Hi; apply Forall_app; auto).
  destruct Hh. split; cbn [s_ep s_net pushed sent got]; try done.
  - by rewrite pw_expected0.
  - by rewrite pw_highest0.
  - rewrite pw_highest0. destruct pw_count0 as [->|[_ ->]]; [done|lia].
  - apply Forall_app. split; [exact h_acks0|]. unfold emit. rewrite Forall_fmap.
    eapply Forall_impl; [exact pw_out0|]. intros b Hb. cbn. split; [done|].
    cbn [d_bytes d_dst got]. intros h p Hdec Ha.
    destruct Hb as [(e & He & Hb)|(_ & id & Hid & ->)].
    + rewrite Forall_forall in Hes'.
      destruct (entry_emits_decodes e b (Hes' e He) Hb) as (h' & Hdec' & _ & Ha' & _).
      rewrite Hdec in Hdec'. injection Hdec' as <- _. congruence.
    + destruct (ack_packet_decodes (rel_session_id (s_ep dst)) id) as (h' & Hdec' & _ & _ & Hid').
      * pose proof (ep_ok_session _ Hok). congruence.
      * eapply ep_ok_highest; [exact Hok|]. congruence.
      * rewrite Hdec in Hdec'. injection Hdec' as <- _. exists (length (got dst)).
        split_and!; [done|lia|]. rewrite Hid'. by apply h_highest0.
Qed.

(** ** Every step preserves the invariant, in both directions *)

Lemma half_push base base' ps ep src dst :
  half base src dst → half base' dst src → Forall (λ p, p ≠ [] ∧ fits p) ps →
  ep = set_outbound (s_ep src) (outbound (s_ep src) ++ ps) →
  half base (push ps ep src) dst ∧ half base' dst (push ps ep src).
Proof.
  intros Hh Hh' Hps ->. apply Forall_and in Hps as [Hne Hfit]. split.
  - destruct Hh. split; cbn [s_ep s_net pushed sent got push outbound set_outbound]; try done.
    + by apply ep_ok_set_outbound.
    + by apply Forall_app.
    + rewrite h_pushed0, nonempty_app, (nonempty_all ps) by done. by rewrite app_assoc.
  - destruct Hh'. by split.
Qed.

Lemma half_lose base base' i src dst :
  half base src dst → half base' dst src → half base (lose i src) dst ∧ half base' dst (lose i src).
Proof.
  assert (∀ P : Datagram → Prop, Forall P (s_net src) → Forall P (s_net (lose i src))) as Hl.
  { intros P H. cbn. rewrite delete_take_drop. apply Forall_app.
    split; [by apply Forall_take|by apply Forall_drop]. }
  intros Hh Hh'. split; [destruct Hh|destruct Hh']; split; try done; by apply Hl.
Qed.

(** A change of the endpoint's session id or of its [opened] flag. *)
Lemma half_side_ep base base' f src dst :
  half base src dst → half base' dst src → (ep_ok (s_ep src) → ep_ok (f (s_ep src))) →
  in_flight (f (s_ep src)) = in_flight (s_ep src) → outbound (f (s_ep src)) = outbound (s_ep src) →
  config (f (s_ep src)) = config (s_ep src) → ack (f (s_ep src)) = ack (s_ep src) →
  next_send_id (f (s_ep src)) = next_send_id (s_ep src) →
  half base (side_ep f src) dst ∧ half base' dst (side_ep f src).
Proof.
  intros Hh Hh' Hok Hi Ho Hc Ha Hn.
  split; [destruct Hh|destruct Hh']; split; cbn [s_ep s_net pushed sent got side_ep];
    rewrite ?Hi, ?Ho, ?Hc, ?Ha, ?Hn; auto.
Qed.

Lemma half_step base base' src src' dst :
  half base src dst → half base' dst src → side_step dst src src' →
  half base src' dst ∧ half base' dst src'.
Proof.
  intros Hh Hh' Hstep. destruct Hstep as [p s Hne Hp|cmds s Hps|now t1 t2 s|d now s Hd Hf|i s|b s|id s Hid].
  - eapply half_push; [done..| |reflexivity]. by apply Forall_singleton.
  - eapply half_push; [done..|reflexivity].
  - split; [by apply half_poll_src|by eapply half_poll_dst].
  - split; [by eapply half_deliver_src|]. eapply half_deliver_dst; try done. by apply Hh.
  - by apply half_lose.
  - apply half_side_ep; try done. apply ep_ok_set_rel_opened.
  - apply half_side_ep; try done. by apply ep_ok_set_session_id.
Qed.

Definition link_ok (x y : Z) (l : Side * Side) : Prop := half x l.1 l.2 ∧ half y l.2 l.1.

Lemma link_step_ok x y l l' : link_step l l' → link_ok x y l → link_ok x y l'.
Proof.
  intros Hs [H1 H2]. destruct Hs as [a a' b Hs|a b b' Hs]; cbn in *.
  - by apply (half_step x y a a' b).
  - destruct (half_step y x b b' a H2 H1 Hs). done.
Qed.

Lemma synced_ok x gs y :
  synced x gs y → link_ok (next_send_id x) (next_send_id y) (new_side x gs, new_side y []).
Proof.
  intros [Hg [Hx Hy] [Hwx Hwy] Hl Hr].
  assert (∀ u v gu gv, ep_ok u → (max_in_flight (config u) ≤ 256)%nat → starts_with_id u v →
    Forall (greeting v) gu → Forall (greeting u) gv →
    half (next_send_id u) (new_side u gu) (new_side v gv)) as H.
  { clear. intros u v gu gv Hu Hw (Hi & Ho & He & Hh & Hz) Hgu Hgv. pose proof (ep_ok_next u Hu) as Hn.
    unfold is_packet_id in Hn.
    split; cbn [s_ep s_net pushed sent got new_side length]; rewrite ?Hi, ?Ho; try done;
      rewrite ?Z.add_0_r.
    - by exists 0%nat.
    - by rewrite Z.mod_small.
    - by rewrite Z.mod_small, He.
    - by intros id ?%Hh.
    - lia.
    - rewrite Forall_fmap. eapply Forall_impl; [exact Hgu|]. intros b (h & Hd & Hr & _).
      split; [done|]. cbn. intros h' p Hd'. rewrite Hd in Hd'. injection Hd' as <- <-.
      unfold reliable. by rewrite Hr.
    - rewrite Forall_fmap. eapply Forall_impl; [exact Hgv|]. intros b (h & Hd & _ & Ha).
      split; [done|]. cbn. intros h' p Hd' _. rewrite Hd in Hd'. injection Hd' as <- _.
      exists 0%nat. split_and!; [done|lia|]. by rewrite Ha, Z.add_0_r. }
  by split; apply H.
Qed.

Lemma linked_ok x gs y l :
  synced x gs y → linked x gs y l → link_ok (next_send_id x) (next_send_id y) l.
Proof.
  intros Hs Hl. unfold linked in Hl. pose proof (synced_ok x gs y Hs) as H. revert H.
  induction Hl as [|l1 l2 l3 H12 _ IH]; [done|]. intros H. by eapply IH, link_step_ok.
Qed.

(** The handshake of the proxy's own two ends, an upstream session and a client
    session, leaves their endpoints synchronised, with the acknowledgement of the
    greeting in the network. *)
Lemma handshake_synced t1 t2 t3 t4 session :
  is_u16 session →
  ∃ rel acks, session_open t1 t2 (build_server_handshake_reply session) = Ok (rel, acks) ∧
    synced rel acks (Server.rel (new_session t3 t4 session)).
Proof.
  intros Hs. unfold session_open, build_server_handshake_reply.
  rewrite decode_built; [|solve_header|solve_fits].
  cbn -[encode_packet]. eexists _, _. split; [reflexivity|].
  split.
  - apply Forall_singleton. unfold greeting. rewrite decode_built; [|solve_header|solve_fits].
    by eexists.
  - split; [|by apply new_session_ok].
    split; cbn; try done; auto with atem; try (unfold is_packet_id, is_u16; lia).
    by intros ? [= <-].
  - cbn. lia.
  - by unfold starts_with_id.
  - unfold starts_with_id. split_and!; try done. by intros ? [= <-].
Qed.

(** ** Delivery *)

(** What [dst] has accepted is a prefix of what was queued at [src], and the rest is
    still in the endpoint of [src]. *)
Definition delivered_in_order (src dst : Side) : Prop :=
  ∃ pending, pushed src = nonempty (got dst) ++ pending ∧
    pending `suffix_of` nonempty (stream (s_ep src)).

Lemma half_delivered base src dst : half base src dst → delivered_in_order src dst.
Proof.
  intros []. destruct h_got0 as [rest Hr]. destruct h_window0 as (n & Hn & _ & Hw).
  exists (nonempty rest ++ nonempty (outbound (s_ep src))). split.
  - by rewrite h_pushed0, Hr, nonempty_app, <- app_assoc.
  - unfold stream. rewrite Hw, Hr, drop_app_le by lia.
    rewrite !nonempty_app, <- app_assoc. by apply suffix_app_r.
Qed.

(** C5. Reliable delivery.  Two endpoints that start synchronised deliver to each other
    exactly what was queued, in order and once, up to what is still pending in the
    sender's own endpoint: whatever the network loses, repeats or reorders, as
    long as no datagram is overtaken by more than [LIFETIME] newer packets. *)
Theorem link_delivers x gs y a b :
  synced x gs y → linked x gs y (a, b) → delivered_in_order a b ∧ delivered_in_order b a.
Proof.
  intros Hs Hl. destruct (linked_ok _ _ _ _ Hs Hl) as [Ha Hb].
  split; by eapply half_delivered.
Qed.

(** ** A lost acknowledgement *)

(** The peer has accepted everything sent and owes no acknowledgement, none is in
    the network, and the window is full. *)
Record stalled (src dst : Side) : Prop := {
  st_full : (max_in_flight (config (s_ep src)) ≤ length (in_flight (s_ep src)))%nat;
  st_some : in_flight (s_ep src) ≠ [];
  st_got : length (got dst) = length (sent src);
  st_owes : packets_since_ack (ack (s_ep dst)) = 0;
  st_count : 1 ≤ ack_coalesce_count (config (s_ep dst));
  st_net : Forall (λ d, ∀ h p, decode_packet (d_bytes d) = Ok (h, p) → acks h = false) (s_net dst);
}.

Lemma should_send_ack_zero t ep :
  packets_since_ack (ack ep) = 0 → 1 ≤ ack_coalesce_count (config ep) → should_send_ack t ep = false.
Proof.
  intros Hz Hc. unfold should_send_ack. rewrite Hz.
  destruct (Z.leb_spec (ack_coalesce_count (config ep)) 0); [lia|]. by repeat case_match.
Qed.

(** A full window takes nothing from the queue. *)
Lemma poll_full_window now t1 t2 ep :
  (max_in_flight (config ep) ≤ length (in_flight ep))%nat → in_flight ep ≠ [] →
  length (in_flight (poll_outbound now t1 t2 ep).2) = length (in_flight ep).
Proof.
  intros Hf Hne. unfold poll_outbound, send_phase.
  pose proof (retransmit_phase_window now ep) as H1.
  destruct (retransmit_phase now ep) as [o1 ep1].
  destruct H1 as (Hl1 & _ & _ & _ & _ & _ & Hc1 & _).
  assert (send_loop now (outbound ep1) ep1 = ([], set_outbound ep1 (outbound ep1))) as ->.
  { destruct (outbound ep1); cbn [send_loop];
      (destruct (Nat.ltb_spec (length (in_flight ep1)) (max_in_flight (config ep1)));
        [rewrite Hc1 in *; lia|done]). }
  pose proof (ack_phase_frame t1 t2 (set_outbound ep1 (outbound ep1))) as (Hi & _).
  destruct (ack_phase t1 t2 _) as [o3 ep3]. cbn [snd in_flight set_outbound] in Hi.
  unfold ping_phase. rewrite Hi, (bool_decide_eq_false_2 (in_flight ep1 = [])).
  - rewrite andb_false_r. cbn [andb snd]. congruence.
  - intros E. rewrite E in Hl1. by destruct (in_flight ep).
Qed.

Lemma stalled_src base base' src src' dst :
  half base src dst → half base' dst src → side_step dst src src' → stalled src dst →
  stalled src' dst ∧ sent src' = sent src ∧ got dst = got dst.
Proof.
  intros Hh Hh' Hstep Hst. destruct Hstep as [p s Hne Hp|cmds s Hps|now t1 t2 s|d now s Hd Hf|i s|b s|id s Hid];
    try (destruct Hst; by split; [split|]).
  - destruct Hst.
    pose proof (poll_full_window now t1 t2 (s_ep s) st_full0 st_some0) as Hlen.
    destruct (poll_outbound_queue now t1 t2 (s_ep s)) as [_ Hc].
    unfold poll. destruct (poll_outbound now t1 t2 (s_ep s)) as [out ep']. cbn [snd] in *.
    rewrite drop_ge by lia. cbn [fmap list_fmap]. rewrite app_nil_r.
    split; [|done]. split; cbn [s_ep s_net sent got]; try done; [by rewrite Hc, Hlen|].
    intros E. rewrite E in Hlen. by destruct (in_flight (s_ep s)).
  - pose proof (receive_spec (d_bytes d) now (s_ep s)) as Hs.
    pose proof (receive_frame (d_bytes d) now (s_ep s)) as Hr. destruct Hst.
    unfold deliver. destruct (receive (d_bytes d) now (s_ep s)) as [[g replies] ep'].
    destruct Hr as [_ _ Hc _].
    assert (in_flight ep' = in_flight (s_ep s)) as Hi.
    { destruct (decode_packet (d_bytes d)) as [[h p]|e] eqn:Hdec; [|apply Hs].
      rewrite Forall_forall in st_net0. destruct Hs as [-> _]. by rewrite (st_net0 d Hd h p Hdec). }
    split; [|done]. split; cbn [s_ep s_net sent got]; by rewrite ?Hi, ?Hc.
Qed.

Lemma stalled_dst base base' src dst dst' :
  half base src dst → half base' dst src → side_step src dst dst' → stalled src dst →
  stalled src dst' ∧ got dst' = got dst.
Proof.
  intros Hh Hh' Hstep Hst. destruct Hstep as [p s Hne Hp|cmds s Hps|now t1 t2 s|d now s Hd Hf|i s|b s|id s Hid];
    try (destruct Hst; by split; [split|]).
  - destruct Hst. pose proof (should_send_ack_zero t1 _ st_owes0 st_count0) as Hno.
    pose proof (half_poll_src base' now t1 t2 s src Hh') as Hh1.
    pose proof (poll_outbound_window now t1 t2 _ (h_ok _ _ _ Hh') (h_fits _ _ _ Hh')) as Hp.
    unfold poll in *. destruct (poll_outbound now t1 t2 (s_ep s)) as [out ep'].
    pose proof (h_entries _ _ _ Hh1) as Hes. cbn [s_ep] in Hes.
    destruct Hp as (news & Hp). destruct Hp. split; [|done].
    split; cbn [s_ep s_net sent got]; try done.
    + destruct pw_count0 as [->|[? _]]; [done|congruence].
    + by rewrite pw_config0.
    + apply Forall_app. split; [done|]. unfold emit. rewrite Forall_fmap.
      eapply Forall_impl; [exact pw_out0|]. intros b [(e & He & Hb)|[? _]]; [|congruence].
      cbn. intros h p Hdec. rewrite Forall_forall in Hes.
      destruct (entry_emits_decodes e b (Hes e He) Hb) as (h' & Hdec' & _ & Ha & _).
      rewrite Hdec in Hdec'. by injection Hdec' as -> _.
  - pose proof (receive_spec (d_bytes d) now (s_ep s)) as Hs.
    pose proof (receive_frame (d_bytes d) now (s_ep s)) as Hr.
    unfold deliver. destruct (receive (d_bytes d) now (s_ep s)) as [[g replies] ep'].
    destruct Hr as [Hok _ Hc _]. specialize (Hok (h_ok _ _ _ Hh')).
    assert (g = None ∧ ack ep' = ack (s_ep s) ∧
            (replies = [] ∨ replies = [build_retransmit_request ep'])) as (-> & Ha & Hrep).
    { destruct (decode_packet (d_bytes d)) as [[h p]|e] eqn:Hdec; [|by destruct Hs as (-> & -> & _ & ->); auto].
      destruct Hs as [_ Hs]. destruct (reliable h && _) eqn:Hacc; [|exact Hs]. bool_to_prop.
      pose proof (half_accept base src s d h p Hh Hd Hf Hdec) as Hl.
      rewrite (st_got _ _ Hst), lookup_ge_None_2 in Hl by lia. by discriminate Hl. }
    rewrite app_nil_r. destruct Hst. split; [|done].
    split; cbn [s_ep s_net sent got]; rewrite ?Ha, ?Hc; try done.
    apply Forall_app. split; [done|].
    apply (replies_ok _ _ _ _ _ Hok Hrep). intros d' _ _ (h & Hdec & _ & Hack) h' p' Hdec'.
    rewrite Hdec in Hdec'. by injection Hdec' as <- _.
  - destruct Hst. split; [|done]. split; try done. cbn. rewrite delete_take_drop.
    apply Forall_app. split; [by apply Forall_take|by apply Forall_drop].
Qed.

(** C35. A lost acknowledgement can stop a direction for good.  Once the window is full,
    everything in it has been accepted, and the acknowledgement is lost, nothing
    the two endpoints do makes the receiver acknowledge again: whatever is queued
    later is never given a packet id, and nothing more is ever accepted. *)
Theorem lost_ack_stalls x gs y a b a' b' :
  synced x gs y → linked x gs y (a, b) → stalled a b → rtc link_step (a, b) (a', b') →
  stalled a' b' ∧ sent a' = sent a ∧ got b' = got b.
Proof.
  intros Hs Hl Hst Hrun. apply (linked_ok _ _ _ _ Hs) in Hl.
  remember (a, b) as l eqn:El. remember (a', b') as l' eqn:El'. revert a b El Hst.
  induction Hrun as [|l1 l2 l3 H12 _ IH]; intros a b ->; [by simplify_eq|]. intros Hst.
  pose proof (link_step_ok _ _ _ _ H12 Hl) as Hl2. destruct Hl as [H1 H2]. cbn in H1, H2.
  inversion H12 as [? a2 ? Hstep|? ? b2 Hstep]; subst.
  - destruct (stalled_src _ _ _ _ _ H1 H2 Hstep Hst) as (Hst2 & Hsent & _).
    destruct (IH Hl2 eq_refl a2 b eq_refl Hst2) as (? & -> & ->). done.
  - destruct (stalled_dst _ _ _ _ _ H1 H2 Hstep Hst) as (Hst2 & Hgot).
    destruct (IH Hl2 eq_refl a b2 eq_refl Hst2) as (? & -> & ->). done.
Qed.

(** ** Progress

    Without that stall, both endpoints can always finish: there is a continuation,
    in which nothing more is queued, that delivers everything. *)

(** Once the oldest packet is due, a poll sends the whole window. *)
Lemma poll_outbound_complete now t1 t2 ep :
  ep_ok ep → Forall fits (outbound ep) →
  (∀ o, head (in_flight ep) = Some o →
     retransmit_after (config ep) ≤ duration_since now (sent_at o)) →
  let '(out, ep') := poll_outbound now t1 t2 ep in
  Forall (λ e, entry_bytes e ∈ out ∨ mark_retransmit (entry_bytes e) ∈ out) (in_flight ep').
Proof.
  intros Hep Hq Hdue. unfold poll_outbound, send_phase.
  assert (Forall (λ e, mark_retransmit (entry_bytes e) ∈ (retransmit_phase now ep).1)
    (in_flight (retransmit_phase now ep).2)) as H1.
  { unfold retransmit_phase. destruct (in_flight ep) as [|o q] eqn:E; [cbn [snd]; by rewrite E|].
    rewrite (proj2 (Z.leb_le _ _) (Hdue o eq_refl)), <- E. cbn [fst snd in_flight set_in_flight].
    rewrite Forall_fmap, Forall_forall. intros e He. apply list_elem_of_fmap. by exists e. }
  pose proof (ep_ok_retransmit_phase now ep Hep) as Hep1.
  pose proof (retransmit_phase_window now ep) as Hw.
  destruct (retransmit_phase now ep) as [o1 ep1]. cbn [fst snd] in *.
  destruct Hw as (_ & _ & _ & _ & Hq1 & _). rewrite <- Hq1 in Hq.
  destruct (send_loop_window now (outbound ep1) ep1) as (n2 & Ho2 & Hi2 & _);
    [by apply ep_ok_session|by apply ep_ok_next|done|].
  pose proof (ep_ok_send_loop now (outbound ep1) ep1 Hep1) as Hep2.
  destruct (send_loop now (outbound ep1) ep1) as [o2 ep2]. cbn [fst snd] in *.
  pose proof (ack_phase_frame t1 t2 ep2) as (Hi3 & _).
  pose proof (ep_ok_ack_phase t1 t2 ep2 Hep2) as Hep3.
  destruct (ack_phase t1 t2 ep2) as [o3 ep3]. cbn [snd] in *.
  pose proof (polled_window_ping now ep3 (ep_ok_session _ Hep3) (ep_ok_next _ Hep3)) as H4.
  destruct (ping_phase now ep3) as [o4 ep4]. destruct H4 as (n4 & Ho4 & Hi4 & _).
  rewrite Hi4, Hi3, Hi2, !Forall_app, !Forall_forall. rewrite Forall_forall in H1.
  split_and!; intros e He; [right|left|left]; rewrite !elem_of_app; [by left; apply H1| |].
  - right; left. rewrite Ho2. by apply list_elem_of_fmap_2.
  - right; right; right. rewrite Ho4. by apply list_elem_of_fmap_2.
Qed.

(** Runs in which nothing is queued at the left side and its history does not shrink. *)
Definition run (l l' : Side * Side) : Prop := rtc link_step l l' ∧ pushed l'.1 = pushed l.1.

Lemma run_trans l1 l2 l3 : run l1 l2 → run l2 l3 → run l1 l3.
Proof. intros [H1 E1] [H2 E2]. split; [by etrans|congruence]. Qed.

Lemma run_ok x y l l' : run l l' → link_ok x y l → link_ok x y l'.
Proof. intros [H _]. induction H; eauto using link_step_ok. Qed.

(** Delivering the datagrams that carry the packets the receiver lacks, in order. *)
Lemma deliver_window x y a b :
  link_ok x y (a, b) →
  Forall (λ e, ∃ d, d ∈ s_net a ∧ fresh d a b ∧
    (d_bytes d = entry_bytes e ∨ d_bytes d = mark_retransmit (entry_bytes e)))
    (in_flight (s_ep a)) →
  ∃ b', run (a, b) (a, b') ∧ length (got b') = length (sent a) ∧ sent b' = sent b ∧
    config (s_ep b') = config (s_ep b) ∧
    ((length (got b) < length (sent a))%nat → 0 < packets_since_ack (ack (s_ep b'))) ∧
    (length (got b) = length (sent a) → b' = b).
Proof.
  intros Hok Hnet.
  assert (∃ m, length (sent a) = (length (got b) + m)%nat) as [m Hm].
  { destruct Hok as [Hh _]. pose proof (half_window _ _ _ Hh). cbn in *.
    exists (length (sent a) - length (got b))%nat. lia. }
  revert b Hok Hnet Hm. induction m as [|m IH]; intros b Hok Hnet Hm.
  { exists b. split_and!; try done; [lia|lia]. }
  pose proof Hok as [Hh Hh']. cbn [fst snd] in Hh, Hh'.
  destruct (h_window _ _ _ Hh) as (n & Hn & Hl & Hw).
  assert (∃ e, in_flight (s_ep a) !! (length (got b) - n)%nat = Some e) as [e He]
    by (apply lookup_lt_is_Some; lia).
  pose proof Hnet as Hnet'. rewrite Forall_forall in Hnet'.
  destruct (Hnet' e (list_elem_of_lookup_2 _ _ _ He)) as (d & Hd & Hf & Hb).
  pose proof (h_entries _ _ _ Hh) as Hes. rewrite Forall_forall in Hes.
  destruct (entry_emits_decodes e _ (Hes e (list_elem_of_lookup_2 _ _ _ He)) Hb)
    as (h & Hdec & Hr & _ & Hid).
  destruct (half_lookup _ _ _ _ _ Hh He) as (i & Hi & _ & Hei).
  assert (packet_id h = expected_recv (ack (s_ep b))) as Hexp.
  { rewrite Hid, Hei, (h_expected _ _ _ Hh). f_equal. f_equal. lia. }
  set (b1 := deliver (d_bytes d) 0 a b).
  assert (run (a, b) (a, b1)) as Hrun.
  { split; [|done]. by apply rtc_once, link_right, step_deliver. }
  pose proof (receive_spec (d_bytes d) 0 (s_ep b)) as Hs.
  pose proof (receive_frame (d_bytes d) 0 (s_ep b)) as Hfr.
  assert (length (got b1) = S (length (got b)) ∧ sent b1 = sent b ∧
    config (s_ep b1) = config (s_ep b) ∧ 0 < packets_since_ack (ack (s_ep b1))) as (Hg1 & Hs1 & Hc1 & Hp1).
  { subst b1. unfold deliver. destruct (receive (d_bytes d) 0 (s_ep b)) as [[g reps] ep'].
    destruct Hfr as [_ _ Hc _]. rewrite Hdec, Hr, Hexp, Z.eqb_refl in Hs.
    destruct Hs as (_ & -> & _ & _ & _ & Hcnt). cbn [got sent s_ep]. rewrite length_app.
    split_and!; [cbn; lia|done|done|]. rewrite Hcnt.
    pose proof (ep_ok_counter _ (h_ok _ _ _ Hh')) as Hu. unfold u16_saturating_add, is_u16 in *. lia. }
  destruct (IH b1) as (b' & Hrun' & Hg & Hsb & Hcb & Hpos & Heq).
  - by eapply run_ok.
  - eapply Forall_impl; [exact Hnet|]. intros e' (d' & ? & Hf' & ?). exists d'.
    split_and!; [done| |done]. unfold fresh. by rewrite Hs1.
  - lia.
  - exists b'. split_and!; [by eapply run_trans|done|congruence|congruence| |lia].
    intros _. destruct (Nat.lt_ge_cases (length (got b1)) (length (sent a))) as [?|?]; [auto|].
    rewrite Heq by lia. done.
Qed.

(** One exchange: [src] polls when its window is due, and the peer accepts all. *)
Lemma send_round x y a b :
  link_ok x y (a, b) →
  ∃ a' b', run (a, b) (a', b') ∧ length (got b') = length (sent a') ∧
    outbound (s_ep a') =
      drop (max_in_flight (config (s_ep a)) - length (in_flight (s_ep a))) (outbound (s_ep a)) ∧
    config (s_ep a') = config (s_ep a) ∧
    (length (sent a') + length (in_flight (s_ep a)) =
      length (sent a) + length (in_flight (s_ep a')))%nat ∧
    (length (sent a) ≤ length (sent a'))%nat ∧
    ((length (got b) < length (sent a'))%nat → 0 < packets_since_ack (ack (s_ep b'))).
Proof.
  intros Hok. pose proof Hok as [Hh Hh']. cbn [fst snd] in Hh, Hh'.
  set (now := match in_flight (s_ep a) with
    | o :: _ => sent_at o + Z.max 0 (retransmit_after (config (s_ep a))) | [] => 0 end).
  set (a1 := poll now now now b a).
  assert (run (a, b) (a1, b)) as Hrun.
  { split; [by apply rtc_once, link_left, step_poll|]. subst a1. unfold poll.
    by destruct (poll_outbound now now now (s_ep a)). }
  pose proof (run_ok x y _ _ Hrun Hok) as Hok1.
  pose proof (poll_outbound_complete now now now (s_ep a) (h_ok _ _ _ Hh) (h_fits _ _ _ Hh)) as Hc.
  specialize (Hc ltac:(intros o Ho; subst now; destruct (in_flight (s_ep a)); [done|];
    injection Ho as ->; unfold duration_since; lia)).
  destruct (poll_outbound_queue now now now (s_ep a)) as [Hq Hcfg].
  pose proof (poll_outbound_window now now now _ (h_ok _ _ _ Hh) (h_fits _ _ _ Hh)) as Hw.
  assert (s_ep a1 = (poll_outbound now now now (s_ep a)).2 ∧
    s_net a1 = s_net a ++ emit a1 b (poll_outbound now now now (s_ep a)).1 ∧
    (length (sent a1) + length (in_flight (s_ep a)) =
      length (sent a) + length (in_flight (s_ep a1)))%nat ∧
    (length (sent a) ≤ length (sent a1))%nat) as (Hep & Hnet & Hlen & Hle).
  { subst a1. unfold poll. destruct (poll_outbound now now now (s_ep a)) as [out ep'].
    destruct Hw as (news & Hw). destruct Hw. destruct pw_window0 as (old & Hi & Hlo & _).
    cbn [s_ep s_net sent fst snd]. rewrite length_app, length_fmap, length_drop, Hi, length_app.
    split_and!; [done|done|lia|lia]. }
  clearbody a1 now. destruct (poll_outbound now now now (s_ep a)) as [out ep']. cbn [fst snd] in *.
  destruct (deliver_window x y a1 b Hok1) as (b' & Hrun' & Hg & _ & _ & Hpos & _).
  { rewrite Hep. eapply Forall_impl; [exact Hc|]. intros e He.
    assert (∀ bs, bs ∈ out → ∃ d, d ∈ s_net a1 ∧ fresh d a1 b ∧ d_bytes d = bs) as Hin.
    { intros bs Hbs. exists {| d_src := length (sent a1); d_dst := length (sent b); d_bytes := bs |}.
      split; [|split; [|reflexivity]].
      - rewrite Hnet. apply elem_of_app. right. by apply list_elem_of_fmap_2.
      - split; cbn; lia. }
    destruct He as [He|He]; destruct (Hin _ He) as (d & ? & ? & Hd); exists d; rewrite Hd; auto. }
  exists a1, b'. rewrite Hep in *. split_and!; [by eapply run_trans|done..].
Qed.

(** The acknowledgement of everything sent empties the window. *)
Lemma ack_round x y a b :
  link_ok x y (a, b) → length (got b) = length (sent a) → 0 < packets_since_ack (ack (s_ep b)) →
  ∃ a' b', run (a, b) (a', b') ∧ in_flight (s_ep a') = [] ∧
    outbound (s_ep a') = outbound (s_ep a) ∧ config (s_ep a') = config (s_ep a).
Proof.
  intros Hok Hg Hpos. pose proof Hok as [Hh Hh']. cbn [fst snd] in Hh, Hh'.
  destruct (h_owes _ _ _ Hh Hpos) as [id Hid].
  set (now := match last_ack_sent_at (ack (s_ep b)) with
    | Some t => t + Z.max 0 (ack_coalesce_after (config (s_ep b))) | None => 0 end).
  assert (should_send_ack now (s_ep b) = true) as Hs.
  { unfold should_send_ack. rewrite Hid. case_match; [done|]. subst now.
    destruct (last_ack_sent_at _) as [t|]; [|by apply Z.ltb_lt].
    apply andb_true_iff. split; [by apply Z.ltb_lt|]. apply Z.leb_le. unfold duration_since. lia. }
  set (b1 := poll now now now a b).
  assert (run (a, b) (a, b1)) as Hrun by (split; [by apply rtc_once, link_right, step_poll|done]).
  pose proof (run_ok x y _ _ Hrun Hok) as [Hh1 _]. cbn [fst snd] in Hh1.
  destruct (poll_outbound_acks now now now (s_ep b) id Hs Hid) as [Hin _].
  set (d := {| d_src := length (sent b1); d_dst := length (sent a);
    d_bytes := ack_packet (rel_session_id (s_ep b)) id |}).
  assert (d ∈ s_net b1) as Hd.
  { subst d b1. unfold poll. destruct (poll_outbound now now now (s_ep b)) as [out ep']. cbn [fst] in Hin.
    apply elem_of_app. right. unfold emit. cbn [sent]. by apply list_elem_of_fmap_2. }
  assert (fresh d b1 a) as Hf by (split; cbn; lia).
  set (a' := deliver (d_bytes d) 0 b1 a).
  assert (run (a, b1) (a', b1)) as Hrun'.
  { split; [by apply rtc_once, link_left, step_deliver|]. subst a'. unfold deliver.
    by destruct (receive _ _ _) as [[? ?] ?]. }
  exists a', b1. split; [by eapply run_trans|].
  pose proof (h_highest _ _ _ Hh id Hid) as Hid'.
  destruct (ack_packet_decodes (rel_session_id (s_ep b)) id) as (h & Hdec & Hr & Ha & Hack);
    [by apply ep_ok_session, Hh'|rewrite Hid'; unfold is_u16; lia|].
  pose proof (receive_spec (d_bytes d) 0 (s_ep a)) as Hsp.
  pose proof (receive_frame (d_bytes d) 0 (s_ep a)) as Hfr.
  subst a'. unfold deliver. destruct (receive (d_bytes d) 0 (s_ep a)) as [[g reps] ep'].
  cbn [s_ep]. destruct Hfr as [_ Ho Hc _]. split; [|done].
  cbn [d_bytes d] in Hsp. rewrite Hdec in Hsp. destruct Hsp as [-> _]. rewrite Ha, Hack.
  pose proof (half_window _ _ _ Hh) as [Hw _].
  rewrite (drop_acked_window _ (next_send_id (s_ep a)))
    by first [exact (ep_ok_ids _ (h_ok _ _ _ Hh)) | rewrite Hid'; unfold is_u16; lia].
  cbv zeta. rewrite (h_next _ _ _ Hh), Hid', Hg. set (m := length (in_flight (s_ep a))) in *.
  destruct (in_flight (s_ep a)) as [|e q] eqn:E; [by rewrite drop_nil|].
  assert (0 < m)%nat by (subst m; cbn; lia).
  match goal with |- context [?u <? 256] => assert (u = Z.of_nat m - 1) as -> by lia end.
  destruct (Z.ltb_spec (Z.of_nat m - 1) 256); [|lia]. apply drop_ge. fold m. lia.
Qed.

Lemma half_all_delivered base src dst :
  half base src dst → length (got dst) = length (sent src) → outbound (s_ep src) = [] →
  nonempty (got dst) = pushed src.
Proof.
  intros [] Hl Ho. rewrite h_pushed0, Ho, app_nil_r. f_equal.
  apply prefix_length_eq; [done|lia].
Qed.

(** With room in the window, each exchange shortens the queue. *)
Lemma drain_run x y n a b :
  link_ok x y (a, b) → (length (outbound (s_ep a)) ≤ n)%nat →
  (length (in_flight (s_ep a)) < max_in_flight (config (s_ep a)))%nat →
  ∃ a' b', run (a, b) (a', b') ∧ nonempty (got b') = pushed a'.
Proof.
  revert a b. induction n as [|n IH]; intros a b Hok Hn Hroom;
    destruct (send_round x y a b Hok) as (a1 & b1 & Hr1 & Hg1 & Ho1 & Hc1 & Hl1 & Hle & Hp1);
    pose proof (run_ok x y _ _ Hr1 Hok) as Hok1.
  - exists a1, b1. split; [done|]. destruct Hok1 as [Hh _].
    apply (half_all_delivered x); [done|done|].
    rewrite Ho1. destruct (outbound (s_ep a)); [by rewrite drop_nil|cbn in Hn; lia].
  - assert (length (outbound (s_ep a1)) ≤ n)%nat as Hn1 by (rewrite Ho1, length_drop; lia).
    destruct (Nat.eq_dec (length (sent a1)) (length (sent a))) as [E|E].
    + destruct (IH a1 b1 Hok1 Hn1) as (a2 & b2 & Hr2 & Hd2); [rewrite Hc1; lia|].
      exists a2, b2. split; [by eapply run_trans|done].
    + destruct Hok as [Hh _]. pose proof (half_window _ _ _ Hh) as [_ Hw]. cbn [fst snd] in Hw.
      destruct (ack_round x y a1 b1 Hok1 Hg1 (Hp1 ltac:(lia))) as (a2 & b2 & Hr2 & Hi2 & Ho2 & Hc2).
      destruct (IH a2 b2) as (a3 & b3 & Hr3 & Hd3);
        [by eapply run_ok|by rewrite Ho2|rewrite Hi2, Hc2, Hc1; cbn; lia|].
      exists a3, b3. split; [|done]. by eapply run_trans, run_trans.
Qed.

(** The receiver lacks a packet or owes an acknowledgement, or the window has room. *)
Definition can_move (src dst : Side) : Prop :=
  (length (got dst) < length (sent src))%nat ∨ 0 < packets_since_ack (ack (s_ep dst)) ∨
  (length (in_flight (s_ep src)) < max_in_flight (config (s_ep src)))%nat.

Lemma unblock x y a b :
  link_ok x y (a, b) → (1 ≤ max_in_flight (config (s_ep a)))%nat → can_move a b →
  ∃ a' b', run (a, b) (a', b') ∧
    (length (in_flight (s_ep a')) < max_in_flight (config (s_ep a')))%nat.
Proof.
  intros Hok Hmax Hm. pose proof Hok as [Hh _]. pose proof (half_window _ _ _ Hh) as [_ Hw].
  cbn [fst snd] in Hw.
  destruct (Nat.lt_ge_cases (length (in_flight (s_ep a))) (max_in_flight (config (s_ep a)))) as [?|Hfull].
  { exists a, b. done. }
  destruct (Nat.eq_dec (length (got b)) (length (sent a))) as [E|E].
  - destruct Hm as [?|[Hp|?]]; [lia| |lia].
    destruct (ack_round x y a b Hok E Hp) as (a1 & b1 & Hr & Hi & _ & Hc).
    exists a1, b1. split; [done|]. rewrite Hi, Hc. cbn. lia.
  - destruct (send_round x y a b Hok) as (a1 & b1 & Hr1 & Hg1 & _ & Hc1 & _ & Hle & Hp1).
    destruct (ack_round x y a1 b1 (run_ok x y _ _ Hr1 Hok) Hg1 (Hp1 ltac:(lia)))
      as (a2 & b2 & Hr2 & Hi2 & _ & Hc2).
    exists a2, b2. split; [by eapply run_trans|]. rewrite Hi2, Hc2, Hc1. cbn. lia.
Qed.

(** C9. Progress.  From every state the link can reach in which the receiver lacks a
    packet or owes an acknowledgement, or the sender's window has room, some
    continuation with nothing more queued delivers everything that was queued. *)
Theorem link_progress x gs y a b :
  synced x gs y → linked x gs y (a, b) → (1 ≤ max_in_flight (config (s_ep a)))%nat →
  can_move a b →
  ∃ a' b', rtc link_step (a, b) (a', b') ∧ pushed a' = pushed a ∧
    nonempty (got b') = pushed a.
Proof.
  intros Hs Hl Hmax Hm. apply (linked_ok _ _ _ _ Hs) in Hl.
  destruct (unblock _ _ a b Hl Hmax Hm) as (a1 & b1 & Hr1 & Hroom).
  destruct (drain_run _ _ _ a1 b1 (run_ok _ _ _ _ Hr1 Hl) (le_n _) Hroom) as (a2 & b2 & Hr2 & Hd).
  destruct (run_trans _ _ _ Hr1 Hr2) as [Hrun Hp]. cbn [fst] in Hp.
  exists a2, b2. split_and!; [done..|congruence].
Qed.

(** ** Building runs *)

Lemma push_all ps a b :
  Forall (λ p, p ≠ [] ∧ fits p) ps →
  rtc link_step (a, b) (foldl (λ a p, push [p] (queue_payload p (s_ep a)) a) a ps, b).
Proof.
  revert a. induction ps as [|p ps IH]; intros a Hps; [done|].
  apply Forall_cons in Hps as [[Hne Hp] Hps]. eapply rtc_l; [|by apply IH].
  by apply link_left, step_queue.
Qed.

Lemma deliver_all ds a b :
  Forall (λ d, d ∈ s_net a ∧ fresh d a b) ds →
  rtc link_step (a, b) (a, foldl (λ b d, deliver (d_bytes d) 0 a b) b ds).
Proof.
  revert b. induction ds as [|d ds IH]; intros b Hds; [done|].
  apply Forall_cons in Hds as [[Hd Hf] Hds]. eapply rtc_l; [by apply link_right, step_deliver|].
  apply IH. eapply Forall_impl; [exact Hds|]. intros d' [? Hf']. split; [done|].
  unfold fresh, deliver in *. destruct (receive _ _ _) as [[? ?] ?]. exact Hf'.
Qed.

(** Before [LIFETIME] packets have been sent, no datagram is too old. *)
Lemma fresh_early d src dst :
  Z.of_nat (length (sent src)) ≤ 32000 → Z.of_nat (length (sent dst)) ≤ 32000 → fresh d src dst.
Proof. intros. unfold fresh, LIFETIME. lia. Qed.
