(* ===== verification/Mdns.v ===== *)
(** * The mDNS announcement

    [crates/atem-proxy/src/mdns.rs]: what the proxy announces itself as.  Polling
    the cache, the texts of the service record and the choice of the address are
    modelled; the mDNS daemon, the host name and the interface list are the
    environment.  The sleeps of 100 ms between the polls are not modelled; a list of
    fewer than [ANNOUNCE_POLLS] polls stands for a wait whose remaining polls see
    neither a cancellation nor a switcher, so that it ends in the time-out. *)

From S2P Require Export Cache Addr.
Open Scope nat_scope.

Definition ends_with (s pat : str) : bool :=
  (length pat <=? length s) && bool_decide (drop (length s - length pat) s = pat).

Definition SERVICE_TYPE : str := chars "_blackmagic._tcp.local.".

(** What a turn of the waiting loop sees: the cancellation token and the cache. *)
Record Poll : Type := {
  is_cancelled : bool;
  poll_ready : bool;
  poll_product : option str;
  poll_version : option (Z * Z);
}.

(** The loop that waits for the switcher, a poll each 100 ms; [None] if it is
    cancelled. *)
Fixpoint announce_wait (polls : list Poll) : option (option str * option (Z * Z)) :=
  match polls with
  | [] => Some (None, None)
  | p :: polls =>
      if is_cancelled p then None
      else if poll_ready p &&
        (bool_decide (is_Some (poll_product p)) || bool_decide (is_Some (poll_version p)))
      then Some (poll_product p, poll_version p)
      else announce_wait polls
  end.

Definition ANNOUNCE_POLLS : nat := 100.

(** The names that are announced. *)
Definition announced_product (product : option str) : str :=
  match product with
  | Some s => match s with [] => chars "ATEM Proxy" | _ => s end
  | None => chars "ATEM Proxy"
  end.
Definition announced_release (version : option (Z * Z)) : str :=
  match version with
  | Some (maj, min) => show_int maj ++ chars "." ++ show_int min
  | None => chars "0.0"
  end.

(** The loop of [sanitize_instance_name]: the text so far and [prev_dash].  Its two
    replacing branches do the same. *)
Fixpoint sanitize_chars (s : str) (prev_dash : bool) (name : str) : str :=
  match name with
  | [] => s
  | c :: name =>
      if is_ascii_alphanumeric c || (c =? 0x20)%Z then sanitize_chars (s ++ [c]) false name
      else if (c =? 0x2D)%Z || is_control c || negb (is_ascii c) then
        if negb prev_dash && negb (bool_decide (s = [])) then sanitize_chars (s ++ [0x2D%Z]) true name
        else sanitize_chars s prev_dash name
      else
        if negb prev_dash && negb (bool_decide (s = [])) then sanitize_chars (s ++ [0x2D%Z]) true name
        else sanitize_chars s prev_dash name
  end.

Definition sanitize_instance_name (name : str) : str :=
  let s := sanitize_chars [] false name in
  let s := trim_matches (λ c, (c =? 0x2D)%Z) (trim_matches is_whitespace s) in
  match s with
  | [] => chars "ATEM-Proxy"
  | _ => s ++ chars " (Proxy)"
  end.

Definition host_name (host : option str) : str :=
  let host := default (chars "atem-proxy") host in
  if ends_with host (chars ".local.") then host
  else if ends_with host (chars ".local") then host ++ chars "."
  else host ++ chars ".local.".

(** An interface address: whether it is loopback, and an IPv4 address if it is one. *)
Definition local_ipv4 (addrs : list (bool * option str)) : option str :=
  head (omap snd (filter (λ a, a.1 = false) addrs)).

(** The text record of the service, [ip] printed. *)
Definition service_props (product_name release ip : str) : list (str * str) :=
  [(chars "txtvers", chars "1");
   (chars "name", product_name);
   (chars "class", chars "AtemSwitcher");
   (chars "protocol version", chars "0.0");
   (chars "release version", release);
   (chars "device version", chars "0");
   (chars "unique id", chars "atem-proxy-" ++ ip);
   (chars "internal version", chars "atem-proxy")].

(** ** The registration *)
Record ServiceRecord : Type := {
  record_type : str;
  record_instance : str;
  record_host : str;
  record_ip : str;
  record_port : Z;
  record_props : list (str * str);
}.

Inductive RegisterError : Type := NoDaemon | NoIpv4 | BadRecord | NotRegistered.

(** What the task does in the end. *)
Inductive announcement : Type :=
  | Cancelled
  | RegistrationFailed (e : RegisterError)
  | Announced (r : ServiceRecord).

Section announcer.
  (** The daemon starts; the interfaces, if they can be read; the host name, if it can
      and is UTF-8; the records that the daemon accepts and registers. *)
  Context (daemon : bool) (if_addrs : option (list (bool * option str))) (host : option str).
  Context (accepts registers : ServiceRecord → bool).

Definition register_service (product_name release_version : str) (port : Z) :
    Result RegisterError ServiceRecord :=
  if negb daemon then Err NoDaemon
  else
    match if_addrs ≫= local_ipv4 with
    | None => Err NoIpv4
    | Some ip =>
        let service :=
          {| record_type := SERVICE_TYPE; record_instance := sanitize_instance_name product_name;
             record_host := host_name host; record_ip := ip; record_port := port;
             record_props := service_props product_name release_version ip |} in
        if negb (accepts service) then Err BadRecord
        else if negb (registers service) then Err NotRegistered
        else Ok service
    end.

(** The task: [polls] are the turns of its loop, [ANNOUNCE_POLLS] at most. *)
Definition spawn_mdns_announcer (polls : list Poll) (port : Z) : announcement :=
  match announce_wait (take ANNOUNCE_POLLS polls) with
  | None => Cancelled
  | Some (product, version) =>
      match register_service (announced_product product) (announced_release version) port with
      | Err e => RegistrationFailed e
      | Ok r => Announced r
      end
  end.
End announcer.

(** The unit test of the source. *)
Example instance_name_does_not_turn_nul_pad_into_dash_run :
  sanitize_instance_name (chars "ATEM 2 M/E Constellation HD") =
    chars "ATEM 2 M-E Constellation HD (Proxy)".
Proof. vm_compute. reflexivity. Qed.

(** ** Properties *)

(** The characters of a sanitized name, and no two dashes in a row. *)
Definition name_char (c : Z) : bool :=
  is_ascii_alphanumeric c || (c =? 0x20)%Z || (c =? 0x2D)%Z.

Definition no_double_dash (s : str) : Prop :=
  ∀ i, ¬ (s !! i = Some 0x2D%Z ∧ s !! S i = Some 0x2D%Z).

Lemma no_double_dash_snoc s c :
  no_double_dash s → (c = 0x2D%Z → last s ≠ Some 0x2D%Z) → no_double_dash (s ++ [c]).
Proof.
  intros Hs Hc i [H1 H2]. apply lookup_app_Some in H2 as [H2|[Hlen H2]].
  - apply (Hs i). split; [|done]. rewrite lookup_app_l in H1; [done|].
    apply lookup_lt_Some in H2. lia.
  - apply list_lookup_singleton_Some in H2 as [Hi Hc2].
    assert (S i = length s) as Hl by lia.
    apply Hc; [done|]. rewrite lookup_app_l in H1 by lia. rewrite last_lookup.
    by rewrite <- Hl.
Qed.

Lemma sanitize_chars_ok s prev_dash name :
  Forall (λ c, name_char c = true) s → no_double_dash s →
  (prev_dash = false → last s ≠ Some 0x2D%Z) →
  Forall (λ c, name_char c = true) (sanitize_chars s prev_dash name) ∧
  no_double_dash (sanitize_chars s prev_dash name).
Proof.
  revert s prev_dash. induction name as [|c name IH]; intros s pd Hs Hd Hp; [done|].
  cbn [sanitize_chars]. destruct (is_ascii_alphanumeric c || (c =? 0x20)%Z) eqn:Hc.
  - assert (c ≠ 0x2D%Z) as Hne by (by intros ->).
    apply IH.
    + apply Forall_app. split; [done|]. constructor; [|done]. unfold name_char. by rewrite Hc.
    + by apply no_double_dash_snoc.
    + rewrite last_snoc. congruence.
  - assert ((if negb pd && negb (bool_decide (s = [])) then sanitize_chars (s ++ [0x2D%Z]) true name
             else sanitize_chars s pd name) = sanitize_chars s pd name ∨
            pd = false ∧ (if negb pd && negb (bool_decide (s = []))
              then sanitize_chars (s ++ [0x2D%Z]) true name
              else sanitize_chars s pd name) = sanitize_chars (s ++ [0x2D%Z]) true name) as Hcase.
    { destruct pd; cbn [negb andb]; [by left|]. destruct (negb _); [by right|by left]. }
    assert (∀ r, r = sanitize_chars s pd name ∨ pd = false ∧ r = sanitize_chars (s ++ [0x2D%Z]) true name →
      Forall (λ c, name_char c = true) r ∧ no_double_dash r) as Hr.
    { intros r [->|[-> ->]]; [by apply IH|]. apply IH; [|apply no_double_dash_snoc; auto|done].
      apply Forall_app. split; [done|]. by repeat constructor. }
    destruct ((c =? 0x2D)%Z || is_control c || negb (is_ascii c)); by apply Hr.
Qed.

(** [s'] is a run of consecutive characters of [s]. *)
Definition substring (s' s : str) : Prop := ∃ l r, s = l ++ s' ++ r.

Lemma trim_matches_substring f s : substring (trim_matches f s) s.
Proof.
  unfold trim_matches.
  assert (∃ l, s = l ++ trim_start_matches f s) as [l Hl].
  { induction s as [|c s [l IH]]; [by exists []|]. cbn. destruct (f c); [|by exists []].
    exists (c :: l). cbn. by rewrite <- IH. }
  destruct (trim_end_matches_spec f (trim_start_matches f s)) as (r & Hr & _).
  exists l, r. by rewrite <- Hr.
Qed.

Lemma substring_props s' s :
  substring s' s → Forall (λ c, name_char c = true) s → no_double_dash s →
  Forall (λ c, name_char c = true) s' ∧ no_double_dash s'.
Proof.
  intros (l & r & ->) Hf Hd. apply Forall_app in Hf as [_ [Hf _]%Forall_app]. split; [done|].
  intros i [H1 H2]. apply (Hd (length l + i)).
  apply lookup_lt_Some in H1 as L1. apply lookup_lt_Some in H2 as L2.
  assert (∀ j, (j < length s')%nat → (l ++ s' ++ r) !! (length l + j) = s' !! j) as Hj.
  { intros j Hj. rewrite lookup_app_r by lia.
    replace (length l + j - length l) with j by lia. by rewrite lookup_app_l. }
  rewrite plus_n_Sm, !Hj by done. done.
Qed.

(** A name fit for announcing: the default, or a non-empty stem followed by
    " (Proxy)", where the stem has ASCII letters, digits, spaces and dashes only, no
    dash at either end, and no two dashes in a row. *)
Definition clean_instance (s : str) : Prop :=
  s = chars "ATEM-Proxy" ∨
  ∃ stem, stem ≠ [] ∧ s = stem ++ chars " (Proxy)" ∧
    Forall (λ c, name_char c = true) stem ∧ no_double_dash stem ∧
    head stem ≠ Some 0x2D%Z ∧ last stem ≠ Some 0x2D%Z.

(** Whatever the switcher calls itself. *)
Lemma sanitize_instance_name_clean name : clean_instance (sanitize_instance_name name).
Proof.
  unfold clean_instance, sanitize_instance_name. set (s := sanitize_chars [] false name).
  destruct (sanitize_chars_ok [] false name) as [Hf Hd]; [constructor|by intros ? [? _]|done|].
  fold s in Hf, Hd. set (t := trim_matches is_whitespace s).
  destruct (substring_props t s) as [Hf1 Hd1]; [apply trim_matches_substring|done|done|].
  set (u := trim_matches (λ c, (c =? 0x2D)%Z) t).
  destruct (substring_props u t) as [Hf2 Hd2]; [apply trim_matches_substring|done|done|].
  destruct u as [|c u'] eqn:E; [by left|right]. rewrite <- E in *. exists u.
  split_and!; [by rewrite E|by rewrite E|done|done| |].
  - subst u. unfold trim_matches in *. clear -E. intros H.
    destruct (trim_end_matches_spec (λ c, (c =? 0x2D)%Z) (trim_start_matches (λ c, (c =? 0x2D)%Z) t))
      as (r & Hr & _). rewrite E in Hr, H. cbn in H, Hr. injection H as ->.
    revert Hr. induction t as [|d t IH]; cbn; [done|]. destruct (Z.eqb_spec d 0x2D); [|congruence].
    subst d. apply IH. cbn in E. done.
  - subst u. unfold trim_matches in *.
    destruct (trim_end_matches_spec (λ c, (c =? 0x2D)%Z) (trim_start_matches (λ c, (c =? 0x2D)%Z) t))
      as (r & _ & _ & Hlast). intros H. by specialize (Hlast _ H).
Qed.

(** The host name of the record is fully qualified. *)
Lemma host_name_qualified host : ends_with (host_name host) (chars ".local.") = true.
Proof.
  assert (∀ s pat, ends_with (s ++ pat) pat = true) as Happ.
  { intros s pat. unfold ends_with. rewrite length_app. rewrite (proj2 (Nat.leb_le _ _)) by lia.
    replace (length s + length pat - length pat) with (length s) by lia.
    rewrite drop_app_length. by rewrite bool_decide_true. }
  unfold host_name. set (h := default _ host).
  destruct (ends_with h (chars ".local.")) eqn:E1; [done|].
  destruct (ends_with h (chars ".local")) eqn:E2; [|apply Happ].
  unfold ends_with in E2. apply andb_true_iff in E2 as [Hl Hd%bool_decide_eq_true].
  rewrite <- (take_drop (length h - length (chars ".local")) h), Hd, <- app_assoc. apply Happ.
Qed.

(** The announcement waits for a poll at which the switcher is ready and has named
    itself or its version, and takes both from that poll. *)
Definition unnamed (p : Poll) : Prop :=
  is_cancelled p = false ∧ (poll_ready p = true → poll_product p = None ∧ poll_version p = None).

Lemma announce_wait_spec polls product version :
  announce_wait polls = Some (product, version) →
  (product = None ∧ version = None ∧ Forall unnamed polls) ∨
  (is_Some product ∨ is_Some version) ∧
  ∃ before after, Forall unnamed before ∧
    polls = before ++ {| is_cancelled := false; poll_ready := true; poll_product := product;
                         poll_version := version |} :: after.
Proof.
  induction polls as [|[c r p v] polls IH];
    cbn [announce_wait is_cancelled poll_ready poll_product poll_version].
  { intros [= <- <-]. by left. }
  destruct c; [done|]. destruct (r && _) eqn:E.
  - intros [= <- <-]. right. apply andb_true_iff in E as [-> [E|E]%orb_true_iff];
      apply bool_decide_eq_true in E; (split; [tauto|]); by exists [], polls.
  - intros H. assert (unnamed {| is_cancelled := false; poll_ready := r; poll_product := p;
      poll_version := v |}) as Hu.
    { split; [done|]. cbn. intros ->. cbn in E. apply orb_false_iff in E as [E1 E2].
      rewrite bool_decide_eq_false in E1, E2. split; apply eq_None_not_Some; done. }
    destruct (IH H) as [(-> & -> & Hf)|(Hs & b & a & Hb & ->)]; [left; auto|right]. split; [done|].
    eexists (_ :: b), a. split; [by constructor|done].
Qed.

(** C34. What is announced.  The record is that of a Blackmagic switcher on an IPv4
    address of an interface that is not the loopback, under a fully qualified host
    name and an instance name of harmless characters, whatever the switcher calls
    itself.  Its names are those of the first poll, within ten seconds, at which the
    switcher is ready and known by name or version, no poll before it being
    cancelled; if there is none, they are the defaults. *)
Lemma announcement_spec daemon addrs host accepts registers polls port r :
  spawn_mdns_announcer daemon addrs host accepts registers polls port = Announced r →
  record_type r = SERVICE_TYPE ∧ record_port r = port ∧
  ends_with (record_host r) (chars ".local.") = true ∧ clean_instance (record_instance r) ∧
  (∃ l, addrs = Some l ∧ (false, Some (record_ip r)) ∈ l) ∧
  ∃ product version,
    record_instance r = sanitize_instance_name (announced_product product) ∧
    record_props r = service_props (announced_product product) (announced_release version) (record_ip r) ∧
    ((product = None ∧ version = None ∧ Forall unnamed (take ANNOUNCE_POLLS polls)) ∨
     ∃ n p, n < ANNOUNCE_POLLS ∧ polls !! n = Some p ∧ Forall unnamed (take n polls) ∧
       is_cancelled p = false ∧ poll_ready p = true ∧
       poll_product p = product ∧ poll_version p = version).
Proof.
  unfold spawn_mdns_announcer. destruct (announce_wait _) as [[product version]|] eqn:Hw; [|done].
  unfold register_service. destruct daemon; [|done]. cbn [negb].
  destruct (addrs ≫= local_ipv4) as [ip|] eqn:Hip; [|done].
  destruct (accepts _); [|done]. destruct (registers _); [|done]. intros [= <-]. cbn.
  split_and!; [done|done|apply host_name_qualified|apply sanitize_instance_name_clean| |].
  - apply bind_Some in Hip as (l & -> & Hl). exists l. split; [done|]. unfold local_ipv4 in Hl.
    apply head_Some_elem_of, list_elem_of_omap in Hl as ([lo i] & [Hlo Hin]%list_elem_of_filter & Hi).
    cbn in *. by subst.
  - exists product, version. split_and!; [done|done|].
    destruct (announce_wait_spec _ _ _ Hw) as [H|(_ & b & a & Hb & Ht)]; [by left|right].
    assert (length b < ANNOUNCE_POLLS) as Hlen.
    { pose proof (f_equal length Ht) as Hl. rewrite length_take, length_app in Hl. cbn [length] in Hl. lia. }
    exists (length b), {| is_cancelled := false; poll_ready := true; poll_product := product;
      poll_version := version |}.
    assert (take (length b) (take ANNOUNCE_POLLS polls) = b) as Htb
      by (rewrite Ht; apply take_app_length).
    rewrite take_take, Nat.min_l in Htb by lia.
    split_and!; [done| |by rewrite Htb|done..].
    rewrite <- (lookup_take_lt polls ANNOUNCE_POLLS) by done. rewrite Ht.
    by apply list_lookup_middle.
Qed.
