(* ===== verification/Service.v ===== *)
(** * The process shell

    [crates/atem-proxy/src/main.rs] and the start of [run_proxy] (proxy.rs): the
    commands, logging, the signal handler and the Windows service.  What the
    process asks of its environment is a [call]; a program is its trace of calls
    and its result, in a writer and error monad, the environment's answers being
    arguments.  A path is the [str] that names it. *)

From S2P Require Export Config Filter.
Open Scope nat_scope.

(** ** The Windows service crate's types, as far as the source names them *)
Inductive ServiceState : Type := Running | Stopped.
Inductive ControlAccept : Type := AcceptStop | AcceptShutdown.
Inductive ServiceExitCode : Type := Win32 (code : Z).
Inductive ServiceAccess : Type :=
  AccessChangeConfig | AccessStart | AccessStop | AccessDelete.
Inductive ManagerAccess : Type := ManagerConnect | ManagerCreateService.

Inductive ServiceType : Type := OwnProcess.
Inductive ServiceStartType : Type := AutoStart.
Inductive ServiceErrorControl : Type := ErrorNormal.

Record ServiceStatus : Type := {
  status_type : ServiceType;
  current_state : ServiceState;
  controls_accepted : list ControlAccept;
  exit_code : ServiceExitCode;
  checkpoint : Z;
  wait_hint : Duration;
  process_id : option Z;
}.

Record ServiceInfo : Type := {
  service_name : str;
  display_name : str;
  service_type : ServiceType;
  start_type : ServiceStartType;
  error_control : ServiceErrorControl;
  executable_path : str;
  launch_arguments : list str;
  dependencies : list str;
  account_name : option str;
  account_password : option str;
}.

(** What the process asks of the system. *)
Inductive call : Type :=
  | OpenManager (access : list ManagerAccess)
  | CurrentExe
  (** The directory of [path] and those above it, if it has any. *)
  | CreateParentDir (path : str)
  | SerializeConfig (c : Config)
  | WriteFile (path : str) (text : str)
  | Print (text : str)
  | CreateService (info : ServiceInfo) (access : list ServiceAccess)
  | SetDescription (text : str)
  | OpenService (name : str) (access : list ServiceAccess)
  | StartService
  | StopService
  | DeleteService
  | StartDispatcher (name : str)
  | RegisterHandler (name : str)
  | SetStatus (st : ServiceStatus)
  | SetVar (name : string) (value : str)
  | OpenLog (path : str)
  | InitSubscriber (filter : str) (file : option str)
  | NewRuntime
  (** The task that waits for a signal and then runs the handler. *)
  | SpawnSignals
  | SpawnUpstream (atem : SocketAddr) (reconnect_ms : Z)
  | SpawnMdns (port : Z)
  | RunServer (bind : SocketAddr) (p : FilterPolicy) (client_idle_ms : Z).

Inductive AppError : Type :=
  | CallFailed (c : call)
  | BadConfig (e : ConfigError).

(** ** Programs *)
Record IO (A : Type) : Type := MkIO {
  trace : list call;
  result : Result AppError A;
}.
Arguments MkIO {A}.
Arguments trace {A}.
Arguments result {A}.

#[global] Instance IO_ret : MRet IO := λ A a, MkIO [] (Ok a).
#[global] Instance IO_bind : MBind IO := λ A B k m,
  match result m with
  | Ok a => MkIO (trace m ++ trace (k a)) (result (k a))
  | Err e => MkIO (trace m) (Err e)
  end.

(** A fallible computation without calls. *)
Definition lift {A} (r : Result ConfigError A) : IO A :=
  MkIO [] (match r with Ok a => Ok a | Err e => Err (BadConfig e) end).

(** ** The signal handler *)

(** [ctrlc_cancel]: the flag and the cancellation token after the handler has run.  It
    cancels the first time only. *)
Definition ctrlc_fire (st : bool * bool) : bool * bool :=
  let '(flag, cancelled) := st in (true, if negb flag then true else cancelled).

(** [ctrlc_impl] on Unix: a task waits for the first of its two branches, then runs the
    handler once.  [sigterm] and [sigint] tell whether the two listeners could be
    installed; without the second the task calls [ctrl_c], which waits for the same
    signal, or fails at once. *)
Inductive Signal : Type := SigTerm | SigInt.

Definition signal_wakes (sigterm : bool) (s : Signal) : bool :=
  match s with SigTerm => sigterm | SigInt => true end.

Definition ctrlc_impl (sigterm sigint ctrl_c : bool) (signals : list Signal) (st : bool * bool) :
    bool * bool :=
  if (negb sigint && negb ctrl_c) || existsb (signal_wakes sigterm) signals
  then ctrlc_fire st else st.

(** ** The event handler of the service *)
Inductive ServiceControl : Type := CtlStop | CtlShutdown | CtlInterrogate | CtlOther.
Inductive HandlerResult : Type := NoError | NotImplemented.

(** The handler: its answer, and the cancellation token after it. *)
Definition event_handler (control : ServiceControl) (cancelled : bool) : HandlerResult * bool :=
  match control with
  | CtlStop | CtlShutdown => (NoError, true)
  | CtlInterrogate => (NoError, cancelled)
  | CtlOther => (NotImplemented, cancelled)
  end.

(** ** The commands *)
Inductive ServiceAction : Type :=
  | SvcInstall (config : option str)
  | SvcUninstall
  | SvcStart
  | SvcStop
  | SvcRun.

Inductive Commands : Type :=
  | CmdRun
  | CmdService (action : ServiceAction).

Definition SERVICE_NAME : str := chars "AtemProxy".
Definition SERVICE_DISPLAY : str := chars "ATEM Proxy".

Definition running_status : ServiceStatus :=
  {| status_type := OwnProcess; current_state := Running;
     controls_accepted := [AcceptStop; AcceptShutdown]; exit_code := Win32 0;
     checkpoint := 0; wait_hint := 0; process_id := None |}.
Definition stopped_status : ServiceStatus :=
  {| status_type := OwnProcess; current_state := Stopped; controls_accepted := [];
     exit_code := Win32 0; checkpoint := 0; wait_hint := 0; process_id := None |}.

(** [PathBuf::push] of a relative name, on Windows: a separator unless the path is
    empty, ends in one, or is a bare drive. *)
Definition path_join (base name : str) : str :=
  let sep :=
    match last base with
    | None => false
    | Some c => negb ((c =? 0x5C)%Z || (c =? 0x2F)%Z) && negb ((length base =? 2) && (c =? 0x3A)%Z)
    end in
  base ++ (if sep then [0x5C%Z] else []) ++ name.

(** The policy that [run_proxy] builds its filter with. *)
Definition policy_of (c : Config) : FilterPolicy :=
  {| lock_mode := mode (locks c); transfer_cfg := media c |}.

Definition set_log_file (v : option str) (c : Config) : Config :=
  {| atem := atem c; bind := bind c; mdns := mdns c; client_idle_ms := client_idle_ms c;
     reconnect_ms := reconnect_ms c; log := log c; log_file := v; compat := compat c;
     locks := locks c; media := media c; discovery := discovery c |}.

Section shell.
  (** The answers: whether a call succeeds; the values that some of them yield. *)
  Context (answer : call → bool) (current_exe : str) (toml_to_string : Config → str).
  Context (env : string → option str).
  Context (path_exists : str → bool) (read_to_string : str → option str).
  Context (toml_from_str : str → option Config) (filter_parses : str → bool).

(** [c?], and [let _ = c;] or [c.ok();]. *)
Definition must (c : call) : IO unit :=
  MkIO [c] (if answer c then Ok tt else Err (CallFailed c)).
Definition attempt (c : call) : IO bool := MkIO [c] (Ok (answer c)).

Definition init_logging (filter : str) (log_file : option str) : IO unit :=
  let filter :=
    match env "RUST_LOG" with Some v => if filter_parses v then v else filter | None => filter end in
  match log_file with
  | Some path =>
      _ ← attempt (CreateParentDir path);
      opened ← attempt (OpenLog path);
      _ ← attempt (InitSubscriber filter (if opened : bool then Some path else None));
      mret tt
  | None => _ ← attempt (InitSubscriber filter None); mret tt
  end.

(** [run_proxy]: the tasks that it spawns run beside [run_server]. *)
Definition run_proxy (c : Config) : IO unit :=
  atem ← lift (atem_addr c);
  _ ← attempt (SpawnUpstream atem (reconnect_ms c));
  _ ← (if discovery_mdns (discovery c)
       then _ ← attempt (SpawnMdns (addr_port (bind c))); mret tt
       else mret tt);
  must (RunServer (bind c) (policy_of c) (client_idle_ms c)).

Definition program_data : str := default (chars "C:\ProgramData") (env "ProgramData").

Definition default_windows_config_path : str :=
  path_join (path_join program_data (chars "AtemProxy")) (chars "atem-proxy.toml").

Definition install (config : option str) : IO unit :=
  _ ← must (OpenManager [ManagerConnect; ManagerCreateService]);
  _ ← must CurrentExe;
  let cfg_path := default default_windows_config_path config in
  _ ← attempt (CreateParentDir cfg_path);
  _ ← (if negb (path_exists cfg_path) then
         _ ← must (SerializeConfig Config_default);
         _ ← must (WriteFile cfg_path (toml_to_string Config_default));
         _ ← attempt (Print (chars "Wrote default config to " ++ cfg_path));
         mret tt
       else mret tt);
  let args := [chars "service"; chars "run"; chars "--config"; cfg_path] in
  let info := {| service_name := SERVICE_NAME; display_name := SERVICE_DISPLAY;
                 service_type := OwnProcess; start_type := AutoStart; error_control := ErrorNormal;
                 executable_path := current_exe; launch_arguments := args; dependencies := [];
                 account_name := None; account_password := None |} in
  _ ← must (CreateService info [AccessChangeConfig; AccessStart]);
  _ ← must (SetDescription (chars "Transparent multi-client Blackmagic ATEM UDP proxy"));
  _ ← attempt (Print (chars "Installed Windows service '" ++ SERVICE_NAME ++ chars "'"));
  mret tt.

Definition uninstall : IO unit :=
  _ ← must (OpenManager [ManagerConnect]);
  _ ← must (OpenService SERVICE_NAME [AccessDelete; AccessStop]);
  _ ← attempt StopService;
  _ ← must DeleteService;
  _ ← attempt (Print (chars "Uninstalled Windows service '" ++ SERVICE_NAME ++ chars "'"));
  mret tt.

Definition start : IO unit :=
  _ ← must (OpenManager [ManagerConnect]);
  _ ← must (OpenService SERVICE_NAME [AccessStart]);
  _ ← must StartService;
  _ ← attempt (Print (chars "Started '" ++ SERVICE_NAME ++ chars "'"));
  mret tt.

Definition stop : IO unit :=
  _ ← must (OpenManager [ManagerConnect]);
  _ ← must (OpenService SERVICE_NAME [AccessStop]);
  _ ← must StopService;
  _ ← attempt (Print (chars "Stopped '" ++ SERVICE_NAME ++ chars "'"));
  mret tt.

(** The configuration of a service: the defaults of its log file added. *)
Definition service_config (vars : string → option str) : Result ConfigError Config :=
  let cfg_path := default default_windows_config_path (vars "ATEM_PROXY_CONFIG") in
  cfg ← Config_load vars path_exists read_to_string toml_from_str (Some cfg_path) None None None None;
  match log_file cfg with
  | Some _ => Ok cfg
  | None =>
      Ok (set_log_file
            (Some (path_join (path_join program_data (chars "AtemProxy")) (chars "atem-proxy.log"))) cfg)
  end.

(** [vars] is the environment after [main] has set its variable. *)
Definition run_service_body (vars : string → option str) : IO unit :=
  _ ← must (RegisterHandler SERVICE_NAME);
  _ ← must (SetStatus running_status);
  cfg ← lift (service_config vars);
  _ ← init_logging (log cfg) (log_file cfg);
  _ ← must NewRuntime;
  let run := run_proxy cfg in
  _ ← MkIO (trace run) (Ok tt);
  _ ← must (SetStatus stopped_status);
  MkIO [] (result run).

(** The service control manager calls [service_main], which only prints an error. *)
Definition service_main (vars : string → option str) : IO unit :=
  let r := run_service_body vars in
  MkIO (trace r) (Ok tt).

Definition run_service (vars : string → option str) : IO unit :=
  _ ← must (StartDispatcher SERVICE_NAME);
  service_main vars.

Definition main (cli : Cli) (command : option Commands) : IO unit :=
  match command with
  | None | Some CmdRun =>
      cfg ← lift (load_cfg env path_exists read_to_string toml_from_str cli);
      _ ← init_logging (log cfg) (log_file cfg);
      _ ← attempt SpawnSignals;
      run_proxy cfg
  | Some (CmdService action) =>
      match action with
      | SvcInstall config => install (match config with Some p => Some p | None => cli_config cli end)
      | SvcUninstall => uninstall
      | SvcStart => start
      | SvcStop => stop
      | SvcRun =>
          match cli_config cli with
          | Some path =>
              _ ← attempt (SetVar "ATEM_PROXY_CONFIG" path);
              run_service (λ name, if String.eqb name "ATEM_PROXY_CONFIG" then Some path else env name)
          | None => run_service env
          end
      end
  end.
End shell.

(** ** Lemmas on programs *)

Lemma io_bind_Ok {A B} (m : IO A) (k : A → IO B) a :
  result m = Ok a → m ≫= k = MkIO (trace m ++ trace (k a)) (result (k a)).
Proof. unfold mbind, IO_bind. by intros ->. Qed.

Lemma io_bind_Err {A B} (m : IO A) (k : A → IO B) e :
  result m = Err e → m ≫= k = MkIO (trace m) (Err e).
Proof. unfold mbind, IO_bind. by intros ->. Qed.

Lemma elem_of_trace_bind {A B} (m : IO A) (k : A → IO B) c :
  c ∈ trace (m ≫= k) → c ∈ trace m ∨ ∃ a, result m = Ok a ∧ c ∈ trace (k a).
Proof.
  destruct (result m) as [a|e] eqn:E.
  - rewrite (io_bind_Ok m k a E). cbn. rewrite elem_of_app. intros [?|?]; [by left|right; by exists a].
  - rewrite (io_bind_Err m k e E). by left.
Qed.

Lemma result_bind_Ok {A B} (m : IO A) (k : A → IO B) b :
  result (m ≫= k) = Ok b → ∃ a, result m = Ok a ∧ result (k a) = Ok b.
Proof.
  destruct (result m) as [a|e] eqn:E.
  - rewrite (io_bind_Ok m k a E). by exists a.
  - by rewrite (io_bind_Err m k e E).
Qed.

(** The statuses that a service reports. *)
Definition statuses (t : list call) : list ServiceStatus :=
  omap (λ c, match c with SetStatus st => Some st | _ => None end) t.

Lemma statuses_app t1 t2 : statuses (t1 ++ t2) = statuses t1 ++ statuses t2.
Proof. apply omap_app. Qed.

(** Once cancelled, the proxy stays cancelled, and only a stop or a shutdown cancels. *)
Lemma controls_cancel controls cancelled :
  foldl (λ b c, (event_handler c b).2) cancelled controls =
    cancelled || existsb (λ c, match c with CtlStop | CtlShutdown => true | _ => false end) controls.
Proof.
  revert cancelled. induction controls as [|c controls IH]; intros cancelled; cbn.
  - by rewrite orb_false_r.
  - rewrite IH. by destruct c, cancelled.
Qed.

(** Signals after the first one change nothing. *)
Lemma ctrlc_once st n : Nat.iter (S n) ctrlc_fire st = ctrlc_fire st.
Proof.
  induction n as [|n IH]; [done|].
  change (Nat.iter (S (S n)) ctrlc_fire st) with (ctrlc_fire (Nat.iter (S n) ctrlc_fire st)).
  rewrite IH. by destruct st as [[] c].
Qed.

(** With its listeners installed, the proxy is cancelled by the first signal. *)
Lemma ctrlc_cancels ctrl_c signals :
  (ctrlc_impl true true ctrl_c signals (false, false)).2 = negb (bool_decide (signals = [])).
Proof. by destruct signals as [|[] signals]. Qed.

Section shell_properties.
  Context (answer : call → bool) (current_exe : str) (toml_to_string : Config → str).
  Context (env : string → option str).
  Context (path_exists : str → bool) (read_to_string : str → option str).
  Context (toml_from_str : str → option Config) (filter_parses : str → bool).

Abbreviation run_body :=
  (run_service_body answer env path_exists read_to_string toml_from_str filter_parses).
Abbreviation config_of := (service_config env path_exists read_to_string toml_from_str).

Lemma init_logging_ok filter log_file :
  result (init_logging answer env filter_parses filter log_file) = Ok tt ∧
  statuses (trace (init_logging answer env filter_parses filter log_file)) = [].
Proof. by destruct log_file. Qed.

Lemma run_proxy_statuses c : statuses (trace (run_proxy answer c)) = [].
Proof.
  unfold run_proxy, lift. destruct (atem_addr c) as [a|e]; [|done].
  by destruct (discovery_mdns (discovery c)).
Qed.

Lemma must_Ok {B} c (k : unit → IO B) :
  answer c = true → must answer c ≫= k = MkIO (c :: trace (k tt)) (result (k tt)).
Proof. intros H. unfold must, mbind, IO_bind. by rewrite H. Qed.

Lemma must_Err {B} c (k : unit → IO B) :
  answer c = false → must answer c ≫= k = MkIO [c] (Err (CallFailed c)).
Proof. intros H. unfold must, mbind, IO_bind. by rewrite H. Qed.

(** C33. What the service control manager is told, and when.  A service that starts
    registers its handler and reports itself running before anything else; if its
    configuration does not load, or the runtime does not start, it ends there without
    another report.  Otherwise it runs the proxy and, after everything the proxy has
    done, reports itself stopped; nothing is reported in between or after.  The exit
    code of that report is zero however the proxy ended; the error of the proxy is
    the result of the service. *)
Theorem service_lifecycle vars :
  answer (RegisterHandler SERVICE_NAME) = true → answer (SetStatus running_status) = true →
  let r := run_body vars in
  let started := [RegisterHandler SERVICE_NAME; SetStatus running_status] in
  current_state running_status = Running ∧
  current_state stopped_status = Stopped ∧ exit_code stopped_status = Win32 0 ∧
  match config_of vars with
  | Err e => trace r = started ∧ result r = Err (BadConfig e)
  | Ok cfg =>
      let logging := trace (init_logging answer env filter_parses (log cfg) (log_file cfg)) in
      let proxy := run_proxy answer cfg in
      statuses logging = [] ∧ statuses (trace proxy) = [] ∧
      if answer NewRuntime then
        trace r = started ++ logging ++ [NewRuntime] ++ trace proxy ++ [SetStatus stopped_status] ∧
        result r = (if answer (SetStatus stopped_status) then result proxy
                    else Err (CallFailed (SetStatus stopped_status)))
      else trace r = started ++ logging ++ [NewRuntime] ∧ result r = Err (CallFailed NewRuntime)
  end.
Proof.
  intros H1 H2 r started. split_and!; [done..|]. unfold r, run_service_body. clear r.
  rewrite must_Ok, must_Ok by done. cbn [trace result].
  destruct (config_of vars) as [cfg|e]; [|done]. cbv zeta.
  rewrite (io_bind_Ok (lift (Ok cfg)) _ cfg) by done. cbn [trace result lift app].
  destruct (init_logging_ok (log cfg) (log_file cfg)) as [Hl Hs].
  rewrite (io_bind_Ok (init_logging _ _ _ _ _) _ tt) by done. cbn [trace result].
  split; [done|]. split; [apply run_proxy_statuses|].
  destruct (answer NewRuntime) eqn:Hr; [|by rewrite must_Err].
  rewrite must_Ok by done. cbn [trace result].
  rewrite (io_bind_Ok (MkIO (trace (run_proxy answer cfg)) (Ok tt)) _ tt) by done. cbn [trace result].
  by destruct (answer (SetStatus stopped_status)) eqn:Hst;
    [rewrite must_Ok by done|rewrite must_Err by done].
Qed.

(** ** The installation *)
Definition launch_info (path : str) : ServiceInfo :=
  {| service_name := SERVICE_NAME; display_name := SERVICE_DISPLAY; service_type := OwnProcess;
     start_type := AutoStart; error_control := ErrorNormal; executable_path := current_exe;
     launch_arguments := [chars "service"; chars "run"; chars "--config"; path]; dependencies := [];
     account_name := None; account_password := None |}.

(** Running a program: one case per answer. *)
Ltac run_calls :=
  unfold must, attempt, mbind, IO_bind, mret, IO_ret; cbn [trace result app];
  repeat (match goal with
          | |- context [match (if answer ?c then _ else _) with _ => _ end] =>
              destruct (answer c) eqn:?
          end; cbn [trace result app]).

Ltac in_trace H :=
  match type of H with
  | _ ∈ [] => by apply elem_of_nil in H
  | _ ∈ _ :: _ =>
      apply elem_of_cons in H as [H|H];
      [first [discriminate H|injection H as; subst; auto]|in_trace H]
  end.
Ltac find_in_trace := first [apply list_elem_of_here|apply list_elem_of_further; find_in_trace].

(** Installation.  It writes a file only where there was none, and then the default
    configuration; if it succeeds, the service it has created is launched with the
    very configuration file that it was given, or the default one. *)
Theorem install_spec config :
  let path := default (default_windows_config_path env) config in
  let r := install answer current_exe toml_to_string env path_exists config in
  (∀ p text, WriteFile p text ∈ trace r →
     p = path ∧ path_exists path = false ∧ text = toml_to_string Config_default) ∧
  (∀ info access, CreateService info access ∈ trace r → info = launch_info path) ∧
  (result r = Ok tt → ∃ access, CreateService (launch_info path) access ∈ trace r).
Proof.
  cbv zeta. set (path := default _ config). unfold install. fold path.
  destruct (path_exists path); cbn [negb]; run_calls;
    (split_and!; [intros p text H; in_trace H|intros info access H; in_trace H|
       first [done|intros _; exists [AccessChangeConfig; AccessStart]; find_in_trace]]).
Qed.

(** C32. The policy that clients get.  The proxy in the foreground filters with the
    policy of the configuration it has loaded: with the SoftAtem switch on the
    command line, locks have one owner and media is enabled; with no setting at
    all, locks are denied and media is disabled. *)
Theorem foreground_policy cli b p i :
  RunServer b p i ∈ trace (main answer current_exe toml_to_string env path_exists read_to_string
                             toml_from_str filter_parses cli None) →
  ∃ cfg, load_cfg env path_exists read_to_string toml_from_str cli = Ok cfg ∧
    b = bind cfg ∧ p = policy_of cfg ∧ i = client_idle_ms cfg ∧
    (cli_softatem cli = Some true → lock_mode p = SingleOwner ∧ enabled (transfer_cfg p) = true) ∧
    ((∀ name, env name = None) → cli_config cli = None → cli_softatem cli ≠ Some true →
     lock_mode p = Deny ∧ enabled (transfer_cfg p) = false).
Proof.
  unfold main. intros H. apply elem_of_trace_bind in H as [H|(cfg & Hc & H)]; [by apply elem_of_nil in H|].
  unfold lift in Hc. cbn in Hc.
  destruct (load_cfg _ _ _ _ cli) as [c|e] eqn:E; [|done]. injection Hc as ->. exists cfg.
  apply elem_of_trace_bind in H as [H|([] & _ & H)].
  { unfold init_logging in H. destruct (log_file cfg); cbn in H; in_trace H. }
  apply elem_of_trace_bind in H as [H|(sig & _ & H)]; [cbn in H; in_trace H|].
  assert (b = bind cfg ∧ p = policy_of cfg ∧ i = client_idle_ms cfg) as (-> & -> & ->).
  { unfold run_proxy, lift in H. destruct (atem_addr cfg) as [a|e]; [|cbn in H; by apply elem_of_nil in H].
    destruct (discovery_mdns (discovery cfg)); cbn in H; in_trace H. }
  split_and!; try done.
  - intros Hs. unfold load_cfg in E. rewrite Hs in E.
    destruct (Config_load _ _ _ _ _ _ _ _ _) as [c|e]; [|done]. injection E as <-. cbn.
    destruct (normalize_spec (set_softatem true c)) as (_ & _ & _ & _ & _ & _ & _ & -> & -> & _). done.
  - intros Henv Hcfg Hs. unfold load_cfg, Config_load in E. rewrite Hcfg, !Henv in E. cbn [mbind Result_bind
      apply_opt] in E.
    set (c1 := apply_opt set_log _ _) in E.
    assert (softatem (compat c1) = false ∧ mode (locks c1) = Deny ∧ enabled (media c1) = false) as (H1 & H2 & H3).
    { subst c1. by destruct (cli_atem cli), (cli_bind cli), (cli_mdns cli), (cli_log cli). }
    destruct (normalize_spec c1) as (_ & _ & _ & _ & _ & _ & Hcp & Hm & He & _).
    rewrite H1, H2 in Hm. rewrite H1, H3 in He. cbn.
    destruct (cli_softatem cli) as [[]|]; [done| |]; injection E as <-; [|done].
    destruct (normalize_spec (set_softatem false (normalize c1))) as (_ & _ & _ & _ & _ & _ & _ & -> & -> & _).
    done.
Qed.
End shell_properties.
