(* ===== verification/Tests.v ===== *)
(** * The repository's unit tests

    The [#[test]] functions of [crates/atem-protocol] and [crates/atem-proxy], on the
    model: every one evaluates to success.  A test is an option: [None] is a panic,
    from a failed assertion or an [unwrap]. *)

From S2P Require Import Server Service Mdns.
Open Scope Z_scope.

Definition assert_ (b : bool) : option unit := if b then Some tt else None.
Definition assert_eq {A} `{EqDecision A} (x y : A) : option unit := assert_ (bool_decide (x = y)).
Definition assert_ne {A} `{EqDecision A} (x y : A) : option unit := assert_ (bool_decide (x ≠ y)).
Definition unwrap {E A} (r : Result E A) : option A := match r with Ok a => Some a | Err _ => None end.

(** A body or payload given by its bytes. *)
Definition b (l : list Z) : bytes := byte_of_Z <$> l.

Abbreviation TestMap := (assoc_map CacheKey bytes).
#[local] Instance test_lock_iter : HashIter Z StoreLock := some_hash_iter Z StoreLock.
#[local] Instance test_lock_status_map : IndexMap TestMap CacheKey bytes := _.

(** ** packet.rs *)
Definition roundtrip_header_flags_and_length : option unit :=
  let h := PacketHeader_new (flags_union ACK_REQUEST ACK_REPLY) 0x8008 12 in
  let h := with_packet_id (with_ack_id h 42) 7 in
  decoded ← unwrap (PacketHeader_decode (PacketHeader_encode h));
  assert_ (bits (flags decoded) =? bits (flags h));;
  assert_eq (length_ decoded) 12;;
  assert_eq (session_id decoded) 0x8008;;
  assert_eq (ack_id decoded) 42;;
  assert_eq (packet_id decoded) 7.

Definition encode_packet_sets_length : option unit :=
  let h := PacketHeader_new HANDSHAKE 0x1234 0 in
  let pkt := encode_packet h (b [1; 2; 3; 4]) in
  assert_eq (length pkt) 16%nat;;
  '(dh, payload) ← unwrap (decode_packet pkt);
  assert_eq (length_ dh) 16;;
  assert_eq payload (b [1; 2; 3; 4]).

(** ** command.rs *)
Definition command_roundtrip : option unit :=
  let raw := serialize_command (name4 "PrgI") (b [0; 0; 0; 1]) in
  cmds ← unwrap (parse_commands raw);
  assert_eq (length cmds) 1%nat;;
  c ← cmds !! 0%nat;
  assert_eq (name c) (name4 "PrgI");;
  assert_eq (body c) (b [0; 0; 0; 1]).

Definition identity_coalesces_same_me : option unit :=
  let x := command_identity (name4 "PrgI") (b [0; 0; 0; 1]) in
  let y := command_identity (name4 "PrgI") (b [0; 0; 0; 2]) in
  assert_eq x y;;
  let other_me := command_identity (name4 "PrgI") (b [1; 0; 0; 2]) in
  assert_ne x other_me.

Definition synthetic_incm_is_twelve_bytes_like_libatem : option unit :=
  let raw := synthetic_init_complete in
  assert_eq (length raw) 12%nat;;
  cmds ← unwrap (parse_commands raw);
  assert_eq (length cmds) 1%nat;;
  c ← cmds !! 0%nat;
  assert_eq (name c) INIT_COMPLETE;;
  assert_eq (body c) (b [1; 0; 0; 0]).

Definition product_name_truncates_at_nul_and_drops_control_pad : option unit :=
  let body := bstr "ATEM 2 M/E Constellation HD" ++ replicate 13 Byte.x00 ++ b [0x13] in
  assert_eq (parse_product_name body) (Some (chars "ATEM 2 M/E Constellation HD")).

(** ** session.rs *)
Definition client_handshake_is_20_bytes : option unit :=
  let pkt := build_client_handshake 0x1234 in
  assert_eq (length pkt) 20%nat;;
  '(h, payload) ← unwrap (decode_packet pkt);
  assert_ (contains (flags h) HANDSHAKE);;
  p0 ← payload !! 0%nat;
  assert_eq p0 HANDSHAKE_CLIENT_STATUS.

Definition server_session_sets_high_bit : option unit :=
  assert_eq (server_session_id 8) 0x8008;;
  assert_eq (server_session_id 1) 0x8001.

Definition server_handshake_uses_assigned_session : option unit :=
  let pkt := build_server_handshake_reply 0x8005 in
  '(h, payload) ← unwrap (decode_packet pkt);
  assert_eq (session_id h) 0x8005;;
  p0 ← payload !! 0%nat;
  assert_eq p0 HANDSHAKE_OK_STATUS.

(** ** reliable.rs; a test starts at [t0] on the clock. *)
Definition t0 : Instant := from_secs 1000.

(** Assignments to the fields of [ep.ack]. *)
Definition ack_expected (highest : option Z) (expected : Z) (ep : ReliableEndpoint) : ReliableEndpoint :=
  let a := ack ep in
  set_ack ep {| highest_recv := highest; expected_recv := expected;
                last_ack_sent_at := last_ack_sent_at a; packets_since_ack := packets_since_ack a;
                need_init_ack := need_init_ack a |}.

Definition packet_id_wraps_at_15_bits : option unit :=
  assert_eq (next_packet_id (MAX_PACKET_ID - 1)) 0.

Definition ack_covering_window : option unit :=
  assert_ (is_ack_covering 10 10);;
  assert_ (is_ack_covering 20 10);;
  assert_ (negb (is_ack_covering 10 20)).

Definition packs_commands_under_mtu : option unit :=
  let ep := ReliableEndpoint_new t0 0x8001 ReliableConfig_default in
  let cmds := replicate 20 (replicate 100 Byte.x00) in
  let ep := queue_commands_packed cmds ep in
  assert_ (1 <? length (outbound ep))%nat.

Definition after_hello_ack_first_reliable_data_is_next_id : option unit :=
  let ep := ReliableEndpoint_new t0 0x8001 ReliableConfig_default in
  let hello_pkt := 0 in
  let ep := ack_expected (Some hello_pkt) (next_packet_id hello_pkt) ep in
  let ep := set_next_send_id ep 1 in
  let '(ok0, ep) := accept_reliable 0 false ep in
  assert_ (negb ok0);;
  let '(ok1, ep) := accept_reliable 1 false ep in
  assert_ ok1;;
  assert_eq (expected_recv (ack ep)) 2;;
  assert_eq (next_send_id ep) 1.

Definition server_expects_client_reliable_starting_at_one : option unit :=
  let ep := ReliableEndpoint_new t0 0x8001 ReliableConfig_default in
  let ep := set_next_send_id ep 1 in
  let ep := ack_expected (highest_recv (ack ep)) 1 ep in
  let '(ok0, ep) := accept_reliable 0 false ep in
  assert_ (negb ok0);;
  let '(ok1, ep) := accept_reliable 1 false ep in
  assert_ ok1;;
  assert_eq (expected_recv (ack ep)) 2.

Definition ping_skipped_while_reliable_window_busy : option unit :=
  let cfg := ReliableConfig_default in
  let cfg := {| max_in_flight := max_in_flight cfg; retransmit_after := retransmit_after cfg;
                ack_coalesce_count := ack_coalesce_count cfg;
                ack_coalesce_after := ack_coalesce_after cfg; ping_interval := from_millis 1;
                idle_timeout := idle_timeout cfg |} in
  let ep := ReliableEndpoint_new t0 0x8001 cfg in
  let ep := set_last_ping_at (set_rel_opened ep true) (t0 - from_secs 1) in
  let ep := queue_payload (b [1; 2; 3; 4]) ep in
  let '(out, ep) := poll_outbound t0 t0 t0 ep in
  assert_ (existsb (λ p, HEADER_LEN <? length p)%nat out);;
  let ep := set_last_ping_at ep (t0 - from_secs 1) in
  let '(out2, ep) := poll_outbound t0 t0 t0 ep in
  assert_ (bool_decide (out2 = []) || forallb (λ p, (HEADER_LEN <? length p)%nat || true) out2);;
  assert_eq (length (in_flight ep)) 1%nat.

(** ** cache.rs *)
Definition ingest_all (l : list bytes) (g : Inner TestMap) : Inner TestMap :=
  foldl (λ g p, ingest_payload p g) g l.

Definition coalesces_same_key_and_ends_with_incm : option unit :=
  let cache := ingest_all [framed (name4 "PrgI") (b [0; 0; 0; 1]);
                           framed (name4 "PrgI") (b [0; 0; 0; 2]);
                           framed (name4 "InCm") []] StateCache_new in
  assert_eq (StateCache_len cache) 1%nat;;
  let d := dump cache in
  assert_eq (length d) 2%nat;;
  l ← last d;
  cmds ← unwrap (parse_commands l);
  c ← cmds !! 0%nat;
  assert_eq (name c) INIT_COMPLETE;;
  d0 ← d !! 0%nat;
  first ← unwrap (parse_commands d0);
  c0 ← first !! 0%nat;
  assert_eq (body c0) (b [0; 0; 0; 2]).

Definition unknown_commands_do_not_grow_unbounded : option unit :=
  let cache := ingest_all ((λ i, framed (name4 "ZzZz") (b [1; 2; 3; Z.of_nat i])) <$> seq 0 100)
    StateCache_new in
  assert_eq (StateCache_len cache) 1%nat.

Definition time_commands_are_not_cached : option unit :=
  let cache := ingest_all [framed (name4 "Time") (b [1; 2; 3; 4; 5; 6; 7; 8]);
                           framed (name4 "PrgI") (b [0; 0; 0; 1])] StateCache_new in
  assert_eq (StateCache_len cache) 1%nat.

(** ** tests/late_join.rs *)
Definition late_join_dump_bounded_after_many_updates : option unit :=
  let cache := ingest_all (concat ((λ i, let i := Z.of_nat i in
      [framed (name4 "PrgI") (b [0; 0; 0; i mod 20]); framed (name4 "ZzZz") (b [1; 2; i mod 3])])
    <$> seq 0 (Z.to_nat 10000))) StateCache_new in
  assert_ (StateCache_len cache <? 20)%nat;;
  let d := dump cache in
  l ← last d;
  cmds ← unwrap (parse_commands l);
  c ← cmds !! 0%nat;
  assert_eq (name c) INIT_COMPLETE;;
  assert_eq (length d) (length (dump cache)).

Definition multi_me_program_keys_are_distinct : option unit :=
  let cache := ingest_all [framed (name4 "PrgI") (b [0; 0; 0; 1]);
                           framed (name4 "PrgI") (b [1; 0; 0; 2])] StateCache_new in
  assert_eq (StateCache_len cache) 2%nat;;
  assert_eq (length (dump cache)) 3%nat.

Definition stress_many_command_names_still_coalesce : option unit :=
  let cache := ingest_all (concat ((λ slot,
      let n := CN (byte_of_Z 0x41) (byte_of_Z 0x42) (byte_of_Z 0x43) (byte_of_Z (0x30 + Z.of_nat slot)) in
      replicate 100 (framed n (b [1; 2; 3; Z.of_nat slot]))) <$> seq 0 10)) StateCache_new in
  assert_eq (StateCache_len cache) 10%nat;;
  l ← last (dump cache);
  cmds ← unwrap (parse_commands l);
  c ← cmds !! 0%nat;
  assert_eq (name c) INIT_COMPLETE.

(** ** filter.rs *)
Definition is_dropped (a : FilterAction.t) : bool :=
  match a with FilterAction.Dropped _ _ => true | _ => false end.
Definition is_forward (a : FilterAction.t) : bool :=
  match a with FilterAction.Forward _ => true | _ => false end.

Definition deny_policy : FilterPolicy := {| lock_mode := Deny; transfer_cfg := MediaConfig_default |}.
Definition media_enabled : MediaConfig :=
  {| enabled := true; cfg_chunk_delay_ms := cfg_chunk_delay_ms MediaConfig_default;
     max_upload_mb := max_upload_mb MediaConfig_default |}.
Definition softatem_policy : FilterPolicy :=
  {| lock_mode := SingleOwner; transfer_cfg := media_enabled |}.

Definition lock_on : bytes := serialize_command (name4 "LOCK") (b [0; 0; 1; 0]).

Definition drops_lock_and_forwards_cut_when_denied : option unit :=
  addr ← parse_socket_addr (chars "127.0.0.1:1");
  let payload := lock_on ++ serialize_command (name4 "DCut") (b [0; 0]) in
  let '(actions, _) := process_payload deny_policy addr t0 payload CommandFilter_new in
  a0 ← actions !! 0%nat;
  assert_ (is_dropped a0);;
  a1 ← actions !! 1%nat;
  assert_ (is_forward a1).

Definition softatem_allows_lock_for_owner : option unit :=
  addr ← parse_socket_addr (chars "127.0.0.1:1");
  let '(actions, _) := process_payload softatem_policy addr t0 lock_on CommandFilter_new in
  a0 ← actions !! 0%nat;
  assert_ (is_forward a0).

Definition last_audio_client_disconnect_returns_disable : option unit :=
  addr ← parse_socket_addr (chars "127.0.0.1:1");
  let sub := serialize_command (name4 "SALN") (b [1]) in
  let '(actions, f) := process_payload deny_policy addr t0 sub CommandFilter_new in
  a0 ← actions !! 0%nat;
  assert_ (match a0 with FilterAction.AudioSubscribe true (Some _) => true | _ => false end);;
  let '(cmds, _) := CommandFilter_client_disconnected addr f in
  c0 ← cmds !! 0%nat;
  l ← last c0;
  assert_eq (Z_of_byte l) 0.

(** ** locks.rs *)
Definition lock_cmd (store : Z) (on : bool) : CommandName * bytes :=
  (name4 "LOCK", to_be_bytes store ++ b [if on then 1 else 0; 0]).

Definition assert_lock (d : LockDecision.t) (r : LockDecision.t * LockBroker) : option LockBroker :=
  match r.1, d with
  | LockDecision.Forward, LockDecision.Forward | LockDecision.Drop, LockDecision.Drop => Some r.2
  | _, _ => None
  end.

Definition single_owner_exclusive : option unit :=
  let g := LockBroker_new in
  x ← parse_socket_addr (chars "127.0.0.1:1");
  y ← parse_socket_addr (chars "127.0.0.1:2");
  let '(name, body) := lock_cmd 0 true in
  g ← assert_lock LockDecision.Forward (client_lock_request x name body g);
  g ← assert_lock LockDecision.Drop (client_lock_request y name body g);
  let '(uname, ubody) := lock_cmd 0 false in
  g ← assert_lock LockDecision.Forward (client_lock_request x uname ubody g);
  g ← assert_lock LockDecision.Forward (client_lock_request y name body g);
  Some tt.

Definition disconnect_emits_unlock_when_upstream_locked : option unit :=
  let g := LockBroker_new in
  x ← parse_socket_addr (chars "127.0.0.1:1");
  let '(name, body) := lock_cmd 0 true in
  g ← assert_lock LockDecision.Forward (client_lock_request x name body g);
  let g := on_upstream_lock_status (serialize_command (name4 "LKST") (b [0; 0; 1; 0])) g in
  let '(unlocks, _) := LockBroker_client_disconnected x g in
  assert_eq (length unlocks) 1%nat.

(** ** transfer.rs *)
Definition assert_transfer (d : TransferClientDecision.t) (r : TransferClientDecision.t * Lane) :
    option unit :=
  match r.1, d with
  | TransferClientDecision.Forward, TransferClientDecision.Forward
  | TransferClientDecision.Drop, TransferClientDecision.Drop => Some tt
  | _, _ => None
  end.

Definition non_owner_cannot_transfer : option unit :=
  x ← parse_socket_addr (chars "127.0.0.1:1");
  assert_transfer TransferClientDecision.Drop
    (client_transfer media_enabled LockBroker_new x (name4 "FTSD") (b [0; 0; 0; 1]) t0 TransferLane_new).

Definition owner_can_transfer : option unit :=
  x ← parse_socket_addr (chars "127.0.0.1:1");
  locks ← assert_lock LockDecision.Forward
    (client_lock_request x (name4 "LOCK") (b [0; 0; 1; 0]) LockBroker_new);
  assert_transfer TransferClientDecision.Forward
    (client_transfer media_enabled locks x (name4 "FTSD") (b [0; 0]) t0 TransferLane_new).

(** ** config.rs *)
Definition softatem_profile_enables_features : option unit :=
  let cfg := normalize (set_softatem true Config_default) in
  assert_eq (mode (Config.locks cfg)) SingleOwner;;
  assert_ (enabled (media cfg));;
  assert_ (discovery_mdns (discovery cfg)).

(** ** mdns.rs *)
Definition instance_name_does_not_turn_nul_pad_into_dash_run : option unit :=
  let raw := chars "ATEM 2 M/E Constellation HD" ++ [0; 0; 0; 0; 0x13] in
  (* [raw.split('\0').next()] *)
  let cleaned := (fix upto s := match s with [] => [] | c :: s => if c =? 0 then [] else c :: upto s end) raw in
  let name := sanitize_instance_name cleaned in
  assert_eq name (chars "ATEM 2 M-E Constellation HD (Proxy)");;
  assert_ (negb (str_contains name (chars "--"))).

(** ** tests/softatem_policy.rs *)
Definition client_a : str := chars "127.0.0.1:1001".
Definition client_b : str := chars "127.0.0.1:1002".

Definition softatem_second_client_denied_media_lock : option unit :=
  x ← parse_socket_addr client_a;
  y ← parse_socket_addr client_b;
  let '(acts, f) := process_payload softatem_policy x t0 lock_on CommandFilter_new in
  a0 ← acts !! 0%nat;
  assert_ (is_forward a0);;
  let '(acts, f) := process_payload softatem_policy y t0 lock_on f in
  a0 ← acts !! 0%nat;
  assert_ (is_dropped a0).

Definition softatem_owner_can_send_ftsd : option unit :=
  x ← parse_socket_addr client_a;
  let ftsd := serialize_command (name4 "FTSD") (b [0; 0; 0; 1]) in
  let '(acts, f) := process_payload softatem_policy x t0 lock_on CommandFilter_new in
  a0 ← acts !! 0%nat;
  assert_ (is_forward a0);;
  let '(acts, f) := process_payload softatem_policy x t0 ftsd f in
  a0 ← acts !! 0%nat;
  assert_ (is_forward a0).

Definition deny_mode_still_blocks_lock : option unit :=
  x ← parse_socket_addr (chars "127.0.0.1:1");
  let '(acts, _) := process_payload deny_policy x t0 lock_on CommandFilter_new in
  a0 ← acts !! 0%nat;
  assert_ (is_dropped a0).

(** [windows(4).any(|w| w == name)] *)
Fixpoint has_window (w l : bytes) : bool :=
  bool_decide (take (length w) l = w) || match l with [] => false | _ :: l => has_window w l end.

Definition disconnect_releases_lock_with_unlock_cmd : option unit :=
  x ← parse_socket_addr client_a;
  let '(_, f) := process_payload softatem_policy x t0 lock_on CommandFilter_new in
  let lkst := serialize_command (name4 "LKST") (b [0; 0; 1; 0]) in
  let f := set_locks (on_upstream_lock_status lkst (f_locks f)) f in
  let '(cmds, _) := CommandFilter_client_disconnected x f in
  assert_ (existsb (has_window (bstr "LOCK")) cmds).

(** ** tests/fixtures_handshake.rs *)
Definition handshake_fixture_shape : option unit :=
  let client := build_client_handshake 0x1234 in
  assert_eq (length client) 20%nat;;
  '(h, payload) ← unwrap (decode_packet client);
  assert_ (contains (flags h) HANDSHAKE);;
  p0 ← payload !! 0%nat;
  assert_eq p0 HANDSHAKE_CLIENT_STATUS;;
  let assigned := server_session_id 5 in
  let reply := build_server_handshake_reply assigned in
  assert_eq (length reply) 20%nat;;
  '(rh, rpayload) ← unwrap (decode_packet reply);
  assert_ (contains (flags rh) HANDSHAKE);;
  r0 ← rpayload !! 0%nat;
  assert_eq r0 HANDSHAKE_OK_STATUS;;
  assert_eq (session_id rh) assigned.

Definition recorded_client_hello_hex_parses : option unit :=
  let bytes := b [0x10; 0x14; 0x00; 0x01; 0x00; 0x00; 0x00; 0x00; 0x00; 0x68;
                  0x00; 0x00; 0x01; 0x00; 0x00; 0x08; 0x00; 0x00; 0x00; 0x00] in
  '(h, payload) ← unwrap (decode_packet bytes);
  assert_ (contains (flags h) HANDSHAKE);;
  assert_eq (session_id h) 1;;
  p0 ← payload !! 0%nat;
  assert_eq p0 (byte_of_Z 0x01).

(** ** The tests pass *)
Definition unit_tests : list (option unit) :=
  [roundtrip_header_flags_and_length; encode_packet_sets_length; command_roundtrip;
   identity_coalesces_same_me; synthetic_incm_is_twelve_bytes_like_libatem;
   product_name_truncates_at_nul_and_drops_control_pad; client_handshake_is_20_bytes;
   server_session_sets_high_bit; server_handshake_uses_assigned_session;
   packet_id_wraps_at_15_bits; ack_covering_window; packs_commands_under_mtu;
   after_hello_ack_first_reliable_data_is_next_id; server_expects_client_reliable_starting_at_one;
   ping_skipped_while_reliable_window_busy; coalesces_same_key_and_ends_with_incm;
   unknown_commands_do_not_grow_unbounded; time_commands_are_not_cached;
   multi_me_program_keys_are_distinct; stress_many_command_names_still_coalesce;
   drops_lock_and_forwards_cut_when_denied; softatem_allows_lock_for_owner;
   last_audio_client_disconnect_returns_disable; single_owner_exclusive;
   disconnect_emits_unlock_when_upstream_locked; non_owner_cannot_transfer; owner_can_transfer;
   softatem_profile_enables_features; instance_name_does_not_turn_nul_pad_into_dash_run;
   softatem_second_client_denied_media_lock; softatem_owner_can_send_ftsd;
   deny_mode_still_blocks_lock; disconnect_releases_lock_with_unlock_cmd;
   handshake_fixture_shape; recorded_client_hello_hex_parses].

Lemma unit_tests_pass : Forall (λ t, t = Some tt) unit_tests.
Proof. repeat constructor; vm_compute; reflexivity. Qed.

(** The long one, ten thousand rounds. *)
Lemma late_join_test_passes : late_join_dump_bounded_after_many_updates = Some tt.
Proof. vm_compute. reflexivity. Qed.
