(* ===== verification/System.v ===== *)
(** * The running proxy

    [crates/atem-proxy/src/proxy.rs] ([run_proxy]) and the tasks it starts, as one
    transition system: the upstream task, the server's three tasks, the broadcast
    channel of events between them and the channel of commands back.  Every rule is
    one atomic turn of one task, in any interleaving.  The cache and the lock
    broker are shared: a turn of the upstream task leaves its lock broker in the
    filter, a turn of the server leaves the filter's in the upstream task. *)

From S2P Require Export Server.
Open Scope nat_scope.

(** Capacity of the broadcast channel. *)
Definition EVENT_CAPACITY : nat := 512.

Section world.
  Context {M : Type} `{!IndexMap M CacheKey bytes}.
  Context `{!HashIter Z StoreLock} `{!HashIter SocketAddr ClientSession}.

Record World : Type := {
  w_up : Upstream M;
  (** A session with the switcher is open. *)
  w_live : bool;
  w_srv : Server;
  (** Events broadcast and not yet received by the fan-out task. *)
  w_queue : list UpstreamEvent;
  (** Commands sent to the upstream task and not yet received. *)
  w_chan : list bytes;
  (** History variable: the payloads queued for each client since its session was
      opened. *)
  w_logs : SocketAddr → list bytes;
}.

(** [run_proxy]: everything new, nothing connected. *)
Definition world_init (t0 : Instant) : World :=
  {| w_up := {| u_cache := StateCache_new; u_locks := LockBroker_new; connected := false;
                reached_ready := false; init_complete := false;
                u_rel := ReliableEndpoint_new t0 0 ReliableConfig_default; pending_cmds := [] |};
     w_live := false; w_srv := server_new; w_queue := []; w_chan := []; w_logs := λ _, [] |}.

(** A turn of the upstream task that ends in [u] with output [out]. *)
Definition after_upstream (u : Upstream M) (out : list up_out) (live : bool) (chan : list bytes)
    (w : World) : World :=
  {| w_up := u; w_live := live;
     w_srv := set_filter (set_locks (u_locks u) (s_filter (w_srv w))) (w_srv w);
     w_queue := w_queue w ++ events_of out; w_chan := chan; w_logs := w_logs w |}.

Definition commands_out (out : list sv_out) : list bytes :=
  omap (λ o, match o with SvCommand raw => Some raw | _ => None end) out.

(** A turn of the server that ends in [srv] with output [out]. *)
Definition after_server (srv : Server) (out : list sv_out) (queue : list UpstreamEvent)
    (logs : SocketAddr → list bytes) (w : World) : World :=
  {| w_up := set_u_locks (f_locks (s_filter srv)) (w_up w); w_live := w_live w; w_srv := srv;
     w_queue := queue; w_chan := w_chan w ++ commands_out out; w_logs := logs |}.

(** The commands that an input takes from the channel. *)
Definition taken (i : up_input) : list bytes :=
  match i with
  | UCommand raw more _ _ _ => if long_enough raw then raw :: more else [raw]
  | _ => []
  end.

Definition is_opened (srv : Server) (addr : SocketAddr) : bool :=
  match sessions srv !! addr with Some s => opened s | None => false end.

(** The log of a client after a datagram from it. *)
Definition log_datagram (g : Inner M) (addr : SocketAddr) (srv srv' : Server)
    (logs : SocketAddr → list bytes) (a : SocketAddr) : list bytes :=
  if decide (a = addr) then
    if negb (is_opened srv' a) then []
    else if is_opened srv a then logs a
    else pack_commands [] (dump g)
  else logs a.

(** What an event queues for a client. *)
Definition delivered (cfg : MediaConfig) (e : fan_in) (g : Inner M) (srv : Server)
    (a : SocketAddr) : list bytes :=
  match sessions srv !! a with
  | None => []
  | Some s =>
      match e with
      | FanEvent (StatePayload p) => if opened s then [p] else []
      | FanEvent (AudioLevels p) => if opened s && sess_audio s then [p] else []
      | FanEvent (TransferPayload p) =>
          if bool_decide (fanout_owner cfg (f_locks (s_filter srv)) (f_lane (s_filter srv)) = Some a)
             && opened s then [p] else []
      | FanEvent Connected | FanEvent Disconnected => []
      | FanLagged => if opened s then pack_commands [] (dump g) else []
      end
  end.

Definition log_event (cfg : MediaConfig) (e : fan_in) (g : Inner M) (srv : Server)
    (logs : SocketAddr → list bytes) (a : SocketAddr) : list bytes :=
  logs a ++ delivered cfg e g srv a.

(** The turns, with what each takes from outside the process. *)
Inductive action : Type :=
  (** The switcher answered the greeting. *)
  | ActOpen (reply : bytes)
  (** One turn of the session's loop. *)
  | ActTurn (i : up_input)
  (** The session, or an attempt to open one, ended. *)
  | ActEnd
  (** A datagram from a client. *)
  | ActDatagram (addr : SocketAddr) (data : bytes)
  | ActEvent
  (** The fan-out task fell behind: the oldest events are gone. *)
  | ActLag
  | ActTick.

(** A turn, with what it sends and broadcasts. *)
Inductive world_act (p : FilterPolicy) (client_idle_ms : Z) :
    action → World → list up_out → list sv_out → World → Prop :=
  | world_open t_new t_ack reply rel acks w :
      w_live w = false → session_open t_new t_ack reply = Ok (rel, acks) →
      world_act p client_idle_ms (ActOpen reply) w (UpSend <$> acks) []
        (after_upstream (session_start rel (w_up w)) (UpSend <$> acks) true (w_chan w) w)
  | world_turn i out u w chan :
      w_live w = true → w_chan w = taken i ++ chan → session_step i (w_up w) = Continue out u →
      world_act p client_idle_ms (ActTurn i) w out [] (after_upstream u out true chan w)
  | world_end w :
      let r := session_end (w_up w) in
      world_act p client_idle_ms ActEnd w r.1 [] (after_upstream r.2 r.1 false (w_chan w) w)
  | world_datagram data addr t_new now w :
      let g := u_cache (w_up w) in
      let r := on_client_packet p data addr (connected (w_up w)) g t_new now (w_srv w) in
      world_act p client_idle_ms (ActDatagram addr data) w [] r.1
        (after_server r.2 r.1 (w_queue w) (log_datagram g addr (w_srv w) r.2 (w_logs w)) w)
  | world_event e queue w :
      w_queue w = e :: queue →
      let g := u_cache (w_up w) in
      world_act p client_idle_ms ActEvent w [] []
        (after_server (on_event (transfer_cfg p) (FanEvent e) g (w_srv w)) [] queue
           (log_event (transfer_cfg p) (FanEvent e) g (w_srv w) (w_logs w)) w)
  | world_lag w :
      EVENT_CAPACITY < length (w_queue w) →
      let g := u_cache (w_up w) in
      world_act p client_idle_ms ActLag w [] []
        (after_server (on_event (transfer_cfg p) FanLagged g (w_srv w)) []
           (drop (length (w_queue w) - EVENT_CAPACITY) (w_queue w))
           (log_event (transfer_cfg p) FanLagged g (w_srv w) (w_logs w)) w)
  | world_tick now clock w :
      let r := tick (transfer_cfg p) (idle_of client_idle_ms) now clock (w_srv w) in
      world_act p client_idle_ms ActTick w [] r.1
        (after_server r.2 r.1 (w_queue w) (w_logs w) w).

Definition world_step (p : FilterPolicy) (client_idle_ms : Z) (w w' : World) : Prop :=
  ∃ a up sv, world_act p client_idle_ms a w up sv w'.

Definition reachable (p : FilterPolicy) (client_idle_ms : Z) (t0 : Instant) : World → Prop :=
  rtc (world_step p client_idle_ms) (world_init t0).
End world.
Arguments World : clear implicits.

(** ** Lemmas on logs and streams *)

(** A payload that may be queued: not empty, and not truncated when sent. *)
Definition payload_ok (p : bytes) : Prop := p ≠ [] ∧ fits p.

Lemma payload_ok_nonempty l : Forall payload_ok l → nonempty l = l.
Proof. intros H. apply nonempty_all. eapply Forall_impl; [exact H|]. by intros p []. Qed.

Lemma payload_ok_fits l : Forall payload_ok l → Forall fits l.
Proof. intros H. eapply Forall_impl; [exact H|]. by intros p []. Qed.

(** What a client has been sent, as commands. *)
Definition log_commands (log : list bytes) : list CommandRef := concat (commands_of <$> log).

Lemma log_commands_app l1 l2 : log_commands (l1 ++ l2) = log_commands l1 ++ log_commands l2.
Proof. unfold log_commands. by rewrite fmap_app, concat_app. Qed.

(** The log of a session is what its client has acknowledged followed by what is
    still to be delivered (pings apart), and nothing of it is ever truncated. *)
Definition log_ok (log : list bytes) (ep : ReliableEndpoint) : Prop :=
  Forall fits (outbound ep) ∧ ∃ acked, log = acked ++ nonempty (stream ep).

Lemma log_ok_queue log ep l :
  Forall payload_ok l → log_ok log ep → log_ok (log ++ l) (set_outbound ep (outbound ep ++ l)).
Proof.
  intros Hl [Hf (acked & ->)]. split.
  - cbn. apply Forall_app. split; [done|by apply payload_ok_fits].
  - exists acked. rewrite <- app_assoc. f_equal.
    unfold stream. cbn [in_flight outbound set_outbound]. rewrite app_assoc, !nonempty_app.
    by rewrite (payload_ok_nonempty l).
Qed.

Lemma log_ok_ack log ep id : log_ok log ep → log_ok log (on_ack_id id ep).
Proof.
  intros [Hf (acked & ->)]. split; [done|].
  destruct (drop_acked_drop id (in_flight ep)) as (k & Hk & _).
  exists (acked ++ nonempty (entry_payload <$> take k (in_flight ep))).
  rewrite <- app_assoc, <- nonempty_app. do 2 f_equal.
  unfold stream. cbn [on_ack_id in_flight outbound set_in_flight]. rewrite Hk, app_assoc.
  by rewrite <- fmap_app, take_drop.
Qed.

(** A transition that keeps the stream. *)
Lemma log_ok_same log ep ep' :
  stream ep' = stream ep → outbound ep' = outbound ep → log_ok log ep → log_ok log ep'.
Proof. intros Hs Ho [Hf (acked & ->)]. split; [by rewrite Ho|]. exists acked. by rewrite Hs. Qed.

Lemma log_ok_poll log ep now t1 t2 :
  log_ok log ep → log_ok log (poll_outbound now t1 t2 ep).2.
Proof.
  intros [Hf (acked & ->)]. destruct (poll_outbound_queue now t1 t2 ep) as [Ho _]. split.
  - rewrite Ho. by apply Forall_drop.
  - exists acked. f_equal. destruct (poll_outbound_stream now t1 t2 ep Hf) as [->|(-> & _ & ->)]; done.
Qed.

(** ** Payload sizes *)

Lemma fits_small p : (length p ≤ 1400)%nat → fits p.
Proof. unfold fits, MAX_PAYLOAD, HEADER_LEN, LENGTH_MASK. lia. Qed.

(** A packed payload is as small as a packet allows, or a single command. *)
Lemma pack_commands_ok cmds :
  Forall payload_ok cmds →
  Forall payload_ok (pack_commands [] cmds) ∧
  ∃ groups : list (list bytes), pack_commands [] cmds = (concat (A:=byte) <$> groups) ∧
    concat groups = cmds.
Proof.
  intros Hc. assert (Forall (λ c : bytes, c ≠ []) cmds) as Hne
    by (eapply Forall_impl; [exact Hc|]; by intros ? []).
  destruct (pack_commands_groups cmds [] Hne) as (groups & Hg & Hcat & Hp);
    [done|cbn; unfold HEADER_LEN, MAX_PACKET_LEN; lia|].
  cbn [app concat] in *. rewrite Hg. split; [|by exists groups].
  apply Forall_fmap, Forall_forall. intros g Hin. rewrite Forall_forall in Hp.
  destruct (Hp g Hin) as [Hgne Hsize].
  assert (∀ c, c ∈ g → payload_ok c) as Hgc.
  { intros c Hcg. rewrite Forall_forall in Hc. apply Hc. rewrite <- Hcat.
    apply list_elem_of_In, in_concat. exists g. by rewrite <- !list_elem_of_In. }
  split.
  - destruct g as [|c g]; [done|]. destruct (Hgc c) as [Hcne _]; [by left|].
    cbn. destruct c; done.
  - destruct Hsize as [Hs|(c & -> & _)].
    + apply fits_small. unfold HEADER_LEN, MAX_PACKET_LEN in Hs. lia.
    + cbn. rewrite app_nil_r. by apply Hgc, list_elem_of_singleton.
Qed.

(** A command of a session's history. *)
Definition command_ok (c : CommandRef) : Prop := frame_ok c ∧ fits (raw c).

Lemma command_ok_payload c : command_ok c → payload_ok (raw c).
Proof.
  intros [Hf Hs]. split; [|done]. apply frame_ok_length in Hf. by destruct (raw c).
Qed.

Lemma commands_of_ok p : fits p → Forall command_ok (commands_of p).
Proof.
  intros Hp. unfold commands_of. destruct (parse_commands p) as [cs|] eqn:E; [|done].
  apply Forall_forall. intros c Hc. destruct (parse_commands_app_inv p cs c E Hc) as [Hf Hl].
  split; [done|]. unfold fits in *. lia.
Qed.

Lemma synthetic_init_complete_ok : payload_ok synthetic_init_complete.
Proof.
  destruct synthetic_init_complete_parses as (Hl & _). split; [|apply fits_small; lia].
  intros H. by rewrite H in Hl.
Qed.

(** Groups of frames, joined into payloads and parsed again. *)
Lemma commands_of_groups (groups : list (list bytes)) cs :
  Forall frame_ok cs → concat groups = raw <$> cs →
  log_commands (concat (A:=byte) <$> groups) = cs.
Proof.
  unfold log_commands. revert cs. induction groups as [|g groups IH]; intros cs Hcs Hg; cbn in *.
  { by destruct cs. }
  symmetry in Hg. apply fmap_app_inv in Hg as (c1 & c2 & Hg1 & Hg2 & ->).
  apply Forall_app in Hcs as [H1 H2]. f_equal; [|by apply IH].
  unfold commands_of. rewrite Hg1. by rewrite parse_commands_concat.
Qed.

(** The value of a key in commands that are the entries of a map. *)
Lemma latest_entries (l : list (CacheKey * bytes)) cs k :
  raw <$> cs = l.*2 → state_key <$> cs = Some <$> l.*1 → NoDup l.*1 →
  latest k cs = assoc_get k l.
Proof.
  revert cs. induction l as [|[k1 r1] l IH]; intros [|c cs] Hr Hk Hnd; try done.
  cbn in *. injection Hr as Hr1 Hr. injection Hk as Hk1 Hk. apply NoDup_cons in Hnd as [Hn Hnd].
  rewrite (IH cs Hr Hk Hnd), Hk1, Hr1. case_decide as E.
  - subst k1. rewrite (proj2 (assoc_get_None k l)) by done. by rewrite bool_decide_true.
  - destruct (assoc_get k l); [done|]. rewrite bool_decide_false; [done|]. congruence.
Qed.

(** A dump, packed and parsed again by its receiver, tells it the cache. *)
Lemma dump_log {M : Type} `{!IndexMap M CacheKey bytes} (g : Inner M) h :
  im_entries (cmap g) = coalesce h → Forall command_ok h →
  Forall payload_ok (pack_commands [] (dump g)) ∧
  ∀ k, latest k (log_commands (pack_commands [] (dump g))) = latest k h.
Proof.
  intros Hg Hh. assert (Forall frame_ok h) as Hf
    by (eapply Forall_impl; [exact Hh|]; by intros ? []).
  destruct (coalesce_commands h Hf) as (cs & Hcs & Hraw & Hkey).
  destruct synthetic_init_complete_parses as (_ & incm & Hp & Hn & Hr & _).
  apply parse_commands_Ok in Hp as [Hfi _]. apply Forall_inv in Hfi.
  assert (dump g = raw <$> (cs ++ [incm])) as Hd.
  { unfold dump. rewrite im_values_entries, Hg, Hraw, fmap_app. cbn. by rewrite Hr. }
  assert (Forall payload_ok (dump g)) as Hok.
  { unfold dump. rewrite im_values_entries, Hg. apply Forall_app.
    split; [|constructor; [apply synthetic_init_complete_ok|constructor]].
    apply Forall_fmap, Forall_forall. intros [k r] Hin. cbn.
    apply elem_of_coalesce, latest_Some_raw in Hin as (c & Hc & _ & <-).
    apply command_ok_payload. by eapply Forall_forall in Hc. }
  destruct (pack_commands_ok (dump g) Hok) as (Hpk & groups & Hgr & Hcat).
  split; [done|]. intros k.
  rewrite Hgr, (commands_of_groups groups (cs ++ [incm])).
  - assert (state_key incm = None) as Hi by (unfold state_key; rewrite Hn; by vm_compute).
    rewrite latest_snoc, bool_decide_false by by rewrite Hi.
    rewrite (latest_entries (coalesce h) cs); [apply assoc_get_coalesce|done| |apply coalesce_NoDup].
    by rewrite Hkey, coalesce_keys.
  - apply Forall_app. split; [done|]. by constructor.
  - by rewrite Hcat, Hd.
Qed.

(** ** What the filter forwards fits *)

Lemma commands_out_app out1 out2 : commands_out (out1 ++ out2) = commands_out out1 ++ commands_out out2.
Proof. apply omap_app. Qed.

Lemma commands_out_commands cmds : commands_out (SvCommand <$> cmds) = cmds.
Proof. unfold commands_out. induction cmds as [|c cmds IH]; [done|]. cbn. by f_equal. Qed.

Definition filter_fits (f : FilterState) : Prop :=
  ∀ e, last_enable (audio f) = Some e → fits e.

Lemma synthesize_audio_disable_length b : length (synthesize_audio_disable b) = length b.
Proof.
  unfold synthesize_audio_disable. destruct b as [|x b]; [done|].
  rewrite length_app, length_take. cbn [length]. lia.
Qed.

Lemma fits_synthesize_unlock store : fits (synthesize_unlock store).
Proof.
  apply fits_small. unfold synthesize_unlock. rewrite serialize_command_length, !length_app.
  rewrite length_to_be_bytes. cbn [length]. lia.
Qed.

Lemma filter_command_fits `{!HashIter Z StoreLock} p from now c f :
  fits (raw c) → filter_fits f →
  let '(a, f') := filter_command p from now c f in
  Forall fits (action_forwards a) ∧ filter_fits f'.
Proof.
  intros Hc Hf. unfold filter_command, filter_lock, filter_transfer.
  destruct (is_lock_request (name c)).
  { destruct (lock_mode p); [by split|].
    destruct (client_lock_request _ _ _ _) as [[] g]; cbn [action_forwards]; auto. }
  destruct (is_transfer_command (name c)).
  { destruct (negb _); [by split|].
    destruct (client_transfer _ _ _ _ _ _ _) as [[] l]; cbn [action_forwards]; auto. }
  destruct (is_audio_levels_subscribe (name c)); [|by split; [apply Forall_singleton|]].
  rewrite filter_audio_eq. split.
  - cbn [action_forwards]. case_bool_decide; [by apply Forall_nil|]. apply Forall_singleton.
    destruct (default _ _); [done|]. unfold fits. by rewrite synthesize_audio_disable_length.
  - intros e. cbn. destruct (default _ _); [by intros [= <-]|]. apply Hf.
Qed.

Lemma process_payload_fits `{!HashIter Z StoreLock} p from now payload f :
  fits payload → filter_fits f →
  let '(actions, f') := process_payload p from now payload f in
  Forall fits (forwards actions) ∧ filter_fits f'.
Proof.
  intros Hp Hf. pose proof (commands_of_ok payload Hp) as Hcs. unfold process_payload, commands_of in *.
  destruct (parse_commands payload) as [cs|e]; [|by split; [apply Forall_singleton|]].
  revert f Hf. induction Hcs as [|c cs [_ Hc] Hcs IH]; intros f Hf; [by split; [constructor|]|].
  cbn [process_commands]. pose proof (filter_command_fits p from now c f Hc Hf) as H.
  destruct (filter_command p from now c f) as [a f1]. destruct H as [Ha Hf1].
  specialize (IH f1 Hf1). destruct (process_commands p from now cs f1) as [acts f2].
  destruct IH as [IH Hf2]. split; [|done]. unfold forwards. cbn. by apply Forall_app.
Qed.

Lemma client_disconnected_fits `{!HashIter Z StoreLock} addr f :
  filter_fits f →
  let '(out, f') := CommandFilter_client_disconnected addr f in
  Forall fits out ∧ filter_fits f'.
Proof.
  intros Hf. unfold CommandFilter_client_disconnected.
  pose proof (client_disconnected_releases addr (f_locks f)) as Hrel.
  destruct (LockBroker_client_disconnected addr (f_locks f)) as [unlocks g].
  destruct Hrel as (_ & _ & stores & _ & -> & _). split; [|done].
  apply Forall_app. split.
  - destruct (_ && _); [|by apply Forall_nil]. cbn [last_enable].
    destruct (last_enable (audio f)) as [e|] eqn:E; [|by apply Forall_nil].
    apply Forall_singleton. unfold fits. rewrite synthesize_audio_disable_length. by apply Hf.
  - apply Forall_fmap, Forall_forall. intros s _. apply fits_synthesize_unlock.
Qed.

Lemma release_dead_fits `{!HashIter Z StoreLock} l out f :
  Forall fits (commands_out out) → filter_fits f →
  Forall fits (commands_out (foldl release_dead (out, f) l).1) ∧
  filter_fits (foldl release_dead (out, f) l).2.
Proof.
  revert out f. induction l as [|a l IH]; intros out f Ho Hf; [by split|]. cbn [foldl].
  cbn [release_dead]. pose proof (client_disconnected_fits a f Hf) as H.
  destruct (CommandFilter_client_disconnected a f) as [cmds f1]. destruct H as [Hc Hf1].
  apply IH; [|done]. unfold commands_out in *. rewrite omap_app. apply Forall_app. split; [done|].
  clear -Hc. by induction Hc; cbn; [constructor|constructor].
Qed.

(** ** The upstream task *)

(** A payload without state commands. *)
Definition stateless (p : bytes) : Prop := Forall (λ c, state_key c = None) (commands_of p).

Lemma latest_stateless k cs : Forall (λ c, state_key c = None) cs → latest k cs = None.
Proof.
  induction 1 as [|c cs Hc Hcs IH]; [done|]. cbn. rewrite IH. by rewrite bool_decide_false by congruence.
Qed.

Definition event_ok (e : UpstreamEvent) : Prop :=
  match e with
  | StatePayload p => payload_ok p
  | AudioLevels p | TransferPayload p => payload_ok p ∧ stateless p
  | Connected | Disconnected => True
  end.

(** The state commands of a list of events. *)
Definition state_commands (evs : list UpstreamEvent) : list CommandRef :=
  concat ((λ e, match e with StatePayload p => commands_of p | _ => [] end) <$> evs).

Lemma state_commands_app e1 e2 : state_commands (e1 ++ e2) = state_commands e1 ++ state_commands e2.
Proof. unfold state_commands. by rewrite fmap_app, concat_app. Qed.

Lemma event_history_state h evs :
  (Disconnected ∉ evs) → event_history h evs = h ++ state_commands evs.
Proof.
  revert h. induction evs as [|e evs IH]; intros h Hn; [by rewrite app_nil_r|].
  apply not_elem_of_cons in Hn as [Hne Hn]. cbn [event_history foldl].
  change (foldl event_step) with event_history. rewrite (IH _ Hn). unfold state_commands. cbn.
  destruct e; try done. cbn. by rewrite app_assoc.
Qed.

Lemma state_commands_ok evs : Forall event_ok evs → Forall command_ok (state_commands evs).
Proof.
  induction 1 as [|e evs He Hevs IH]; [constructor|]. unfold state_commands. cbn.
  apply Forall_app. split; [|done]. destruct e; try constructor. apply commands_of_ok, He.
Qed.

Lemma chunk_of_stateless r cs :
  Forall frame_ok cs → r = RAudio ∨ r = RTransfer → stateless (chunk_of r cs).
Proof.
  intros Hf Hr. unfold stateless. rewrite commands_of_chunk by done.
  apply Forall_forall. intros c [Hc _]%list_elem_of_filter. unfold state_key.
  unfold route_of in Hc. destruct (bool_decide (name c = INIT_COMPLETE)); [by destruct Hr; subst|].
  destruct (is_transfer_command (name c)); [by rewrite !orb_true_r|].
  destruct (is_lock_status (name c)); [by destruct Hr; subst|].
  destruct (is_ephemeral_command (name c)); [done|]. by destruct Hr; subst.
Qed.

Lemma chunk_of_length r cs : (length (chunk_of r cs) ≤ length (concat (raw <$> cs)))%nat.
Proof.
  induction cs as [|c cs IH]; [done|]. rewrite chunk_of_cons. cbn. rewrite !length_app.
  case_decide; cbn; lia.
Qed.

Section upstream_world.
  Context {M : Type} `{!IndexMap M CacheKey bytes}.
  Implicit Types u : Upstream M.

Lemma handle_upstream_payload_event_ok payload u :
  payload_ok payload →
  Forall event_ok (events_of (handle_upstream_payload payload u).1) ∧
  (Disconnected ∉ events_of (handle_upstream_payload payload u).1).
Proof.
  intros [Hne Hfit]. destruct (parse_commands payload) as [cs|e] eqn:E.
  - pose proof (handle_upstream_payload_events payload cs u E) as H.
    destruct (handle_upstream_payload payload u) as [out u']. cbn [fst]. destruct H as [-> _].
    apply parse_commands_Ok in E as [Hfr ->].
    assert (∀ r, chunk_of r cs ≠ [] → payload_ok (chunk_of r cs)) as Hok.
    { intros r Hr. split; [done|]. unfold fits in *. pose proof (chunk_of_length r cs). lia. }
    assert (∀ ev r, (payload_ok (chunk_of r cs) → event_ok (ev (chunk_of r cs))) →
      (∀ b, ev b ≠ Disconnected) →
      Forall event_ok (chunk_event ev (chunk_of r cs)) ∧
      (Disconnected ∉ chunk_event ev (chunk_of r cs))) as Hev.
    { intros ev r Hev Hd. unfold chunk_event. specialize (Hok r).
      destruct (chunk_of r cs) as [|b l]; cbn [is_nil].
      - split; [constructor|apply not_elem_of_nil].
      - split; [constructor; [by apply Hev, Hok|constructor]|].
        rewrite list_elem_of_singleton. intros H. by apply (Hd (b :: l)). }
    destruct (Hev StatePayload RState) as [S1 S2]; [done|done|].
    destruct (Hev AudioLevels RAudio) as [A1 A2];
      [intros ?; split; [done|apply chunk_of_stateless; auto]|done|].
    destruct (Hev TransferPayload RTransfer) as [T1 T2];
      [intros ?; split; [done|apply chunk_of_stateless; auto]|done|].
    rewrite !Forall_app, !not_elem_of_app.
    destruct (existsb _ _ && _); split_and!; try done;
      try (by repeat constructor); rewrite ?list_elem_of_singleton; try done; apply not_elem_of_nil.
  - unfold handle_upstream_payload. rewrite E. cbn. split; [by apply Forall_singleton|].
    by rewrite list_elem_of_singleton.
Qed.

(** A turn broadcasts well-formed events, never the loss of the switcher, and the
    cache follows what it broadcasts. *)
Lemma session_step_events h i u out u' :
  session_step i u = Continue out u' → cache_agrees h u →
  (Disconnected ∉ events_of out) ∧ Forall event_ok (events_of out) ∧
  cache_agrees (h ++ state_commands (events_of out)) u'.
Proof.
  intros Hs Hh. destruct (session_step_cases i u out u' Hs)
    as [(-> & Hc & _)|(payload & u1 & Hp & (Hc & _) & Hlen & Hne)].
  - split_and!; [apply not_elem_of_nil|constructor|]. cbn. rewrite app_nil_r.
    unfold cache_agrees. by rewrite Hc.
  - assert (cache_agrees h u1) as H1 by (unfold cache_agrees; by rewrite Hc).
    pose proof (handle_upstream_payload_agrees h payload u1 H1) as Ha.
    destruct (handle_upstream_payload_event_ok payload u1) as [Hok Hd]; [done|].
    rewrite Hp in *. cbn [fst] in *. split_and!; [done|done|].
    by rewrite <- event_history_state.
Qed.

(** The upstream endpoint's queue and the pending commands stay within size. *)
Definition upstream_fits u : Prop :=
  ep_ok (u_rel u) ∧ Forall fits (outbound (u_rel u)) ∧ Forall payload_ok (pending_cmds u).

Lemma flush_fits now t1 t2 u : upstream_fits u → upstream_fits (flush now t1 t2 u).2.
Proof.
  intros (Hep & Ho & Hp). destruct (flush_frame now t1 t2 u) as [_ ->].
  split_and!; [by apply ep_ok_poll_outbound| |done].
  cbn [u_rel set_u_rel]. destruct (poll_outbound_queue now t1 t2 (u_rel u)) as [-> _].
  by apply Forall_drop.
Qed.

Lemma queue_pending_fits u : upstream_fits u → upstream_fits (queue_pending u).
Proof.
  intros (Hep & Ho & Hp). split_and!; [by apply ep_ok_set_outbound| |constructor].
  cbn. apply Forall_app. split; [done|]. by apply payload_ok_fits, pack_commands_ok.
Qed.

Lemma long_enough_ok m : long_enough m = true → fits m → payload_ok m.
Proof. intros Hl Hf. split; [|done]. by intros ->. Qed.

Lemma session_step_fits i u out u' :
  session_step i u = Continue out u' → Forall fits (taken i) → upstream_fits u → upstream_fits u'.
Proof.
  intros Hs Ht Hu. pose proof (rtc_ep_ok _ _ (session_step_rel i u out u' Hs)) as Hep.
  specialize (Hep (proj1 Hu)).
  destruct i as [| |cmd more now t1 t2|data now|ti now t1 t2|]; cbn [session_step taken] in *; try done.
  - unfold on_command in Hs. destruct (long_enough cmd) eqn:El; [|by injection Hs as _ <-].
    set (v := set_pending _ (set_pending _ u)) in *.
    assert (upstream_fits v) as Hv.
    { destruct Hu as (H1 & H2 & H3). split_and!; [done|done|]. subst v. cbn.
      apply Forall_cons in Ht as [Hc Hm]. rewrite !Forall_app. split_and!; [done| |].
      - constructor; [by apply long_enough_ok|constructor].
      - apply Forall_forall. intros m [Hml Hin]%list_elem_of_filter.
        apply long_enough_ok; [done|]. by eapply Forall_forall in Hin. }
    pose proof (flush_fits now t1 t2 _ (queue_pending_fits v Hv)) as H.
    destruct (flush now t1 t2 (queue_pending v)). by injection Hs as _ <-.
  - destruct Hu as (H1 & H2 & H3).
    assert (outbound (u_rel u') = outbound (u_rel u) ∧ pending_cmds u' = pending_cmds u) as [Ho Hp];
      [|split_and!; [done|by rewrite Ho|by rewrite Hp]].
    clear -Hs. unfold on_datagram in Hs. cbn [u_rel set_u_rel] in Hs.
    destruct (decode_packet data) as [[hdr payload]|e]; [|by injection Hs as _ <-].
    set (r1 := if negb (session_id hdr =? 0)%Z then _ else _) in Hs.
    set (r2 := if contains (flags hdr) ACK_REPLY || negb (ack_id hdr =? 0)%Z then _ else _) in Hs.
    assert (outbound r2 = outbound (u_rel u)) as H2.
    { subst r2 r1. by destruct (_ || _), (negb _). }
    clearbody r2. clear r1.
    assert (∀ r v, outbound r = outbound (u_rel u) → (if negb (is_nil payload) then
         handle_upstream_payload payload (set_u_rel r (set_u_rel (note_recv now (u_rel u)) u))
       else ([], set_u_rel r (set_u_rel (note_recv now (u_rel u)) u))).2 = v →
       outbound (u_rel v) = outbound (u_rel u) ∧ pending_cmds v = pending_cmds u) as Hh.
    { intros r v Hr <-. destruct (negb (is_nil payload)); [|by cbn].
      destruct (handle_upstream_payload_frame payload
        (set_u_rel r (set_u_rel (note_recv now (u_rel u)) u))) as [[-> | ->] ->]; by cbn. }
    destruct (is_handshake_packet (flags hdr)); [by injection Hs as _ <-|].
    destruct (contains (flags hdr) ACK_REQUEST).
    + assert (outbound (accept_reliable (packet_id hdr) (contains (flags hdr) IS_RETRANSMIT) r2).2 =
        outbound (u_rel u)) as H3 by (rewrite <- H2; unfold accept_reliable; by repeat case_match).
      destruct (accept_reliable _ _ r2) as [[] r3]; cbn [negb snd] in *; [|by injection Hs as _ <-].
      specialize (Hh r3). destruct (if negb (is_nil payload) then _ else _) as [o v].
      injection Hs as _ <-. by apply Hh.
    + specialize (Hh r2). destruct (if negb (is_nil payload) then _ else _) as [o v].
      injection Hs as _ <-. by apply Hh.
  - destruct (is_timed_out ti (u_rel u)); [done|]. unfold on_tick in Hs.
    case_bool_decide.
    + pose proof (flush_fits now t1 t2 u Hu) as H'. destruct (flush _ _ _ u). by injection Hs as _ <-.
    + pose proof (flush_fits now t1 t2 _ (queue_pending_fits u Hu)) as H'.
      destruct (flush _ _ _ (queue_pending u)). by injection Hs as _ <-.
Qed.
End upstream_world.

(** ** The server *)

Section server_world.
  Context {M : Type} `{!IndexMap M CacheKey bytes}.
  Context `{!HashIter Z StoreLock} `{!HashIter SocketAddr ClientSession}.
  Implicit Types g : Inner M.

(** A client's session against its log. *)
Definition session_log_ok (log : list bytes) (s : ClientSession) : Prop :=
  log_ok log (rel s) ∧ (opened s = false → log = []).

Lemma log_ok_nil ep : outbound ep = [] → in_flight ep = [] → log_ok [] ep.
Proof.
  intros Ho Hi. split; [by rewrite Ho; apply Forall_nil|]. exists [].
  unfold stream. by rewrite Ho, Hi.
Qed.

(** A datagram from a client: an open session keeps its log, and one that it opens
    has exactly the dump as its log. *)
Lemma session_datagram_log p hdr payload addr g now s f log :
  header_ok hdr → session_ok s → session_log_ok log s → fits payload → filter_fits f →
  Forall payload_ok (pack_commands [] (dump g)) →
  let '(req, cmds, s', f') := session_datagram p hdr payload addr g now s f in
  session_log_ok (if negb (opened s') then [] else if opened s then log
                  else pack_commands [] (dump g)) s' ∧
  Forall fits cmds ∧ filter_fits f'.
Proof.
  intros [] Hs [Hlog Hclosed] Hp Hf Hd. unfold session_datagram. cbn [rel set_rel].
  set (s1 := set_rel (note_recv now (rel s)) s).
  assert (session_ok s1) as H1 by by apply note_recv_session_ok.
  set (s2 := if contains (flags hdr) ACK_REPLY || negb (ack_id hdr =? 0)%Z then _ else _).
  assert (session_log_ok (if negb (opened s2) then [] else if opened s then log
                          else pack_commands [] (dump g)) s2) as H2.
  { subst s2. destruct (_ || _).
    - set (sa := set_rel (on_ack_id (ack_id hdr) (note_recv now (rel s))) s1).
      assert (session_ok sa) as Ha by exact (on_ack_session_ok (ack_id hdr) s1 H1).
      assert (log_ok log (rel sa)) as Hla by by apply log_ok_ack.
      destruct (opened s) eqn:Ho.
      + assert (open_session g sa = sa) as -> by (unfold open_session; by rewrite (Ho : opened sa = true)).
        rewrite (Ho : opened sa = true). cbn [negb]. split; [done|]. intros H.
        by rewrite (Ho : opened sa = true) in H.
      + destruct (on_client_ack_opens g sa Ha Ho) as (Hok & Hop & Hst & _).
        rewrite Hop. cbn [negb]. split; [|by rewrite Hop]. split.
        * unfold open_session.
          rewrite (Ho : opened sa = false), (session_ok_dump sa Ha), (Ho : opened sa = false).
          pose proof (session_ok_quiet sa Ha Ho) as (_ & Hq & _).
          change (Forall fits (outbound (rel sa) ++ pack_commands [] (dump g))). rewrite Hq.
          by apply payload_ok_fits.
        * exists []. by rewrite Hst, payload_ok_nonempty.
    - change (opened s1) with (opened s). destruct (opened s) eqn:Ho; cbn [negb].
      + split; [done|]. intros H. by rewrite (Ho : opened s1 = true) in H.
      + split; [|done]. by rewrite <- (Hclosed eq_refl). }
  clearbody s2. set (log2 := if negb (opened s2) then [] else _) in *.
  assert (∀ r, stream r = stream (rel s2) → outbound r = outbound (rel s2) →
    session_log_ok log2 (set_rel r s2)) as Hr.
  { intros r Hst Ho. destruct H2 as [H2 H2']. split; [|done]. by apply (log_ok_same _ (rel s2)). }
  destruct (contains (flags hdr) ACK_REQUEST); [|by split_and!; [|apply Forall_nil|]].
  assert (stream (accept_reliable (packet_id hdr) (contains (flags hdr) IS_RETRANSMIT) (rel s2)).2 =
    stream (rel s2) ∧
    outbound (accept_reliable (packet_id hdr) (contains (flags hdr) IS_RETRANSMIT) (rel s2)).2 =
    outbound (rel s2)) as [Ha1 Ha2] by (unfold accept_reliable; by repeat case_match).
  destruct (accept_reliable _ _ (rel s2)) as [ok r]. cbn [snd] in *.
  specialize (Hr r Ha1 Ha2).
  destruct ok; cbn [negb]; [|by split_and!; [|apply Forall_nil|]].
  destruct (is_nil payload); cbn [negb]; [by split_and!; [|apply Forall_nil|]|].
  pose proof (process_payload_fits p addr now payload f Hp Hf) as Hfit.
  pose proof (process_payload_frame p addr now payload f (set_rel r s2)) as Hfr.
  destruct (process_payload p addr now payload f) as [actions f'].
  destruct (foldl apply_action _ actions) as [cmds s'].
  destruct Hfr as (-> & Hrel & Hop), Hfit as [Hc Hff]. split_and!; [|done|done].
  change (opened (set_rel r s2)) with (opened s2) in Hop. unfold session_log_ok.
  rewrite Hop, Hrel. exact Hr.
Qed.

(** An event queues for each client what its log records. *)
Lemma on_event_lookup cfg e g srv a :
  (e ≠ FanEvent Disconnected) →
  sessions (on_event cfg e g srv) !! a =
    (λ s, set_rel (set_outbound (rel s) (outbound (rel s) ++ delivered cfg e g srv a)) s) <$>
      sessions srv !! a.
Proof.
  intros He. unfold delivered.
  assert (∀ s : ClientSession, set_rel (set_outbound (rel s) (outbound (rel s) ++ [])) s = s) as Hid.
  { intros [[] ? ? ?]. cbn. by rewrite app_nil_r. }
  destruct e as [[| |payload|payload|payload]|]; cbn [on_event]; try done.
  - destruct (sessions srv !! a) as [s|]; [|done]. cbn. by rewrite Hid.
  - cbn [sessions set_sessions]. rewrite lookup_fmap.
    destruct (sessions srv !! a) as [s|]; [|done]. cbn. unfold queue_if.
    destruct (opened s); [done|]. by rewrite Hid.
  - cbn [sessions set_sessions]. rewrite lookup_fmap.
    destruct (sessions srv !! a) as [s|]; [|done]. cbn. unfold queue_if.
    destruct (_ && _); [done|]. by rewrite Hid.
  - destruct (fanout_owner _ _ _) as [owner|].
    + destruct (decide (owner = a)) as [->|Hne].
      * rewrite bool_decide_true by done. cbn [andb].
        destruct (sessions srv !! a) as [s|] eqn:Hs; [|by rewrite Hs].
        cbn [sessions set_sessions]. rewrite lookup_insert_eq. cbn. unfold queue_if.
        destruct (opened s); [done|]. by rewrite Hid.
      * rewrite bool_decide_false by congruence. cbn [andb].
        assert (sessions match sessions srv !! owner with
                | Some s => set_sessions (<[owner:=queue_if (opened s) payload s]> (sessions srv)) srv
                | None => srv
                end !! a = sessions srv !! a) as ->.
        { destruct (sessions srv !! owner) as [s|]; [|done]. cbn. by apply lookup_insert_ne. }
        destruct (sessions srv !! a) as [s|]; [|done]. cbn. by rewrite Hid.
    + rewrite bool_decide_false by done. cbn [andb].
      destruct (sessions srv !! a) as [s|]; [|done]. cbn. by rewrite Hid.
  - cbn [sessions set_sessions]. rewrite lookup_fmap.
    destruct (sessions srv !! a) as [s|]; [|done]. cbn.
    destruct (opened s); [done|]. by rewrite Hid.
Qed.

Definition fan_ok g (e : fan_in) : Prop :=
  match e with
  | FanEvent e => event_ok e
  | FanLagged => Forall payload_ok (pack_commands [] (dump g))
  end.

Lemma delivered_ok cfg e g srv a : fan_ok g e → Forall payload_ok (delivered cfg e g srv a).
Proof.
  intros He. unfold delivered. destruct (sessions srv !! a) as [s|]; [|by apply Forall_nil].
  destruct e as [[| |payload|payload|payload]|]; cbn in He;
    repeat case_match; first [done|by apply Forall_nil|apply Forall_singleton; first [done|apply He]].
Qed.

Lemma delivered_closed cfg e g srv a s :
  sessions srv !! a = Some s → opened s = false → delivered cfg e g srv a = [].
Proof.
  intros Hs Ho. unfold delivered. rewrite Hs, Ho. rewrite !andb_false_r. cbn. by repeat case_match.
Qed.

Lemma on_event_log cfg e g srv logs a s :
  fan_ok g e → sessions (on_event cfg e g srv) !! a = Some s →
  (∀ s0, sessions srv !! a = Some s0 → session_log_ok (logs a) s0) →
  session_log_ok (log_event cfg e g srv logs a) s.
Proof.
  intros He Hs Hold.
  assert (e = FanEvent Disconnected ∨ e ≠ FanEvent Disconnected) as [->|Hne]
    by (destruct e as [[]|]; by (left + right)).
  { cbn in Hs. by rewrite lookup_empty in Hs. }
  rewrite on_event_lookup in Hs by done. apply fmap_Some in Hs as (s0 & Hs0 & ->).
  destruct (Hold s0 Hs0) as [Hlog Hcl]. unfold log_event. split.
  - cbn [rel set_rel]. apply log_ok_queue; [by apply delivered_ok|done].
  - cbn [opened set_rel]. intros Ho. rewrite (Hcl Ho). by rewrite (delivered_closed _ _ _ _ _ _ Hs0 Ho).
Qed.
End server_world.

(** ** The invariant of the running proxy *)

Section world_invariant.
  Context {M : Type} `{!IndexMap M CacheKey bytes}.
  Context `{!HashIter Z StoreLock} `{!HashIter SocketAddr ClientSession}.
  Implicit Types w : World M.

(** What the cache holds against what was broadcast and what the clients were sent:
    [h] are the state commands broadcast since the switcher was last found. *)
Definition views_ok (h : list CommandRef) w : Prop :=
  cache_agrees h (w_up w) ∧ Forall command_ok h ∧
  (∃ h0, h = event_history h0 (w_queue w)) ∧
  ((Disconnected ∉ w_queue w) →
    ∀ a s k r, sessions (w_srv w) !! a = Some s → opened s = true → latest k h = Some r →
      latest k (log_commands (w_logs w a) ++ state_commands (w_queue w)) = Some r).

Record world_ok w : Prop := {
  wo_up : upstream_fits (w_up w);
  wo_srv : sessions_ok (w_srv w);
  wo_locks : u_locks (w_up w) = f_locks (s_filter (w_srv w));
  wo_filter : filter_fits (s_filter (w_srv w));
  wo_chan : Forall fits (w_chan w);
  wo_queue : Forall event_ok (w_queue w);
  wo_ready : ∃ b, connected (w_up w) = b ∧ ready (u_cache (w_up w)) = b ∧
    (if w_live w then reached_ready (w_up w) = b ∧ init_complete (w_up w) = b else b = false);
  wo_logs : ∀ a s, sessions (w_srv w) !! a = Some s → session_log_ok (w_logs w a) s;
  wo_views : ∃ h, views_ok h w;
  wo_idle : w_live w = false → im_entries (cmap (u_cache (w_up w))) = [];
}.

Lemma world_init_ok t0 : world_ok (world_init t0).
Proof.
  split; cbn.
  - split_and!; [by apply ep_ok_new|apply Forall_nil; done..].
  - apply server_sessions_ok, server_new_ok.
  - done.
  - done.
  - by apply Forall_nil.
  - by apply Forall_nil.
  - by exists false.
  - intros a s H. by apply (lookup_empty_Some (M:=gmap SocketAddr) a s) in H.
  - exists []. split_and!; [apply im_new_entries|by apply Forall_nil|by exists []|].
    intros _ a s k r H.
    by apply (lookup_empty_Some (M:=gmap SocketAddr) a s) in H.
  - intros _. apply im_new_entries.
Qed.

Lemma world_dump_ok w :
  world_ok w → Forall payload_ok (pack_commands [] (dump (u_cache (w_up w)))).
Proof. intros [_ _ _ _ _ _ _ _ (h & Hc & Hh & _) _]. by apply (dump_log _ h). Qed.

Lemma views_ok_upstream h u out live chan w :
  views_ok h w → cache_agrees (h ++ state_commands (events_of out)) u →
  Forall event_ok (events_of out) → (Disconnected ∉ events_of out) →
  views_ok (h ++ state_commands (events_of out)) (after_upstream u out live chan w).
Proof.
  intros (Hc & Hh & (h0 & Hh0) & Hv) Hu Ho Hd. split_and!; [done| | |].
  - apply Forall_app. split; [done|]. by apply state_commands_ok.
  - exists h0. cbn [w_queue after_upstream]. by rewrite event_history_app, <- Hh0, event_history_state.
  - cbn [w_queue w_srv w_logs after_upstream sessions set_filter]. rewrite not_elem_of_app.
    intros [Hq _] a s k r Hs Hop Hl. rewrite state_commands_app, app_assoc, latest_app.
    rewrite latest_app in Hl.
    destruct (latest k (state_commands (events_of out))); [done|]. by apply (Hv Hq a s).
Qed.

Lemma world_ok_turn i out u w chan :
  world_ok w → w_live w = true → w_chan w = taken i ++ chan →
  session_step i (w_up w) = Continue out u → world_ok (after_upstream u out true chan w).
Proof.
  intros Hw Hlive Hch Hs. destruct Hw as [H1 H2 H3 H4 H5 H6 H7 H8 (h & Hh) H10].
  rewrite Hch in H5. apply Forall_app in H5 as [Ht Hc].
  destruct (session_step_events h i (w_up w) out u Hs) as (Hd & He & Ha); [apply Hh|].
  split; cbn [w_up w_srv w_queue w_chan w_logs w_live after_upstream].
  - by apply (session_step_fits i (w_up w) out).
  - done.
  - done.
  - done.
  - done.
  - by apply Forall_app.
  - destruct H7 as (b & Hcon & Hrd & Hl). rewrite Hlive in Hl. destruct Hl as [Hrr Hin].
    destruct (session_step_cases i (w_up w) out u Hs) as
      [(_ & Hcc & _ & Hc1 & Hc2 & Hc3)|(payload & u1 & Hp & (Hcc & _ & Hc1 & Hc2 & Hc3) & _)].
    + exists b. by rewrite Hc1, Hc2, Hc3, Hcc.
    + assert (ready_inv b u1) as Hb by (unfold ready_inv; by rewrite Hc1, Hc2, Hc3, Hcc).
      pose proof (handle_upstream_payload_ready b payload u1 Hb) as H. rewrite Hp in H.
      destruct H as [(? & ? & ? & ?) _]. by eexists.
  - done.
  - eexists. by apply views_ok_upstream.
  - done.
Qed.

Lemma world_ok_open t_new t_ack reply rel acks w :
  world_ok w → w_live w = false → session_open t_new t_ack reply = Ok (rel, acks) →
  world_ok (after_upstream (session_start rel (w_up w)) (UpSend <$> acks) true (w_chan w) w).
Proof.
  intros Hw Hlive Ho. destruct Hw as [H1 H2 H3 H4 H5 H6 H7 H8 (h & Hh) H10].
  apply session_open_spec in Ho as (hdr & payload & _ & _ & _ & Hep & Hst & _).
  unfold stream in Hst. apply app_nil in Hst as [_ Hout].
  split; cbn [w_up w_srv w_queue w_chan w_logs w_live after_upstream]; rewrite ?events_of_sends,
    ?app_nil_r; try done.
  - split_and!; [done|cbn; by rewrite Hout; apply Forall_nil|by apply Forall_nil].
  - rewrite Hlive in H7. destruct H7 as (b & Hc & Hr & ->). by exists false.
  - exists h. destruct Hh as (Hc & Hf & Hh0 & Hv). unfold views_ok.
    cbn [w_up w_srv w_queue w_chan w_logs w_live after_upstream].
    by rewrite events_of_sends, app_nil_r.
Qed.

Lemma world_ok_end w :
  world_ok w →
  world_ok (after_upstream (session_end (w_up w)).2 (session_end (w_up w)).1 false (w_chan w) w).
Proof.
  intros Hw. destruct Hw as [(Hep & Hf & Hp) H2 H3 H4 H5 H6 H7 H8 (h & Hh) _].
  split; cbn; try done.
  - apply Forall_app. split; [done|]. by apply Forall_singleton.
  - by exists false.
  - exists []. split_and!; [apply im_clear_entries|by apply Forall_nil| |].
    { exists []. cbn. by rewrite event_history_app. }
    cbn. rewrite not_elem_of_app, list_elem_of_singleton. by intros [_ []].
  - intros _. apply im_clear_entries.
Qed.

(** A turn of the server that consumes some of the queue. *)
Lemma server_turn_ok srv out queue logs w :
  world_ok w → sessions_ok srv → filter_fits (s_filter srv) → Forall fits (commands_out out) →
  Forall event_ok queue →
  (∀ a s, sessions srv !! a = Some s → session_log_ok (logs a) s) →
  (∃ h, views_ok h (after_server srv out queue logs w)) →
  world_ok (after_server srv out queue logs w).
Proof.
  intros [H1 H2 H3 H4 H5 H6 H7 H8 _ H10] Hs Hf Ho Hq Hl Hv. split; try done.
  by apply Forall_app.
Qed.

(** The commands of a datagram may be sent on later. *)
Lemma datagram_turn_ok p data addr t_new now w :
  let g := u_cache (w_up w) in
  let r := on_client_packet p data addr (connected (w_up w)) g t_new now (w_srv w) in
  world_ok w →
  Forall fits (commands_out r.1) ∧
  ∀ out, Forall fits (commands_out out) →
    world_ok (after_server r.2 out (w_queue w) (log_datagram g addr (w_srv w) r.2 (w_logs w)) w).
Proof.
  intros g r Hw. pose proof (world_dump_ok w Hw) as Hd.
  pose proof (handle_datagram_sessions_ok p data addr (connected (w_up w)) g t_new now _ (wo_srv w Hw))
    as Hok.
  fold r in Hok.
  assert (Forall fits (commands_out r.1) ∧ filter_fits (s_filter r.2) ∧
    (∀ a, a ≠ addr → sessions r.2 !! a = sessions (w_srv w) !! a) ∧
    (∀ s, sessions r.2 !! addr = Some s →
       session_log_ok (log_datagram g addr (w_srv w) r.2 (w_logs w) addr) s)) as (Ho & Hf & Hne & Hl).
  { destruct Hw as [_ [_ Hall] _ H4 _ _ _ H8 _ _]. unfold log_datagram. rewrite decide_True by done.
    unfold is_opened.
    assert (∀ s, sessions (w_srv w) !! addr = Some s → session_log_ok
      (if negb (opened s) then [] else if opened s then w_logs w addr else pack_commands [] (dump g)) s)
      as Hsame.
    { intros s Hs. destruct (H8 addr s Hs) as [Hlg Hcl]. destruct (opened s) eqn:E; cbn [negb].
      - split; [done|]. congruence.
      - split; [|done]. by rewrite <- (Hcl eq_refl). }
    unfold r, on_client_packet, handle_datagram in *. clear r.
    destruct (decode_packet data) as [[hdr payload]|e] eqn:Hdec; cbn [mbind Result_bind];
      [|split_and!; [by apply Forall_nil|done|done|]; intros s Hs; cbn [snd] in *; rewrite Hs;
        by apply Hsame].
    apply encode_decode_packet in Hdec as (Hhdr & _ & Hfit & _).
    destruct (is_handshake_packet (flags hdr)).
    { destruct (negb _ || _).
      - split_and!; [by apply Forall_nil|done|done|]. intros s Hs. cbn [snd] in *. rewrite Hs.
        by apply Hsame.
      - cbn [fst snd sessions s_filter]. split_and!; [by apply Forall_nil|done| |].
        + intros a Ha. by apply lookup_insert_ne.
        + intros s. rewrite lookup_insert_eq. intros [= <-]. cbn [opened new_session negb].
          split; [|done]. by apply log_ok_nil. }
    destruct (sessions (w_srv w) !! addr) as [s|] eqn:Hs.
    2:{ split_and!; [by apply Forall_nil|done|done|]. intros s' Hs'. cbn [snd] in Hs'. congruence. }
    pose proof (Hall addr s Hs) as Hsok.
    pose proof (session_datagram_log p hdr payload addr g now s (s_filter (w_srv w)) (w_logs w addr)
      Hhdr Hsok (H8 addr s Hs) Hfit H4 Hd) as H.
    destruct (session_datagram _ _ _ _ _ _ _ _) as [[[req cmds] s'] f']. destruct H as (Hlog & Hc & Hff).
    cbn [fst snd sessions s_filter]. split_and!; [|done| |].
    - unfold commands_out. rewrite omap_app. apply Forall_app. split.
      + destruct req; by apply Forall_nil.
      + clear -Hc. induction Hc as [|c cs Hc Hcs IH]; cbn; [by apply Forall_nil|by apply Forall_cons].
    - intros a Ha. by apply lookup_insert_ne.
    - intros s1. rewrite lookup_insert_eq. intros [= <-]. exact Hlog. }
  split; [done|]. intros out Hout. apply server_turn_ok; try done.
  - apply Hw.
  - intros a s Hs. destruct (decide (a = addr)) as [->|Hna]; [by apply Hl|].
    rewrite Hne in Hs by done. unfold log_datagram. rewrite decide_False by done. by apply Hw.
  - destruct (wo_views w Hw) as (h & Hc & Hh & (h0 & Hh0) & Hv). exists h.
    split_and!; [done|done|by exists h0|].
    cbn [w_up w_srv w_queue w_chan w_logs w_live after_server]. intros Hq. specialize (Hv Hq).
    rewrite event_history_state in Hh0 by done. intros a s k v Hs Hop Hk. destruct (decide (a = addr)) as [->|Hna].
    + unfold log_datagram. rewrite decide_True by done.
      unfold is_opened. rewrite Hs, Hop. cbn [negb].
      destruct (sessions (w_srv w) !! addr) as [s0|] eqn:Hs0; [destruct (opened s0) eqn:Ho0|].
      * by apply (Hv addr s0).
      * destruct (dump_log g h Hc Hh) as [_ Hlatest]. rewrite latest_app, Hlatest, Hk.
        rewrite Hh0, latest_app in Hk. by destruct (latest k (state_commands (w_queue w))).
      * destruct (dump_log g h Hc Hh) as [_ Hlatest]. rewrite latest_app, Hlatest, Hk.
        rewrite Hh0, latest_app in Hk. by destruct (latest k (state_commands (w_queue w))).
    + rewrite Hne in Hs by done. unfold log_datagram. rewrite decide_False by done.
      by apply (Hv a s).
Qed.

Lemma world_ok_datagram p data addr t_new now w :
  let g := u_cache (w_up w) in
  let r := on_client_packet p data addr (connected (w_up w)) g t_new now (w_srv w) in
  world_ok w →
  world_ok (after_server r.2 r.1 (w_queue w) (log_datagram g addr (w_srv w) r.2 (w_logs w)) w).
Proof.
  intros g r Hw. destruct (datagram_turn_ok p data addr t_new now w Hw) as [Ho H]. by apply H.
Qed.
End world_invariant.

Section world_theorems.
  Context {M : Type} `{!IndexMap M CacheKey bytes}.
  Context `{!HashIter Z StoreLock} `{!HashIter SocketAddr ClientSession}.
  Implicit Types w : World M.

Lemma on_event_filter cfg e g srv :
  audio (s_filter (on_event (M:=M) cfg e g srv)) = audio (s_filter srv) ∧
  f_locks (s_filter (on_event cfg e g srv)) = f_locks (s_filter srv).
Proof. destruct e as [[| |payload|payload|payload]|]; cbn [on_event]; by repeat case_match. Qed.

(** What an event adds to a client's view: its state commands, for an open client;
    an open client also survives every event but the loss of the switcher. *)
Lemma delivered_view cfg e g srv a s k :
  event_ok e → sessions srv !! a = Some s → opened s = true →
  latest k (log_commands (delivered (M:=M) cfg (FanEvent e) g srv a)) = latest k (state_commands [e]).
Proof.
  intros He Hs Ho. unfold delivered. rewrite Hs, Ho. unfold state_commands, log_commands.
  destruct e as [| |p|p|p]; cbn; rewrite ?app_nil_r; try done.
  - destruct He as [_ He]. case_match; [|done]. cbn. rewrite app_nil_r. by apply latest_stateless.
  - destruct He as [_ He]. case_match; [|done]. cbn. rewrite app_nil_r. by apply latest_stateless.
Qed.

Lemma world_ok_event p e queue w :
  let g := u_cache (w_up w) in
  world_ok w → w_queue w = e :: queue →
  world_ok (after_server (on_event (transfer_cfg p) (FanEvent e) g (w_srv w)) [] queue
              (log_event (transfer_cfg p) (FanEvent e) g (w_srv w) (w_logs w)) w).
Proof.
  intros g Hw Hq. pose proof (wo_queue w Hw) as Hok. rewrite Hq in Hok.
  apply Forall_cons in Hok as [He Hqok].
  destruct (on_event_filter (transfer_cfg p) (FanEvent e) g (w_srv w)) as [Ha _].
  apply server_turn_ok; try done.
  - apply on_event_sessions_ok, Hw.
  - unfold filter_fits. rewrite Ha. apply Hw.
  - intros a s Hs. eapply on_event_log; [exact He|exact Hs|]. intros s0. apply Hw.
  - destruct (wo_views w Hw) as (h & Hc & Hh & (h0 & Hh0) & Hv). exists h.
    rewrite Hq in *. split_and!; [done|done|by exists (event_step h0 e)|].
    cbn [w_up w_srv w_queue w_chan w_logs w_live after_server]. intros Hd a s k r Hs Hop Hk.
    destruct (decide (e = Disconnected)) as [->|Hne].
    { cbn in Hs. by rewrite lookup_empty in Hs. }
    rewrite on_event_lookup in Hs by congruence. apply fmap_Some in Hs as (s0 & Hs0 & ->).
    specialize (Hv ltac:(rewrite not_elem_of_cons; split; [congruence|done]) a s0 k r Hs0 Hop Hk).
    change (e :: queue) with ([e] ++ queue) in Hv.
    rewrite state_commands_app, !latest_app in Hv.
    unfold log_event. rewrite log_commands_app, !latest_app.
    rewrite (delivered_view _ _ _ _ _ s0) by done.
    by destruct (latest k (state_commands queue)).
Qed.

Lemma world_ok_lag p n w :
  let g := u_cache (w_up w) in
  world_ok w →
  world_ok (after_server (on_event (transfer_cfg p) FanLagged g (w_srv w)) [] (drop n (w_queue w))
              (log_event (transfer_cfg p) FanLagged g (w_srv w) (w_logs w)) w).
Proof.
  intros g Hw. pose proof (world_dump_ok w Hw) as Hdump.
  destruct (on_event_filter (transfer_cfg p) FanLagged g (w_srv w)) as [Ha _].
  apply server_turn_ok; try done.
  - apply on_event_sessions_ok, Hw.
  - unfold filter_fits. rewrite Ha. apply Hw.
  - apply Forall_drop, Hw.
  - intros a s Hs. eapply on_event_log; [exact Hdump|exact Hs|]. intros s0. apply Hw.
  - destruct (wo_views w Hw) as (h & Hc & Hh & (h0 & Hh0) & Hv). exists h.
    split_and!; [done|done| |].
    { exists (event_history h0 (take n (w_queue w))). cbn [w_queue after_server].
      by rewrite <- event_history_app, take_drop. }
    cbn [w_up w_srv w_queue w_chan w_logs w_live after_server]. intros Hd a s k r Hs Hop Hk.
    rewrite on_event_lookup in Hs by done. apply fmap_Some in Hs as (s0 & Hs0 & ->).
    unfold log_event. rewrite log_commands_app, !latest_app.
    unfold delivered. rewrite Hs0. cbn [opened set_rel] in Hop. rewrite Hop.
    destruct (dump_log g h Hc Hh) as [_ Hlatest]. rewrite Hlatest, Hk.
    rewrite <- (take_drop n (w_queue w)), event_history_app, event_history_state in Hh0
      by done.
    rewrite Hh0, latest_app in Hk.
    by destruct (latest k (state_commands (drop n (w_queue w)))).
Qed.

Lemma world_ok_tick p client_idle_ms now clock w :
  let r := tick (transfer_cfg p) (idle_of client_idle_ms) now clock (w_srv w) in
  world_ok w → world_ok (after_server r.2 r.1 (w_queue w) (w_logs w) w).
Proof.
  intros r Hw.
  assert (∀ a s, sessions r.2 !! a = Some s → ∃ s0, sessions (w_srv w) !! a = Some s0 ∧
    s = set_rel (polled now clock a s0).2 s0) as Hs.
  { intros a s Hs. unfold r in Hs. rewrite tick_sessions in Hs.
    apply bind_Some in Hs as (s0 & Hs0 & Hs). exists s0. split; [done|].
    destruct (expired _ _ _); by simplify_eq. }
  assert (Forall fits (commands_out r.1) ∧ filter_fits (s_filter r.2)) as [Ho Hf].
  { unfold r. destruct (tick_filter (transfer_cfg p) (idle_of client_idle_ms) now clock (w_srv w))
      as (dead & out & _ & Hfd & _ & Hcmd).
    pose proof (release_dead_fits dead [] (s_filter (w_srv w))) as H. rewrite Hfd in H.
    destruct H as [H1 H2]; [exact (Forall_nil_2 _)|apply Hw|]. split; [|done].
    apply Forall_forall. intros raw Hin. unfold commands_out in Hin, H1.
    apply list_elem_of_omap in Hin as ([a pkt|raw'|d] & Hin & Heq); try done.
    injection Heq as ->. apply Hcmd in Hin. rewrite Forall_forall in H1. apply H1.
    apply list_elem_of_omap. by exists (SvCommand raw). }
  apply server_turn_ok; try done.
  - apply tick_sessions_ok, Hw.
  - apply Hw.
  - intros a s Hin. destruct (Hs a s Hin) as (s0 & Hs0 & ->).
    destruct (wo_logs w Hw a s0 Hs0) as [Hl Hc]. split; [|done].
    cbn [rel set_rel]. by apply log_ok_poll.
  - destruct (wo_views w Hw) as (h & Hc & Hh & Hh0 & Hv). exists h. split_and!; [done|done|done|].
    cbn [w_up w_srv w_queue w_chan w_logs w_live after_server]. intros Hd a s k v Hin Hop Hk.
    destruct (Hs a s Hin) as (s0 & Hs0 & ->). by apply (Hv Hd a s0).
Qed.

Lemma world_act_ok p client_idle_ms a w up sv w' :
  world_act p client_idle_ms a w up sv w' → world_ok w → world_ok w'.
Proof.
  intros Hs Hw.
  destruct Hs as [t_new t_ack reply rel acks w Hl Ho|i out u w chan Hl Hc Ht|w
    |data addr t_new now w|e queue w Hq|w Hlen|now clock w].
  - by eapply world_ok_open.
  - by eapply world_ok_turn.
  - by apply world_ok_end.
  - exact (world_ok_datagram p data addr t_new now w Hw).
  - exact (world_ok_event p e queue w Hw Hq).
  - exact (world_ok_lag p _ w Hw).
  - exact (world_ok_tick p client_idle_ms now clock w Hw).
Qed.

Lemma reachable_ok p client_idle_ms t0 w : reachable p client_idle_ms t0 w → world_ok w.
Proof.
  unfold reachable. intros Hr. pose proof (world_init_ok t0) as H0.
  induction Hr as [w|w w1 w2 Hs Hr IH]; [done|]. apply IH. destruct Hs as (a & up & sv & Hs). by eapply world_act_ok.
Qed.

(** Once no event is waiting, an open client has been queued the whole cache. *)
Lemma world_view w a s k r :
  world_ok w → sessions (w_srv w) !! a = Some s → opened s = true → w_queue w = [] →
  im_get k (cmap (u_cache (w_up w))) = Some r → latest k (log_commands (w_logs w a)) = Some r.
Proof.
  intros Hw Hs Ho Hq Hk. destruct (wo_views w Hw) as (h & Hc & _ & _ & Hv). rewrite Hq in Hv.
  rewrite im_get_entries, Hc, assoc_get_coalesce in Hk.
  specialize (Hv (not_elem_of_nil _) a s k r Hs Ho Hk). by rewrite app_nil_r in Hv.
Qed.

(** Convergence.  In every state that any interleaving of the proxy's tasks can
    reach, for every client whose session is open: what it has acknowledged
    followed by what its endpoint still has to deliver (pings apart) is exactly
    what was queued for it; and once no event is waiting, every piece of state in
    the cache is the last thing queued for the client about that piece. *)
Theorem clients_converge p client_idle_ms t0 w a s :
  reachable p client_idle_ms t0 w → sessions (w_srv w) !! a = Some s → opened s = true →
  (∃ acked, w_logs w a = acked ++ nonempty (stream (rel s))) ∧
  (w_queue w = [] → ∀ k r, im_get k (cmap (u_cache (w_up w))) = Some r →
     latest k (log_commands (w_logs w a)) = Some r).
Proof.
  intros Hr Hs Ho. pose proof (reachable_ok _ _ _ _ Hr) as Hw.
  destruct (wo_logs w Hw a s Hs) as [[_ Hlog] _]. split; [done|]. intros Hq k r Hk.
  by apply (world_view w a s).
Qed.

(** No truncation.  Sending cuts a payload that exceeds a packet; no payload queued
    anywhere in a reachable proxy, towards the switcher or towards a client, is
    ever that long, nor is any command on its way between the two. *)
Theorem never_truncated p client_idle_ms t0 w :
  reachable p client_idle_ms t0 w →
  Forall fits (outbound (u_rel (w_up w))) ∧ Forall fits (w_chan w) ∧
  ∀ a s, sessions (w_srv w) !! a = Some s → Forall fits (outbound (rel s)).
Proof.
  intros Hr. pose proof (reachable_ok _ _ _ _ Hr) as Hw.
  destruct (wo_up w Hw) as (_ & Ho & _). split_and!; [done|apply Hw|].
  intros a s Hs. by destruct (wo_logs w Hw a s Hs) as [[Hf _] _].
Qed.

(** C7. Safety of the composition: in every reachable state the upstream endpoint and
    every client's endpoint satisfy the endpoint invariant, the two flags that
    admit clients agree, they are down whenever no session with the switcher is
    open, and no session has anything queued before its client acknowledged. *)
Theorem reachable_safe p client_idle_ms t0 w :
  reachable p client_idle_ms t0 w →
  ep_ok (u_rel (w_up w)) ∧ connected (w_up w) = ready (u_cache (w_up w)) ∧
  (w_live w = false → connected (w_up w) = false) ∧
  ∀ a s, sessions (w_srv w) !! a = Some s →
    ep_ok (rel s) ∧ (opened s = false → stream (rel s) = [] ∧ w_logs w a = []).
Proof.
  intros Hr. pose proof (reachable_ok _ _ _ _ Hr) as Hw.
  destruct (wo_up w Hw) as (Hep & _). destruct (wo_ready w Hw) as (b & Hc & Hrd & Hl).
  split_and!; [done|congruence|intros Hlive; rewrite Hlive in Hl; congruence|].
  intros a s Hs. destruct (wo_srv w Hw) as [_ Hall]. pose proof (Hall a s Hs) as Hok.
  split; [apply Hok|]. intros Ho. destruct (wo_logs w Hw a s Hs) as [_ Hcl].
  split; [|by apply Hcl]. destruct (session_ok_quiet s Hok Ho) as (Hi & Hq & _).
  unfold stream. by rewrite Hi, Hq.
Qed.
End world_theorems.
