(* ===== verification/Tasks.v ===== *)
(** * Between the awaits

    In [System] each handler of the server is one step.  In the program
    ([crates/atem-proxy/src/server.rs]) the receive loop and the tick suspend inside
    theirs: after a greeting is answered and before its session is inserted, before
    each command sent to the upstream channel, which may be full, and, in the tick,
    while what the dead sessions held is released one by one and the packets are
    sent.  Here those tasks have a place where they are.  The step boundaries are
    these awaits and one kind of point more: in the tick, before the
    [client_disconnected] of each dead client.  The lock of the map has been given
    back there, but the code need not await (it does not before the first of them):
    another task gets in between because the program runs on several threads
    ([#[tokio::main]] in main.rs). *)

From S2P Require Export System.
Open Scope nat_scope.

(** Capacity of the command channel. *)
Definition COMMAND_CAPACITY : nat := 512.

(** Where the receive loop is. *)
Inductive rx_pc : Type :=
  | RxIdle
  (** The greeting is answered; the session is still to be inserted. *)
  | RxInsert (addr : SocketAddr) (session : Z)
  (** The locks are released; these commands are still to be sent. *)
  | RxForward (cmds : list bytes).

(** Where the tick is. *)
Inductive tk_pc : Type :=
  | TkIdle
  (** The dead sessions are removed; these clients are still to be released, and
      these packets to be sent. *)
  | TkRelease (dead : list SocketAddr) (packets : list (SocketAddr * bytes))
  (** In between, the commands of one client's release are sent. *)
  | TkForward (cmds : list bytes) (dead : list SocketAddr) (packets : list (SocketAddr * bytes)).

(** The part of the tick under the lock of the sessions; giving it back is a step
    boundary. *)
Definition tick_poll (idle : Duration) (now : Instant) (clock : SocketAddr → Instant * Instant)
    (srv : Server) `{!HashIter SocketAddr ClientSession} :
    Server * list SocketAddr * list (SocketAddr * bytes) :=
  let '(g, dead, packets) :=
    foldl (tick_session idle now clock) (sessions srv, [], []) (hash_iter (sessions srv)) in
  (set_sessions (foldl (λ g addr, delete addr g) g dead) srv, dead, packets).

(** The sends of a server output that are not commands. *)
Definition is_command (o : sv_out) : bool := match o with SvCommand _ => true | _ => false end.
Definition datagrams_out (out : list sv_out) : list sv_out :=
  filter (λ o, is_command o = false) out.

Section tasks.
  Context {M : Type} `{!IndexMap M CacheKey bytes}.
  Context `{!HashIter Z StoreLock} `{!HashIter SocketAddr ClientSession}.

Record Tasks : Type := {
  tw : World M;
  rx : rx_pc;
  tk : tk_pc;
}.

Definition tasks_init (t0 : Instant) : Tasks :=
  {| tw := world_init t0; rx := RxIdle; tk := TkIdle |}.

(** The turns that do not suspend: those of the upstream task, and of the fan-out. *)
Definition atomic (act : action) : bool :=
  match act with ActDatagram _ _ | ActTick => false | _ => true end.

(** The server in a new state, with [out] of its commands sent. *)
Definition with_server (srv : Server) (out : list sv_out) (w : World M) : World M :=
  after_server srv out (w_queue w) (w_logs w) w.

Definition insert_session (t_new now : Instant) (addr : SocketAddr) (session : Z) (srv : Server) :
    Server :=
  set_sessions (<[addr := new_session t_new now session]> (sessions srv)) srv.

Inductive task_step (p : FilterPolicy) (client_idle_ms : Z) : Tasks → list sv_out → Tasks → Prop :=
  | ts_atomic act up w' m :
      atomic act = true → world_act p client_idle_ms act (tw m) up [] w' →
      task_step p client_idle_ms m [] {| tw := w'; rx := rx m; tk := tk m |}
  (** *** The receive loop *)
  | ts_greet data addr hdr payload m :
      let w := tw m in
      let srv := w_srv w in
      rx m = RxIdle → decode_packet data = Ok (hdr, payload) →
      is_handshake_packet (flags hdr) = true →
      connected (w_up w) = true → StateCache_is_ready (u_cache (w_up w)) = true →
      let session := server_session_id (next_sid srv) in
      let srv' := {| sessions := sessions srv; next_sid := as_u16 (next_sid srv + 1);
                     s_filter := s_filter srv |} in
      task_step p client_idle_ms m [SvSend addr (build_server_handshake_reply session)]
        {| tw := with_server srv' [] w; rx := RxInsert addr session; tk := tk m |}
  (** The reply cannot be sent: the handler returns with [?] before the insertion. *)
  | ts_greet_lost data hdr payload m :
      let w := tw m in
      let srv := w_srv w in
      rx m = RxIdle → decode_packet data = Ok (hdr, payload) →
      is_handshake_packet (flags hdr) = true →
      connected (w_up w) = true → StateCache_is_ready (u_cache (w_up w)) = true →
      let srv' := {| sessions := sessions srv; next_sid := as_u16 (next_sid srv + 1);
                     s_filter := s_filter srv |} in
      task_step p client_idle_ms m []
        {| tw := with_server srv' [] w; rx := RxIdle; tk := tk m |}
  | ts_insert t_new now addr session m :
      let w := tw m in
      let srv' := insert_session t_new now addr session (w_srv w) in
      rx m = RxInsert addr session →
      task_step p client_idle_ms m []
        {| tw := after_server srv' [] (w_queue w)
                   (log_datagram (u_cache (w_up w)) addr (w_srv w) srv' (w_logs w)) w;
           rx := RxIdle; tk := tk m |}
  (** Any other datagram, also a greeting that is not admitted.  (The only datagram
      sent here is a retransmit request, and then there are no commands: if it cannot
      be sent, the early return skips nothing.) *)
  | ts_datagram data addr t_new now m :
      let w := tw m in
      let g := u_cache (w_up w) in
      let r := on_client_packet p data addr (connected (w_up w)) g t_new now (w_srv w) in
      rx m = RxIdle → is_greeting data && (connected (w_up w) && StateCache_is_ready g) = false →
      task_step p client_idle_ms m (datagrams_out r.1)
        {| tw := after_server r.2 [] (w_queue w) (log_datagram g addr (w_srv w) r.2 (w_logs w)) w;
           rx := RxForward (commands_out r.1); tk := tk m |}
  | ts_rx_send c cmds m :
      rx m = RxForward (c :: cmds) → length (w_chan (tw m)) < COMMAND_CAPACITY →
      task_step p client_idle_ms m [SvCommand c]
        {| tw := with_server (w_srv (tw m)) [SvCommand c] (tw m); rx := RxForward cmds; tk := tk m |}
  | ts_rx_done m :
      rx m = RxForward [] →
      task_step p client_idle_ms m [] {| tw := tw m; rx := RxIdle; tk := tk m |}
  (** *** The tick *)
  | ts_tick now clock m :
      let r := tick_poll (idle_of client_idle_ms) now clock (w_srv (tw m)) in
      tk m = TkIdle →
      task_step p client_idle_ms m []
        {| tw := with_server r.1.1 [] (tw m); rx := rx m; tk := TkRelease r.1.2 r.2 |}
  | ts_release addr dead packets m :
      let srv := w_srv (tw m) in
      let r := CommandFilter_client_disconnected addr (s_filter srv) in
      tk m = TkRelease (addr :: dead) packets →
      task_step p client_idle_ms m []
        {| tw := with_server (set_filter r.2 srv) [] (tw m); rx := rx m;
           tk := TkForward r.1 dead packets |}
  | ts_tk_send c cmds dead packets m :
      tk m = TkForward (c :: cmds) dead packets → length (w_chan (tw m)) < COMMAND_CAPACITY →
      task_step p client_idle_ms m [SvCommand c]
        {| tw := with_server (w_srv (tw m)) [SvCommand c] (tw m); rx := rx m;
           tk := TkForward cmds dead packets |}
  | ts_tk_next dead packets m :
      tk m = TkForward [] dead packets →
      task_step p client_idle_ms m []
        {| tw := tw m; rx := rx m; tk := TkRelease dead packets |}
  | ts_packet ap packets m :
      tk m = TkRelease [] (ap :: packets) →
      task_step p client_idle_ms m
        (send_paced (transfer_cfg p) (f_lane (s_filter (w_srv (tw m)))) ap)
        {| tw := tw m; rx := rx m; tk := TkRelease [] packets |}
  | ts_tk_done m :
      tk m = TkRelease [] [] →
      task_step p client_idle_ms m [] {| tw := tw m; rx := rx m; tk := TkIdle |}.

(** A run, with what it sends. *)
Inductive task_run (p : FilterPolicy) (client_idle_ms : Z) : Tasks → list sv_out → Tasks → Prop :=
  | task_run_refl m : task_run p client_idle_ms m [] m
  | task_run_step m out m' out' m'' :
      task_step p client_idle_ms m out m' → task_run p client_idle_ms m' out' m'' →
      task_run p client_idle_ms m (out ++ out') m''.

Definition tasks_reachable (p : FilterPolicy) (client_idle_ms : Z) (t0 : Instant) (m : Tasks) : Prop :=
  ∃ out, task_run p client_idle_ms (tasks_init t0) out m.
End tasks.
Arguments Tasks : clear implicits.

(** ** The invariant *)
Section tasks_invariant.
  Context {M : Type} `{!IndexMap M CacheKey bytes}.
  Context `{!HashIter Z StoreLock} `{!HashIter SocketAddr ClientSession}.
  Implicit Types m : Tasks M.

Definition rx_ok (pc : rx_pc) : Prop :=
  match pc with
  | RxIdle => True
  | RxInsert _ session => is_u16 session
  | RxForward cmds => Forall fits cmds
  end.

Definition tk_ok (pc : tk_pc) : Prop :=
  match pc with TkForward cmds _ _ => Forall fits cmds | _ => True end.

Record tasks_ok m : Prop := {
  to_world : world_ok (tw m);
  to_rx : rx_ok (rx m);
  to_tk : tk_ok (tk m);
  to_chan : length (w_chan (tw m)) ≤ COMMAND_CAPACITY;
}.

(** No turn that does not suspend adds to the channel. *)
Lemma atomic_chan p client_idle_ms act w up sv w' :
  atomic act = true → world_act (M:=M) p client_idle_ms act w up sv w' →
  length (w_chan w') ≤ length (w_chan w).
Proof.
  intros Hat Ha. destruct Ha; try done; cbn; rewrite ?app_nil_r; try done.
  rewrite H0, length_app. lia.
Qed.

(** A command that found room. *)
Lemma with_server_room srv c (w : World M) :
  length (w_chan w) < COMMAND_CAPACITY →
  length (w_chan (with_server srv [SvCommand c] w)) ≤ COMMAND_CAPACITY.
Proof. intros H. cbn. rewrite length_app. cbn. unfold COMMAND_CAPACITY in *. lia. Qed.

(** A step of the server that keeps logs and queue, and the view of every client. *)
Lemma with_server_ok srv out (w : World M) :
  world_ok w → sessions_ok srv → filter_fits (s_filter srv) → Forall fits (commands_out out) →
  (∀ a s, sessions srv !! a = Some s → ∃ s0, sessions (w_srv w) !! a = Some s0 ∧
     opened s = opened s0 ∧ (session_log_ok (w_logs w a) s0 → session_log_ok (w_logs w a) s)) →
  world_ok (with_server srv out w).
Proof.
  intros Hw Hs Hf Ho Hses. unfold with_server. apply server_turn_ok; try done.
  - apply Hw.
  - intros a s Hs'. destruct (Hses a s Hs') as (s0 & Hs0 & _ & Hl). apply Hl. by apply (wo_logs w Hw).
  - destruct (wo_views w Hw) as (h & Hc & Hh & Hh0 & Hv). exists h. split_and!; [done|done|done|].
    cbn [w_up w_srv w_queue w_chan w_logs w_live after_server]. intros Hd a s k v Hin Hop Hk.
    destruct (Hses a s Hin) as (s0 & Hs0 & Hop0 & _). apply (Hv Hd a s0); [done|congruence|done].
Qed.

(** The same sessions. *)
Lemma with_server_same srv out (w : World M) :
  world_ok w → sessions_ok srv → filter_fits (s_filter srv) → Forall fits (commands_out out) →
  sessions srv = sessions (w_srv w) → world_ok (with_server srv out w).
Proof.
  intros Hw Hs Hf Ho He. apply with_server_ok; try done. rewrite He. intros a s Hs'. by exists s.
Qed.

Lemma tick_poll_tick cfg idle now clock srv :
  sessions (tick_poll idle now clock srv).1.1 = sessions (tick cfg idle now clock srv).2 ∧
  next_sid (tick_poll idle now clock srv).1.1 = next_sid srv ∧
  s_filter (tick_poll idle now clock srv).1.1 = s_filter srv.
Proof.
  unfold tick_poll, tick. destruct (foldl (tick_session _ _ _) _ _) as [[g dead] packets].
  by destruct (foldl release_dead _ dead) as [out f].
Qed.

Lemma tick_poll_ok idle now clock (w : World M) :
  world_ok w → world_ok (with_server (tick_poll idle now clock (w_srv w)).1.1 [] w).
Proof.
  intros Hw.
  destruct (tick_poll_tick {| enabled := false; cfg_chunk_delay_ms := 0; max_upload_mb := 0 |}
    idle now clock (w_srv w)) as (Hs & Hn & Hf).
  set (srv := (tick_poll idle now clock (w_srv w)).1.1) in *.
  apply with_server_ok; [done| | |by apply Forall_nil|].
  - destruct (tick_sessions_ok {| enabled := false; cfg_chunk_delay_ms := 0; max_upload_mb := 0 |}
      idle now clock (w_srv w) (wo_srv w Hw)) as [_ Hall].
    split; [rewrite Hn; apply (wo_srv w Hw)|rewrite Hs; exact Hall].
  - rewrite Hf. apply Hw.
  - intros a s Ha. rewrite Hs, tick_sessions in Ha. apply bind_Some in Ha as (s0 & Hs0 & Ha).
    exists s0. destruct (expired _ _ _); [done|]. injection Ha as <-. split_and!; [done|done|].
    intros [Hl Hc]. split; [|done]. by apply log_ok_poll.
Qed.

Lemma insert_session_ok t_new now addr session (w : World M) :
  let srv' := insert_session t_new now addr session (w_srv w) in
  world_ok w → is_u16 session →
  world_ok (after_server srv' [] (w_queue w)
    (log_datagram (u_cache (w_up w)) addr (w_srv w) srv' (w_logs w)) w).
Proof.
  intros srv' Hw Hsid. destruct (wo_srv w Hw) as [Hn Hall].
  assert (∀ a s, sessions srv' !! a = Some s →
    (a = addr ∧ s = new_session t_new now session) ∨ (a ≠ addr ∧ sessions (w_srv w) !! a = Some s)) as Hcase.
  { intros a s. cbn. intros [[<- <-]|[Hne Hs]]%lookup_insert_Some; [by left|right; auto]. }
  apply server_turn_ok; try apply Forall_nil; try done.
  - split; [done|]. cbn. apply map_Forall_insert_2; [|done]. by apply new_session_ok.
  - apply Hw.
  - apply Hw.
  - intros a s Hs. unfold log_datagram, is_opened. destruct (Hcase a s Hs) as [[-> ->]|[Hne Hs']].
    + rewrite decide_True, Hs by done. split; [|done]. by apply log_ok_nil.
    + rewrite decide_False by done. by apply Hw.
  - destruct (wo_views w Hw) as (h & Hc & Hh & Hh0 & Hv). exists h. split_and!; [done|done|done|].
    cbn [w_up w_srv w_queue w_chan w_logs w_live after_server]. intros Hd a s k v Hs Hop Hk.
    destruct (Hcase a s Hs) as [[-> ->]|[Hne Hs']]; [done|].
    unfold log_datagram. rewrite decide_False by done. by apply (Hv Hd a s).
Qed.

(** A session number is spent. *)
Lemma next_sid_ok (w : World M) :
  world_ok w →
  world_ok (with_server {| sessions := sessions (w_srv w); next_sid := as_u16 (next_sid (w_srv w) + 1);
                           s_filter := s_filter (w_srv w) |} [] w).
Proof.
  intros Hw. destruct (wo_srv _ Hw) as [Hn Hall].
  apply with_server_same; [done| |apply (wo_filter _ Hw)|by apply Forall_nil|done].
  split; [apply as_u16_range|done].
Qed.

Lemma task_step_ok p client_idle_ms m out m' :
  task_step p client_idle_ms m out m' → tasks_ok m → tasks_ok m'.
Proof.
  intros Hs [Hw Hrx Htk Hch].
  destruct Hs as [act up w' m Ha Hact|data addr hdr payload m w srv Hpc Hd Hh Hc Hr session srv'
    |data hdr payload m w srv Hpc Hd Hh Hc Hr srv'
    |t_new now addr session m w srv' Hpc|data addr t_new now m w g r Hpc Hg|c cmds m Hpc Hcap|m Hpc
    |now clock m r Hpc|addr dead packets m srv r Hpc|c cmds dead packets m Hpc Hcap|dead packets m Hpc
    |ap packets m Hpc|m Hpc]; split; cbn [tw rx tk]; try done;
    try (by apply with_server_room); try (by cbn; rewrite app_nil_r);
    try (rewrite Hpc in Hrx; cbn in Hrx); try (rewrite Hpc in Htk; cbn in Htk); try done.
  - by eapply world_act_ok.
  - pose proof (atomic_chan _ _ _ _ _ _ _ Ha Hact). lia.
  - by apply next_sid_ok.
  - destruct (wo_srv _ Hw) as [Hn _]. cbn. unfold is_u16 in *.
    subst session srv w. rewrite server_session_id_value by lia. lia.
  - by apply next_sid_ok.
  - by apply insert_session_ok.
  - apply datagram_turn_ok; [done|]. by apply Forall_nil.
  - by destruct (datagram_turn_ok p data addr t_new now (tw m) Hw) as [H _].
  - apply Forall_cons in Hrx as [Hc _]. apply with_server_same; [done|apply (wo_srv _ Hw)|apply (wo_filter _ Hw)| |done].
    by apply Forall_singleton.
  - by apply Forall_cons in Hrx as [_ ?].
  - by apply tick_poll_ok.
  - pose proof (client_disconnected_fits addr (s_filter srv) (wo_filter _ Hw)) as H.
    subst r. destruct (CommandFilter_client_disconnected addr (s_filter srv)) as [cs f].
    destruct H as [_ H]. apply with_server_same; [done|apply (wo_srv _ Hw)|done|by apply Forall_nil|done].
  - pose proof (client_disconnected_fits addr (s_filter srv) (wo_filter _ Hw)) as H.
    subst r. destruct (CommandFilter_client_disconnected addr (s_filter srv)) as [cs f]. exact (proj1 H).
  - apply Forall_cons in Htk as [Hc _]. apply with_server_same; [done|apply (wo_srv _ Hw)|apply (wo_filter _ Hw)| |done].
    by apply Forall_singleton.
  - by apply Forall_cons in Htk as [_ ?].
Qed.

Lemma tasks_reachable_ok p client_idle_ms t0 m : tasks_reachable p client_idle_ms t0 m → tasks_ok m.
Proof.
  intros [out Hr]. assert (tasks_ok (tasks_init (M:=M) t0)) as H0 by (split; [apply world_init_ok|done|done|cbn; unfold COMMAND_CAPACITY; lia]).
  induction Hr as [m|m out m1 out' m2 Hs _ IH]; [done|]. by apply IH, (task_step_ok p client_idle_ms m out).
Qed.
End tasks_invariant.

(** ** The turns of [System] are runs *)
Section tasks_refine.
  Context {M : Type} `{!IndexMap M CacheKey bytes}.
  Context `{!HashIter Z StoreLock} `{!HashIter SocketAddr ClientSession}.
  Context (p : FilterPolicy) (client_idle_ms : Z).
  Implicit Types (m : Tasks M) (w : World M) (out : list sv_out).

Lemma task_run_one m out m' : task_step p client_idle_ms m out m' → task_run p client_idle_ms m out m'.
Proof. intros H. rewrite <- (app_nil_r out). eapply task_run_step; [done|constructor]. Qed.

Lemma task_run_trans m1 out1 m2 out2 m3 :
  task_run p client_idle_ms m1 out1 m2 → task_run p client_idle_ms m2 out2 m3 →
  task_run p client_idle_ms m1 (out1 ++ out2) m3.
Proof.
  intros H1 H2. induction H1 as [m|m out m' out' m'' Hs _ IH]; [done|].
  rewrite <- app_assoc. by eapply task_run_step; [|apply IH].
Qed.

Lemma after_server_after srv1 out1 q1 l1 srv2 out2 q2 l2 w :
  after_server srv2 out2 q2 l2 (after_server srv1 out1 q1 l1 w) =
  after_server srv2 (out1 ++ out2) q2 l2 w.
Proof. unfold after_server. cbn. by rewrite commands_out_app, app_assoc. Qed.

(** With room for all of them, the commands of a handler go out one by one. *)
Lemma forward_run srv q l w cmds out k :
  length (w_chan w) + length (commands_out out) + length cmds ≤ COMMAND_CAPACITY →
  task_run p client_idle_ms
    {| tw := after_server srv out q l w; rx := RxForward cmds; tk := k |} (SvCommand <$> cmds)
    {| tw := after_server srv (out ++ (SvCommand <$> cmds)) q l w; rx := RxIdle; tk := k |}.
Proof.
  revert out. induction cmds as [|c cmds IH]; intros out Hc; cbn [length] in Hc.
  - cbn. rewrite app_nil_r. apply task_run_one. by apply (ts_rx_done _ _ {| rx := RxForward [] |}).
  - change (SvCommand <$> c :: cmds) with ([SvCommand c] ++ (SvCommand <$> cmds)).
    eapply task_run_step.
    + apply (ts_rx_send _ _ c cmds {| rx := RxForward (c :: cmds) |}); [done|].
      cbn. rewrite length_app. lia.
    + cbn [tw rx tk]. unfold with_server. rewrite after_server_after.
      cbn [w_srv w_queue w_logs after_server].
      rewrite app_assoc. apply IH. rewrite commands_out_app, length_app. cbn. lia.
Qed.

Lemma tk_forward_run srv q l w cmds out r dead packets :
  length (w_chan w) + length (commands_out out) + length cmds ≤ COMMAND_CAPACITY →
  task_run p client_idle_ms
    {| tw := after_server srv out q l w; rx := r; tk := TkForward cmds dead packets |}
    (SvCommand <$> cmds)
    {| tw := after_server srv (out ++ (SvCommand <$> cmds)) q l w; rx := r;
       tk := TkRelease dead packets |}.
Proof.
  revert out. induction cmds as [|c cmds IH]; intros out Hc; cbn [length] in Hc.
  - cbn. rewrite app_nil_r. apply task_run_one.
    by apply (ts_tk_next _ _ dead packets {| tk := TkForward [] dead packets |}).
  - change (SvCommand <$> c :: cmds) with ([SvCommand c] ++ (SvCommand <$> cmds)).
    eapply task_run_step.
    + apply (ts_tk_send _ _ c cmds dead packets {| tk := TkForward (c :: cmds) dead packets |}); [done|].
      cbn. rewrite length_app. lia.
    + cbn [tw rx tk]. unfold with_server. rewrite after_server_after.
      cbn [w_srv w_queue w_logs after_server].
      rewrite app_assoc. apply IH. rewrite commands_out_app, length_app. cbn. lia.
Qed.

Lemma release_dead_app dead out f :
  foldl release_dead (out, f) dead =
  (out ++ (foldl release_dead ([], f) dead).1, (foldl release_dead ([], f) dead).2).
Proof.
  revert out f. induction dead as [|a dead IH]; intros out f; cbn [foldl].
  - cbn. by rewrite app_nil_r.
  - unfold release_dead at 2 4 6. destruct (CommandFilter_client_disconnected a f) as [cmds f'].
    rewrite IH, (IH ([] ++ _)). cbn. by rewrite app_assoc.
Qed.

Lemma release_run srv q l w dead out f r packets :
  length (w_chan w) + length (commands_out out) +
    length (commands_out (foldl release_dead ([], f) dead).1) ≤ COMMAND_CAPACITY →
  task_run p client_idle_ms
    {| tw := after_server (set_filter f srv) out q l w; rx := r; tk := TkRelease dead packets |}
    (foldl release_dead ([], f) dead).1
    {| tw := after_server (set_filter (foldl release_dead ([], f) dead).2 srv)
               (out ++ (foldl release_dead ([], f) dead).1) q l w;
       rx := r; tk := TkRelease [] packets |}.
Proof.
  revert out f. induction dead as [|a dead IH]; intros out f Hc.
  - cbn. rewrite app_nil_r. constructor.
  - cbn [foldl] in *. unfold release_dead at 2 in Hc. unfold release_dead at 2 4 6.
    pose proof (ts_release p client_idle_ms a dead packets
      {| tw := after_server (set_filter f srv) out q l w; rx := r; tk := TkRelease (a :: dead) packets |}
      eq_refl) as Hs.
    cbn [tw rx tk w_srv s_filter after_server set_filter] in Hs.
    destruct (CommandFilter_client_disconnected a f) as [cmds f'] eqn:E.
    rewrite release_dead_app in *. cbn [fst snd app] in *.
    rewrite commands_out_app, commands_out_commands, length_app in Hc.
    unfold with_server in Hs. rewrite after_server_after, app_nil_r in Hs.
    eapply (task_run_step _ _ _ []); [exact Hs|]. cbn [w_queue w_logs after_server].
    change (set_filter f' (set_filter f srv)) with (set_filter f' srv).
    eapply task_run_trans; [apply tk_forward_run; lia|]. rewrite app_assoc. apply IH.
    rewrite commands_out_app, commands_out_commands, length_app. lia.
Qed.

Lemma packets_run w r packets :
  task_run p client_idle_ms
    {| tw := w; rx := r; tk := TkRelease [] packets |}
    (concat (send_paced (transfer_cfg p) (f_lane (s_filter (w_srv w))) <$> packets))
    {| tw := w; rx := r; tk := TkIdle |}.
Proof.
  induction packets as [|ap packets IH].
  - apply task_run_one. by apply (ts_tk_done _ _ {| tk := TkRelease [] [] |}).
  - eapply task_run_step; [|exact IH].
    by apply (ts_packet _ _ ap packets {| tw := w; tk := TkRelease [] (ap :: packets) |}).
Qed.

(** The datagrams of a handler go out before its commands. *)
Lemma on_client_packet_out data addr up g t_new now srv :
  let out := (on_client_packet (M:=M) p data addr up g t_new now srv).1 in
  out = datagrams_out out ++ (SvCommand <$> commands_out out).
Proof.
  unfold on_client_packet, handle_datagram.
  destruct (decode_packet data) as [[hdr payload]|]; [|done]. cbn [mbind Result_bind].
  destruct (is_handshake_packet _); [by destruct (negb up || _)|].
  destruct (sessions srv !! addr) as [s|]; [|done].
  destruct (session_datagram p hdr payload addr g now s (s_filter srv)) as [[[retransmit cmds] s'] f'].
  cbn [fst]. rewrite commands_out_app, commands_out_commands. unfold datagrams_out.
  rewrite filter_app.
  assert (filter (λ o, is_command o = false) (SvCommand <$> cmds) = []) as ->
    by (clear; by induction cmds).
  rewrite app_nil_r. by destruct retransmit.
Qed.

Lemma datagram_run data addr t_new now w k :
  let g := u_cache (w_up w) in
  let r := on_client_packet p data addr (connected (w_up w)) g t_new now (w_srv w) in
  length (w_chan w) + length (commands_out r.1) ≤ COMMAND_CAPACITY →
  task_run p client_idle_ms {| tw := w; rx := RxIdle; tk := k |} r.1
    {| tw := after_server r.2 r.1 (w_queue w) (log_datagram g addr (w_srv w) r.2 (w_logs w)) w;
       rx := RxIdle; tk := k |}.
Proof.
  intros g r Hc.
  destruct (is_greeting data && (connected (w_up w) && StateCache_is_ready g)) eqn:Hg.
  - apply andb_true_iff in Hg as [Hg [Hup Hready]%andb_true_iff]. unfold is_greeting in Hg.
    subst r. revert Hc. unfold on_client_packet, handle_datagram.
    destruct (decode_packet data) as [[hdr payload]|] eqn:Hd; [|done].
    cbn [mbind Result_bind]. rewrite Hg, Hup, Hready. cbn [negb orb fst snd]. intros _.
    set (m := {| tw := w; rx := RxIdle; tk := k |}).
    pose proof (ts_greet p client_idle_ms data addr hdr payload m eq_refl Hd Hg Hup Hready) as H1.
    set (sid := server_session_id (next_sid (w_srv w))).
    cbn [tw tk m] in H1. cbv zeta in H1. fold sid in H1.
    set (srv1 := {| sessions := sessions (w_srv w); next_sid := as_u16 (next_sid (w_srv w) + 1);
                    s_filter := s_filter (w_srv w) |}) in H1.
    pose proof (ts_insert p client_idle_ms t_new now addr sid
      {| tw := with_server srv1 [SvSend addr (build_server_handshake_reply sid)] w;
         rx := RxInsert addr sid; tk := k |} eq_refl) as H2.
    rewrite <- (app_nil_r [SvSend _ _]). eapply task_run_step; [exact H1|].
    apply task_run_one. unfold with_server in H2. cbn [tw rx tk w_srv w_up w_queue w_logs after_server] in H2.
    cbv zeta in H2. rewrite after_server_after in H2. exact H2.
  - pose proof (ts_datagram p client_idle_ms data addr t_new now
      {| tw := w; rx := RxIdle; tk := k |} eq_refl Hg) as Hs.
    cbn [tw tk] in Hs. cbv zeta in Hs. fold g in Hs. fold r in Hs.
    pose proof (on_client_packet_out data addr (connected (w_up w)) g t_new now (w_srv w)) as Ho.
    cbv zeta in Ho. fold r in Ho.
    pose proof (forward_run r.2 (w_queue w) (log_datagram g addr (w_srv w) r.2 (w_logs w)) w
      (commands_out r.1) [] k) as Hf.
    replace r.1 with (datagrams_out r.1 ++ (SvCommand <$> commands_out r.1)) at 1 by done.
    eapply task_run_step; [exact Hs|].
    replace (after_server r.2 r.1 _ _ w) with
      (after_server r.2 ([] ++ (SvCommand <$> commands_out r.1)) (w_queue w)
         (log_datagram g addr (w_srv w) r.2 (w_logs w)) w).
    + apply Hf. cbn. lia.
    + unfold after_server. cbn [app]. by rewrite commands_out_commands.
Qed.

Lemma tick_run now clock w r0 :
  let r := tick (transfer_cfg p) (idle_of client_idle_ms) now clock (w_srv w) in
  length (w_chan w) + length (commands_out r.1) ≤ COMMAND_CAPACITY →
  task_run p client_idle_ms {| tw := w; rx := r0; tk := TkIdle |} r.1
    {| tw := after_server r.2 r.1 (w_queue w) (w_logs w) w; rx := r0; tk := TkIdle |}.
Proof.
  intros r. subst r.
  pose proof (ts_tick p client_idle_ms now clock {| tw := w; rx := r0; tk := TkIdle |} eq_refl) as Hs.
  cbn [tw rx tk] in Hs. cbv zeta in Hs. revert Hs. unfold tick, tick_poll.
  destruct (foldl (tick_session _ _ _) _ _) as [[g dead] packets]. cbn [fst snd].
  set (srv := set_sessions _ (w_srv w)). intros Hs.
  pose proof (release_run srv (w_queue w) (w_logs w) w dead [] (s_filter (w_srv w)) r0 packets) as Hr.
  destruct (foldl release_dead ([], s_filter (w_srv w)) dead) as [out f]. cbn [fst snd] in *.
  rewrite commands_out_app. intros Hc.
  assert (commands_out (concat (send_paced (transfer_cfg p) (f_lane f) <$> packets)) = []) as Hp.
  { clear. induction packets as [|[a pkt] l IH]; [done|]. cbn [fmap list_fmap concat].
    rewrite commands_out_app, IH, app_nil_r. unfold send_paced. by destruct (_ && _). }
  rewrite Hp, app_nil_r in Hc.
  eapply (task_run_step _ _ _ []); [exact Hs|]. unfold with_server.
  eapply task_run_trans; [apply Hr; cbn; lia|]. cbn [app].
  replace (after_server (set_filter f srv) (out ++ _) (w_queue w) (w_logs w) w)
    with (after_server (set_filter f srv) out (w_queue w) (w_logs w) w).
  - apply (packets_run (after_server (set_filter f srv) out (w_queue w) (w_logs w) w) r0 packets).
  - unfold after_server. by rewrite commands_out_app, Hp, app_nil_r.
Qed.

Lemma turn_run act w up sv w' :
  world_act p client_idle_ms act w up sv w' →
  length (w_chan w') ≤ COMMAND_CAPACITY →
  task_run p client_idle_ms {| tw := w; rx := RxIdle; tk := TkIdle |} sv
    {| tw := w'; rx := RxIdle; tk := TkIdle |}.
Proof.
  intros Ha Hc. destruct (atomic act) eqn:Hat.
  - assert (sv = []) as -> by (by destruct Ha).
    apply task_run_one. by eapply (ts_atomic _ _ _ _ _ {| tw := w |}).
  - destruct Ha; try done; cbn [w_chan after_server] in Hc; rewrite length_app in Hc.
    + by apply datagram_run.
    + by apply tick_run.
Qed.
End tasks_refine.

Section tasks_theorems.
  Context {M : Type} `{!IndexMap M CacheKey bytes}.
  Context `{!HashIter Z StoreLock} `{!HashIter SocketAddr ClientSession}.
  Implicit Types m : Tasks M.

(** C4. Convergence, between the awaits too.  Wherever the tasks of the proxy are
    suspended, for every client whose session is open: what it has acknowledged
    followed by what its endpoint still has to deliver (pings apart) is exactly what
    was queued for it; and once no event is waiting, every piece of state in the
    cache is the last thing queued for the client about that piece. *)
Theorem tasks_converge p client_idle_ms t0 m a s :
  tasks_reachable p client_idle_ms t0 m →
  sessions (w_srv (tw m)) !! a = Some s → opened s = true →
  (∃ acked, w_logs (tw m) a = acked ++ nonempty (stream (rel s))) ∧
  (w_queue (tw m) = [] → ∀ k r, im_get k (cmap (u_cache (w_up (tw m)))) = Some r →
     latest k (log_commands (w_logs (tw m) a)) = Some r).
Proof.
  intros Hr Hs Ho. destruct (tasks_reachable_ok _ _ _ _ Hr) as [Hw _ _ _].
  destruct (wo_logs _ Hw a s Hs) as [[_ Hlog] _]. split; [done|]. intros Hq k r Hk.
  by apply (world_view (tw m) a s).
Qed.

(** C6. The queues between the tasks, at every await: the command channel never
    holds more than its capacity, and no command in it, none that a suspended
    handler still has to send, and no payload queued for the switcher or a client
    is too long for a packet, so that none is ever cut. *)
Theorem tasks_queues p client_idle_ms t0 m :
  tasks_reachable p client_idle_ms t0 m →
  length (w_chan (tw m)) ≤ COMMAND_CAPACITY ∧ Forall fits (w_chan (tw m)) ∧
  (∀ cmds, rx m = RxForward cmds → Forall fits cmds) ∧
  (∀ cmds dead packets, tk m = TkForward cmds dead packets → Forall fits cmds) ∧
  Forall fits (outbound (u_rel (w_up (tw m)))) ∧
  ∀ a s, sessions (w_srv (tw m)) !! a = Some s → Forall fits (outbound (rel s)).
Proof.
  intros Hr. destruct (tasks_reachable_ok _ _ _ _ Hr) as [Hw Hrx Htk Hch].
  destruct (wo_up _ Hw) as (_ & Ho & _). split_and!; try done.
  - apply Hw.
  - intros cmds E. by rewrite E in Hrx.
  - intros cmds dead packets E. by rewrite E in Htk.
  - intros a s Hs. by destruct (wo_logs _ Hw a s Hs) as [[Hf _] _].
Qed.
End tasks_theorems.
