(* ===== verification/Net.v ===== *)
(** * The proxy between its peers

    [System] takes whatever datagrams arrive; [Link] lets two endpoints talk over a
    network.  Here the two meet: the switcher and one client, chosen among any
    number, are endpoints at the other side of a network that loses, repeats and
    reorders, and the proxy in between is the transition system of [System], whose
    turns are recorded in the histories of the two links. *)

From S2P Require Export System Link.
Open Scope Z_scope.

(** ** A turn of the proxy, as a link records it

    The endpoint a turn leaves, what the turn sent, queued and accepted. *)
Definition observe (peer : Side) (ep : ReliableEndpoint) (out queued accepted : list bytes)
    (s : Side) : Side :=
  let sent' := sent s ++ (entry_payload <$> drop (length (in_flight (s_ep s))) (in_flight ep)) in
  let s' := {| s_ep := ep; s_net := s_net s; pushed := pushed s ++ queued; sent := sent';
               got := got s ++ accepted |} in
  {| s_ep := ep; s_net := s_net s ++ emit s' peer out; pushed := pushed s ++ queued; sent := sent';
     got := got s ++ accepted |}.

(** The payload that an endpoint accepts from a datagram, if any. *)
Definition accepted (data : bytes) (ep : ReliableEndpoint) : list bytes :=
  match (receive data 0 ep).1.1 with Some p => [p] | None => [] end.

(** A greeting without an acknowledgement. *)
Definition late_greeting (data : bytes) : bool :=
  match decode_packet data with
  | Ok (hdr, _) => is_handshake_packet (flags hdr) && negb (acks hdr)
  | Err _ => false
  end.

(** *** Towards the switcher *)
Section upstream_link.
  Context {M : Type} `{!IndexMap M CacheKey bytes}.

Definition up_sends (out : list up_out) : list bytes :=
  omap (λ o, match o with UpSend b => Some b | UpEvent _ => None end) out.

(** What a turn queues for the switcher, and what it accepts from it. *)
Definition queued_up (i : up_input) (u : Upstream M) : list bytes :=
  match i with
  | UCommand raw more _ _ _ =>
      if long_enough raw
      then pack_commands [] ((pending_cmds u ++ [raw]) ++ filter (λ m, long_enough m = true) more)
      else []
  | UTick _ _ _ _ => pack_commands [] (pending_cmds u)
  | _ => []
  end.
Definition accepted_up (i : up_input) (u : Upstream M) : list bytes :=
  match i with
  | UDatagram data _ => if is_greeting data then [] else accepted data (u_rel u)
  | _ => []
  end.
End upstream_link.

(** *** Towards a client *)
Definition sends_to (a : SocketAddr) (out : list sv_out) : list bytes :=
  omap (λ o, match o with
             | SvSend b pkt => if decide (b = a) then Some pkt else None
             | SvCommand _ | SvSleep _ => None
             end) out.

Definition accepted_client (a : SocketAddr) (act : action) (srv : Server) : list bytes :=
  match act with
  | ActDatagram b data =>
      if decide (b = a) then
        if is_greeting data then []
        else match sessions srv !! a with Some s => accepted data (rel s) | None => [] end
      else []
  | _ => []
  end.

(** A greeting from [a] that was answered. *)
Definition admits (a : SocketAddr) (act : action) (sv : list sv_out) : bool :=
  match act with
  | ActDatagram b data => bool_decide (b = a) && is_greeting data && negb (bool_decide (sends_to a sv = []))
  | _ => false
  end.

(** ** The network *)
Section net.
  Context {M : Type} `{!IndexMap M CacheKey bytes}.
  Context `{!HashIter Z StoreLock} `{!HashIter SocketAddr ClientSession}.

(** The proxy, and the two ends of each link that is up: the switcher and the
    session with it, the client and its session.  [n_forwarded] are the commands
    for the switcher: those that waited when its session opened, then those that
    the server forwarded. *)
Record Net : Type := {
  n_world : World M;
  n_switcher : option (Side * Side);
  n_client : option (Side * Side);
  n_forwarded : list bytes;
}.

Definition net_init (t0 : Instant) : Net :=
  {| n_world := world_init t0; n_switcher := None; n_client := None; n_forwarded := [] |}.

(** What may arrive: during a session with the switcher, what the switcher sent in
    it, or its greeting once more; from the client's address, what the client sent
    in its session, or a greeting; from any other address, anything. *)
Definition in_net (data : bytes) (src dst : Side) : Prop :=
  ∃ d, d ∈ s_net src ∧ d_bytes d = data ∧ fresh d src dst.

Definition may_arrive (a : SocketAddr) (act : action) (n : Net) : Prop :=
  match act with
  | ActTurn (UDatagram data _) =>
      match n_switcher n with
      | Some (sw, up) => late_greeting data = true ∨ is_greeting data = false ∧ in_net data sw up
      | None => False
      end
  | ActDatagram b data =>
      b = a → is_greeting data = true ∨
      match n_client n with Some (cl, srv) => in_net data cl srv | None => True end
  | _ => True
  end.

(** The link with the switcher after a turn.  A switcher that answers a greeting is
    from then on an endpoint synchronised with the session. *)
Inductive switcher_after (w w' : World M) (up_out : list up_out) :
    action → option (Side * Side) → option (Side * Side) → Prop :=
  | sw_open reply sw c :
      synced (u_rel (w_up w')) (up_sends up_out) sw →
      switcher_after w w' up_out (ActOpen reply) c
        (Some (new_side sw [], new_side (u_rel (w_up w')) (up_sends up_out)))
  | sw_turn i sw up :
      switcher_after w w' up_out (ActTurn i) (Some (sw, up))
        (Some (sw, observe sw (u_rel (w_up w')) (up_sends up_out) (queued_up i (w_up w))
                     (accepted_up i (w_up w)) up))
  | sw_end c : switcher_after w w' up_out ActEnd c None
  | sw_datagram b data c : switcher_after w w' up_out (ActDatagram b data) c c
  | sw_event c : switcher_after w w' up_out ActEvent c c
  | sw_lag c : switcher_after w w' up_out ActLag c c
  | sw_tick c : switcher_after w w' up_out ActTick c c.

(** The link with the client after a turn.  A client that is admitted is from then
    on an endpoint synchronised with its session. *)
Inductive client_after (a : SocketAddr) (w w' : World M) (sv : list sv_out) (act : action) :
    option (Side * Side) → option (Side * Side) → Prop :=
  | cl_admitted s cl gs c :
      admits a act sv = true → sessions (w_srv w') !! a = Some s → synced cl gs (rel s) →
      client_after a w w' sv act c (Some (new_side cl gs, new_side (rel s) []))
  | cl_gone c :
      sessions (w_srv w') !! a = None → client_after a w w' sv act c None
  | cl_kept s cl srv :
      admits a act sv = false → sessions (w_srv w') !! a = Some s →
      client_after a w w' sv act (Some (cl, srv))
        (Some (cl, observe cl (rel s) (sends_to a sv)
                     (drop (length (w_logs w a)) (w_logs w' a))
                     (accepted_client a act (w_srv w)) srv)).

(** The commands for the current session with the switcher: those waiting in the
    channel when it opened, and those that the server has sent since. *)
Definition forwarded_after (act : action) (sv : list sv_out) (n : Net) : list bytes :=
  match act with
  | ActOpen _ => w_chan (n_world n)
  | _ => n_forwarded n ++ commands_out sv
  end.

Definition set_switcher (c : option (Side * Side)) (n : Net) : Net :=
  {| n_world := n_world n; n_switcher := c; n_client := n_client n; n_forwarded := n_forwarded n |}.
Definition set_client (c : option (Side * Side)) (n : Net) : Net :=
  {| n_world := n_world n; n_switcher := n_switcher n; n_client := c; n_forwarded := n_forwarded n |}.

Inductive net_step (p : FilterPolicy) (client_idle_ms : Z) (a : SocketAddr) : Net → Net → Prop :=
  (** The proxy takes a turn. *)
  | net_act act up sv w' c d n :
      world_act p client_idle_ms act (n_world n) up sv w' → may_arrive a act n →
      switcher_after (n_world n) w' up act (n_switcher n) c →
      client_after a (n_world n) w' sv act (n_client n) d →
      net_step p client_idle_ms a n
        {| n_world := w'; n_switcher := c; n_client := d; n_forwarded := forwarded_after act sv n |}
  (** The switcher or the client does something, or loses what it sent. *)
  | net_switcher sw sw' up n :
      n_switcher n = Some (sw, up) → side_step up sw sw' →
      net_step p client_idle_ms a n (set_switcher (Some (sw', up)) n)
  | net_client cl cl' srv n :
      n_client n = Some (cl, srv) → side_step srv cl cl' →
      net_step p client_idle_ms a n (set_client (Some (cl', srv)) n)
  (** What the proxy sent is lost. *)
  | net_lose_up i sw up n :
      n_switcher n = Some (sw, up) →
      net_step p client_idle_ms a n (set_switcher (Some (sw, lose i up)) n)
  | net_lose_srv i cl srv n :
      n_client n = Some (cl, srv) →
      net_step p client_idle_ms a n (set_client (Some (cl, lose i srv)) n).

Definition reachable_net (p : FilterPolicy) (client_idle_ms : Z) (a : SocketAddr) (t0 : Instant) :
    Net → Prop :=
  rtc (net_step p client_idle_ms a) (net_init t0).
End net.
Arguments Net : clear implicits.

(** ** What [observe] records *)

Lemma observe_id peer s : observe peer (s_ep s) [] [] [] s = s.
Proof. destruct s. unfold observe, emit. cbn. by rewrite drop_all, !app_nil_r. Qed.

Lemma observe_side_ep peer f s :
  in_flight (f (s_ep s)) = in_flight (s_ep s) → observe peer (f (s_ep s)) [] [] [] s = side_ep f s.
Proof.
  intros H. destruct s. unfold observe, emit, side_ep. cbn in *. by rewrite H, drop_all, !app_nil_r.
Qed.

Lemma observe_push peer ps ep s :
  in_flight ep = in_flight (s_ep s) → observe peer ep [] ps [] s = push ps ep s.
Proof.
  intros H. destruct s. unfold observe, emit, push. cbn in *. by rewrite H, drop_all, !app_nil_r.
Qed.

Lemma observe_poll peer now t1 t2 s :
  observe peer (poll_outbound now t1 t2 (s_ep s)).2 (poll_outbound now t1 t2 (s_ep s)).1 [] [] s =
    poll now t1 t2 peer s.
Proof.
  unfold poll, observe. destruct (poll_outbound now t1 t2 (s_ep s)) as [out ep]. cbn.
  by rewrite !app_nil_r.
Qed.

Lemma receive_in_flight data now ep :
  (length (in_flight (receive data now ep).2) ≤ length (in_flight ep))%nat.
Proof.
  pose proof (receive_spec data now ep) as H. destruct (receive data now ep) as [[g reps] ep'].
  cbn [snd]. destruct (decode_packet data) as [[h p]|e]; [|by destruct H as (_ & _ & -> & _)].
  destruct H as [-> _]. destruct (acks h); [|done].
  destruct (drop_acked_drop (ack_id h) (in_flight ep)) as (k & -> & _). rewrite length_drop. lia.
Qed.

Lemma receive_accepted data now ep :
  accepted data ep = match (receive data now ep).1.1 with Some p => [p] | None => [] end.
Proof.
  unfold accepted, receive. destruct (decode_packet data) as [[h p]|e]; [|done].
  destruct (contains (flags h) ACK_REQUEST); [|done]. unfold accept_reliable.
  by destruct (_ || _); cbn [note_recv on_ack_id set_in_flight ack];
    destruct (_ =? _); [|destruct (_ && _)| |destruct (_ && _)].
Qed.

Lemma observe_deliver peer data now s :
  observe peer (receive data now (s_ep s)).2 (receive data now (s_ep s)).1.2 []
    (accepted data (s_ep s)) s = deliver data now peer s.
Proof.
  rewrite (receive_accepted data now). pose proof (receive_in_flight data now (s_ep s)) as H.
  unfold deliver, observe. destruct (receive data now (s_ep s)) as [[g reps] ep]. cbn in *.
  rewrite drop_ge by done. unfold emit. cbn. by rewrite !app_nil_r.
Qed.

(** Two turns in one: the first sends nothing new, or the second numbers nothing. *)
Lemma observe_app peer ep1 ep2 o1 o2 q1 q2 a1 a2 s :
  (o1 = [] ∧ in_flight ep1 = in_flight (s_ep s)) ∨ in_flight ep2 = in_flight ep1 →
  observe peer ep2 o2 q2 a2 (observe peer ep1 o1 q1 a1 s) =
    observe peer ep2 (o1 ++ o2) (q1 ++ q2) (a1 ++ a2) s.
Proof.
  intros [[-> H]|H]; destruct s; unfold observe, emit; cbn in *; rewrite H, drop_all;
    cbn; rewrite ?app_nil_r, <- ?app_assoc, ?fmap_app; try done.
Qed.

(** Packets that carry no data, and no acknowledgement but the current one, may be
    sent at any time. *)
Definition bare (ep : ReliableEndpoint) (b : bytes) : Prop :=
  ∃ h, decode_packet b = Ok (h, []) ∧ reliable h = false ∧
    (acks h = true → highest_recv (ack ep) = Some (ack_id h)).

Lemma half_emit base base' out src dst :
  half base src dst → half base' dst src → Forall (bare (s_ep src)) out →
  half base (observe dst (s_ep src) out [] [] src) dst ∧
  half base' dst (observe dst (s_ep src) out [] [] src).
Proof.
  intros Hh Hh' Ho. unfold observe. cbn [in_flight]. rewrite drop_all. cbn [fmap list_fmap].
  rewrite !app_nil_r. pose proof (half_window _ _ _ Hh'). rewrite Forall_forall in Ho. split.
  - destruct Hh. split; try done. cbn [s_net]. apply Forall_app. split; [done|].
    unfold emit. rewrite Forall_fmap, Forall_forall. intros b Hb. split; [done|]. cbn.
    destruct (Ho b Hb) as (h & Hd & Hr & _). intros h' p' Hd'. rewrite Hd in Hd'.
    injection Hd' as <- <-. by rewrite Hr.
  - pose proof (h_highest _ _ _ Hh') as Hhi. destruct Hh'. split; try done.
    cbn [s_net]. apply Forall_app. split; [done|].
    unfold emit. rewrite Forall_fmap, Forall_forall. intros b Hb. split; [done|]. cbn.
    destruct (Ho b Hb) as (h & Hd & _ & Ha). intros h' p' Hd' Hack. rewrite Hd in Hd'.
    injection Hd' as <- <-. exists (length (got src)). split_and!; [done|lia|].
    by apply Hhi, Ha.
Qed.

(** *** The pieces of a turn keep a link sound *)
Section pieces.
  Context (x y : Z) (s peer : Side).
  Context (Hok : link_ok x y (s, peer)).

Lemma piece_ep f :
  (ep_ok (s_ep s) → ep_ok (f (s_ep s))) → in_flight (f (s_ep s)) = in_flight (s_ep s) →
  outbound (f (s_ep s)) = outbound (s_ep s) → config (f (s_ep s)) = config (s_ep s) →
  ack (f (s_ep s)) = ack (s_ep s) → next_send_id (f (s_ep s)) = next_send_id (s_ep s) →
  link_ok x y (observe peer (f (s_ep s)) [] [] [] s, peer).
Proof. destruct Hok. intros. rewrite observe_side_ep by done. by apply half_side_ep. Qed.

Lemma piece_push ps :
  Forall payload_ok ps →
  link_ok x y (observe peer (set_outbound (s_ep s) (outbound (s_ep s) ++ ps)) [] ps [] s, peer).
Proof. destruct Hok. intros. rewrite observe_push by done. by eapply half_push. Qed.

Lemma piece_poll now t1 t2 :
  link_ok x y (observe peer (poll_outbound now t1 t2 (s_ep s)).2
                 (poll_outbound now t1 t2 (s_ep s)).1 [] [] s, peer).
Proof.
  destruct Hok. rewrite observe_poll. split; [by apply half_poll_src|by eapply half_poll_dst].
Qed.

Lemma piece_deliver data now :
  in_net data peer s →
  link_ok x y (observe peer (receive data now (s_ep s)).2 (receive data now (s_ep s)).1.2 []
                 (accepted data (s_ep s)) s, peer).
Proof.
  destruct Hok as [H1 H2]. intros (d & Hd & <- & Hf). rewrite observe_deliver.
  split; [by eapply half_deliver_src|]. eapply half_deliver_dst; try done. by apply H1.
Qed.

Lemma piece_emit out :
  Forall (bare (s_ep s)) out → link_ok x y (observe peer (s_ep s) out [] [] s, peer).
Proof. destruct Hok. intros. by apply half_emit. Qed.

(** What arrives and is not reliable is empty. *)
Lemma in_net_unreliable data hdr payload :
  in_net data peer s → decode_packet data = Ok (hdr, payload) → reliable hdr = false → payload = [].
Proof.
  intros (d & Hd & <- & _) Hdec Hr. destruct Hok as [_ H2]. pose proof (h_data _ _ _ H2) as H.
  rewrite Forall_forall in H. destruct (H d Hd) as [_ Hi]. specialize (Hi _ _ Hdec).
  by rewrite Hr in Hi.
Qed.
End pieces.
