(* ===== verification/MockE2E.v ===== *)
(** * The integration test with a mock switcher

    [crates/atem-proxy/tests/mock_e2e.rs]: two clients get the dump of a mock switcher
    through the proxy, a third sends a cut.  The mocks are the test's; the proxy is
    [System], under a scheduler that lets the tasks take turns and delivers every
    datagram. *)

From S2P Require Import Net Tests.
Open Scope Z_scope.

#[local] Instance e2e_lock_iter : HashIter Z StoreLock := some_hash_iter Z StoreLock.
#[local] Instance e2e_session_iter : HashIter SocketAddr ClientSession :=
  some_hash_iter SocketAddr ClientSession.

Abbreviation Proxy := (World TestMap).

(** ** The mock switcher *)
Record MockAtem : Type := {
  next_id : Z;
  dumped : bool;
  forwarded_cuts : nat;
}.

Definition mock_session : Z := 0x8001.

(** A turn of [mock_atem]: what it answers to a datagram. *)
Definition mock_atem (buf : bytes) (st : MockAtem) : list bytes * MockAtem :=
  match decode_packet buf with
  | Err _ => ([], st)
  | Ok (hdr, payload) =>
      if is_handshake_packet (flags hdr) then
        ([build_server_handshake_reply mock_session],
         {| next_id := 1; dumped := false; forwarded_cuts := forwarded_cuts st |})
      else
        let '(dump, st) :=
          if dumped st then ([], st)
          else
            let body := serialize_command (name4 "_ver") (b [0; 2; 0; 30]) ++
                        serialize_command (name4 "PrgI") (b [0; 0; 0; 1]) ++
                        serialize_command (name4 "InCm") (b [1; 0; 0; 0]) in
            let h := PacketHeader_new ACK_REQUEST mock_session (as_u16 (Z.of_nat (12 + length body))) in
            ([encode_packet (with_packet_id h (next_id st)) body],
             {| next_id := (next_id st + 1) mod 2 ^ 15; dumped := true;
                forwarded_cuts := forwarded_cuts st |}) in
        let cuts :=
          match parse_commands payload with
          | Ok cmds => length (filter (λ c, name c = name4 "DCut") cmds)
          | Err _ => 0%nat
          end in
        let st := {| next_id := next_id st; dumped := dumped st;
                     forwarded_cuts := forwarded_cuts st + cuts |} in
        let ack :=
          if contains (flags hdr) ACK_REQUEST && negb (contains (flags hdr) HANDSHAKE)
          then [build_ack_reply mock_session (packet_id hdr) 0] else [] in
        (dump ++ ack, st)
  end.

(** ** The scheduler *)
Definition e2e_policy : FilterPolicy := {| lock_mode := Deny; transfer_cfg := MediaConfig_default |}.

(** A turn of the upstream session; nothing if it would end. *)
Definition up_turn (i : up_input) (w : Proxy) : list bytes * Proxy :=
  match session_step i (w_up w) with
  | Continue out u => (up_sends out, after_upstream u out true (drop (length (taken i)) (w_chan w)) w)
  | Ended _ => ([], w)
  end.

(** The switcher answers each datagram, and the session takes the answers. *)
Fixpoint talk (fuel : nat) (t : Instant) (to_atem : list bytes) (st : MockAtem) (w : Proxy) :
    MockAtem * Proxy :=
  match fuel, to_atem with
  | S fuel, pkt :: to_atem =>
      let '(replies, st) := mock_atem pkt st in
      let '(out, w) :=
        foldl (λ '(out, w) data, let '(out', w) := up_turn (UDatagram data t) w in (out ++ out', w))
          ([], w) replies in
      talk fuel t (to_atem ++ out) st w
  | _, _ => (st, w)
  end.

Definition upstream_round (t : Instant) (st : MockAtem) (w : Proxy) : MockAtem * Proxy :=
  let '(sent, w) := up_turn (UTick t t t t) w in
  let '(sent', w) :=
    match w_chan w with
    | [] => ([], w)
    | raw :: more => up_turn (UCommand raw more t t t) w
    end in
  talk 20 t (sent ++ sent') st w.

Fixpoint fan_out (fuel : nat) (w : Proxy) : Proxy :=
  match fuel, w_queue w with
  | S fuel, e :: queue =>
      let g := u_cache (w_up w) in
      fan_out fuel
        (after_server (on_event (transfer_cfg e2e_policy) (FanEvent e) g (w_srv w)) [] queue
           (log_event (transfer_cfg e2e_policy) (FanEvent e) g (w_srv w) (w_logs w)) w)
  | _, _ => w
  end.

Definition server_recv (t : Instant) (addr : SocketAddr) (data : bytes) (w : Proxy) : list bytes * Proxy :=
  let g := u_cache (w_up w) in
  let r := on_client_packet e2e_policy data addr (connected (w_up w)) g t t (w_srv w) in
  (sends_to addr r.1, after_server r.2 r.1 (w_queue w) (log_datagram g addr (w_srv w) r.2 (w_logs w)) w).

Definition server_tick (t : Instant) (addr : SocketAddr) (w : Proxy) : list bytes * Proxy :=
  let r := tick (transfer_cfg e2e_policy) (idle_of 5000) t (λ _, (t, t)) (w_srv w) in
  (sends_to addr r.1, after_server r.2 r.1 (w_queue w) (w_logs w) w).

(** ** The mock clients *)
Record MockClient : Type := {
  commands : nat;
  client_session : Z;
  got_incm : bool;
}.

(** A turn of the loop of [client_handshake]: what the client sends.  The test's
    assertions may fail. *)
Definition client_recv (buf : bytes) (c : MockClient) : option (list bytes * MockClient) :=
  match decode_packet buf with
  | Err _ => Some ([], c)
  | Ok (hdr, payload) =>
      if is_handshake_packet (flags hdr) then
        assert_eq (head payload) (Some HANDSHAKE_OK_STATUS);;
        assert_ne (Z.land (session_id hdr) 0x8000) 0;;
        Some ([build_ack_reply (session_id hdr) 0 0],
              {| commands := commands c; client_session := session_id hdr; got_incm := got_incm c |})
      else
        let ack :=
          if contains (flags hdr) ACK_REQUEST
          then [build_ack_reply (client_session c) (packet_id hdr) 0] else [] in
        match (if is_nil payload then Ok [] else parse_commands payload) with
        | Ok cmds =>
            Some (ack, {| commands := commands c + length cmds; client_session := client_session c;
                          got_incm := got_incm c || existsb (λ m, bool_decide (name m = INIT_COMPLETE)) cmds |})
        | Err _ => Some (ack, c)
        end
  end.

(** The client's loop, until it has seen the end of the dump: [inbox] is what waits at
    its socket; when it is empty, every task of the proxy takes a turn. *)
Fixpoint client_loop (fuel : nat) (t : Instant) (addr : SocketAddr) (inbox : list bytes)
    (c : MockClient) (st : MockAtem) (w : Proxy) : option (MockClient * MockAtem * Proxy) :=
  match fuel with
  | O => Some (c, st, w)
  | S fuel =>
      match inbox with
      | pkt :: inbox =>
          '(out, c) ← client_recv pkt c;
          let '(replies, w) :=
            foldl (λ '(rs, w) data, let '(r, w) := server_recv t addr data w in (rs ++ r, w))
              ([], w) out in
          if got_incm c then Some (c, st, w) else client_loop fuel t addr (inbox ++ replies) c st w
      | [] =>
          let '(st, w) := upstream_round t st w in
          let '(pkts, w) := server_tick t addr (fan_out 10 w) in
          client_loop fuel (t + from_millis 5) addr pkts c st w
      end
  end.

Definition client_handshake (t : Instant) (random : Z) (addr : SocketAddr) (st : MockAtem) (w : Proxy) :
    option (MockClient * MockAtem * Proxy) :=
  let '(replies, w) := server_recv t addr (build_client_handshake random) w in
  client_loop 20 t addr replies {| commands := 0; client_session := 0; got_incm := false |} st w.

(** [client_send_cut]: the flag is its result.  Its first loop is that of
    [client_handshake], here with that function's assertions too. *)
Definition client_send_cut (t : Instant) (addr : SocketAddr) (st : MockAtem) (w : Proxy) :
    option (bool * MockAtem * Proxy) :=
  '(c, st, w) ← client_handshake t 0x2222 addr st w;
  if negb (got_incm c) || (client_session c =? 0) then Some (false, st, w)
  else
    let cut := serialize_command (name4 "DCut") (b [0; 0]) in
    let h := PacketHeader_new ACK_REQUEST (client_session c) (as_u16 (Z.of_nat (12 + length cut))) in
    let '(_, w) := server_recv t addr (encode_packet (with_packet_id h 1) cut) w in
    '(_, st, w) ← client_loop 20 t addr []
                     {| commands := 0; client_session := client_session c; got_incm := false |} st w;
    Some (true, st, w).

(** The upstream task opens its session when the switcher answers its greeting. *)
Definition open_upstream (t : Instant) (st : MockAtem) (w : Proxy) : option (MockAtem * Proxy) :=
  let '(replies, st) := mock_atem (session_hello 0x3333) st in
  reply ← head replies;
  '(rel, acks) ← unwrap (session_open t t reply);
  let w := after_upstream (session_start rel (w_up w)) (UpSend <$> acks) true (w_chan w) w in
  Some (talk 20 t acks st w).

Definition local_client (port : Z) : SocketAddr := V4 [127; 0; 0; 1] port.

Definition two_clients_receive_init_dump_from_proxy : option unit :=
  let st := {| next_id := 1; dumped := false; forwarded_cuts := 0 |} in
  '(st, w) ← open_upstream t0 st (world_init t0);
  '(c1, st, w) ← client_handshake (t0 + from_millis 200) 0x1111 (local_client 6001) st (fan_out 10 w);
  '(c2, st, w) ← client_handshake (t0 + from_millis 400) 0x1111 (local_client 6002) st w;
  assert_ (1 <=? commands c1)%nat;;
  assert_ (1 <=? commands c2)%nat;;
  '(sent, st, w) ← client_send_cut (t0 + from_millis 600) (local_client 6003) st w;
  assert_ sent;;
  assert_ (1 <=? forwarded_cuts st)%nat.

Lemma mock_e2e_passes : two_clients_receive_init_dump_from_proxy = Some tt.
Proof. vm_compute. reflexivity. Qed.
