(* ===== verification/EndToEnd.v ===== *)
(** * From end to end

    The theorems about [Net]: what a client knows of the switcher, and what the
    switcher gets of the clients' commands, with both networks in between. *)

From S2P Require Export Net.
Open Scope Z_scope.

(** The state commands in what a session has accepted. *)
Definition switcher_state (ps : list bytes) : list CommandRef :=
  concat ((λ p, routed RState (commands_of p)) <$> ps).

Lemma switcher_state_app p1 p2 : switcher_state (p1 ++ p2) = switcher_state p1 ++ switcher_state p2.
Proof. unfold switcher_state. by rewrite fmap_app, concat_app. Qed.

Lemma concat_nonempty (ps : list bytes) : concat (nonempty ps) = concat ps.
Proof. induction ps as [|[|b p] ps IH]; cbn; [done|done|by f_equal; rewrite <- IH]. Qed.

Lemma concat_pack_commands cmds :
  Forall payload_ok cmds → concat (pack_commands [] cmds) = concat cmds.
Proof.
  intros H. destruct (pack_commands_ok cmds H) as (_ & groups & -> & <-).
  clear. induction groups as [|g gs IH]; [done|]. cbn. by rewrite IH, concat_app.
Qed.

Section upstream_turn.
  Context {M : Type} `{!IndexMap M CacheKey bytes}.
  Implicit Types u : Upstream M.

(** ** What a payload makes the session send *)

Lemma up_sends_app o1 o2 : up_sends (o1 ++ o2) = up_sends o1 ++ up_sends o2.
Proof. apply omap_app. Qed.

Lemma up_sends_fmap pkts : up_sends (UpSend <$> pkts) = pkts.
Proof. induction pkts; [done|]. cbn. by f_equal. Qed.

Lemma handle_upstream_payload_sends payload u :
  let '(out, u') := handle_upstream_payload payload u in
  (up_sends out = [] ∧ u_rel u' = u_rel u) ∨
  (up_sends out =
     [build_init_complete_ack (rel_session_id (u_rel u)) (default 0 (highest_recv (ack (u_rel u))))] ∧
   u_rel u' = set_rel_opened (u_rel u) true).
Proof.
  assert (∀ v : Upstream M, u_rel v = u_rel u → let '(out, v') := mark_ready v in
    (up_sends out = [] ∧ u_rel v' = u_rel u) ∨
    (up_sends out =
       [build_init_complete_ack (rel_session_id (u_rel u)) (default 0 (highest_recv (ack (u_rel u))))] ∧
     u_rel v' = set_rel_opened (u_rel u) true)) as Hm.
  { intros v Hv. unfold mark_ready. destruct (negb (connected v)); cbn; rewrite Hv; auto. }
  unfold handle_upstream_payload. destruct (parse_commands payload) as [cs|e]; [|by left].
  rewrite route_commands.
  assert (∀ ev b o, up_sends ((if is_nil b then [] else [UpEvent (ev b)]) ++ o) = up_sends o) as He
    by (intros ev b o; by destruct (is_nil b)).
  destruct (is_nil (state_chunk _)); destruct (existsb _ cs); cbn [orb saw_incm no_chunks].
  - specialize (Hm u eq_refl). destruct (mark_ready u) as [out v]. cbn [app]. by rewrite !He.
  - left. cbn [app]. by rewrite !He.
  - set (u1 := set_u_cache _ _). specialize (Hm u1 eq_refl). destruct (mark_ready u1) as [out v].
    cbn [app up_sends omap list_omap]. fold (up_sends). by rewrite !He.
  - left. cbn [app up_sends omap list_omap]. fold (up_sends). by rewrite !He.
Qed.

Lemma init_complete_ack_bare ep :
  ep_ok ep → is_Some (highest_recv (ack ep)) →
  bare (set_rel_opened ep true)
    (build_init_complete_ack (rel_session_id ep) (default 0 (highest_recv (ack ep)))).
Proof.
  intros Hep [id Hid]. rewrite Hid. cbn [default].
  destruct (init_complete_ack_decodes (rel_session_id ep) id) as (h & Hd & Hf & _ & Ha & _);
    [by apply ep_ok_session|by apply (ep_ok_highest ep Hep)|].
  exists h. unfold reliable, acks. by rewrite Hf, Ha.
Qed.

(** ** A datagram of the switcher *)

Definition adopt (hdr : PacketHeader) (ep : ReliableEndpoint) : ReliableEndpoint :=
  if negb (session_id hdr =? 0) then set_session_id ep (session_id hdr) else ep.

Lemma accepted_adopt data hdr ep : accepted data (adopt hdr ep) = accepted data ep.
Proof.
  unfold adopt. destruct (negb _); [|done]. unfold accepted, receive.
  destruct (decode_packet data) as [[h p]|e]; [|done].
  destruct (contains (flags h) ACK_REQUEST); [|done]. unfold accept_reliable.
  by destruct (_ || _); cbn [note_recv on_ack_id set_in_flight set_session_id ack];
    destruct (_ =? _); [|destruct (_ && _)| |destruct (_ && _)].
Qed.

Lemma on_datagram_cases data now u hdr payload :
  decode_packet data = Ok (hdr, payload) → is_handshake_packet (flags hdr) = false →
  (reliable hdr = false → payload = []) →
  let '(got, replies, ep) := receive data now (adopt hdr (u_rel u)) in
  on_datagram data now u =
    match got with
    | Some p => if is_nil p then ([], set_u_rel ep u) else handle_upstream_payload p (set_u_rel ep u)
    | None => (UpSend <$> replies, set_u_rel ep u)
    end.
Proof.
  intros Hd Hh Hp. destruct (reliable hdr) eqn:Hr; [by eapply on_datagram_receive|].
  rewrite (Hp eq_refl) in *. unfold reliable in Hr.
  unfold receive, on_datagram, adopt. rewrite Hd, Hh, Hr. cbn [u_rel set_u_rel is_nil negb].
  by destruct (negb (session_id hdr =? 0)).
Qed.

(** ** A turn, as the link records it *)

Definition turn_arrives (i : up_input) (sw up : Side) : Prop :=
  match i with
  | UDatagram data _ => late_greeting data = true ∨ is_greeting data = false ∧ in_net data sw up
  | _ => True
  end.

Lemma observe_flush x y now t1 t2 u sw up :
  s_ep up = u_rel u → link_ok x y (up, sw) →
  link_ok x y (observe sw (u_rel (flush now t1 t2 u).2) (up_sends (flush now t1 t2 u).1) [] [] up, sw).
Proof.
  intros He Hok. unfold flush. pose proof (piece_poll x y up sw Hok now t1 t2) as H. rewrite He in H.
  destruct (poll_outbound now t1 t2 (u_rel u)) as [pkts ep]. cbn. by rewrite up_sends_fmap.
Qed.

(** Queueing commands, then polling. *)
Lemma observe_queue_flush x y now t1 t2 cmds u sw up :
  s_ep up = u_rel u → link_ok x y (up, sw) → Forall payload_ok cmds → pending_cmds u = cmds →
  let r := flush now t1 t2 (queue_pending u) in
  link_ok x y (observe sw (u_rel r.2) (up_sends r.1) (pack_commands [] cmds) [] up, sw).
Proof.
  intros He Hok Hc Hp. cbv zeta.
  set (ep1 := set_outbound (s_ep up) (outbound (s_ep up) ++ pack_commands [] cmds)).
  assert (link_ok x y (observe sw ep1 [] (pack_commands [] cmds) [] up, sw)) as H1
    by (apply piece_push; [done|]; by apply pack_commands_ok).
  assert (u_rel (queue_pending u) = ep1) as E by (unfold ep1; by rewrite He, <- Hp).
  pose proof (observe_flush x y now t1 t2 (queue_pending u) sw _ (eq_sym E : s_ep (observe sw ep1 []
    (pack_commands [] cmds) [] up) = _) H1) as H2.
  rewrite observe_app in H2 by by left. by rewrite app_nil_r in H2.
Qed.

Lemma observe_on_datagram x y data now u sw up :
  s_ep up = u_rel u → link_ok x y (up, sw) →
  late_greeting data = true ∨ is_greeting data = false ∧ in_net data sw up →
  let r := on_datagram data now u in
  link_ok x y (observe sw (u_rel r.2) (up_sends r.1) []
                 (if is_greeting data then [] else accepted data (u_rel u)) up, sw).
Proof.
  intros He Hok Harr. cbv zeta. unfold late_greeting, is_greeting in *.
  assert (∀ f, (ep_ok (s_ep up) → ep_ok (f (s_ep up))) →
    in_flight (f (s_ep up)) = in_flight (s_ep up) → outbound (f (s_ep up)) = outbound (s_ep up) →
    config (f (s_ep up)) = config (s_ep up) → ack (f (s_ep up)) = ack (s_ep up) →
    next_send_id (f (s_ep up)) = next_send_id (s_ep up) →
    link_ok x y (observe sw (f (s_ep up)) [] [] [] up, sw)) as Hf by by apply piece_ep.
  destruct (decode_packet data) as [[hdr payload]|e] eqn:Hd.
  2:{ assert (accepted data (u_rel u) = []) as -> by (unfold accepted, receive; by rewrite Hd).
      unfold on_datagram. rewrite Hd. cbn [fst snd u_rel set_u_rel]. rewrite <- He.
      apply (Hf (note_recv now)); try done. apply ep_ok_note_recv. }
  pose proof Hd as (Hhok & _)%encode_decode_packet. destruct Hhok.
  assert (link_ok x y (observe sw (adopt hdr (s_ep up)) [] [] [] up, sw)) as Had.
  { apply (Hf (adopt hdr)); unfold adopt; destruct (negb (session_id hdr =? 0)); try done.
    intros ?. by apply ep_ok_set_session_id. }
  destruct (is_handshake_packet (flags hdr)) eqn:Hh.
  - destruct Harr as [Ha|[? _]]; [|done]. cbn [andb] in Ha. apply negb_true_iff in Ha.
    unfold acks in Ha. unfold on_datagram. rewrite Hd, Hh, Ha. cbn [fst snd u_rel set_u_rel].
    rewrite <- He. apply (Hf (λ ep, if negb (session_id hdr =? 0)
      then set_session_id (note_recv now ep) (session_id hdr) else note_recv now ep));
      destruct (negb (session_id hdr =? 0)); try done.
    + intros ?. by apply ep_ok_set_session_id, ep_ok_note_recv.
    + apply ep_ok_note_recv.
  - destruct Harr as [?|[_ Hin]]; [done|].
    pose proof (on_datagram_cases data now u hdr payload Hd Hh) as Hc.
    specialize (Hc (λ H, in_net_unreliable x y up sw Hok data hdr payload Hin Hd H)).
    rewrite <- (accepted_adopt data hdr), <- He in *.
    set (up1 := observe sw (adopt hdr (s_ep up)) [] [] [] up) in *.
    assert (in_net data sw up1) as Hin1.
    { destruct Hin as (d & ? & ? & Hfr1 & Hfr2). exists d. split_and!; [done|done|]. split; [done|].
      unfold up1, observe, adopt. destruct (negb (session_id hdr =? 0)); cbn; by rewrite drop_all, app_nil_r. }
    pose proof (piece_deliver x y up1 sw Had data now Hin1) as H1.
    pose proof (receive_spec data now (s_ep up1)) as Hsp.
    pose proof (receive_frame data now (s_ep up1)) as Hfr.
    change (s_ep up1) with (adopt hdr (s_ep up)) in H1, Hsp, Hfr.
    pose proof (receive_accepted data now (adopt hdr (s_ep up))) as Hacc. rewrite Hd in Hsp.
    destruct (receive data now (adopt hdr (s_ep up))) as [[g reps] ep].
    cbn [fst snd] in H1, Hacc. unfold up1 in H1.
    rewrite observe_app in H1; [|left; split; [done|]; unfold adopt; by destruct (negb (session_id hdr =? 0))].
    cbn [app] in H1. destruct Hsp as [_ Hsp]. rewrite Hc.
    destruct g as [p|]; [|by cbn [fst snd]; rewrite up_sends_fmap].
    destruct (reliable hdr && _) eqn:Hre; [|by destruct Hsp].
    destruct Hsp as (_ & -> & Hhi & _).
    destruct (is_nil p); [exact H1|].
    pose proof (handle_upstream_payload_sends p (set_u_rel ep u)) as Hs.
    destruct (handle_upstream_payload p (set_u_rel ep u)) as [out u']. cbn [fst snd u_rel set_u_rel] in *.
    destruct Hs as [[-> ->]|[-> ->]]; [exact H1|].
    set (up2 := observe sw ep [] [] (accepted data (adopt hdr (s_ep up))) up) in *.
    assert (ep_ok ep) as Hep by by (destruct H1 as [H1 _]; apply (h_ok _ _ _ H1)).
    assert (link_ok x y (observe sw (set_rel_opened ep true) [] [] [] up2, sw)) as H2.
    { apply (piece_ep x y up2 sw H1 (λ ep, set_rel_opened ep true)); try done. apply ep_ok_set_rel_opened. }
    pose proof (piece_emit x y _ sw H2 [build_init_complete_ack (rel_session_id ep)
      (default 0 (highest_recv (ack ep)))]) as H3.
    cbn [s_ep observe] in H3. rewrite observe_app in H3 by (by right). unfold up2 in H3.
    rewrite observe_app in H3 by (by right).
    cbn [app] in H3. rewrite app_nil_r in H3. apply H3, Forall_singleton.
    apply init_complete_ack_bare; [done|]. by rewrite Hhi.
Qed.

Lemma observe_turn x y i u out u' sw up :
  session_step i u = Continue out u' → s_ep up = u_rel u → link_ok x y (up, sw) →
  upstream_fits u → Forall fits (taken i) → turn_arrives i sw up →
  link_ok x y (observe sw (u_rel u') (up_sends out) (queued_up i u) (accepted_up i u) up, sw).
Proof.
  intros Hs He Hok (Hep & Hout & Hp) Ht Harr.
  destruct i as [| |cmd more now t1 t2|data now|ti now t1 t2|]; cbn [session_step taken queued_up
    accepted_up turn_arrives] in *; try done.
  - unfold on_command in Hs. destruct (long_enough cmd) eqn:El.
    2:{ injection Hs as <- <-. rewrite <- He. by rewrite observe_id. }
    set (v := set_pending _ (set_pending _ u)) in *.
    pose proof (observe_queue_flush x y now t1 t2 (pending_cmds v) v sw up He Hok) as H.
    destruct (flush now t1 t2 (queue_pending v)) as [o w]. injection Hs as <- <-.
    apply H; [|done]. cbn. apply Forall_cons in Ht as [Hc Hm]. rewrite !Forall_app. split_and!; [done| |].
    + constructor; [by apply long_enough_ok|constructor].
    + apply Forall_forall. intros m [Hml Hin]%list_elem_of_filter.
      apply long_enough_ok; [done|]. by eapply Forall_forall in Hin.
  - pose proof (observe_on_datagram x y data now u sw up He Hok Harr) as H.
    destruct (on_datagram data now u) as [o w]. by injection Hs as <- <-.
  - destruct (is_timed_out ti (u_rel u)); [done|]. unfold on_tick in Hs. case_bool_decide as E.
    + rewrite E. pose proof (observe_flush x y now t1 t2 u sw up He Hok) as H.
      destruct (flush now t1 t2 u) as [o w]. by injection Hs as <- <-.
    + pose proof (observe_queue_flush x y now t1 t2 (pending_cmds u) u sw up He Hok Hp eq_refl) as H.
      destruct (flush now t1 t2 (queue_pending u)) as [o w]. by injection Hs as <- <-.
Qed.

(** ** What a turn hands on *)

(** The state commands broadcast are those of the payload. *)
Lemma payload_state p u :
  state_commands (events_of (handle_upstream_payload p u).1) = routed RState (commands_of p).
Proof.
  unfold commands_of. destruct (parse_commands p) as [cs|e] eqn:E.
  - pose proof (handle_upstream_payload_events p cs u E) as H.
    destruct (handle_upstream_payload p u) as [out u']. destruct H as [H _]. cbn [fst]. rewrite H.
    apply parse_commands_Ok in E as [Hf _].
    assert (∀ b, state_commands (chunk_event StatePayload b) = commands_of b) as H1.
    { intros b. unfold state_commands, chunk_event.
      destruct b as [|c b]; cbn; [done|by rewrite app_nil_r]. }
    assert (∀ b, state_commands (chunk_event AudioLevels b) = []) as H2
      by (intros b; unfold state_commands, chunk_event; by destruct b).
    assert (∀ b, state_commands (chunk_event TransferPayload b) = []) as H3
      by (intros b; unfold state_commands, chunk_event; by destruct b).
    rewrite !state_commands_app, H1, H2, H3, (commands_of_chunk _ _ Hf).
    destruct (_ && _); by rewrite ?app_nil_r.
  - unfold handle_upstream_payload. rewrite E. unfold state_commands. cbn.
    unfold commands_of. by rewrite E.
Qed.

Lemma turn_state x y i u out u' sw up :
  session_step i u = Continue out u' → s_ep up = u_rel u → link_ok x y (up, sw) →
  turn_arrives i sw up →
  state_commands (events_of out) = switcher_state (accepted_up i u).
Proof.
  intros Hs He Hok Harr.
  destruct i as [| |cmd more now t1 t2|data now|ti now t1 t2|];
    cbn [session_step accepted_up turn_arrives] in *; try done.
  - unfold on_command in Hs. destruct (long_enough cmd); [|by injection Hs as <- <-].
    match type of Hs with context [flush now t1 t2 ?v] =>
      pose proof (flush_frame now t1 t2 v) as [H _]; destruct (flush now t1 t2 v) end.
    injection Hs as <- <-. cbn [fst] in H. by rewrite H.
  - destruct (on_datagram data now u) as [o v] eqn:Ho. injection Hs as <- <-.
    unfold late_greeting, is_greeting in *.
    destruct (decode_packet data) as [[hdr payload]|e] eqn:Hd.
    2:{ unfold on_datagram in Ho. rewrite Hd in Ho. injection Ho as <- _.
        unfold accepted, receive. by rewrite Hd. }
    destruct (is_handshake_packet (flags hdr)) eqn:Hh.
    { unfold on_datagram in Ho. rewrite Hd, Hh in Ho. by injection Ho as <- _. }
    destruct Harr as [?|[_ Hin]]; [done|].
    pose proof (on_datagram_cases data now u hdr payload Hd Hh
      (in_net_unreliable x y up sw Hok data hdr payload Hin Hd)) as Hc.
    rewrite <- (accepted_adopt data hdr), (receive_accepted data now).
    destruct (receive data now (adopt hdr (u_rel u))) as [[g reps] ep]. cbn [fst].
    rewrite Ho in Hc. destruct g as [p|].
    + unfold switcher_state. cbn [fmap list_fmap concat]. rewrite app_nil_r.
      destruct (is_nil p) eqn:Hn.
      * injection Hc as -> _. by destruct p.
      * rewrite <- (payload_state p (set_u_rel ep u)), <- Hc. done.
    + injection Hc as -> _. by rewrite events_of_sends.
  - destruct (is_timed_out ti (u_rel u)); [done|]. unfold on_tick in Hs.
    match type of Hs with context [flush now t1 t2 ?v] =>
      pose proof (flush_frame now t1 t2 v) as [H _]; destruct (flush now t1 t2 v) end.
    injection Hs as <- <-. cbn [fst] in H. by rewrite H.
Qed.

Lemma on_datagram_pending data now u : pending_cmds (on_datagram data now u).2 = pending_cmds u.
Proof.
  assert (∀ payload r, pending_cmds (if negb (is_nil payload)
    then handle_upstream_payload payload (set_u_rel r (set_u_rel (note_recv now (u_rel u)) u))
    else ([], set_u_rel r (set_u_rel (note_recv now (u_rel u)) u))).2 = pending_cmds u) as Hp.
  { intros payload r. destruct (negb (is_nil payload)); [|done].
    destruct (handle_upstream_payload_frame payload
      (set_u_rel r (set_u_rel (note_recv now (u_rel u)) u))) as [_ ->]. done. }
  unfold on_datagram. destruct (decode_packet data) as [[hdr payload]|e]; [|done].
  destruct (is_handshake_packet (flags hdr)); [done|].
  destruct (contains (flags hdr) ACK_REQUEST); [|apply Hp].
  destruct (accept_reliable _ _ _) as [[] ep]; [apply Hp|done].
Qed.

(** The commands queued are those that were pending and those taken. *)
Lemma turn_commands i u out u' :
  session_step i u = Continue out u' → upstream_fits u → Forall fits (taken i) →
  concat (queued_up i u) ++ concat (pending_cmds u') =
    concat (pending_cmds u) ++ concat (filter (λ m, long_enough m = true) (taken i)).
Proof.
  intros Hs (_ & _ & Hp) Ht.
  destruct i as [| |cmd more now t1 t2|data now|ti now t1 t2|]; cbn [session_step taken queued_up] in *;
    try done.
  - unfold on_command in Hs. destruct (long_enough cmd) eqn:El.
    + match type of Hs with context [flush now t1 t2 (queue_pending ?v)] =>
        pose proof (flush_frame now t1 t2 (queue_pending v)) as [_ H];
        destruct (flush now t1 t2 (queue_pending v)) end.
      cbn [snd] in H. injection Hs as _ <-. rewrite H. cbn. rewrite app_nil_r.
      apply Forall_cons in Ht as [Hc Hm]. rewrite concat_pack_commands.
      * rewrite decide_True by done. rewrite !concat_app. cbn. by rewrite app_nil_r, <- app_assoc.
      * rewrite !Forall_app. split_and!; [done|by apply Forall_singleton, long_enough_ok|].
        apply Forall_forall. intros m [Hml Hin]%list_elem_of_filter.
        apply long_enough_ok; [done|]. by eapply Forall_forall in Hin.
    + injection Hs as _ <-. cbn. rewrite decide_False by congruence. by rewrite app_nil_r.
  - pose proof (on_datagram_pending data now u) as H. destruct (on_datagram data now u) as [o v].
    injection Hs as _ <-. cbn in *. by rewrite H, app_nil_r.
  - destruct (is_timed_out ti (u_rel u)); [done|]. unfold on_tick in Hs.
    rewrite concat_pack_commands by done. cbn. rewrite app_nil_r. case_bool_decide as E.
    + pose proof (flush_frame now t1 t2 u) as [_ H]. destruct (flush now t1 t2 u).
      injection Hs as _ <-. cbn in H. rewrite H. cbn [pending_cmds set_u_rel]. rewrite E. done.
    + pose proof (flush_frame now t1 t2 (queue_pending u)) as [_ H].
      destruct (flush now t1 t2 (queue_pending u)).
      injection Hs as _ <-. cbn in H. rewrite H. cbn. by rewrite app_nil_r.
Qed.
End upstream_turn.

(** ** What a turn does to a client's link *)
Section client_turn.
  Context {M : Type} `{!IndexMap M CacheKey bytes}.
  Context `{!HashIter Z StoreLock} `{!HashIter SocketAddr ClientSession}.
  Implicit Types w : World M.

(** The packets for one address. *)
Definition packets_of (a : SocketAddr) (packets : list (SocketAddr * bytes)) : list bytes :=
  omap (λ '(b, pkt), if decide (b = a) then Some pkt else None) packets.

Lemma packets_of_app a p1 p2 : packets_of a (p1 ++ p2) = packets_of a p1 ++ packets_of a p2.
Proof. apply omap_app. Qed.

Lemma sends_to_app a o1 o2 : sends_to a (o1 ++ o2) = sends_to a o1 ++ sends_to a o2.
Proof. apply omap_app. Qed.

Lemma sends_to_commands a cmds : sends_to a (SvCommand <$> cmds) = [].
Proof. by induction cmds. Qed.

Lemma sends_to_paced a cfg lane packets :
  sends_to a (concat (send_paced cfg lane <$> packets)) =
    packets_of a packets.
Proof.
  induction packets as [|[b pkt] packets IH]; [done|]. cbn [fmap list_fmap concat].
  rewrite sends_to_app, IH. unfold send_paced. rewrite sends_to_app.
  assert (∀ c : bool, sends_to a (if c then [SvSleep (from_millis (chunk_delay_ms cfg))] else []) = [])
    as -> by by intros [].
  cbn. by destruct (decide (b = a)).
Qed.

Lemma sends_to_release a l out f :
  sends_to a (foldl release_dead (out, f) l).1 = sends_to a out.
Proof.
  revert out f. induction l as [|b l IH]; intros out f; [done|]. cbn [foldl]. unfold release_dead at 2.
  destruct (CommandFilter_client_disconnected b f) as [cmds f1].
  by rewrite IH, sends_to_app, sends_to_commands, app_nil_r.
Qed.

(** Of a loop over the sessions, an address sees its own session's packets. *)
Lemma own_packets (f : SocketAddr → ClientSession → list bytes) a l :
  NoDup l.*1 →
  (∀ s, (a, s) ∈ l →
    packets_of a (concat ((λ '(b, s), pair b <$> f b s) <$> l)) = f a s) ∧
  (a ∉ l.*1 →
    packets_of a (concat ((λ '(b, s), pair b <$> f b s) <$> l)) = []).
Proof.
  assert (∀ pkts, packets_of a (pair a <$> pkts) = pkts) as Hown.
  { intros pkts. induction pkts; cbn; [done|]. rewrite decide_True by done. by f_equal. }
  assert (∀ b pkts, b ≠ a → packets_of a (pair b <$> pkts) = []) as Hother.
  { intros b pkts Hb. induction pkts; cbn; [done|]. by rewrite decide_False. }
  induction l as [|[b s] l IH]; intros Hnd; [split; [by intros s ?%elem_of_nil|done]|].
  cbn in Hnd. apply NoDup_cons in Hnd as [Hb Hnd]. destruct (IH Hnd) as [IH1 IH2].
  cbn [fmap list_fmap concat]. split.
  - intros s' [[= <- <-]|Hin]%elem_of_cons; rewrite packets_of_app.
    + by rewrite Hown, IH2, app_nil_r.
    + rewrite Hother, (IH1 s'); [done|done|]. intros ->. by apply (list_elem_of_fmap_2 fst) in Hin.
  - cbn. intros [Hne Hn]%not_elem_of_cons. by rewrite packets_of_app, Hother, IH2 by done.
Qed.

Lemma tick_sends cfg idle now clock srv a :
  sends_to a (tick cfg idle now clock srv).1 =
    match sessions srv !! a with
    | Some s => if expired idle now s then [] else (polled now clock a s).1
    | None => []
    end.
Proof.
  unfold tick. rewrite tick_loop; [|apply hash_iter_NoDup|intros ? ?; apply elem_of_hash_iter].
  cbn [app]. pose proof (sends_to_release a (omap (λ '(a, s), if expired idle now s then Some a else None)
    (hash_iter (sessions srv))) [] (s_filter srv)) as Hr.
  destruct (foldl release_dead _ _) as [out f]. cbn [fst] in *.
  rewrite sends_to_app, Hr, sends_to_paced. cbn [sends_to omap list_omap app].
  destruct (own_packets (λ b s, if expired idle now s then [] else (polled now clock b s).1) a
    (hash_iter (sessions srv)) (hash_iter_NoDup _)) as [H1 H2].
  assert (∀ l : list (SocketAddr * ClientSession),
    (λ '(a, s), if expired idle now s then [] else pair a <$> (polled now clock a s).1) <$> l =
    (λ '(b, s), pair b <$> (if expired idle now s then [] else (polled now clock b s).1)) <$> l) as ->.
  { intros l. apply list_fmap_ext. intros i [b s] _. by destruct (expired idle now s). }
  destruct (sessions srv !! a) as [s|] eqn:Hs.
  - apply (H1 s). by apply elem_of_hash_iter.
  - apply H2. intros ([b s] & -> & Hin)%list_elem_of_fmap. apply elem_of_hash_iter in Hin. cbn in Hs. congruence.
Qed.

(** ** A datagram of the client *)
Lemma session_datagram_link p data hdr payload addr (g : Inner M) now s f :
  decode_packet data = Ok (hdr, payload) → session_ok s →
  let '(got, replies, ep) := receive data now (rel s) in
  let '(retransmit, cmds, s', f') := session_datagram p hdr payload addr g now s f in
  replies = match retransmit with Some req => [req] | None => [] end ∧
  opened s' = opened s || acks hdr ∧
  rel s' = (if acks hdr && negb (opened s)
            then set_outbound (set_rel_opened ep true) (outbound ep ++ pack_commands [] (dump g))
            else ep).
Proof.
  intros Hd Hok. pose proof (session_ok_dump s Hok) as Hdump.
  unfold receive, session_datagram. rewrite Hd. fold (acks hdr). cbn [rel set_rel].
  set (r1 := if acks hdr then _ else note_recv now (rel s)).
  set (s1 := if acks hdr then open_session g _ else _).
  assert (rel s1 = (if acks hdr && negb (opened s)
      then set_outbound (set_rel_opened r1 true) (outbound r1 ++ pack_commands [] (dump g)) else r1) ∧
    opened s1 = opened s || acks hdr) as [Hr1 Ho1].
  { subst s1 r1. unfold open_session. destruct (acks hdr); [|by destruct (opened s) eqn:E; cbn; rewrite E].
    cbn [opened set_rel rel dump_sent]. rewrite Hdump. by destruct (opened s) eqn:E; cbn; rewrite ?E. }
  clearbody s1 r1. destruct (contains (flags hdr) ACK_REQUEST); [|done].
  set (o := acks hdr && negb (opened s)) in *.
  assert (accept_reliable (packet_id hdr) (contains (flags hdr) IS_RETRANSMIT) (rel s1) =
    let '(ok, ep) := accept_reliable (packet_id hdr) (contains (flags hdr) IS_RETRANSMIT) r1 in
    (ok, if o then set_outbound (set_rel_opened ep true) (outbound ep ++ pack_commands [] (dump g)) else ep))
    as ->.
  { rewrite Hr1. destruct o; [|by destruct (accept_reliable _ _ r1)].
    unfold accept_reliable. cbn [set_outbound set_rel_opened ack].
    by destruct (_ =? _); [|destruct (_ && _)]. }
  destruct (accept_reliable _ _ r1) as [[] ep]; cbn [negb].
  - destruct (is_nil payload); cbn [negb]; [done|].
    pose proof (process_payload_frame p addr now payload f
      (set_rel (if o then set_outbound (set_rel_opened ep true) (outbound ep ++ pack_commands [] (dump g))
                else ep) s1)) as Ha.
    destruct (process_payload p addr now payload f) as [actions f'].
    destruct (foldl apply_action _ actions) as [cmds s2]. destruct Ha as (_ & -> & ->). done.
  - split; [|done]. destruct o; done.
Qed.

(** The client's link and the proxy's session behind it. *)
Definition client_link (x y : Z) (w : World M) (a : SocketAddr) (s : ClientSession) (cl srv : Side) : Prop :=
  s_ep srv = rel s ∧ pushed srv = w_logs w a ∧ link_ok x y (srv, cl).

Lemma client_link_same x y w w' a s cl srv :
  client_link x y w a s cl srv → w_logs w' a = w_logs w a →
  client_link x y w' a s cl (observe cl (rel s) [] (drop (length (w_logs w a)) (w_logs w' a)) [] srv).
Proof.
  intros (He & Hp & Hok) Hw. unfold client_link. rewrite Hw, drop_all, <- He, observe_id.
  by split_and!.
Qed.

Lemma client_link_push x y w w' a s cl srv ps :
  client_link x y w a s cl srv → w_logs w' a = w_logs w a ++ ps → Forall payload_ok ps →
  let s' := set_rel (set_outbound (rel s) (outbound (rel s) ++ ps)) s in
  client_link x y w' a s' cl
    (observe cl (rel s') [] (drop (length (w_logs w a)) (w_logs w' a)) [] srv).
Proof.
  intros (He & Hp & Hok) Hw Hps. cbv zeta. unfold client_link. rewrite Hw, drop_app_length. cbn [rel set_rel].
  pose proof (piece_push x y srv cl Hok ps Hps) as H. rewrite He in H.
  split_and!; [done| |done]. cbn [pushed observe]. by rewrite Hp.
Qed.

Lemma client_link_poll x y w w' a s cl srv now t1 t2 :
  client_link x y w a s cl srv → w_logs w' a = w_logs w a →
  let r := poll_outbound now t1 t2 (rel s) in
  client_link x y w' a (set_rel r.2 s) cl
    (observe cl r.2 r.1 (drop (length (w_logs w a)) (w_logs w' a)) [] srv).
Proof.
  intros (He & Hp & Hok) Hw. cbv zeta. unfold client_link. rewrite Hw, drop_all.
  pose proof (piece_poll x y srv cl Hok now t1 t2) as H. rewrite He in H.
  split_and!; [done| |done]. cbn [pushed observe]. by rewrite Hp, app_nil_r.
Qed.

(** A datagram of the client in its session. *)
Lemma client_link_datagram x y w a s cl srv p data hdr payload now f :
  let g := u_cache (w_up w) in
  client_link x y w a s cl srv → world_ok w → sessions (w_srv w) !! a = Some s →
  decode_packet data = Ok (hdr, payload) → in_net data cl srv →
  let '(req, cmds, s', f') := session_datagram p hdr payload a g now s f in
  let log' := if negb (opened s') then [] else if opened s then w_logs w a
              else pack_commands [] (dump g) in
  let out := match req with Some b => [b] | None => [] end in
  let srv' := observe cl (rel s') out (drop (length (w_logs w a)) log') (accepted data (rel s)) srv in
  s_ep srv' = rel s' ∧ pushed srv' = log' ∧ link_ok x y (srv', cl).
Proof.
  intros g (He & Hp & Hok) Hw Hs Hd Hin. destruct (wo_srv w Hw) as [_ Hall].
  pose proof (Hall a s Hs) as Hsok. destruct (wo_logs w Hw a s Hs) as [_ Hclosed].
  pose proof (world_dump_ok w Hw) as Hdump. fold g in Hdump.
  pose proof (session_datagram_link p data hdr payload a g now s f Hd Hsok) as Hl.
  pose proof (piece_deliver x y srv cl Hok data now Hin) as H1. rewrite He in H1.
  destruct (receive data now (rel s)) as [[got reps] ep]. cbn [fst snd] in H1.
  destruct (session_datagram _ _ _ _ _ _ _ _) as [[[req cmds] s'] f']. destruct Hl as (-> & Ho & Hr).
  cbv zeta. split; [done|]. cbn [pushed observe]. rewrite Hp, Hr, Ho.
  destruct (opened s) eqn:E; cbn [negb orb andb].
  - rewrite andb_false_r, drop_all. by rewrite app_nil_r.
  - rewrite (Hclosed eq_refl). cbn [length drop app]. destruct (acks hdr); cbn [negb andb]; [|done].
    split; [done|]. set (srv1 := observe cl ep _ [] _ srv) in H1.
    assert (link_ok x y (observe cl (set_rel_opened ep true) [] [] [] srv1, cl)) as H2.
    { apply (piece_ep x y srv1 cl H1 (λ ep, set_rel_opened ep true)); try done. apply ep_ok_set_rel_opened. }
    pose proof (piece_push x y _ cl H2 _ Hdump) as H3. cbn [s_ep observe] in H3.
    rewrite observe_app in H3 by by right. unfold srv1 in H3. rewrite observe_app in H3 by by right.
    cbn [app] in H3. by rewrite !app_nil_r in H3.
Qed.

(** A datagram from elsewhere. *)
Lemma on_client_packet_other p data b a up g t_new now srv :
  b ≠ a →
  let r := on_client_packet (M:=M) p data b up g t_new now srv in
  sessions r.2 !! a = sessions srv !! a ∧ sends_to a r.1 = [].
Proof.
  intros Hne. cbv zeta. unfold on_client_packet, handle_datagram.
  destruct (decode_packet data) as [[hdr payload]|e]; cbn [mbind Result_bind]; [|done].
  destruct (is_handshake_packet (flags hdr)).
  - destruct (negb _ || _); [done|]. cbn. rewrite lookup_insert_ne by done. by rewrite decide_False.
  - destruct (sessions srv !! b); [|done].
    destruct (session_datagram _ _ _ _ _ _ _ _) as [[[req cmds] s1] f']. cbn [fst snd sessions].
    rewrite lookup_insert_ne by done. rewrite sends_to_app, sends_to_commands, app_nil_r.
    destruct req; cbn; [by rewrite decide_False|done].
Qed.

(** A datagram from [a] that is not a greeting answered. *)
Lemma client_kept_datagram p w a s s' cl srv x y data t_new now :
  let g := u_cache (w_up w) in
  let r := on_client_packet p data a (connected (w_up w)) g t_new now (w_srv w) in
  world_ok w → sessions (w_srv w) !! a = Some s → sessions r.2 !! a = Some s' →
  admits a (ActDatagram a data) r.1 = false →
  is_greeting data = true ∨ in_net data cl srv →
  client_link x y w a s cl srv →
  let log' := log_datagram g a (w_srv w) r.2 (w_logs w) a in
  let srv' := observe cl (rel s') (sends_to a r.1) (drop (length (w_logs w a)) log')
                (accepted_client a (ActDatagram a data) (w_srv w)) srv in
  s_ep srv' = rel s' ∧ pushed srv' = log' ∧ link_ok x y (srv', cl).
Proof.
  intros g r Hw Hs Hs' Ha Harr Hl. cbn [admits accepted_client] in *. unfold log_datagram, is_opened.
  rewrite !(decide_True (P:=a = a)) by done. rewrite (bool_decide_true (a = a)) in Ha by done.
  rewrite Hs, Hs'. unfold is_greeting in *.
  assert ((if negb (opened s) then [] else if opened s then w_logs w a else
    pack_commands [] (dump g)) = w_logs w a) as E.
  { destruct (opened s) eqn:E; [done|]. destruct (wo_logs w Hw a s Hs) as [_ Hcl].
    by rewrite (Hcl E). }
  assert (∀ acc, acc = [] → s' = s → sends_to a r.1 = [] →
    let srv' := observe cl (rel s') (sends_to a r.1)
      (drop (length (w_logs w a)) (if negb (opened s') then [] else if opened s then w_logs w a else
         pack_commands [] (dump g))) acc srv in
    s_ep srv' = rel s' ∧ pushed srv' = (if negb (opened s') then [] else if opened s then w_logs w a else
         pack_commands [] (dump g)) ∧ link_ok x y (srv', cl)) as Hsame.
  { intros acc -> -> ->. rewrite E, drop_all. destruct Hl as (He & Hp & Hok).
    rewrite <- He, observe_id. by split_and!. }
  unfold r, on_client_packet, handle_datagram in *. clear r.
  destruct (decode_packet data) as [[hdr payload]|e] eqn:Hd; cbn [mbind Result_bind fst snd andb] in *.
  2:{ apply Hsame; [|congruence|done]. unfold accepted, receive. by rewrite Hd. }
  destruct (is_handshake_packet (flags hdr)) eqn:Hh.
  { destruct (negb _ || _) eqn:Hadm; cbn [fst snd] in *; [apply Hsame; [done|congruence|done]|].
    cbn in Ha. by rewrite decide_True in Ha. }
  rewrite Hs in Hs' |- *. destruct Harr as [?|Hin]; [done|].
  pose proof (client_link_datagram x y w a s cl srv p data hdr payload now (s_filter (w_srv w))
    Hl Hw Hs Hd Hin) as H. fold g in H.
  destruct (session_datagram _ _ _ _ _ _ _ _) as [[[req cmds] s1] f'].
  cbn [fst snd sessions] in *. rewrite lookup_insert_eq in Hs'. injection Hs' as <-.
  rewrite sends_to_app, sends_to_commands, app_nil_r.
  assert (sends_to a match req with Some req => [SvSend a req] | None => [] end =
    match req with Some b => [b] | None => [] end) as ->.
  { destruct req; [|done]. cbn. by rewrite decide_True. }
  exact H.
Qed.

(** A session that a turn keeps, keeps its link. *)
Lemma client_kept p idle act w up sv w' a s s' cl srv x y :
  world_act p idle act w up sv w' → world_ok w →
  sessions (w_srv w) !! a = Some s → sessions (w_srv w') !! a = Some s' → admits a act sv = false →
  match act with
  | ActDatagram b data => b = a → is_greeting data = true ∨ in_net data cl srv
  | _ => True
  end →
  client_link x y w a s cl srv →
  client_link x y w' a s' cl
    (observe cl (rel s') (sends_to a sv) (drop (length (w_logs w a)) (w_logs w' a))
       (accepted_client a act (w_srv w)) srv).
Proof.
  intros Hact Hw Hs Hs' Ha Harr Hl. pose proof (world_act_ok _ _ _ _ _ _ _ Hact Hw) as Hw'.
  destruct Hact as [t1 t2 reply r acks w Hlive Ho|i out u w chan Hlive Hc Ht|w r
    |data b t_new now w g r|e queue w Hq g|w Hlen g|now clock w r];
    cbn [accepted_client admits] in *.
  - cbn in Hs'. assert (s' = s) as -> by congruence. by apply client_link_same.
  - cbn in Hs'. assert (s' = s) as -> by congruence. by apply client_link_same.
  - cbn in Hs'. assert (s' = s) as -> by congruence. by apply client_link_same.
  - destruct (decide (a = b)) as [<-|Hne].
    + exact (client_kept_datagram p w a s s' cl srv x y data t_new now Hw Hs Hs' Ha (Harr eq_refl) Hl).
    + destruct (on_client_packet_other p data b a (connected (w_up w)) g t_new now (w_srv w) (not_eq_sym Hne))
        as [Hsame Hsend]. fold r in Hsame, Hsend. rewrite Hsend. cbn [w_srv after_server] in Hs'.
      assert (s' = s) as -> by congruence. rewrite decide_False by congruence. apply client_link_same; [done|].
      cbn [w_logs after_server]. unfold log_datagram. by rewrite decide_False.
  - cbn [w_srv w_logs after_server] in *.
    destruct (decide (e = Disconnected)) as [->|Hne].
    { cbn in Hs'. by rewrite lookup_empty in Hs'. }
    rewrite on_event_lookup in Hs' by congruence. rewrite Hs in Hs'. injection Hs' as <-.
    apply client_link_push; [done|done|]. apply delivered_ok. cbn.
    pose proof (wo_queue w Hw) as Hok. rewrite Hq in Hok. by apply Forall_cons in Hok as [? _].
  - cbn [w_srv w_logs after_server] in *.
    rewrite on_event_lookup in Hs' by done. rewrite Hs in Hs'. injection Hs' as <-.
    apply client_link_push; [done|done|]. apply delivered_ok. cbn. by apply world_dump_ok.
  - cbn [w_srv w_logs after_server] in *. unfold r in *. clear r.
    rewrite tick_sessions, Hs in Hs'. rewrite tick_sends, Hs. cbn [mbind option_bind] in Hs'.
    destruct (expired _ _ _); [done|]. injection Hs' as <-.
    exact (client_link_poll x y w _ a s cl srv now (clock a).1 (clock a).2 Hl eq_refl).
Qed.

(** A session appears by an admission only. *)
Lemma session_appears p idle act w up sv w' a s' :
  world_act p idle act w up sv w' → sessions (w_srv w) !! a = None →
  sessions (w_srv w') !! a = Some s' → admits a act sv = true.
Proof.
  intros Hact Hs Hs'.
  destruct Hact as [t1 t2 reply r acks w Hlive Ho|i out u w chan Hlive Hc Ht|w r
    |data b t_new now w g r|e queue w Hq g|w Hlen g|now clock w r]; cbn [w_srv after_server] in *;
    try (cbn in Hs'; congruence).
  - unfold r, on_client_packet, handle_datagram in *. cbn [admits]. unfold is_greeting.
    destruct (decode_packet data) as [[hdr payload]|e]; cbn [mbind Result_bind snd fst] in *; [|congruence].
    destruct (is_handshake_packet (flags hdr)).
    + destruct (negb _ || _); cbn [snd sessions] in Hs'; [congruence|].
      destruct (decide (b = a)) as [->|Hne]; [|rewrite lookup_insert_ne in Hs' by done; congruence].
      rewrite bool_decide_true by done. cbn. by rewrite decide_True.
    + destruct (decide (b = a)) as [->|Hne]; [rewrite Hs in Hs'; cbn in Hs'; congruence|].
      destruct (sessions (w_srv w) !! b); [|cbn in Hs'; congruence].
      destruct (session_datagram _ _ _ _ _ _ _ _) as [[[req cmds] s1] f']. cbn in Hs'.
      rewrite lookup_insert_ne in Hs' by done. congruence.
  - destruct (decide (e = Disconnected)) as [->|Hne]; [cbn in Hs'; by rewrite lookup_empty in Hs'|].
    rewrite on_event_lookup in Hs' by congruence. by rewrite Hs in Hs'.
  - rewrite on_event_lookup in Hs' by done. by rewrite Hs in Hs'.
  - unfold r in Hs'. rewrite tick_sessions, Hs in Hs'. done.
Qed.
End client_turn.

(** ** The invariant of the network *)
Section net_invariant.
  Context {M : Type} `{!IndexMap M CacheKey bytes}.
  Context `{!HashIter Z StoreLock} `{!HashIter SocketAddr ClientSession}.
  Implicit Types n : Net M.

(** The commands that reach the switcher. *)
Definition forwardable (cmds : list bytes) : list bytes := filter (λ m, long_enough m = true) cmds.

(** The link with the switcher: both directions are sound, the cache is what was
    accepted, and what was queued are the forwarded commands taken so far. *)
Record switcher_link (x y : Z) (w : World M) (fwd : list bytes) (sw up : Side) : Prop := {
  sl_ep : s_ep up = u_rel (w_up w);
  sl_link : link_ok x y (up, sw);
  sl_cache : cache_agrees (switcher_state (got up)) (w_up w);
  sl_pending : pending_cmds (w_up w) = [];
  sl_commands : ∃ cmds, fwd = cmds ++ w_chan w ∧ concat (pushed up) = concat (forwardable cmds);
}.

Definition switcher_ok n : Prop :=
  match n_switcher n with
  | None => w_live (n_world n) = false
  | Some (sw, up) => w_live (n_world n) = true ∧
      ∃ x y, switcher_link x y (n_world n) (n_forwarded n) sw up
  end.

Definition client_ok (a : SocketAddr) n : Prop :=
  match n_client n, sessions (w_srv (n_world n)) !! a with
  | None, None => True
  | Some (cl, srv), Some s => ∃ x y, client_link x y (n_world n) a s cl srv
  | _, _ => False
  end.

Definition net_ok (a : SocketAddr) n : Prop :=
  world_ok (n_world n) ∧ switcher_ok n ∧ client_ok a n.

Lemma link_ok_flip x y l r : link_ok x y (l, r) → link_ok y x (r, l).
Proof. by intros []. Qed.

Lemma forwardable_app c1 c2 : forwardable (c1 ++ c2) = forwardable c1 ++ forwardable c2.
Proof. apply filter_app. Qed.

(** *** Turns of the upstream task *)
Lemma turn_pending i u out u' :
  session_step i u = Continue out u' → pending_cmds (M:=M) u = [] → pending_cmds u' = [].
Proof.
  intros Hs Hp.
  destruct i as [| |cmd more now t1 t2|data now|ti now t1 t2|]; cbn [session_step] in *; try done.
  - unfold on_command in Hs. destruct (long_enough cmd); [|by injection Hs as _ <-].
    match type of Hs with context [flush now t1 t2 (queue_pending ?v)] =>
      pose proof (flush_frame now t1 t2 (queue_pending v)) as [_ H];
      destruct (flush now t1 t2 (queue_pending v)) end.
    cbn [snd] in H. injection Hs as _ <-. by rewrite H.
  - pose proof (on_datagram_pending data now u) as H. destruct (on_datagram data now u).
    injection Hs as _ <-. cbn in H. congruence.
  - destruct (is_timed_out ti (u_rel u)); [done|]. unfold on_tick in Hs. rewrite Hp in Hs.
    rewrite bool_decide_true in Hs by done.
    pose proof (flush_frame now t1 t2 u) as [_ H]. destruct (flush now t1 t2 u).
    injection Hs as _ <-. cbn in H. by rewrite H.
Qed.

Lemma switcher_link_open t1 t2 reply r acks w sw :
  let w' := after_upstream (session_start r (w_up w)) (UpSend <$> acks) true (w_chan w) w in
  world_ok w → w_live w = false → synced r (up_sends (UpSend <$> acks)) sw →
  session_open t1 t2 reply = Ok (r, acks) →
  ∃ x y, switcher_link x y w' (w_chan w) (new_side sw []) (new_side r (up_sends (UpSend <$> acks))).
Proof.
  intros w' Hw Hl Hs Ho. eexists _, _. split; [done|by apply synced_ok| |done|by exists []].
  unfold cache_agrees. cbn. by apply (wo_idle w Hw).
Qed.

Lemma switcher_link_turn x y i out u w chan fwd sw up :
  let w' := after_upstream u out true chan w in
  world_ok w → w_live w = true → w_chan w = taken i ++ chan →
  session_step i (w_up w) = Continue out u → turn_arrives i sw up →
  switcher_link x y w fwd sw up →
  switcher_link x y w' fwd sw
    (observe sw u.(u_rel) (up_sends out) (queued_up i (w_up w)) (accepted_up i (w_up w)) up).
Proof.
  intros w' Hw Hl Hc Hs Harr [He Hok Hcache Hpend (cmds & Hfwd & Hcmds)].
  pose proof (wo_up w Hw) as Hfit. pose proof (wo_chan w Hw) as Hch. rewrite Hc in Hch.
  apply Forall_app in Hch as [Ht _]. split; [done| | | |].
  - by apply (observe_turn x y i (w_up w) out u).
  - cbn [w_up w' after_upstream got observe]. rewrite switcher_state_app.
    rewrite <- (turn_state x y i (w_up w) out u sw up) by done.
    by apply (session_step_events _ i (w_up w)).
  - by apply (turn_pending i (w_up w) out u).
  - exists (cmds ++ taken i). cbn [w_chan w' after_upstream pushed observe].
    rewrite Hfwd, Hc, <- app_assoc, concat_app, Hcmds, forwardable_app, concat_app.
    split; [done|]. f_equal. pose proof (turn_commands i (w_up w) out u Hs Hfit Ht) as H.
    rewrite Hpend, (turn_pending i (w_up w) out u Hs Hpend) in H.
    cbn in H. by rewrite app_nil_r in H.
Qed.

(** Turns of the server leave the upstream endpoint and the cache alone. *)
Lemma switcher_link_server x y w fwd sw up srv out queue logs :
  switcher_link x y w fwd sw up →
  switcher_link x y (after_server srv out queue logs w) (fwd ++ commands_out out) sw up.
Proof.
  intros [He Hok Hcache Hpend (cmds & -> & Hcmds)]. split; [done..|].
  exists cmds. by rewrite <- app_assoc.
Qed.

Lemma switcher_after_ok p idle a act w up sv w' c n :
  world_act p idle act w up sv w' → w = n_world n → net_ok a n → may_arrive a act n →
  switcher_after w w' up act (n_switcher n) c → ∀ d,
  switcher_ok {| n_world := w'; n_switcher := c; n_client := d;
                 n_forwarded := forwarded_after act sv n |}.
Proof.
  intros Hact Hn (Hw & Hsw & _) Harr Hsa d. unfold switcher_ok in *. cbn [n_switcher n_world n_forwarded].
  assert (∀ srv out queue logs, match n_switcher n with
    | Some (sw, up) => w_live (after_server srv out queue logs (n_world n)) = true ∧
        ∃ x y, switcher_link x y (after_server srv out queue logs (n_world n))
          (n_forwarded n ++ commands_out out) sw up
    | None => w_live (after_server srv out queue logs (n_world n)) = false
    end) as Hsrv.
  { intros. destruct (n_switcher n) as [[sw u]|]; [|done]. destruct Hsw as (Hl & x & y & H).
    split; [done|]. exists x, y. by apply switcher_link_server. }
  destruct Hact as [t1 t2 reply r acks w1 Hlive Ho|i out u w1 chan Hlive Hc Ht|w1 r
    |data b t_new now w1 g r|e queue w1 Hq g|w1 Hlen g|now clock w1 r];
    subst w1; inversion Hsa as [? sw ? Hsync|? sw v Hconn| | | | |]; subst; clear Hsa;
    cbn [forwarded_after]; try apply (Hsrv _ _ _ _).
  - split; [done|]. by eapply switcher_link_open.
  - split; [done|]. rewrite <- H in *. destruct Hsw as (Hl & x & y & Hlk). exists x, y.
    cbn [commands_out omap list_omap]. rewrite app_nil_r.
    apply (switcher_link_turn x y i out u (n_world n) chan _ sw v); try done.
    unfold turn_arrives, may_arrive in *. rewrite <- H in Harr. destruct i; done.
  - done.
Qed.

(** *** Turns that touch the client *)
Lemma admitted_closed p idle act w up sv w' a s :
  world_act p idle act w up sv w' → admits a act sv = true →
  sessions (w_srv w') !! a = Some s → opened s = false.
Proof.
  intros Hact Ha Hs. destruct act as [|i| |b data| | |]; try done.
  inversion Hact; subst; clear Hact. cbn [admits] in Ha. cbn [w_srv after_server] in Hs.
  apply andb_true_iff in Ha as [[->%bool_decide_eq_true Hg]%andb_true_iff Hne].
  unfold is_greeting in Hg. subst r g0. unfold on_client_packet, handle_datagram in *.
  destruct (decode_packet data) as [[hdr payload]|e]; [|done]. cbn [mbind Result_bind fst snd] in *.
  rewrite Hg in *. destruct (negb _ || _); [by rewrite bool_decide_true in Hne|].
  cbn [snd sessions] in Hs. rewrite lookup_insert_eq in Hs. by injection Hs as <-.
Qed.

Lemma client_after_ok p idle a act w up sv w' d n :
  world_act p idle act w up sv w' → w = n_world n → net_ok a n → may_arrive a act n →
  client_after a w w' sv act (n_client n) d → ∀ c f,
  client_ok a {| n_world := w'; n_switcher := c; n_client := d; n_forwarded := f |}.
Proof.
  intros Hact Hn (Hw & _ & Hcl) Harr Hca c f. rewrite <- Hn in Hw. unfold client_ok in *.
  cbn [n_client n_world]. rewrite <- Hn in Hcl. pose proof (world_act_ok _ _ _ _ _ _ _ Hact Hw) as Hw'.
  remember (n_client n) as c0 eqn:Hc0.
  destruct Hca as [s cl gs c0 Ha Hs Hsync|c0 Hs|s cl srv Ha Hs].
  - rewrite Hs. eexists _, _. split_and!; [done| |by apply link_ok_flip, synced_ok].
    destruct (wo_logs w' Hw' a s Hs) as [_ Hcl']. cbn. symmetry. apply Hcl'.
    by eapply admitted_closed.
  - by rewrite Hs.
  - rewrite Hs. destruct (sessions (w_srv w) !! a) as [s0|] eqn:Hs0; [|done].
    destruct Hcl as (x & y & Hl). exists x, y.
    eapply (client_kept p idle act w up sv w'); try done.
    unfold may_arrive in Harr. rewrite <- Hc0 in Harr. by destruct act.
Qed.

Lemma net_step_ok p idle a n n' : net_step p idle a n n' → net_ok a n → net_ok a n'.
Proof.
  intros Hs Hok. pose proof Hok as (Hw & Hsw & Hcl).
  destruct Hs as [act up sv w' c d n Hact Harr Hsa Hca|sw sw' up n Hn Hs|cl cl' srv n Hn Hs
    |i sw up n Hn|i cl srv n Hn].
  - split_and!; [by eapply world_act_ok|by eapply switcher_after_ok|by eapply client_after_ok].
  - split_and!; [done| |done]. unfold switcher_ok in *. rewrite Hn in Hsw.
    destruct Hsw as (Hl & x & y & [He [H1 H2] H3 H4 H5]). split; [done|]. exists x, y.
    split; [done| |done..]. destruct (half_step y x sw sw' up H2 H1 Hs). done.
  - split_and!; [done|done|]. unfold client_ok in *. rewrite Hn in Hcl.
    cbn [n_client n_world set_client]. destruct (sessions _ !! a) as [s|]; [|done].
    destruct Hcl as (x & y & He & Hp & [H1 H2]). exists x, y. split_and!; [done|done|].
    destruct (half_step y x cl cl' srv H2 H1 Hs). done.
  - split_and!; [done| |done]. unfold switcher_ok in *. rewrite Hn in Hsw.
    destruct Hsw as (Hl & x & y & [He [H1 H2] H3 H4 H5]). split; [done|]. exists x, y.
    split; [done| |done..]. by apply half_lose.
  - split_and!; [done|done|]. unfold client_ok in *. rewrite Hn in Hcl.
    cbn [n_client n_world set_client]. destruct (sessions _ !! a) as [s|]; [|done].
    destruct Hcl as (x & y & He & Hp & [H1 H2]). exists x, y. split_and!; [done|done|].
    by apply half_lose.
Qed.

Lemma reachable_net_ok p idle a t0 n : reachable_net p idle a t0 n → net_ok a n.
Proof.
  unfold reachable_net. intros Hr.
  assert (net_ok a (net_init (M:=M) t0)) as H0.
  { split_and!; [apply world_init_ok|done|]. done. }
  induction Hr as [n|n n1 n2 Hs Hr IH]; [done|]. by apply IH, (net_step_ok p idle a n).
Qed.

(** ** The theorems *)

(** Everything queued at one side of a link has been accepted at the other. *)
Definition all_delivered (src dst : Side) : Prop := nonempty (got dst) = pushed src.

Lemma concat_fmap_nonempty {A} (f : bytes → list A) ps :
  f [] = [] → concat (f <$> nonempty ps) = concat (f <$> ps).
Proof.
  intros Hf. induction ps as [|p ps IH]; [done|]. unfold nonempty in *. rewrite filter_cons.
  case_decide as E; cbn; [by f_equal|]. destruct p; [|done]. by rewrite Hf.
Qed.

Lemma log_commands_nonempty ps : log_commands (nonempty ps) = log_commands ps.
Proof. by apply concat_fmap_nonempty. Qed.

Lemma switcher_state_nonempty ps : switcher_state (nonempty ps) = switcher_state ps.
Proof. by apply concat_fmap_nonempty. Qed.

(** C1. From the switcher to a client.  The switcher and one client are endpoints beyond
    networks that lose, repeat and reorder, with the whole proxy, other clients
    included, in between.  In every reachable state the proxy has accepted a prefix
    of what the switcher queued, and the client and the proxy a prefix of what the
    other queued for it, in order and without repetition.  Once both directions
    towards the client have nothing left to deliver, no event is waiting and the
    session is open, the last thing the client was told about each piece of state is
    the last thing that the switcher said about it. *)
Theorem end_to_end_state p idle a t0 n sw up cl srv :
  reachable_net p idle a t0 n → n_switcher n = Some (sw, up) → n_client n = Some (cl, srv) →
  delivered_in_order sw up ∧ delivered_in_order srv cl ∧ delivered_in_order cl srv ∧
  (rel_opened (s_ep srv) = true → w_queue (n_world n) = [] →
   all_delivered sw up → all_delivered srv cl →
   ∀ k r, latest k (switcher_state (pushed sw)) = Some r → latest k (log_commands (got cl)) = Some r).
Proof.
  intros Hr Hsw Hcl. pose proof (reachable_net_ok _ _ _ _ _ Hr) as (Hw & Hs & Hc).
  unfold switcher_ok, client_ok in *. rewrite Hsw in Hs. rewrite Hcl in Hc.
  destruct Hs as (_ & x & y & [_ [_ Hup] Hcache _ _]).
  destruct (sessions (w_srv (n_world n)) !! a) as [s|] eqn:Es; [|done].
  destruct Hc as (x' & y' & He & Hp & [H1 H2]).
  split_and!; [by eapply half_delivered..|]. intros Ho Hq Hd1 Hd2 k r Hk.
  unfold all_delivered in *.
  rewrite <- log_commands_nonempty, Hd2, Hp.
  apply (world_view (n_world n) a s); [done..| |done|].
  - destruct (wo_srv _ Hw) as [_ Hall]. pose proof (Hall a s Es) as Hok.
    rewrite <- (session_ok_opened s Hok). congruence.
  - rewrite im_get_entries, Hcache, assoc_get_coalesce.
    by rewrite <- switcher_state_nonempty, Hd1.
Qed.

(** C2. From the clients to the switcher.  In every reachable state, what the switcher
    has accepted since the session with it opened is a prefix of the commands that were
    waiting in the command channel at the opening followed by those that the filter
    has passed on since, of all clients and in that order, less those too short to be
    commands; and it is all of them once the channel is empty and the endpoint has
    nothing left to deliver. *)
Theorem end_to_end_commands p idle a t0 n sw up :
  reachable_net p idle a t0 n → n_switcher n = Some (sw, up) →
  concat (got sw) `prefix_of` concat (forwardable (n_forwarded n)) ∧
  (w_chan (n_world n) = [] → all_delivered up sw →
   concat (got sw) = concat (forwardable (n_forwarded n))).
Proof.
  intros Hr Hsw. pose proof (reachable_net_ok _ _ _ _ _ Hr) as (_ & Hs & _).
  unfold switcher_ok in Hs. rewrite Hsw in Hs.
  destruct Hs as (_ & x & y & [_ [Hup _] _ _ (cmds & Hf & Hcmds)]).
  destruct (half_delivered _ _ _ Hup) as (pending & Hp & _).
  cbn [fst snd] in *. rewrite Hf, forwardable_app, concat_app, <- Hcmds. split.
  - rewrite Hp, concat_app, concat_nonempty, <- app_assoc. by apply prefix_app_r.
  - unfold all_delivered. intros -> <-. by rewrite concat_nonempty, app_nil_r.
Qed.
End net_invariant.
