(* ===== verification/Requests.v ===== *)
(** * A client's commands, all the way

    [EndToEnd] compares what the switcher accepts with what the filter passed on.
    Here the first leg is added: from what the client queued, through its link and
    the filter, to the switcher. *)

From S2P Require Export EndToEnd.
Open Scope nat_scope.

(** A command that no policy looks at. *)
Definition plain_name (n : CommandName) : bool :=
  negb (is_lock_request n) && negb (is_transfer_command n) && negb (is_audio_levels_subscribe n).

(** The frames of the plain commands in a payload, and in many. *)
Definition plain_commands (payload : bytes) : list bytes :=
  match parse_commands payload with
  | Ok cs => raw <$> filter (λ c, plain_name (name c) = true) cs
  | Err _ => []
  end.
Definition plain_requests (payloads : list bytes) : list bytes :=
  concat (plain_commands <$> payloads).

Lemma plain_requests_app l1 l2 : plain_requests (l1 ++ l2) = plain_requests l1 ++ plain_requests l2.
Proof. unfold plain_requests. by rewrite fmap_app, concat_app. Qed.

Lemma plain_requests_nonempty l : plain_requests (nonempty l) = plain_requests l.
Proof. by apply concat_fmap_nonempty. Qed.

(** A frame is long enough to be forwarded. *)
Lemma plain_commands_forwardable payload : forwardable (plain_commands payload) = plain_commands payload.
Proof.
  unfold plain_commands. destruct (parse_commands payload) as [cs|] eqn:E; [|done].
  apply parse_commands_Ok in E as [Hcs _].
  induction Hcs as [|c cs Hc _ IH]; [done|]. rewrite filter_cons. case_decide; [|done].
  cbn [fmap list_fmap]. unfold forwardable in *. rewrite filter_cons_True; [by rewrite IH|].
  unfold long_enough. apply Nat.leb_le. rewrite (frame_ok_length c Hc). lia.
Qed.

Section filtered.
  Context `{!HashIter Z StoreLock}.

(** Whatever the filter's state, it forwards a plain command unchanged. *)
Lemma filter_command_plain p from now c st :
  plain_name (name c) = true → filter_command p from now c st = (FilterAction.Forward (raw c), st).
Proof.
  unfold plain_name, filter_command. by destruct (is_lock_request _), (is_transfer_command _),
    (is_audio_levels_subscribe _).
Qed.

Lemma process_payload_plain p from now payload st :
  plain_commands payload `sublist_of` forwards (process_payload p from now payload st).1.
Proof.
  unfold plain_commands, process_payload. destruct (parse_commands payload) as [cs|]; [|by apply sublist_nil_l].
  revert st. induction cs as [|c cs IH]; intros st; [done|]. cbn [process_commands].
  destruct (plain_name (name c)) eqn:Hc.
  - rewrite filter_cons_True, filter_command_plain by done. specialize (IH st).
    destruct (process_commands _ _ _ _ _) as [actions st']. cbn. by apply sublist_skip.
  - rewrite filter_cons_False by congruence.
    destruct (filter_command p from now c st) as [a st1]. specialize (IH st1).
    destruct (process_commands _ _ _ _ _) as [actions st']. cbn [fst] in *. unfold forwards in *.
    cbn [fmap list_fmap concat]. by apply sublist_inserts_l.
Qed.
End filtered.

Section requests.
  Context {M : Type} `{!IndexMap M CacheKey bytes}.
  Context `{!HashIter Z StoreLock} `{!HashIter SocketAddr ClientSession}.

Lemma session_datagram_requests p data hdr payload addr (g : Inner M) now s f :
  decode_packet data = Ok (hdr, payload) → session_ok s →
  let '(_, cmds, _, _) := session_datagram p hdr payload addr g now s f in
  plain_requests (accepted data (rel s)) `sublist_of` cmds.
Proof.
  intros Hd Hok. pose proof (session_datagram_link p data hdr payload addr g now s f Hd Hok) as Hl.
  rewrite (receive_accepted data now). unfold receive in *. rewrite Hd in *.
  destruct (contains (flags hdr) ACK_REQUEST) eqn:Hq.
  2:{ destruct (session_datagram _ _ _ _ _ _ _ _) as [[[req cmds] s'] f']. by apply sublist_nil_l. }
  destruct (accept_reliable _ _ (if contains (flags hdr) ACK_REPLY || negb (ack_id hdr =? 0)%Z
    then _ else _)) as [ok ep]. destruct ok; cbn [fst snd] in *.
  2:{ destruct (session_datagram _ _ _ _ _ _ _ _) as [[[req cmds] s'] f']. by apply sublist_nil_l. }
  unfold session_datagram in *. rewrite Hq in *.
  destruct (accept_reliable _ _ (rel (if _ || _ then _ else _))) as [ok r].
  destruct ok; cbn [negb] in *; [|by destruct Hl].
  unfold plain_requests. cbn [fmap list_fmap concat]. rewrite app_nil_r.
  destruct (is_nil payload) eqn:Hp; cbn [negb] in *.
  - by destruct payload.
  - match goal with |- context [foldl apply_action ([], ?s)] => set (s1 := s) end.
    pose proof (process_payload_frame p addr now payload f s1) as Hf.
    pose proof (process_payload_plain p addr now payload f) as Hpl.
    destruct (process_payload p addr now payload f) as [actions f'].
    destruct (foldl apply_action _ actions) as [cmds s2]. by destruct Hf as (-> & _).
Qed.

(** A turn of the server forwards, in order, the plain commands that it accepts. *)
Lemma on_client_packet_requests p a data up (g : Inner M) t_new now srv :
  sessions_ok srv →
  plain_requests (accepted_client a (ActDatagram a data) srv) `sublist_of`
    commands_out (on_client_packet p data a up g t_new now srv).1.
Proof.
  intros [_ Hall]. cbn [accepted_client]. rewrite decide_True by done.
  destruct (is_greeting data) eqn:Hg; [by apply sublist_nil_l|].
  destruct (sessions srv !! a) as [s|] eqn:Hs; [|by apply sublist_nil_l].
  unfold is_greeting in Hg. unfold on_client_packet, handle_datagram.
  destruct (decode_packet data) as [[hdr payload]|e] eqn:Hd; cbn [mbind Result_bind].
  2:{ unfold accepted, receive. rewrite Hd. by apply sublist_nil_l. }
  rewrite Hg, Hs. pose proof (session_datagram_requests p data hdr payload a g now s (s_filter srv) Hd
    (Hall a s Hs)) as H.
  destruct (session_datagram _ _ _ _ _ _ _ _) as [[[req cmds] s'] f'].
  cbn [fst]. rewrite commands_out_app.
  rewrite commands_out_commands. by apply sublist_inserts_l.
Qed.

(** A step in which no session with the switcher opens. *)
Definition same_session (p : FilterPolicy) (client_idle_ms : Z) (a : SocketAddr) (n n' : Net M) : Prop :=
  net_step p client_idle_ms a n n' ∧
  (w_live (n_world n) = false → w_live (n_world n') = false).

(** What the client's session has accepted has been passed on. *)
Definition requests_passed (n : Net M) : Prop :=
  ∀ cl srv, n_client n = Some (cl, srv) →
  plain_requests (got srv) `sublist_of` forwardable (n_forwarded n).

Lemma world_act_requests p client_idle_ms a act w up sv w' :
  world_act p client_idle_ms act w up sv w' → world_ok w →
  plain_requests (accepted_client a act (w_srv w)) `sublist_of` commands_out sv.
Proof.
  intros Hact Hw. destruct Hact; try (by apply sublist_nil_l).
  cbn [accepted_client]. destruct (decide (addr = a)) as [->|Hne]; [|by apply sublist_nil_l].
  pose proof (on_client_packet_requests p a data (connected (w_up w)) g t_new now (w_srv w) (wo_srv w Hw)) as H.
  cbn [accepted_client] in H. by rewrite decide_True in H.
Qed.

Lemma forwardable_requests ps cmds :
  plain_requests ps `sublist_of` cmds → plain_requests ps `sublist_of` forwardable cmds.
Proof.
  intros H. assert (forwardable (plain_requests ps) = plain_requests ps) as <-.
  { clear H. induction ps as [|q ps IH]; [done|]. change (q :: ps) with ([q] ++ ps).
    rewrite plain_requests_app, forwardable_app, IH.
    apply (f_equal (λ l, l ++ plain_requests ps)). unfold plain_requests. cbn [fmap list_fmap concat].
    rewrite app_nil_r. apply plain_commands_forwardable. }
  induction H as [|x l k H IH|x l k H IH]; unfold forwardable in *; rewrite ?filter_cons; [done|..].
  - case_decide; [by apply sublist_skip|done].
  - case_decide; [by apply sublist_cons|done].
Qed.

Lemma same_session_passed p client_idle_ms a n n' :
  same_session p client_idle_ms a n n' → world_ok (n_world n) → requests_passed n → requests_passed n'.
Proof.
  intros [Hs Hlive] Hw Hp cl srv Hc.
  destruct Hs as [act up sv w' c d n Hact Harr Hsw Hcl|sw sw' up n Hsw Hs|cl0 cl' srv0 n Hcl Hs
    |i sw up n Hsw|i cl0 srv0 n Hcl]; cbn [n_client n_forwarded n_world set_switcher set_client] in *.
  - assert (forwarded_after act sv n = n_forwarded n ++ commands_out sv) as ->.
    { destruct Hact as [t1 t2 reply r acks w Hl Ho| | | | | | ]; try done. by specialize (Hlive Hl). }
    pose proof (world_act_requests p client_idle_ms a act _ up sv w' Hact Hw) as Hreq.
    remember (n_client n) as c0 eqn:Hc0.
    destruct Hcl as [s cl1 gs c0 Ha Hs Hsync|c0 Hs|s cl1 srv1 Ha Hs]; [|done|]; injection Hc as <- <-.
    + by apply sublist_nil_l.
    + cbn [got observe]. rewrite plain_requests_app, forwardable_app.
      apply sublist_app; [|by apply forwardable_requests]. by apply (Hp cl1).
  - by apply (Hp cl).
  - injection Hc as <- <-. exact (Hp cl0 srv0 Hcl).
  - by apply (Hp cl).
  - injection Hc as <- <-. exact (Hp cl0 srv0 Hcl).
Qed.

(** C3. A client's commands reach the switcher.  From a moment at which the client's
    session has accepted nothing yet (its admission, or before), as long as no new
    session with the switcher is opened: once both links have nothing left to
    deliver in that direction and the command channel is empty, the switcher has
    accepted all the commands that the client queued and that no policy concerns,
    unchanged, each as often as it was queued and in that order, among what the
    filter passed on for all clients. *)
Theorem end_to_end_requests p client_idle_ms a t0 n0 n sw up cl srv :
  reachable_net p client_idle_ms a t0 n0 →
  (∀ cl srv, n_client n0 = Some (cl, srv) → got srv = []) →
  rtc (same_session p client_idle_ms a) n0 n →
  n_switcher n = Some (sw, up) → n_client n = Some (cl, srv) →
  w_chan (n_world n) = [] → all_delivered cl srv → all_delivered up sw →
  concat (got sw) = concat (forwardable (n_forwarded n)) ∧
  plain_requests (pushed cl) `sublist_of` forwardable (n_forwarded n).
Proof.
  intros Hr0 Hgot Hrun Hsw Hcl Hchan Hd1 Hd2.
  assert (reachable_net p client_idle_ms a t0 n ∧ requests_passed n) as [Hr Hp].
  { assert (requests_passed n0) as Hp0.
    { intros cl0 srv0 H0. rewrite (Hgot _ _ H0). by apply sublist_nil_l. }
    clear Hgot Hsw Hcl Hchan. induction Hrun as [n|n n1 n2 Hs _ IH]; [done|].
    destruct (reachable_net_ok _ _ _ _ _ Hr0) as (Hw & _). apply IH.
    - eapply rtc_r; [exact Hr0|]. apply Hs.
    - by eapply same_session_passed. }
  pose proof (reachable_net_ok _ _ _ _ _ Hr) as (_ & Hs & _). unfold switcher_ok in Hs. rewrite Hsw in Hs.
  destruct Hs as (_ & x & y & [_ [Hup _] _ _ (cmds & Hf & Hcmds)]). split.
  - cbn [fst snd] in *. rewrite Hf, forwardable_app, concat_app, <- Hcmds, Hchan.
    unfold all_delivered in Hd2. rewrite <- Hd2. by rewrite concat_nonempty, app_nil_r.
  - unfold all_delivered in Hd1. rewrite <- Hd1, plain_requests_nonempty. by apply (Hp cl).
Qed.
End requests.
