(* ===== verification/Witnesses.v ===== *)
(** * Witnesses

    Concrete inputs at which the hypotheses of the theorems hold, and what the
    theorems then say.  The index map is the association list of [IndexMap], the
    iteration order of hash maps that of [map_to_list]. *)

From S2P Require Import System Stream Mdns Service.
Open Scope nat_scope.

#[local] Instance demo_lock_iter : HashIter Z StoreLock := some_hash_iter Z StoreLock.
#[local] Instance demo_session_iter : HashIter SocketAddr ClientSession :=
  some_hash_iter SocketAddr ClientSession.

Abbreviation DemoMap := (assoc_map CacheKey bytes).

Definition demo_policy : FilterPolicy :=
  {| lock_mode := SingleOwner;
     transfer_cfg := {| enabled := true; cfg_chunk_delay_ms := 0; max_upload_mb := 64 |} |}.
Definition demo_deny : FilterPolicy :=
  {| lock_mode := Deny; transfer_cfg := MediaConfig_default |}.

Definition alice : SocketAddr := V4 [127; 0; 0; 1]%Z 5001.
Definition bob : SocketAddr := V4 [127; 0; 0; 1]%Z 5002.

(** ** A run of the proxy: the switcher answers and sends its state, a client
    greets, acknowledges and gets its dump. *)

Definition demo_program : bytes :=
  serialize_command (name4 "PrgI") [Byte.x00; Byte.x00; Byte.x00; Byte.x01].
Definition demo_payload : bytes := demo_program ++ synthetic_init_complete.

Definition demo_reliable (id : Z) (payload : bytes) : bytes :=
  encode_packet (with_packet_id (PacketHeader_new ACK_REQUEST 0x8001 0) id) payload.

Definition demo_open : Result SessionError (ReliableEndpoint * list bytes) :=
  session_open 0 0 (build_server_handshake_reply 0x8001).
Definition demo_rel : ReliableEndpoint :=
  match demo_open with
  | Ok (r, _) => r
  | Err _ => ReliableEndpoint_new 0 0 ReliableConfig_default
  end.
Definition demo_acks : list bytes := match demo_open with Ok (_, l) => l | Err _ => [] end.

Definition demo_w0 : World DemoMap := world_init 0.
Definition demo_w1 : World DemoMap :=
  after_upstream (session_start demo_rel (w_up demo_w0)) (UpSend <$> demo_acks) true
    (w_chan demo_w0) demo_w0.

Definition demo_input : up_input := UDatagram (demo_reliable 1 demo_payload) 10.
Definition demo_turn : list up_out * Upstream DemoMap :=
  match session_step demo_input (w_up demo_w1) with
  | Continue out u => (out, u)
  | Ended _ => ([], w_up demo_w1)
  end.
Definition demo_w2 : World DemoMap := after_upstream demo_turn.2 demo_turn.1 true [] demo_w1.

Definition demo_datagram (data : bytes) (w : World DemoMap) : World DemoMap :=
  let g := u_cache (w_up w) in
  let r := on_client_packet demo_policy data alice (connected (w_up w)) g 20 20 (w_srv w) in
  after_server r.2 r.1 (w_queue w) (log_datagram g alice (w_srv w) r.2 (w_logs w)) w.
Definition demo_event (w : World DemoMap) : World DemoMap :=
  match w_queue w with
  | [] => w
  | e :: queue =>
      let g := u_cache (w_up w) in
      after_server (on_event (transfer_cfg demo_policy) (FanEvent e) g (w_srv w)) [] queue
        (log_event (transfer_cfg demo_policy) (FanEvent e) g (w_srv w) (w_logs w)) w
  end.

Definition demo_w3 : World DemoMap := demo_datagram (build_client_handshake 0x1234) demo_w2.
Definition demo_w4 : World DemoMap := demo_event (demo_event demo_w3).
Definition demo_w5 : World DemoMap := demo_datagram (build_ack_reply 0x8001 0 0) demo_w4.
Definition demo_session (w : World DemoMap) : ClientSession :=
  default (new_session 0 0 0) (sessions (w_srv w) !! alice).

Lemma demo_datagram_step data w :
  world_step demo_policy 5000 w (demo_datagram data w).
Proof. eexists _, _, _. exact (world_datagram demo_policy 5000 data alice 20 20 w). Qed.

Lemma demo_event_step w e queue :
  w_queue w = e :: queue → world_step demo_policy 5000 w (demo_event w).
Proof. intros H. unfold demo_event. rewrite H. eexists _, _, _. by apply world_event. Qed.

(** A turn goes on, without writing out where it gets. *)
Definition continues (i : up_input) (u : Upstream DemoMap) : bool :=
  match session_step i u with Continue _ _ => true | Ended _ => false end.

Lemma continues_step i u : continues i u = true → ∃ out u', session_step i u = Continue out u'.
Proof. unfold continues. destruct (session_step i u) as [out u'|r]; [by eauto|done]. Qed.

Lemma demo_turn_step :
  session_step demo_input (w_up demo_w1) = Continue demo_turn.1 demo_turn.2.
Proof.
  destruct (continues_step demo_input (w_up demo_w1)) as (out & u & E); [vm_compute; reflexivity|].
  unfold demo_turn. by rewrite E.
Qed.

Lemma demo_w2_reachable : reachable demo_policy 5000 0 demo_w2.
Proof.
  eapply rtc_l; [|apply rtc_once].
  - eexists _, _, _. apply (world_open demo_policy 5000 0 0 (build_server_handshake_reply 0x8001) demo_rel demo_acks
      demo_w0); vm_compute; reflexivity.
  - eexists _, _, _. apply (world_turn demo_policy 5000 demo_input demo_turn.1 demo_turn.2 demo_w1 []);
      [reflexivity|reflexivity|apply demo_turn_step].
Qed.

Lemma demo_w3_queue : ∃ e1 e2, w_queue demo_w3 = [e1; e2] ∧ w_queue (demo_event demo_w3) = [e2].
Proof. eexists _, _. split; vm_compute; reflexivity. Qed.

Lemma demo_w5_reachable : reachable demo_policy 5000 0 demo_w5.
Proof.
  destruct demo_w3_queue as (e1 & e2 & H1 & H2).
  pose proof (demo_datagram_step (build_client_handshake 0x1234) demo_w2) as S3.
  pose proof (demo_event_step demo_w3 e1 [e2] H1) as S4.
  pose proof (demo_event_step (demo_event demo_w3) e2 [] H2) as S5.
  pose proof (demo_datagram_step (build_ack_reply 0x8001 0 0) demo_w4) as S6.
  exact (rtc_r _ _ _ (rtc_r _ _ _ (rtc_r _ _ _ (rtc_r _ _ _ demo_w2_reachable S3) S4) S5) S6).
Qed.

Lemma demo_w5_session :
  sessions (w_srv demo_w5) !! alice = Some (demo_session demo_w5) ∧
  opened (demo_session demo_w5) = true ∧ w_queue demo_w5 = [].
Proof. vm_compute. done. Qed.

Definition demo_key : CacheKey := {| key_name := name4 "PrgI"; key_identity := [Byte.x00] |}.

Lemma demo_w5_cached : im_get demo_key (cmap (u_cache (w_up demo_w5))) = Some demo_program.
Proof. vm_compute. reflexivity. Qed.

Lemma clients_converge_witness :
  latest demo_key (log_commands (w_logs demo_w5 alice)) = Some demo_program ∧
  ∃ acked, w_logs demo_w5 alice = acked ++ nonempty (stream (rel (demo_session demo_w5))).
Proof.
  destruct demo_w5_session as (Hs & Ho & Hq).
  destruct (clients_converge demo_policy 5000 0 demo_w5 alice (demo_session demo_w5)
    demo_w5_reachable Hs Ho) as [Hlog Hview].
  split; [|exact Hlog]. exact (Hview Hq demo_key demo_program demo_w5_cached).
Defined.

Lemma never_truncated_witness :
  reachable demo_policy 5000 0 demo_w5 ∧ Forall fits (outbound (rel (demo_session demo_w5))) ∧
  outbound (rel (demo_session demo_w5)) ≠ [].
Proof.
  split; [exact demo_w5_reachable|].
  destruct (never_truncated demo_policy 5000 0 demo_w5 demo_w5_reachable) as (_ & _ & H).
  split; [exact (H alice _ (proj1 demo_w5_session))|]. vm_compute. discriminate.
Defined.

Lemma reachable_safe_witness :
  connected (w_up demo_w5) = ready (u_cache (w_up demo_w5)) ∧ connected (w_up demo_w5) = true ∧
  ep_ok (rel (demo_session demo_w5)).
Proof.
  destruct (reachable_safe demo_policy 5000 0 demo_w5 demo_w5_reachable) as (_ & Hc & _ & H).
  split; [exact Hc|]. split; [vm_compute; reflexivity|].
  exact (proj1 (H alice _ (proj1 demo_w5_session))).
Defined.

(** ** The upstream task *)

Definition demo_u0 : Upstream DemoMap := w_up demo_w0.
Definition demo_u1 : Upstream DemoMap := session_start demo_rel (session_end demo_u0).2.
Definition demo_turn1 : list up_out * Upstream DemoMap :=
  match session_step demo_input demo_u1 with
  | Continue out u => (out, u)
  | Ended _ => ([], demo_u1)
  end.

Lemma demo_turn1_step : session_step demo_input demo_u1 = Continue demo_turn1.1 demo_turn1.2.
Proof.
  destruct (continues_step demo_input demo_u1) as (out & u & E); [vm_compute; reflexivity|].
  unfold demo_turn1. by rewrite E.
Qed.

Lemma cache_agrees_with_broadcast_witness :
  im_entries (cmap (u_cache demo_turn1.2)) =
    coalesce (event_history [] (events_of ([] ++ demo_turn1.1))) ∧
  im_entries (cmap (u_cache demo_turn1.2)) = [(demo_key, demo_program)].
Proof.
  split; [|vm_compute; reflexivity].
  apply (cache_agrees_with_broadcast demo_u1); [vm_compute; reflexivity|].
  exact (up_run_step _ _ _ _ _ (up_run_refl demo_u1) (up_step_turn _ _ _ _ demo_turn1_step)).
Defined.

(** The payload that the turn takes has an [InCm], so the session is ready. *)
Lemma session_readiness_witness :
  turn_payload demo_input demo_u1 = Some demo_payload ∧ connected demo_u1 = false ∧
  connected demo_turn1.2 = true ∧ reached_ready demo_turn1.2 = true ∧
  lifecycle (events_of ([] ++ demo_turn1.1)) = [true].
Proof.
  assert (turn_payload demo_input demo_u1 = Some demo_payload) as Hp by (vm_compute; reflexivity).
  pose proof (turns_snoc _ _ _ _ _ _ _ (turns_nil demo_u1) demo_turn1_step) as Ht. rewrite Hp in Ht.
  destruct (session_readiness demo_u0 demo_rel [demo_payload] ([] ++ demo_turn1.1) demo_turn1.2 Ht)
    as (Hc & _ & Hr & _ & Hl).
  split; [exact Hp|]. split; [vm_compute; reflexivity|].
  split; [rewrite Hc; vm_compute; reflexivity|]. split; [rewrite Hr; vm_compute; reflexivity|].
  rewrite Hl. vm_compute. reflexivity.
Defined.

Lemma upstream_routing_witness :
  ∃ cs, parse_commands demo_payload = Ok cs ∧
    events_of (handle_upstream_payload demo_payload demo_u1).1 = [StatePayload demo_program; Connected].
Proof.
  destruct (parse_commands demo_payload) as [cs|e] eqn:E; [|by vm_compute in E].
  exists cs. split; [reflexivity|].
  rewrite (proj1 (upstream_routing demo_payload cs demo_u1 E)).
  vm_compute in E. injection E as <-. vm_compute. reflexivity.
Defined.

Lemma backoff_failures_witness :
  (0 < from_secs 1 ≤ from_secs 30)%Z ∧
  backoff_sleeps (from_secs 1) (from_secs 1) (replicate 7 false) =
    from_secs <$> [1; 2; 4; 8; 16; 30; 30]%Z.
Proof.
  split; [unfold from_secs; lia|].
  rewrite (backoff_failures (from_secs 1) 7) by (unfold from_secs; lia). reflexivity.
Defined.

(** ** The server *)

Definition demo_select : bytes :=
  serialize_command (name4 "CPgI") [Byte.x00; Byte.x00; Byte.x00; Byte.x02].
Definition demo_header (data : bytes) : PacketHeader :=
  match decode_packet data with
  | Ok (h, _) => h
  | Err _ => PacketHeader_new ACK_REQUEST 0 0
  end.
Definition demo_packet : bytes := demo_reliable 1 demo_select.

Lemma client_commands_in_order_witness :
  let g := u_cache (w_up demo_w5) in
  let r := on_client_packet demo_policy demo_packet alice true g 30 30 (w_srv demo_w5) in
  r.1 = [SvCommand demo_select] ∧
  ∃ s', sessions r.2 !! alice = Some s' ∧ expected_recv (ack (rel s')) = 2%Z.
Proof.
  intros g r. subst r. cbv zeta.
  pose proof (client_commands_in_order demo_policy alice true g 30 30 (w_srv demo_w5) demo_packet
    (demo_header demo_packet) demo_select (demo_session demo_w5)) as H.
  destruct (on_client_packet demo_policy demo_packet alice true g 30 30 (w_srv demo_w5)) as [out srv'].
  cbn [fst snd].
  destruct H as (s' & Hs' & H); [vm_compute; reflexivity..|apply demo_w5_session|].
  replace (packet_id (demo_header demo_packet)) with 1%Z in H by (vm_compute; reflexivity).
  replace (expected_recv (ack (rel (demo_session demo_w5)))) with 1%Z in H by (vm_compute; reflexivity).
  rewrite decide_True in H by reflexivity. destruct H as [He H].
  assert (forwards (process_payload demo_policy alice 30 demo_select (s_filter (w_srv demo_w5))).1 =
    [demo_select]) as Hf by (vm_compute; reflexivity).
  replace (is_nil demo_select) with false in H by (vm_compute; reflexivity).
  destruct (process_payload demo_policy alice 30 demo_select (s_filter (w_srv demo_w5))) as [acts f].
  cbn [fst] in Hf. rewrite Hf in H. split; [exact (proj1 H)|]. exists s'. by split.
Defined.



(** The client that has greeted acknowledges. *)
Lemma demo_w4_session_ok : session_ok (demo_session demo_w4).
Proof.
  assert (world_ok demo_w4) as Hw.
  { apply (reachable_ok demo_policy 5000 0). destruct demo_w3_queue as (e1 & e2 & H1 & H2).
    pose proof (demo_datagram_step (build_client_handshake 0x1234) demo_w2) as S3.
    pose proof (demo_event_step demo_w3 e1 [e2] H1) as S4.
    pose proof (demo_event_step (demo_event demo_w3) e2 [] H2) as S5.
    exact (rtc_r _ _ _ (rtc_r _ _ _ (rtc_r _ _ _ demo_w2_reachable S3) S4) S5). }
  apply (proj2 (wo_srv _ Hw) alice). vm_compute. reflexivity.
Qed.

Lemma first_ack_queues_dump_witness :
  let g := u_cache (w_up demo_w4) in
  let r := on_client_packet demo_policy (build_ack_reply 0x8001 0 0) alice true g 20 20 (w_srv demo_w4) in
  r.1 = [] ∧ ∃ s', sessions r.2 !! alice = Some s' ∧ opened s' = true ∧
    stream (rel s') = [demo_program ++ synthetic_init_complete].
Proof.
  intros g r.
  pose proof (first_ack_queues_dump demo_policy alice true g 20 20 (w_srv demo_w4)
    (build_ack_reply 0x8001 0 0) (demo_header (build_ack_reply 0x8001 0 0)) (demo_session demo_w4)
    ltac:(vm_compute; reflexivity) ltac:(vm_compute; reflexivity) ltac:(vm_compute; reflexivity)
    ltac:(vm_compute; reflexivity) ltac:(vm_compute; reflexivity) demo_w4_session_ok
    ltac:(vm_compute; reflexivity)) as H.
  subst r. destruct (on_client_packet demo_policy (build_ack_reply 0x8001 0 0) alice true g 20 20 (w_srv demo_w4))
    as [out srv']. destruct H as (-> & _ & _ & _ & s' & Hs & Ho & _ & Hst & _).
  split; [reflexivity|]. exists s'. split; [exact Hs|]. split; [exact Ho|].
  cbn [snd] in *. rewrite Hst. vm_compute. reflexivity.
Defined.

Lemma tick_expires_witness :
  let srv' := (tick (transfer_cfg demo_policy) (idle_of 5000) (from_secs 60) (λ _, (0, 0)%Z)
                 (w_srv demo_w5)).2 in
  is_Some (sessions (w_srv demo_w5) !! alice) ∧ ¬ is_Some (sessions srv' !! alice).
Proof.
  intros srv'. destruct demo_w5_session as (Hs & _).
  destruct (tick_expires (transfer_cfg demo_policy) 5000 (from_secs 60) (λ _, (0, 0)%Z)
    (w_srv demo_w5) alice) as (_ & H & _).
  split; [exact (mk_is_Some _ _ Hs)|]. intros Hsome. apply H in Hsome as [_ Hgone]. apply Hgone.
  exists (demo_session demo_w5). split; [exact Hs|]. vm_compute. reflexivity.
Defined.

Definition demo_subscribe : CommandRef :=
  {| name := name4 "SALN"; raw := serialize_command (name4 "SALN") [Byte.x01]; body := [Byte.x01] |}.

Lemma demo_subscribe_ok : frame_ok demo_subscribe.
Proof. apply frame_ok_serialize. cbn [length]. lia. Qed.

Definition demo_subscribed : FilterState :=
  (process_payload demo_policy alice 0 (raw demo_subscribe) CommandFilter_new).2.

Lemma stale_subscriber_silences_audio_witness :
  let srv := {| sessions := ∅; next_sid := 1; s_filter := demo_subscribed |} in
  let srv' := on_event (transfer_cfg demo_policy) (FanEvent Disconnected)
                (StateCache_new (M := DemoMap)) srv in
  forwards (process_payload demo_policy bob 0 (raw demo_subscribe) (s_filter srv')).1 = [].
Proof.
  intros srv srv'.
  apply (stale_subscriber_silences_audio demo_policy 0 (StateCache_new (M := DemoMap)) srv alice
    demo_subscribe bob);
    [refine (proj1 (bool_decide_eq_true (alice ∈ clients (audio demo_subscribed))) _);
     vm_compute; reflexivity
    |exact demo_subscribe_ok
    |vm_compute; reflexivity|vm_compute; reflexivity].
Defined.

(** ** Locks and transfers *)

Definition demo_lock_body : bytes := [Byte.x00; Byte.x00; Byte.x01; Byte.x00].
Definition demo_unlock_body : bytes := [Byte.x00; Byte.x00; Byte.x00; Byte.x00].
Definition demo_locked : LockBroker :=
  (client_lock_request alice (name4 "LOCK") demo_lock_body LockBroker_new).2.

Lemma lock_exclusive_witness :
  let ops := [LockRequest bob (name4 "LOCK") demo_unlock_body; LockDisconnect bob] in
  owner_of 0 (foldl broker_step demo_locked ops) = Some alice ∧
  (client_lock_request bob (name4 "LOCK") demo_lock_body (foldl broker_step demo_locked ops)).1 =
    LockDecision.Drop.
Proof.
  intros ops.
  destruct (lock_exclusive 0 alice bob (name4 "LOCK") demo_lock_body demo_locked ops) as [H1 H2];
    [vm_compute; reflexivity| |vm_compute; reflexivity|vm_compute; reflexivity|].
  - apply Forall_cons. split; [cbn; by intros [[=] _]|]. apply Forall_singleton. cbn. by intros [=].
  - split; [exact H1|]. rewrite decide_False in H2 by discriminate. exact H2.
Defined.

Lemma lock_handover_witness :
  let g := broker_step demo_locked (LockRequest alice (name4 "LOCK") demo_unlock_body) in
  owner_of 0 demo_locked = Some alice ∧
  owner_of 0 (client_lock_request bob (name4 "LOCK") demo_lock_body g).2 = Some bob.
Proof.
  intros g. split; [vm_compute; reflexivity|].
  apply (lock_handover 0 alice bob (name4 "LOCK") demo_lock_body demo_locked
    (LockRequest alice (name4 "LOCK") demo_unlock_body)); try (vm_compute; reflexivity).
  split; [reflexivity|]. by vm_compute.
Defined.

Definition demo_lane : Lane :=
  Some {| lane_owner := alice; lane_store := Some 0%Z; bytes_forwarded := 0; started := Some 0%Z |}.

Lemma lane_exclusive_witness :
  let ops := [LaneCommand demo_locked bob (name4 "FTSU") [] 1; LaneDisconnect bob] in
  let active := foldl (lane_step (transfer_cfg demo_policy)) demo_lane ops in
  client_transfer (transfer_cfg demo_policy) demo_locked bob (name4 "FTDa") [] 2 active =
    (TransferClientDecision.Drop, active).
Proof.
  intros ops active.
  apply (lane_exclusive (transfer_cfg demo_policy) alice bob ops demo_lane demo_locked);
    [reflexivity| |vm_compute; reflexivity|discriminate].
  apply Forall_cons. split; [cbn; by intros [[=] _]|]. apply Forall_singleton. cbn. by intros [=].
Defined.

(** A lock broker in which one client holds every store. *)
#[local] Instance demo_all_stores : StoreOwners SocketAddr.
Proof.
  refine {| so_owner_of := λ _ a, Some a; so_is_owner := λ a b, bool_decide (b = a) |}.
  intros a l. rewrite bool_decide_eq_true. split; [intros ->; by exists 0%Z|]. by intros [_ [= ->]].
Defined.

Lemma lane_outlives_lock_witness :
  client_transfer (transfer_cfg demo_policy) bob bob (name4 "FTSU") [] 1 demo_lane =
    (TransferClientDecision.Drop, demo_lane) ∧
  fanout_owner (transfer_cfg demo_policy) bob demo_lane = Some alice.
Proof.
  apply (lane_outlives_lock (transfer_cfg demo_policy) bob alice bob);
    [reflexivity|reflexivity|discriminate|intros store; reflexivity|vm_compute; reflexivity].
Defined.

(** ** The filter *)

Lemma audio_subscription_tracks_witness :
  let ops := [FilterPayload alice 0 [demo_subscribe]; FilterPayload bob 0 [demo_subscribe];
              FilterDisconnect alice] in
  Forall op_well_formed ops ∧
  let '(sent, st) :=
    foldl (λ '(sent, st) op, let '(out, st) := filter_step demo_policy op st in (sent ++ out, st))
      ([], CommandFilter_new) ops in
  foldl audio_view false sent = negb (bool_decide (clients (audio st) = ∅)).
Proof.
  intros ops.
  assert (Forall op_well_formed ops) as Hops.
  { assert (∀ from now, op_well_formed (FilterPayload from now [demo_subscribe])) as H.
    { intros from now. cbn [op_well_formed]. apply Forall_singleton.
      split; [exact demo_subscribe_ok|intros _; discriminate]. }
    apply Forall_cons. split; [apply H|]. apply Forall_cons. split; [apply H|].
    apply Forall_singleton. exact I. }
  split; [exact Hops|]. exact (audio_subscription_tracks demo_policy ops Hops).
Defined.

Definition demo_lock : CommandRef :=
  {| name := name4 "LOCK"; raw := serialize_command (name4 "LOCK") demo_lock_body;
     body := demo_lock_body |}.

Lemma demo_lock_ok : frame_ok demo_lock.
Proof. apply frame_ok_serialize. unfold demo_lock_body. cbn [length]. lia. Qed.

Lemma safe_mode_witness :
  parse_commands (raw demo_lock) = Ok [demo_lock] ∧
  f_locks (process_payload demo_deny alice 0 (raw demo_lock) CommandFilter_new).2 = ∅.
Proof.
  split; [exact (frame_ok_parse_raw _ demo_lock_ok)|].
  pose proof (safe_mode demo_deny alice 0 (raw demo_lock) [demo_lock] CommandFilter_new
    (frame_ok_parse_raw _ demo_lock_ok) eq_refl eq_refl) as H.
  destruct (process_payload demo_deny alice 0 (raw demo_lock) CommandFilter_new) as [acts st].
  destruct H as [H _]. exact H.
Defined.

Definition demo_frame (n : string) (b : bytes) : CommandRef :=
  {| name := name4 n; raw := serialize_command (name4 n) b; body := b |}.

(** A lock request, an upload, an audio subscription and a cut. *)
Definition demo_mixed : list CommandRef :=
  [demo_lock; demo_frame "FTSU" []; demo_subscribe; demo_frame "DCut" [Byte.x00]].

Lemma demo_mixed_parses : parse_commands (concat (raw <$> demo_mixed)) = Ok demo_mixed.
Proof. vm_compute. reflexivity. Qed.

(** The first sender gets all of it; the second, after it, neither the store nor the
    lane, and its subscription is not sent again. *)
Lemma process_payload_actions_witness :
  let payload := concat (raw <$> demo_mixed) in
  let r1 := process_payload demo_policy alice 0 payload CommandFilter_new in
  let r2 := process_payload demo_policy bob 0 payload r1.2 in
  without_reason <$> r1.1 =
    [FilterAction.Forward (raw demo_lock); FilterAction.Forward (raw (demo_frame "FTSU" []));
     FilterAction.AudioSubscribe true (Some (raw demo_subscribe));
     FilterAction.Forward (raw (demo_frame "DCut" [Byte.x00]))] ∧
  without_reason <$> r2.1 =
    [FilterAction.Dropped (name4 "LOCK") EmptyString; FilterAction.Dropped (name4 "FTSU") EmptyString;
     FilterAction.AudioSubscribe true None; FilterAction.Forward (raw (demo_frame "DCut" [Byte.x00]))].
Proof.
  intros payload r1 r2. subst r2.
  pose proof (process_payload_actions demo_policy alice 0 payload demo_mixed CommandFilter_new
    demo_mixed_parses) as H1. fold r1 in H1. destruct r1 as [acts1 st1]. cbn [fst snd].
  pose proof (process_payload_actions demo_policy bob 0 payload demo_mixed st1 demo_mixed_parses) as H2.
  destruct (process_payload demo_policy bob 0 payload st1) as [acts2 st2]. cbn [fst].
  assert (view_of st1 = (policy_commands demo_policy alice demo_mixed (view_of CommandFilter_new)).2)
    as Hv by by rewrite H1. rewrite Hv in H2.
  apply (f_equal fst) in H1, H2. cbn [fst] in H1, H2. rewrite <- H1, <- H2.
  split; vm_compute; reflexivity.
Defined.

Lemma malformed_payload_bypasses_policy_witness :
  process_payload demo_deny alice 0 (raw demo_lock ++ [Byte.x00]) CommandFilter_new =
    ([FilterAction.Forward (raw demo_lock ++ [Byte.x00])], CommandFilter_new).
Proof.
  apply (malformed_payload_bypasses_policy demo_deny alice 0 demo_lock Byte.x00 CommandFilter_new);
    [exact demo_lock_ok|vm_compute; reflexivity|reflexivity].
Defined.

(** ** The protocol crate *)

Definition demo_ep : ReliableEndpoint := ReliableEndpoint_new 0 0x8001 ReliableConfig_default.

Lemma demo_ep_ok : ep_ok demo_ep.
Proof. apply ep_ok_new. unfold is_u16. lia. Qed.

(** One payload queued and sent. *)
Definition demo_sent : ReliableEndpoint :=
  (poll_outbound 0 0 0 (queue_payload demo_select demo_ep)).2.

Lemma demo_sent_ok : ep_ok demo_sent.
Proof. apply ep_ok_poll_outbound, ep_ok_queue_payload, demo_ep_ok. Qed.

Lemma demo_select_fits : fits demo_select.
Proof. apply fits_small. vm_compute. lia. Qed.

Lemma demo_ep_stream_ok : stream_ok demo_ep.
Proof. apply stream_ok_new. unfold is_u16. lia. Qed.

Lemma demo_queued_stream_ok : stream_ok (queue_payload demo_select demo_ep).
Proof.
  destruct demo_ep_stream_ok as [H _ _]. split; [apply ep_ok_queue_payload; exact H| |constructor].
  apply Forall_singleton. exact demo_select_fits.
Qed.

(** The first poll sends what was queued, as packet 0, and keeps it pending. *)
Lemma ep_apply_refines_fifo_witness :
  let '(out, ep') := ep_apply (OpPoll 0 0 0) (queue_payload demo_select demo_ep) in
  reliable_sends out = [(false, 0%Z, demo_select)] ∧
  fifo_of ep' = {| f_items := [demo_select]; f_sent := 1; f_next := 1 |}.
Proof.
  pose proof (ep_apply_refines_fifo (OpPoll 0 0 0) (queue_payload demo_select demo_ep)
    demo_queued_stream_ok I) as H.
  destruct (ep_apply (OpPoll 0 0 0) (queue_payload demo_select demo_ep)) as [out ep'].
  destruct H as [_ H].
  pose proof (f_equal fst H) as H1. pose proof (f_equal snd H) as H2. cbn [fst snd] in H1, H2.
  rewrite <- H1, <- H2. split; vm_compute; reflexivity.
Defined.

Lemma accept_in_order_witness :
  (accept_all [(1, false); (0, false); (0, true); (1, false)]%Z demo_ep).1 = ids_from 0 2.
Proof.
  destruct (accept_all [(1, false); (0, false); (0, true); (1, false)]%Z demo_ep) as [ids ep'] eqn:E.
  destruct (accept_in_order [(1, false); (0, false); (0, true); (1, false)]%Z demo_ep ids ep'
    demo_ep_ok) as (H & _); [|exact E|].
  - repeat (apply Forall_cons; split; [unfold is_u16; lia|]). apply Forall_nil_2.
  - vm_compute in E. injection E as <- <-. exact H.
Defined.

Lemma on_ack_id_cumulative_witness :
  length (in_flight demo_sent) = 1 ∧ in_flight (on_ack_id 0 demo_sent) = [].
Proof.
  split; [vm_compute; reflexivity|].
  destruct (in_flight demo_sent) as [|e q] eqn:E; [by vm_compute in E|].
  destruct (on_ack_id_cumulative demo_sent demo_sent_ok) as [H _]; [by rewrite E|].
  rewrite E in H. specialize (H 0 e eq_refl ltac:(lia)).
  assert (entry_id e = 0%Z ∧ q = []) as [He Hq].
  { vm_compute in E. injection E as <- <-. split; reflexivity. }
  rewrite He, Hq in H. exact H.
Defined.

(** One payload through two rounds: the acknowledgements leave nothing pending, and it
    is the only payload sent. *)
Lemma drain_terminates_witness :
  outbound (queue_payload demo_select demo_ep) = [demo_select] ∧
  let '(out, ep') := drain 2 0 (queue_payload demo_select demo_ep) in
  stream ep' = [] ∧ nonempty (snd <$> first_sends out) = [demo_select].
Proof.
  split; [reflexivity|].
  pose proof (drain_terminates 0 1 (queue_payload demo_select demo_ep) demo_queued_stream_ok
    ltac:(cbn; lia) ltac:(cbn; lia)) as H.
  destruct (drain 2 0 (queue_payload demo_select demo_ep)) as [out ep']. destruct H as (Hs & Hp & _).
  split; [exact Hs|]. rewrite Hp. vm_compute. reflexivity.
Defined.

Lemma queue_commands_packed_groups_witness :
  ∃ groups : list (list bytes),
    outbound (queue_commands_packed [demo_select; demo_program] demo_ep) = [] ++ (concat (A:=byte) <$> groups) ∧
    concat groups = [demo_select; demo_program] ∧ Forall packed_group groups.
Proof.
  apply (queue_commands_packed_groups [demo_select; demo_program] demo_ep).
  apply Forall_cons. split; [discriminate|]. apply Forall_singleton. discriminate.
Defined.

Lemma packet_roundtrip_witness :
  let h := with_packet_id (PacketHeader_new ACK_REQUEST 0x8001 0) 7 in
  decode_packet (encode_packet h demo_select ++ [Byte.xff]) =
    Ok (with_length h (Z.of_nat (HEADER_LEN + length demo_select)), demo_select).
Proof.
  intros h. apply (packet_roundtrip h demo_select [Byte.xff]).
  - split; vm_compute; split; (discriminate || reflexivity).
  - exact demo_select_fits.
Defined.

Lemma frames_roundtrip_witness :
  ∃ cs, parse_commands (concat ((λ '(n, b), serialize_command n b) <$>
      [(name4 "CPgI", [Byte.x01]); (name4 "DCut", [])])) = Ok cs ∧
    (λ c, (name c, body c)) <$> cs = [(name4 "CPgI", [Byte.x01]); (name4 "DCut", [])].
Proof.
  apply (frames_roundtrip [(name4 "CPgI", [Byte.x01]); (name4 "DCut", [])]).
  apply Forall_cons. split; [cbn [length]; lia|]. apply Forall_singleton. cbn [length]. lia.
Defined.

Lemma cache_keys_bounded_witness :
  demo_key ∈ (im_entries (cmap (foldl apply_cache_op (StateCache_new (M := DemoMap))
    [OpIngest demo_payload]))).*1 ∧ length (key_identity demo_key) ≤ 4.
Proof.
  assert (demo_key ∈ (im_entries (cmap (foldl apply_cache_op (StateCache_new (M := DemoMap))
    [OpIngest demo_payload]))).*1) as H.
  { replace (im_entries _) with [(demo_key, demo_program)] by (vm_compute; reflexivity).
    cbn. left. }
  split; [exact H|]. exact (proj1 (cache_keys_bounded [OpIngest demo_payload] demo_key demo_key H H)).
Defined.

(** ** Configuration *)

(** An environment that enables the SoftAtem profile, and no files. *)
Definition demo_env (v : string) : option str :=
  if String.eqb v "ATEM_PROXY_SOFTATEM" then Some (chars "Yes") else None.
Definition demo_cli : Cli :=
  {| cli_config := None; cli_atem := Some (chars "10.0.0.7"); cli_bind := None; cli_mdns := None;
     cli_softatem := Some false; cli_log := None |}.
Definition demo_config : Config :=
  normalize (set_atem (chars "10.0.0.7") (set_softatem true Config_default)).

Lemma demo_config_loads :
  Config_load demo_env (λ _, false) (λ _, None) (λ _, None) None (Some (chars "10.0.0.7")) None None None =
    Ok demo_config.
Proof. vm_compute. reflexivity. Qed.

(** The command line sets the address and clears the SoftAtem flag that the
    environment sets; what the flag enabled stays, and the default gives the rest. *)
Lemma config_layers_witness :
  ∃ cfg, load_cfg demo_env (λ _, false) (λ _, None) (λ _, None) demo_cli = Ok cfg ∧
    atem cfg = chars "10.0.0.7" ∧ softatem (compat cfg) = false ∧ mode (locks cfg) = SingleOwner ∧
    enabled (media cfg) = true ∧ client_idle_ms cfg = 5000%Z ∧ max_upload_mb (media cfg) = 64%Z.
Proof.
  destruct (load_cfg demo_env (λ _, false) (λ _, None) (λ _, None) demo_cli) as [cfg|e] eqn:E;
    [|by vm_compute in E].
  exists cfg. split; [reflexivity|].
  destruct (config_layers demo_env (λ _, false) (λ _, None) (λ _, None) demo_cli cfg E) as (base & Hb & ->).
  assert (base = Config_default) as -> by by injection Hb as <-.
  split_and!; reflexivity.
Defined.

Lemma atem_addr_ipv4_witness :
  atem_addr demo_config = Ok (V4 [10; 0; 0; 7]%Z ATEM_UDP_PORT).
Proof.
  apply (atem_addr_ipv4 demo_config 10 0 0 7 80); try lia; [unfold is_u16; lia|].
  vm_compute. reflexivity.
Defined.

(** ** The command line and the service *)

(** Every call of the operating system succeeds; no environment, no file. *)
Definition demo_success (c : call) : bool := true.
Definition demo_foreground : Cli :=
  {| cli_config := None; cli_atem := None; cli_bind := None; cli_mdns := None;
     cli_softatem := Some true; cli_log := None |}.
Definition demo_foreground_cfg : Config := normalize (set_softatem true Config_default).

(** With a file to read: a configuration that parses, and one that does not. *)
Lemma service_lifecycle_witness :
  let body text := run_service_body demo_success (λ _, None) (λ _, true) (λ _, Some (chars "x"))
                     (λ _, text) (λ _, true) (λ _, None) in
  (∃ before addr, trace (body (Some Config_default)) =
     [RegisterHandler SERVICE_NAME; SetStatus running_status] ++ before ++
     [NewRuntime; SpawnUpstream addr 1000;
      RunServer (bind Config_default) (policy_of Config_default) 5000; SetStatus stopped_status]) ∧
  trace (body None) = [RegisterHandler SERVICE_NAME; SetStatus running_status].
Proof.
  pose proof (λ text, service_lifecycle demo_success (λ _, None) (λ _, true) (λ _, Some (chars "x"))
    (λ _, text) (λ _, true) (λ _, None) eq_refl eq_refl) as H.
  split; [|exact (proj1 (proj2 (proj2 (proj2 (H None)))))].
  destruct (H (Some Config_default)) as (_ & _ & _ & _ & _ & Ht & _). cbv zeta in Ht.
  eexists _, (V4 [192; 168; 1; 50]%Z 9910). rewrite Ht. reflexivity.
Defined.

Lemma foreground_policy_witness :
  ∃ p, RunServer (bind demo_foreground_cfg) p (client_idle_ms demo_foreground_cfg) ∈
    trace (main demo_success [] (λ _, []) (λ _, None) (λ _, false) (λ _, None) (λ _, None) (λ _, true)
             demo_foreground None) ∧
  lock_mode p = SingleOwner.
Proof.
  assert (RunServer (bind demo_foreground_cfg) (policy_of demo_foreground_cfg) (client_idle_ms demo_foreground_cfg) ∈
    trace (main demo_success [] (λ _, []) (λ _, None) (λ _, false) (λ _, None) (λ _, None) (λ _, true)
             demo_foreground None)) as Hin.
  { apply list_elem_of_In. vm_compute. repeat (first [left; reflexivity|right]). }
  exists (policy_of demo_foreground_cfg). split; [exact Hin|].
  destruct (foreground_policy demo_success [] (λ _, []) (λ _, None) (λ _, false) (λ _, None) (λ _, None)
    (λ _, true) demo_foreground _ _ _ Hin) as (_ & _ & _ & _ & _ & H & _).
  apply H. reflexivity.
Defined.

Lemma orphaned_lock_witness :
  let r1 := client_lock_request alice (name4 "LOCK") demo_lock_body LockBroker_new in
  let r2 := LockBroker_client_disconnected alice r1.2 in
  owner_of 0 (on_upstream_lock_status (serialize_command (name4 "LKST") demo_lock_body) r2.2) = None ∧
  r1.1 = LockDecision.Forward.
Proof.
  destruct (orphaned_lock 0 alice (name4 "LOCK") demo_lock_body (name4 "LKST") demo_lock_body
    LockBroker_new) as (H1 & _ & H2 & _); [reflexivity..| |split; [exact H2|exact H1]].
  cbn [length demo_lock_body]. lia.
Defined.

(** ** The announcement *)

(** The switcher is not ready at the first poll, and has a name at the second. *)
Definition demo_polls : list Poll :=
  [{| is_cancelled := false; poll_ready := false; poll_product := None; poll_version := None |};
   {| is_cancelled := false; poll_ready := true; poll_product := Some (chars "ATEM 1 M/E");
      poll_version := Some (2, 30)%Z |}].
Definition demo_announcement : announcement :=
  spawn_mdns_announcer true (Some [(true, Some (chars "127.0.0.1")); (false, Some (chars "10.0.0.7"))])
    (Some (chars "studio")) (λ _, true) (λ _, true) demo_polls 9910.

Lemma announcement_spec_witness :
  match demo_announcement with
  | Announced r =>
      record_instance r = chars "ATEM 1 M-E (Proxy)" ∧ clean_instance (record_instance r) ∧
      record_host r = chars "studio.local." ∧ record_ip r = chars "10.0.0.7"
  | _ => False
  end.
Proof.
  destruct demo_announcement as [|e|r] eqn:E; [vm_compute in E; discriminate E..|].
  destruct (announcement_spec true _ (Some (chars "studio")) (λ _, true) (λ _, true) demo_polls 9910 r E)
    as (_ & _ & _ & Hc & _).
  vm_compute in E. injection E as <-. split_and!; [reflexivity|exact Hc|reflexivity..].
Defined.
