(* ===== verification/Races.v ===== *)
(** * Sessions and the loss of the switcher

    A session with a client belongs to one session with the switcher: only a client
    that greets while the switcher is there gets one, and the fan-out task drops all
    of them when the switcher is lost.  With whole handlers as steps the rule holds
    ([no_stale_sessions]); with suspended handlers it has two exceptions, shown by
    concrete runs: [late_insertion] at an await, [release_race] at a point of the tick
    where another thread gets in. *)

From S2P Require Import Tasks Witnesses.
Open Scope nat_scope.

#[local] Existing Instance demo_lock_iter.
#[local] Existing Instance demo_session_iter.

(** ** Whole handlers *)
Section stale.
  Context {M : Type} `{!IndexMap M CacheKey bytes}.
  Context `{!HashIter Z StoreLock} `{!HashIter SocketAddr ClientSession}.
  Implicit Types (w : World M) (u : Upstream M).

(** The fan-out task does not fall behind. *)
Definition punctual_step (p : FilterPolicy) (client_idle_ms : Z) w w' : Prop :=
  ∃ act up sv, act ≠ ActLag ∧ world_act p client_idle_ms act w up sv w'.

Lemma handle_payload_connected payload u :
  connected u = true → connected (handle_upstream_payload payload u).2 = true.
Proof.
  intros H. unfold handle_upstream_payload, mark_ready.
  destruct (parse_commands payload) as [cmds|]; [|done].
  cbv zeta. set (k := foldl route_command no_chunks cmds).
  destruct (is_nil (state_chunk k)), (saw_incm k); cbn; try done; by destruct (connected u).
Qed.

(** Only the end of a session with the switcher lowers the flag. *)
Lemma session_step_connected i u out u' :
  session_step i u = Continue out u' → connected u = true → connected u' = true.
Proof.
  intros Hs Hu. destruct i as [| |raw more now t1 t2|data now|t_idle now t1 t2|];
    cbn [session_step] in Hs; try done.
  - unfold on_command, flush in Hs. destruct (long_enough raw); [|by injection Hs as <- <-].
    destruct (poll_outbound _ _ _ _) as [pkts r]. by injection Hs as <- <-.
  - pose proof (handle_payload_connected) as Hp. unfold on_datagram in Hs.
    destruct (decode_packet data) as [[hdr payload]|]; [|by injection Hs as <- <-].
    set (r := if contains (flags hdr) ACK_REPLY || _ then _ else _) in Hs.
    assert (∀ r, connected (handle_upstream_payload payload (set_u_rel r u)).2 = true) as Hh
      by (intros r'; by apply Hp).
    destruct (is_handshake_packet _); [by injection Hs as <- <-|].
    destruct (contains (flags hdr) ACK_REQUEST).
    + destruct (accept_reliable _ _ r) as [ok r']. specialize (Hh r').
      destruct ok; cbn [negb] in Hs; [|by injection Hs as <- <-].
      destruct (is_nil payload); cbn [negb] in Hs; [by injection Hs as <- <-|].
      change (set_u_rel r' (set_u_rel _ u)) with (set_u_rel r' u) in Hs.
      destruct (handle_upstream_payload _ _). by injection Hs as <- <-.
    + specialize (Hh r). destruct (is_nil payload); cbn [negb] in Hs; [by injection Hs as <- <-|].
      change (set_u_rel r (set_u_rel _ u)) with (set_u_rel r u) in Hs.
      destruct (handle_upstream_payload _ _). by injection Hs as <- <-.
  - destruct (is_timed_out t_idle (u_rel u)); [done|]. unfold on_tick, flush in Hs.
    assert (connected (if bool_decide (pending_cmds u = []) then u else queue_pending u) = true) as Hq
      by (by case_bool_decide).
    destruct (poll_outbound _ _ _ _) as [pkts r]. by injection Hs as <- <-.
Qed.

Lemma datagram_session_appears p data addr up g t_new now srv a s' :
  sessions (on_client_packet (M:=M) p data addr up g t_new now srv).2 !! a = Some s' →
  up = true ∨ is_Some (sessions srv !! a).
Proof.
  unfold on_client_packet, handle_datagram. destruct (decode_packet data) as [[hdr payload]|];
    cbn [mbind Result_bind]; [|by right].
  destruct (is_handshake_packet _); [destruct up; [by left|by right]|].
  destruct (sessions srv !! addr) as [s|] eqn:E; [|by right].
  destruct (session_datagram _ _ _ _ _ _ _ _) as [[[retransmit cmds] s1] f1]. cbn [snd sessions].
  intros [[<- _]|[_ H]]%lookup_insert_Some; right; eauto.
Qed.

Definition sessions_justified w : Prop :=
  ∀ a, is_Some (sessions (w_srv w) !! a) → connected (w_up w) = true ∨ Disconnected ∈ w_queue w.

Lemma punctual_step_justified p client_idle_ms w w' :
  punctual_step p client_idle_ms w w' → sessions_justified w → sessions_justified w'.
Proof.
  intros (act & up & sv & Hne & Ha) Hw.
  destruct Ha as [t_new t_ack reply r acks w|i out u w chan Hl Hc Hs|w r|data addr t_new now w g r
    |e queue w Hq g|w Hq g|now clock w r]; intros a Hsome;
    unfold after_upstream, after_server in *; cbn [w_srv w_up w_queue] in *.
  - rewrite elem_of_app. destruct (Hw a Hsome); auto.
  - rewrite elem_of_app. destruct (Hw a Hsome) as [Hcon|]; [|auto]. left.
    by eapply session_step_connected.
  - right. rewrite elem_of_app. right. by apply list_elem_of_singleton.
  - destruct Hsome as [s' Hs']. destruct (datagram_session_appears _ _ _ _ _ _ _ _ _ _ Hs') as [H|H].
    + by left.
    + exact (Hw a H).
  - destruct Hsome as [s' Hs']. destruct (on_event_session _ _ _ _ _ _ Hs') as (s & Hs & _).
    destruct (Hw a) as [H|H]; [by exists s|by left|]. rewrite Hq in H. right.
    apply elem_of_cons in H as [<-|H]; [|done]. cbn in Hs'. by rewrite lookup_empty in Hs'.
  - done.
  - destruct Hsome as [s' Hs']. subst r. rewrite tick_sessions in Hs'.
    apply bind_Some in Hs' as (s & Hs & _). exact (Hw a (ex_intro _ s Hs)).
Qed.

(** C8. No stale session.  In every state that whole handlers reach, as long as the
    fan-out task does not fall behind: once the switcher is lost and the news has
    reached the fan-out task, no client has a session. *)
Theorem no_stale_sessions p client_idle_ms t0 w :
  rtc (punctual_step p client_idle_ms) (world_init t0) w →
  connected (w_up w) = false → Disconnected ∉ w_queue w → sessions (w_srv w) = ∅.
Proof.
  intros Hr Hc Hq.
  assert (sessions_justified w) as Hw.
  { assert (sessions_justified (world_init (M:=M) t0)) as H0
      by (intros a [s Hs]; cbn in Hs; by rewrite lookup_empty in Hs).
    induction Hr as [w|w w1 w2 Hs _ IH]; [done|].
    by apply IH, (punctual_step_justified p client_idle_ms w). }
  apply map_empty. intros a. destruct (sessions (w_srv w) !! a) eqn:E; [|done].
  destruct (Hw a) as [H|H]; [by eexists|congruence|done].
Qed.
End stale.

(** ** Suspended handlers *)

Abbreviation DemoTasks := (Tasks DemoMap).

Definition idle_tasks (w : World DemoMap) : DemoTasks := {| tw := w; rx := RxIdle; tk := TkIdle |}.

(** A reachable state, whatever was sent to get there. *)
Definition demo_tasks (m : DemoTasks) : Prop := tasks_reachable demo_policy 5000 0 m.

Lemma demo_tasks_step m out m' :
  demo_tasks m → task_step demo_policy 5000 m out m' → demo_tasks m'.
Proof.
  intros [out0 Hr] Hs. exists (out0 ++ out). eapply task_run_trans; [done|by apply task_run_one].
Qed.

Lemma demo_tasks_turn w act up sv w' :
  demo_tasks (idle_tasks w) → world_act demo_policy 5000 act w up sv w' →
  (length (w_chan w') <=? COMMAND_CAPACITY) = true → demo_tasks (idle_tasks w').
Proof.
  intros [out0 Hr] Ha Hc%Nat.leb_le. exists (out0 ++ sv). eapply task_run_trans; [done|].
  by apply (turn_run _ _ act w up sv w').
Qed.

(** The tasks after each kind of step. *)
Definition greeted (addr : SocketAddr) (m : DemoTasks) : DemoTasks :=
  let srv := w_srv (tw m) in
  let srv' := {| sessions := sessions srv; next_sid := as_u16 (next_sid srv + 1);
                 s_filter := s_filter srv |} in
  {| tw := with_server srv' [] (tw m); rx := RxInsert addr (server_session_id (next_sid srv));
     tk := tk m |}.
Definition inserted (addr : SocketAddr) (session : Z) (now : Instant) (m : DemoTasks) : DemoTasks :=
  let w := tw m in
  let srv' := insert_session now now addr session (w_srv w) in
  {| tw := after_server srv' [] (w_queue w)
             (log_datagram (u_cache (w_up w)) addr (w_srv w) srv' (w_logs w)) w;
     rx := RxIdle; tk := tk m |}.
Definition received (addr : SocketAddr) (data : bytes) (now : Instant) (m : DemoTasks) : DemoTasks :=
  let w := tw m in
  let g := u_cache (w_up w) in
  let r := on_client_packet demo_policy data addr (connected (w_up w)) g now now (w_srv w) in
  {| tw := after_server r.2 [] (w_queue w) (log_datagram g addr (w_srv w) r.2 (w_logs w)) w;
     rx := RxForward (commands_out r.1); tk := tk m |}.
Definition rx_idle (m : DemoTasks) : DemoTasks := {| tw := tw m; rx := RxIdle; tk := tk m |}.

Definition demo_hello : bytes := build_client_handshake 0x1234.

Lemma greeted_step addr m :
  rx m = RxIdle → connected (w_up (tw m)) = true → StateCache_is_ready (u_cache (w_up (tw m))) = true →
  demo_tasks m → demo_tasks (greeted addr m).
Proof.
  intros Hr Hc Hd Hm. destruct (decode_packet demo_hello) as [[hdr payload]|] eqn:E; [|by vm_compute in E].
  eapply demo_tasks_step; [exact Hm|]. apply (ts_greet _ _ demo_hello addr hdr payload m); try done.
  revert E. vm_compute. by intros [= <- <-].
Qed.

Lemma inserted_step addr session now m :
  rx m = RxInsert addr session → demo_tasks m → demo_tasks (inserted addr session now m).
Proof. intros Hr Hm. eapply demo_tasks_step; [exact Hm|]. by apply ts_insert. Qed.

Lemma received_step addr data now m :
  rx m = RxIdle → is_greeting data = false → demo_tasks m → demo_tasks (received addr data now m).
Proof.
  intros Hr Hg Hm. eapply demo_tasks_step; [exact Hm|]. apply ts_datagram; [done|]. by rewrite Hg.
Qed.

Lemma rx_idle_step m : rx m = RxForward [] → demo_tasks m → demo_tasks (rx_idle m).
Proof. intros Hr Hm. eapply demo_tasks_step; [exact Hm|]. by apply ts_rx_done. Qed.

(** *** A session inserted after the switcher was lost *)

(** The switcher's state is complete, its events taken. *)
Definition late_w : World DemoMap := demo_event (demo_event demo_w2).

Lemma late_w_tasks : demo_tasks (idle_tasks late_w).
Proof.
  assert (demo_tasks (idle_tasks demo_w0)) as H0 by (exists []; constructor).
  assert (demo_tasks (idle_tasks demo_w1)) as H1.
  { eapply demo_tasks_turn; [exact H0| |reflexivity].
    apply (world_open demo_policy 5000 0 0 (build_server_handshake_reply 0x8001) demo_rel demo_acks
      demo_w0); vm_compute; reflexivity. }
  assert (demo_tasks (idle_tasks demo_w2)) as H2.
  { eapply demo_tasks_turn; [exact H1| |reflexivity].
    apply (world_turn demo_policy 5000 demo_input demo_turn.1 demo_turn.2 demo_w1 []);
      [reflexivity|reflexivity|apply demo_turn_step]. }
  assert (∀ w e queue, w_queue w = e :: queue → (length (w_chan (demo_event w)) <=? COMMAND_CAPACITY) = true →
    demo_tasks (idle_tasks w) → demo_tasks (idle_tasks (demo_event w))) as He.
  { intros w e queue Hq Hc Hw. eapply demo_tasks_turn; [exact Hw| |exact Hc].
    unfold demo_event. rewrite Hq. by apply world_event. }
  assert (∃ e1 e2, w_queue demo_w2 = [e1; e2] ∧ w_queue (demo_event demo_w2) = [e2]) as (e1 & e2 & Q1 & Q2)
    by (eexists _, _; split; vm_compute; reflexivity).
  eapply He; [exact Q2|vm_compute; reflexivity|]. eapply He; [exact Q1|vm_compute; reflexivity|done].
Qed.

Definition late_greeted : DemoTasks := greeted alice (idle_tasks late_w).
Definition late_ended : DemoTasks :=
  let r := session_end (w_up (tw late_greeted)) in
  {| tw := after_upstream r.2 r.1 false (w_chan (tw late_greeted)) (tw late_greeted);
     rx := rx late_greeted; tk := tk late_greeted |}.
Definition late_cleared : DemoTasks :=
  {| tw := demo_event (tw late_ended); rx := rx late_ended; tk := tk late_ended |}.
Definition late_inserted : DemoTasks := inserted alice 0x8001 20 late_cleared.
Definition late_opened : DemoTasks := rx_idle (received alice (build_ack_reply 0x8001 0 0) 30 late_inserted).

Lemma late_cleared_tasks : demo_tasks late_cleared.
Proof.
  assert (demo_tasks late_greeted) as H1
    by (apply greeted_step; [reflexivity|vm_compute; reflexivity..|exact late_w_tasks]).
  assert (demo_tasks late_ended) as H2.
  { eapply demo_tasks_step; [exact H1|].
    apply (ts_atomic _ _ ActEnd _ _ late_greeted eq_refl (world_end _ _ (tw late_greeted))). }
  assert (w_queue (tw late_ended) = [Disconnected]) as Hq by (vm_compute; reflexivity).
  eapply demo_tasks_step; [exact H2|]. apply (ts_atomic _ _ ActEvent [] _ late_ended eq_refl).
  unfold demo_event. rewrite Hq. by apply world_event.
Qed.

(** C39. The first exception: the receive loop suspends between answering a greeting
    and inserting the session.  If the switcher is lost there and the fan-out task
    drops the sessions, the session comes after; in this run no session with the
    switcher is open and no event is waiting, yet the client's session is open, and
    the dump it was sent is the synthetic end of a dump alone. *)
Theorem late_insertion :
  ∃ (m : DemoTasks) s, demo_tasks m ∧
    w_live (tw m) = false ∧ connected (w_up (tw m)) = false ∧ w_queue (tw m) = [] ∧
    rx m = RxIdle ∧ tk m = TkIdle ∧ sessions (w_srv (tw m)) !! alice = Some s ∧ opened s = true ∧
    w_logs (tw m) alice = [synthetic_init_complete].
Proof.
  exists late_opened, (demo_session (tw late_opened)). split; [|vm_compute; done].
  apply rx_idle_step; [vm_compute; reflexivity|]. apply received_step; [reflexivity|vm_compute; reflexivity|].
  apply inserted_step; [vm_compute; reflexivity|]. exact late_cleared_tasks.
Qed.

(** *** A client that comes back before it is released *)

Definition lock_store0 : bytes := serialize_command (name4 "LOCK") demo_lock_body.

(** A client has a session that goes silent; the tick removes it. *)
Definition race_now : Instant := from_secs 100.
Definition race_open : DemoTasks :=
  rx_idle (received alice (build_ack_reply 0x8001 0 0) 20
    (inserted alice 0x8001 20 (greeted alice (idle_tasks late_w)))).
Definition race_removed : DemoTasks :=
  let r := tick_poll (idle_of 5000) race_now (λ _, (race_now, race_now)) (w_srv (tw race_open)) in
  {| tw := with_server r.1.1 [] (tw race_open); rx := rx race_open; tk := TkRelease r.1.2 r.2 |}.

(** It greets again, acknowledges and takes the lock of a store. *)
Definition race_back : DemoTasks :=
  rx_idle (received alice (build_ack_reply 0x8002 0 0) race_now
    (inserted alice 0x8002 race_now (greeted alice race_removed))).
Definition race_locking : DemoTasks :=
  received alice (encode_packet (with_packet_id (PacketHeader_new ACK_REQUEST 0x8002 0) 1) lock_store0)
    race_now race_back.
Definition race_locked : DemoTasks :=
  rx_idle {| tw := with_server (w_srv (tw race_locking)) [SvCommand lock_store0] (tw race_locking);
             rx := RxForward []; tk := tk race_locking |}.
Definition race_released : DemoTasks :=
  let srv := w_srv (tw race_locked) in
  let r := CommandFilter_client_disconnected alice (s_filter srv) in
  {| tw := with_server (set_filter r.2 srv) [] (tw race_locked); rx := rx race_locked;
     tk := TkForward r.1 [] [] |}.

Lemma race_removed_tasks : demo_tasks race_removed.
Proof.
  eapply demo_tasks_step; [|by apply ts_tick].
  apply rx_idle_step; [vm_compute; reflexivity|].
  apply received_step; [reflexivity|vm_compute; reflexivity|].
  apply inserted_step; [vm_compute; reflexivity|].
  apply greeted_step; [reflexivity|vm_compute; reflexivity..|exact late_w_tasks].
Qed.

Lemma race_locked_tasks : demo_tasks race_locked.
Proof.
  assert (demo_tasks race_locking) as H.
  { apply received_step; [reflexivity|vm_compute; reflexivity|].
    apply rx_idle_step; [vm_compute; reflexivity|].
    apply received_step; [reflexivity|vm_compute; reflexivity|].
    apply inserted_step; [vm_compute; reflexivity|].
    apply greeted_step; [reflexivity|vm_compute; reflexivity..|exact race_removed_tasks]. }
  apply rx_idle_step; [reflexivity|]. eapply demo_tasks_step; [exact H|].
  apply ts_rx_send; [vm_compute; reflexivity|]. apply Nat.ltb_lt. vm_compute. reflexivity.
Qed.

(** The store is owned by [a], in the filter that the server shares. *)
Definition store_owner (store : Z) (m : DemoTasks) : option SocketAddr :=
  owner_of store (f_locks (s_filter (w_srv (tw m)))).

(** C40. The second exception: the tick releases what a dead client held after it has
    given back the lock of the sessions, and by address.  (Between the two the code
    does not await: it is on another thread of the runtime that the receive loop gets
    in between.)  A client that greets again
    in between keeps its new session but loses what it has acquired in it: in this
    run it owns a store, its lock request on its way to the switcher; the next step
    of the tick takes the store from it, its session open and untouched, without an
    unlock, and another client's request for the store would now be forwarded. *)
Theorem release_race :
  ∃ (m m' : DemoTasks) s, demo_tasks m ∧ task_step demo_policy 5000 m [] m' ∧
    sessions (w_srv (tw m)) !! alice = Some s ∧ sessions (w_srv (tw m')) !! alice = Some s ∧
    opened s = true ∧ w_chan (tw m') = [lock_store0] ∧
    store_owner 0 m = Some alice ∧ store_owner 0 m' = None ∧ tk m' = TkForward [] [] [] ∧
    (client_lock_request bob (name4 "LOCK") demo_lock_body (f_locks (s_filter (w_srv (tw m'))))).1 =
      LockDecision.Forward.
Proof.
  exists race_locked, race_released, (demo_session (tw race_locked)).
  split; [exact race_locked_tasks|].
  split; [apply (ts_release _ _ alice [] [] race_locked); vm_compute; reflexivity|].
  vm_compute. split_and!; reflexivity.
Qed.

(** ** The theorems at these runs *)

Definition race_session : ClientSession := demo_session (tw race_locked).

Lemma race_locked_state :
  sessions (w_srv (tw race_locked)) !! alice = Some race_session ∧ opened race_session = true ∧
  w_queue (tw race_locked) = [] ∧
  im_get demo_key (cmap (u_cache (w_up (tw race_locked)))) = Some demo_program.
Proof. vm_compute. done. Qed.

Lemma tasks_converge_witness :
  (∃ acked, w_logs (tw race_locked) alice = acked ++ nonempty (stream (rel race_session))) ∧
  latest demo_key (log_commands (w_logs (tw race_locked) alice)) = Some demo_program.
Proof.
  destruct race_locked_state as (Hs & Ho & Hq & Hk).
  destruct (tasks_converge demo_policy 5000 0 race_locked alice race_session race_locked_tasks Hs Ho)
    as [Hlog Hview].
  split; [exact Hlog|]. exact (Hview Hq _ _ Hk).
Defined.

Lemma tasks_queues_witness : w_chan (tw race_locked) = [lock_store0] ∧ Forall fits [lock_store0].
Proof.
  split; [vm_compute; reflexivity|].
  exact (proj1 (proj2 (tasks_queues demo_policy 5000 0 race_locked race_locked_tasks))).
Defined.

(** The switcher answers, sends its state, a client greets; the switcher is lost. *)
Definition stale_lost : World DemoMap :=
  let r := session_end (w_up (demo_event (demo_event demo_w3))) in
  after_upstream r.2 r.1 false (w_chan demo_w4) demo_w4.

Lemma punctual_event w e queue :
  w_queue w = e :: queue → punctual_step demo_policy 5000 w (demo_event w).
Proof.
  intros Hq. exists ActEvent, [], []. split; [discriminate|]. unfold demo_event. rewrite Hq.
  by apply world_event.
Qed.

Lemma punctual_open : punctual_step demo_policy 5000 demo_w0 demo_w1.
Proof.
  exists (ActOpen (build_server_handshake_reply 0x8001)), (UpSend <$> demo_acks), [].
  split; [discriminate|].
  apply (world_open demo_policy 5000 0 0 _ demo_rel demo_acks demo_w0); vm_compute; reflexivity.
Qed.

Lemma punctual_turn : punctual_step demo_policy 5000 demo_w1 demo_w2.
Proof.
  exists (ActTurn demo_input), demo_turn.1, []. split; [discriminate|].
  apply (world_turn demo_policy 5000 demo_input demo_turn.1 demo_turn.2 demo_w1 []);
    [reflexivity|reflexivity|apply demo_turn_step].
Qed.

Lemma punctual_datagram data w : punctual_step demo_policy 5000 w (demo_datagram data w).
Proof.
  eexists (ActDatagram alice data), _, _. split; [discriminate|].
  exact (world_datagram demo_policy 5000 data alice 20 20 w).
Qed.

Lemma punctual_end : punctual_step demo_policy 5000 demo_w4 stale_lost.
Proof. eexists ActEnd, _, _. split; [discriminate|]. exact (world_end demo_policy 5000 demo_w4). Qed.

Lemma stale_lost_reachable :
  rtc (punctual_step demo_policy 5000) demo_w0 (demo_event stale_lost).
Proof.
  destruct demo_w3_queue as (e1 & e2 & H1 & H2).
  eapply rtc_l; [exact punctual_open|]. eapply rtc_l; [exact punctual_turn|].
  eapply rtc_l; [apply (punctual_datagram (build_client_handshake 0x1234))|].
  eapply rtc_l; [exact (punctual_event demo_w3 _ _ H1)|].
  eapply rtc_l; [exact (punctual_event _ _ _ H2)|].
  eapply rtc_l; [exact punctual_end|].
  apply rtc_once. apply (punctual_event _ Disconnected []). vm_compute. reflexivity.
Qed.

Lemma stale_lost_state :
  is_Some (sessions (w_srv stale_lost) !! alice) ∧
  connected (w_up (demo_event stale_lost)) = false ∧ w_queue (demo_event stale_lost) = [].
Proof. vm_compute. split_and!; [eexists; reflexivity|reflexivity..]. Qed.

Lemma no_stale_sessions_witness :
  is_Some (sessions (w_srv stale_lost) !! alice) ∧
  sessions (w_srv (demo_event stale_lost)) = ∅.
Proof.
  destruct stale_lost_state as (Hs & Hc & Hq). split; [exact Hs|].
  apply (no_stale_sessions demo_policy 5000 0 _ stale_lost_reachable Hc).
  rewrite Hq. intros H. by apply elem_of_nil in H.
Defined.
