(* ===== verification/LinkWitnesses.v ===== *)
(** * The theorems of [Link] at concrete inputs

    The two ends are the ones the proxy itself builds: an upstream session that
    greets the proxy's server, and the client session the server opens for it. *)

From S2P Require Import Link System.
Open Scope Z_scope.

Definition demo_opened : ReliableEndpoint * list bytes :=
  match session_open 0 0 (build_server_handshake_reply 0x8001) with
  | Ok r => r
  | Err _ => (ReliableEndpoint_new 0 0 ReliableConfig_default, [])
  end.
Definition demo_client : ReliableEndpoint := demo_opened.1.
Definition demo_greetings : list bytes := demo_opened.2.
Definition demo_server : ReliableEndpoint := rel (new_session 0 0 0x8001).

Lemma demo_synced : synced demo_client demo_greetings demo_server.
Proof.
  destruct (handshake_synced 0 0 0 0 0x8001) as (r & gs & E & H); [unfold is_u16; lia|].
  unfold demo_client, demo_greetings, demo_opened. rewrite E. exact H.
Qed.

Definition demo_payload (n : nat) : bytes := [byte_of_Z (Z.of_nat n); Byte.x01].

Lemma demo_payload_ok n : demo_payload n ≠ [] ∧ fits (demo_payload n).
Proof. split; [done|]. apply fits_small. cbn. lia. Qed.

(** ** One payload from the server to the client *)

Definition side_a0 : Side := new_side demo_client demo_greetings.
Definition side_b0 : Side := new_side demo_server [].
Definition side_b1 : Side := push [demo_payload 7] (queue_payload (demo_payload 7) (s_ep side_b0)) side_b0.
Definition side_b2 : Side := poll 0 0 0 side_a0 side_b1.
Definition sent_datagram (s : Side) : Datagram :=
  default {| d_src := 0; d_dst := 0; d_bytes := [] |} (head (s_net s)).
Definition side_a1 : Side := deliver (d_bytes (sent_datagram side_b2)) 0 side_b2 side_a0.

Lemma demo_linked : linked demo_client demo_greetings demo_server (side_a1, side_b2).
Proof.
  destruct (demo_payload_ok 7) as [Hne Hf].
  eapply rtc_l; [by apply link_right, step_queue|].
  eapply rtc_l; [apply link_right, (step_poll _ 0 0 0)|].
  apply rtc_once, link_left. apply (step_deliver _ (sent_datagram side_b2) 0).
  - apply (list_elem_of_lookup_2 _ 0). vm_compute. reflexivity.
  - apply fresh_early; vm_compute; discriminate.
Qed.

Lemma link_delivers_witness :
  got side_a1 = [demo_payload 7] ∧ delivered_in_order side_b2 side_a1.
Proof.
  split; [vm_compute; reflexivity|].
  destruct (link_delivers demo_client demo_greetings demo_server side_a1 side_b2 demo_synced demo_linked)
    as [_ H]. exact H.
Defined.

(** ** Thirty-three payloads from the client, and the acknowledgement lost *)

Definition demo_payloads : list bytes := demo_payload <$> seq 0 33.
Definition full_a0 : Side :=
  foldl (λ a p, push [p] (queue_payload p (s_ep a)) a) side_a0 demo_payloads.
Definition full_a1 : Side := poll 0 0 0 side_b0 full_a0.
Definition full_b1 : Side := foldl (λ b d, deliver (d_bytes d) 0 full_a1 b) side_b0 (s_net full_a1).
Definition full_b2 : Side := poll 0 0 0 full_a1 full_b1.
Definition full_b3 : Side := lose 0 full_b2.

Lemma full_queued : linked demo_client demo_greetings demo_server (full_a0, side_b0).
Proof.
  apply push_all. apply Forall_fmap, Forall_forall. intros n _. apply demo_payload_ok.
Qed.

Lemma full_linked : linked demo_client demo_greetings demo_server (full_a1, full_b3).
Proof.
  unfold linked. transitivity (full_a0, side_b0); [exact full_queued|].
  apply (rtc_l _ _ (full_a1, side_b0)); [exact (link_left _ _ _ (step_poll side_b0 0 0 0 full_a0))|].
  transitivity (full_a1, full_b1).
  - apply (deliver_all (s_net full_a1)). apply Forall_forall. intros d Hd. split; [exact Hd|].
    apply fresh_early; vm_compute; discriminate.
  - apply (rtc_l _ _ (full_a1, full_b2)).
    + exact (link_right _ _ _ (step_poll full_a1 0 0 0 full_b1)).
    + apply rtc_once. exact (link_right _ _ _ (step_lose full_a1 0 full_b2)).
Qed.

Lemma full_stalled : stalled full_a1 full_b3.
Proof.
  split; try (vm_compute; (reflexivity || lia || discriminate)).
  vm_compute. apply Forall_nil_2.
Qed.

Lemma lost_ack_stalls_witness :
  length (got full_b3) = 32%nat ∧ length (pushed full_a1) = 33%nat ∧
  ∀ a b, rtc link_step (full_a1, full_b3) (a, b) → sent a = sent full_a1 ∧ got b = got full_b3.
Proof.
  split; [vm_compute; reflexivity|]. split; [vm_compute; reflexivity|]. intros a b Hrun.
  exact (proj2 (lost_ack_stalls demo_client demo_greetings demo_server full_a1 full_b3 a b
    demo_synced full_linked full_stalled Hrun)).
Defined.

(** Before the acknowledgement is lost, all of them can still be delivered. *)
Lemma link_progress_witness :
  ∃ a b, rtc link_step (full_a0, side_b0) (a, b) ∧ nonempty (got b) = demo_payloads.
Proof.
  destruct (link_progress demo_client demo_greetings demo_server full_a0 side_b0 demo_synced
    full_queued) as (a & b & Hrun & _ & Hd).
  - vm_compute. lia.
  - right. right. vm_compute. lia.
  - exists a, b. split; [exact Hrun|]. rewrite Hd. vm_compute. reflexivity.
Defined.
