(* ===== verification/NetWitnesses.v ===== *)
(** * The theorems of [EndToEnd] at a concrete run

    The switcher answers, sends its state and the end of its dump; a client greets,
    acknowledges, gets the dump, and sends a command that reaches the switcher.
    Both peers are the endpoints that the proxy's own code builds. *)

From S2P Require Import Requests Witnesses.
Open Scope Z_scope.

#[local] Existing Instance demo_lock_iter.
#[local] Existing Instance demo_session_iter.

Abbreviation DemoWorld := (World DemoMap).
Abbreviation DemoNet := (Net DemoMap).

(** The first datagram of a side, past the first [k]. *)
Definition nth_bytes (k : nat) (s : Side) : bytes :=
  match s_net s !! k with Some d => d_bytes d | None => [] end.

Lemma nth_in_net k src dst :
  (k < length (s_net src))%nat →
  Z.of_nat (length (sent src)) ≤ 32000 → Z.of_nat (length (sent dst)) ≤ 32000 →
  in_net (nth_bytes k src) src dst.
Proof.
  intros Hk H1 H2. destruct (lookup_lt_is_Some_2 _ _ Hk) as [d Hd]. exists d.
  split; [by eapply list_elem_of_lookup_2|]. split; [unfold nth_bytes; by rewrite Hd|].
  by apply fresh_early.
Qed.

Definition net_turn (i : up_input) (chan : list bytes) (w : DemoWorld) :
    list up_out * DemoWorld :=
  match session_step i (w_up w) with
  | Continue out u => (out, after_upstream u out true chan w)
  | Ended _ => ([], w)
  end.
Definition net_receive (data : bytes) (w : DemoWorld) : list sv_out * DemoWorld :=
  let g := u_cache (w_up w) in
  let r := on_client_packet demo_policy data alice (connected (w_up w)) g 20 20 (w_srv w) in
  (r.1, after_server r.2 r.1 (w_queue w) (log_datagram g alice (w_srv w) r.2 (w_logs w)) w).
Definition net_tick (w : DemoWorld) : list sv_out * DemoWorld :=
  let r := tick (transfer_cfg demo_policy) (idle_of 5000) 30 (λ _, (30, 30)) (w_srv w) in
  (r.1, after_server r.2 r.1 (w_queue w) (w_logs w) w).

(** The turns of the proxy, with the links that follow them. *)
Definition observed_up (i : up_input) (out : list up_out) (w w' : DemoWorld) (sw up : Side) : Side :=
  observe sw (u_rel (w_up w')) (up_sends out) (queued_up i (w_up w)) (accepted_up i (w_up w)) up.
Definition observed_client (act : action) (sv : list sv_out) (w w' : DemoWorld) (cl srv : Side) : Side :=
  observe cl (rel (demo_session w')) (sends_to alice sv)
    (drop (length (w_logs w alice)) (w_logs w' alice)) (accepted_client alice act (w_srv w)) srv.

Definition demo_net_step : DemoNet → DemoNet → Prop := net_step demo_policy 5000 alice.

Definition net_of (w : DemoWorld) (c d : option (Side * Side)) (f : list bytes) : DemoNet :=
  {| n_world := w; n_switcher := c; n_client := d; n_forwarded := f |}.

Section steps.
  Context (c : option (Side * Side)) (fwd : list bytes) (w : DemoWorld).

Lemma net_turn_step i chan r sw up up' :
  w_live w = true → w_chan w = taken i ++ chan →
  (∃ out u, session_step i (w_up w) = Continue out u) → turn_arrives i sw up →
  sessions (w_srv w) !! alice = None →
  r = net_turn i chan w → up' = observed_up i r.1 w r.2 sw up →
  demo_net_step (net_of w (Some (sw, up)) None fwd) (net_of r.2 (Some (sw, up')) None fwd).
Proof.
  intros Hl Hc (out & u & Hs) Harr Hcl -> ->. unfold net_turn, observed_up. rewrite Hs. cbn [fst snd].
  rewrite <- (app_nil_r fwd) at 2.
  apply (net_act demo_policy 5000 alice (ActTurn i) out []).
  - by apply world_turn.
  - unfold may_arrive. cbn [n_switcher net_of]. by destruct i.
  - apply sw_turn.
  - by apply cl_gone.
Qed.

Lemma net_turn_step_client i chan r sw up up' cl srv srv' :
  w_live w = true → w_chan w = taken i ++ chan →
  (∃ out u, session_step i (w_up w) = Continue out u) → turn_arrives i sw up →
  is_Some (sessions (w_srv w) !! alice) →
  r = net_turn i chan w → up' = observed_up i r.1 w r.2 sw up →
  srv' = observed_client (ActTurn i) [] w r.2 cl srv →
  demo_net_step (net_of w (Some (sw, up)) (Some (cl, srv)) fwd)
    (net_of r.2 (Some (sw, up')) (Some (cl, srv')) fwd).
Proof.
  intros Hl Hc (out & u & Hs) Harr [s Hcl] -> -> ->. unfold net_turn, observed_up.
  rewrite Hs. cbn [fst snd]. rewrite <- (app_nil_r fwd) at 2.
  apply (net_act demo_policy 5000 alice (ActTurn i) out []).
  - by apply world_turn.
  - unfold may_arrive. cbn [n_switcher net_of]. by destruct i.
  - apply sw_turn.
  - assert (demo_session (after_upstream u out true chan w) = s) as E
      by (unfold demo_session; change (sessions (w_srv (after_upstream u out true chan w)))
            with (sessions (w_srv w)); by rewrite Hcl).
    unfold observed_client. rewrite E. by apply cl_kept.
Qed.

Lemma net_event_step w' :
  w_queue w ≠ [] → sessions (w_srv w') !! alice = None → w' = demo_event w →
  demo_net_step (net_of w c None fwd) (net_of w' c None fwd).
Proof.
  intros Hq H ->. unfold demo_event in *. destruct (w_queue w) as [|e queue] eqn:E; [done|].
  rewrite <- (app_nil_r fwd) at 2.
  apply (net_act demo_policy 5000 alice ActEvent [] []); [by apply world_event|done|constructor|].
  by apply cl_gone.
Qed.

Lemma net_greet_step data r cl gs s srv fwd' :
  is_greeting data = true → admits alice (ActDatagram alice data) r.1 = true →
  sessions (w_srv r.2) !! alice = Some s → synced cl gs (rel s) →
  r = net_receive data w → srv = new_side (rel s) [] → fwd' = fwd ++ commands_out r.1 →
  demo_net_step (net_of w c None fwd) (net_of r.2 c (Some (new_side cl gs, srv)) fwd').
Proof.
  intros Hg Ha Hs Hsync -> -> ->.
  apply (net_act demo_policy 5000 alice (ActDatagram alice data) [] (net_receive data w).1).
  - exact (world_datagram demo_policy 5000 data alice 20 20 w).
  - intros _. by left.
  - constructor.
  - by apply cl_admitted.
Qed.

Lemma net_receive_step data r cl srv srv' fwd' :
  is_greeting data = false → in_net data cl srv → is_Some (sessions (w_srv r.2) !! alice) →
  r = net_receive data w →
  srv' = observed_client (ActDatagram alice data) r.1 w r.2 cl srv →
  fwd' = fwd ++ commands_out r.1 →
  demo_net_step (net_of w c (Some (cl, srv)) fwd) (net_of r.2 c (Some (cl, srv')) fwd').
Proof.
  intros Hg Hin [s Hs] -> -> ->.
  apply (net_act demo_policy 5000 alice (ActDatagram alice data) [] (net_receive data w).1).
  - exact (world_datagram demo_policy 5000 data alice 20 20 w).
  - intros _. by right.
  - constructor.
  - unfold observed_client, demo_session. rewrite Hs. cbn [default].
    apply cl_kept; [|done]. cbn. by rewrite Hg, andb_false_r.
Qed.

Lemma net_tick_step r cl srv srv' fwd' :
  is_Some (sessions (w_srv r.2) !! alice) →
  r = net_tick w → srv' = observed_client ActTick r.1 w r.2 cl srv → fwd' = fwd ++ commands_out r.1 →
  demo_net_step (net_of w c (Some (cl, srv)) fwd) (net_of r.2 c (Some (cl, srv')) fwd').
Proof.
  intros [s Hs] -> -> ->.
  apply (net_act demo_policy 5000 alice ActTick [] (net_tick w).1).
  - exact (world_tick demo_policy 5000 30 (λ _, (30, 30)) w).
  - done.
  - constructor.
  - unfold observed_client, demo_session. rewrite Hs. by apply cl_kept.
Qed.

Lemma net_switcher_step sw sw' up d :
  side_step up sw sw' → demo_net_step (net_of w (Some (sw, up)) d fwd) (net_of w (Some (sw', up)) d fwd).
Proof. by apply (net_switcher demo_policy 5000 alice sw sw' up (net_of w (Some (sw, up)) d fwd)). Qed.

Lemma net_client_step cl cl' srv :
  side_step srv cl cl' → demo_net_step (net_of w c (Some (cl, srv)) fwd) (net_of w c (Some (cl', srv)) fwd).
Proof. by apply (net_client demo_policy 5000 alice cl cl' srv (net_of w c (Some (cl, srv)) fwd)). Qed.
End steps.

(** Delivering the [k]-th datagram. *)
Lemma nth_deliver k now src dst :
  (k < length (s_net src))%nat →
  Z.of_nat (length (sent src)) ≤ 32000 → Z.of_nat (length (sent dst)) ≤ 32000 →
  side_step src dst (deliver (nth_bytes k src) now src dst).
Proof.
  intros Hk H1 H2. destruct (nth_in_net k src dst Hk H1 H2) as (d & Hd & <- & Hf).
  by apply step_deliver.
Qed.

(** ** The run *)

(** The switcher's endpoint, and its link with the session just opened. *)
Definition net_sw0 : Side := new_side (rel (new_session 0 0 0x8001)) [].
Definition net_up0 : Side := new_side demo_rel (up_sends (UpSend <$> demo_acks)).

(** It sends its state. *)
Definition net_sw1 : Side := push [demo_payload] (queue_payload demo_payload (s_ep net_sw0)) net_sw0.
Definition net_sw2 : Side := poll 5 5 5 net_up0 net_sw1.
Definition net_i3 : up_input := UDatagram (nth_bytes 0 net_sw2) 10.
Definition net_r3 : list up_out * DemoWorld := net_turn net_i3 [] demo_w1.
Definition net_up3 : Side := observed_up net_i3 net_r3.1 demo_w1 net_r3.2 net_sw2 net_up0.

(** The server takes both events; a client greets. *)
Definition net_w4 : DemoWorld := demo_event net_r3.2.
Definition net_w5 : DemoWorld := demo_event net_w4.
Definition net_hello : bytes := build_client_handshake 0x1234.
Definition net_r6 : list sv_out * DemoWorld := net_receive net_hello net_w5.
Definition net_session : ClientSession := demo_session net_r6.2.
Definition net_cl6 : Side := new_side demo_rel demo_acks.
Definition net_srv6 : Side := new_side (rel net_session) [].

(** It acknowledges, and gets the dump. *)
Definition net_data7 : bytes := nth_bytes 0 net_cl6.
Definition net_r7 : list sv_out * DemoWorld := net_receive net_data7 net_r6.2.
Definition net_srv7 : Side :=
  observed_client (ActDatagram alice net_data7) net_r7.1 net_r6.2 net_r7.2 net_cl6 net_srv6.
Definition net_r8 : list sv_out * DemoWorld := net_tick net_r7.2.
Definition net_srv8 : Side := observed_client ActTick net_r8.1 net_r7.2 net_r8.2 net_cl6 net_srv7.
Definition net_cl9 : Side := deliver (nth_bytes 0 net_srv8) 40 net_srv8 net_cl6.

(** It sends a command. *)
Definition net_command : bytes :=
  serialize_command (name4 "CPgI") [Byte.x00; Byte.x00; Byte.x00; Byte.x02].
Definition net_cl10 : Side := push [net_command] (queue_payload net_command (s_ep net_cl9)) net_cl9.
Definition net_cl11 : Side := poll 45 45 45 net_srv8 net_cl10.
Definition net_data12 : bytes := nth_bytes 1 net_cl11.
Definition net_r12 : list sv_out * DemoWorld := net_receive net_data12 net_r8.2.
Definition net_srv12 : Side :=
  observed_client (ActDatagram alice net_data12) net_r12.1 net_r8.2 net_r12.2 net_cl11 net_srv8.
Definition net_i13 : up_input := UCommand net_command [] 50 50 50.
Definition net_r13 : list up_out * DemoWorld := net_turn net_i13 [] net_r12.2.
Definition net_up13 : Side := observed_up net_i13 net_r13.1 net_r12.2 net_r13.2 net_sw2 net_up3.
Definition net_srv13 : Side := observed_client (ActTurn net_i13) [] net_r12.2 net_r13.2 net_cl11 net_srv12.
Definition net_data14 : bytes := nth_bytes (length (s_net net_up13) - 1) net_up13.
Definition net_sw14 : Side := deliver net_data14 60 net_up13 net_sw2.

Lemma net_sync : synced demo_rel demo_acks (rel (new_session 0 0 0x8001)).
Proof.
  destruct (handshake_synced 0 0 0 0 0x8001) as (r & gs & E & H); [unfold is_u16; lia|].
  unfold demo_rel, demo_acks, demo_open. by rewrite E.
Qed.

Lemma net_client_sync : synced demo_rel demo_acks (rel net_session).
Proof.
  destruct (handshake_synced 0 0 20 20 0x8001) as (r & gs & E & H); [unfold is_u16; lia|].
  assert (net_session = new_session 20 20 0x8001) as -> by (vm_compute; reflexivity).
  unfold demo_rel, demo_acks, demo_open. by rewrite E.
Qed.

Ltac net_sizes := vm_compute; first [lia|discriminate].

Lemma net_open_step :
  demo_net_step (net_init 0) (net_of demo_w1 (Some (net_sw0, net_up0)) None []).
Proof.
  apply (net_act demo_policy 5000 alice (ActOpen (build_server_handshake_reply 0x8001))
    (UpSend <$> demo_acks) [] demo_w1 _ _ (net_init 0)); [|done| |].
  - apply (world_open demo_policy 5000 0 0 _ demo_rel demo_acks demo_w0); vm_compute; reflexivity.
  - apply sw_open. rewrite up_sends_fmap. exact net_sync.
  - apply cl_gone. vm_compute. reflexivity.
Qed.

Lemma net_state_steps :
  rtc demo_net_step (net_of demo_w1 (Some (net_sw0, net_up0)) None [])
    (net_of net_w5 (Some (net_sw2, net_up3)) None []).
Proof.
  eapply rtc_l; [apply (net_switcher_step _ _ net_sw0 net_sw1)|].
  { apply step_queue; [done|]. apply fits_small. vm_compute. lia. }
  eapply rtc_l; [apply (net_switcher_step _ _ net_sw1 net_sw2), step_poll|].
  eapply rtc_l.
  { apply (net_turn_step _ _ net_i3 [] net_r3 net_sw2 net_up0 net_up3); [reflexivity|reflexivity| | |
      vm_compute; reflexivity|reflexivity|reflexivity].
    - apply continues_step. vm_compute. reflexivity.
    - right. split; [vm_compute; reflexivity|]. apply nth_in_net; net_sizes. }
  eapply rtc_l; [apply (net_event_step _ _ _ net_w4)|];
    [vm_compute; discriminate|vm_compute; reflexivity|reflexivity|].
  apply rtc_once, net_event_step; [vm_compute; discriminate|vm_compute; reflexivity|reflexivity].
Qed.

Lemma net_client_steps :
  rtc demo_net_step (net_of net_w5 (Some (net_sw2, net_up3)) None [])
    (net_of net_r8.2 (Some (net_sw2, net_up3)) (Some (net_cl9, net_srv8)) []).
Proof.
  eapply rtc_l.
  { apply (net_greet_step _ _ _ net_hello net_r6 demo_rel demo_acks net_session net_srv6 []);
      [vm_compute; reflexivity..|exact net_client_sync|reflexivity|reflexivity|vm_compute; reflexivity]. }
  eapply rtc_l.
  { apply (net_receive_step _ _ _ net_data7 net_r7 _ _ net_srv7 []);
      [vm_compute; reflexivity|apply nth_in_net; net_sizes|eexists; vm_compute; reflexivity|
       reflexivity|reflexivity|vm_compute; reflexivity]. }
  eapply rtc_l.
  { apply (net_tick_step _ _ _ net_r8 _ _ net_srv8 []);
      [eexists; vm_compute; reflexivity|reflexivity|reflexivity|vm_compute; reflexivity]. }
  apply rtc_once, net_client_step. apply nth_deliver; net_sizes.
Qed.

(** These steps keep the session with the switcher. *)
Lemma live_step n n' :
  demo_net_step n n' → w_live (n_world n) = true → same_session demo_policy 5000 alice n n'.
Proof. intros Hs Hl. split; [exact Hs|]. rewrite Hl. discriminate. Qed.

Lemma net_command_run :
  rtc (same_session demo_policy 5000 alice)
    (net_of net_r8.2 (Some (net_sw2, net_up3)) (Some (net_cl9, net_srv8)) [])
    (net_of net_r13.2 (Some (net_sw14, net_up13)) (Some (net_cl11, net_srv13)) [net_command]).
Proof.
  eapply rtc_l; [apply live_step; [apply (net_client_step _ _ _ net_cl9 net_cl10)|vm_compute; reflexivity]|].
  { apply step_queue; [done|]. apply fits_small. vm_compute. lia. }
  eapply rtc_l; [apply live_step;
    [apply (net_client_step _ _ _ net_cl10 net_cl11), step_poll|vm_compute; reflexivity]|].
  eapply rtc_l.
  { apply live_step; [|vm_compute; reflexivity].
    apply (net_receive_step _ _ _ net_data12 net_r12 _ _ net_srv12 [net_command]);
      [vm_compute; reflexivity|apply nth_in_net; net_sizes|eexists; vm_compute; reflexivity|
       reflexivity|reflexivity|vm_compute; reflexivity]. }
  eapply rtc_l.
  { apply live_step; [|vm_compute; reflexivity].
    apply (net_turn_step_client _ _ net_i13 [] net_r13 net_sw2 net_up3 net_up13 net_cl11 net_srv12
      net_srv13); [vm_compute; reflexivity|vm_compute; reflexivity| |exact I|
      eexists; vm_compute; reflexivity|reflexivity..].
    apply continues_step. vm_compute. reflexivity. }
  apply rtc_once, live_step; [|vm_compute; reflexivity]. apply net_switcher_step. apply nth_deliver; net_sizes.
Qed.

Definition net_final : DemoNet :=
  net_of net_r13.2 (Some (net_sw14, net_up13)) (Some (net_cl11, net_srv13)) [net_command].

Lemma net_dumped_reachable :
  reachable_net demo_policy 5000 alice 0
    (net_of net_r8.2 (Some (net_sw2, net_up3)) (Some (net_cl9, net_srv8)) []).
Proof.
  eapply rtc_l; [exact net_open_step|]. etrans; [exact net_state_steps|exact net_client_steps].
Qed.

Lemma net_final_reachable : reachable_net demo_policy 5000 alice 0 net_final.
Proof.
  unfold reachable_net. etrans; [exact net_dumped_reachable|]. eapply rtc_subrel; [|exact net_command_run]. by intros n n' [H _].
Qed.

Lemma net_final_settled :
  rel_opened (s_ep net_srv13) = true ∧ w_queue (n_world net_final) = [] ∧
  all_delivered net_sw14 net_up13 ∧ all_delivered net_srv13 net_cl11.
Proof. vm_compute. done. Qed.

Lemma end_to_end_state_witness :
  delivered_in_order net_srv13 net_cl11 ∧
  latest demo_key (log_commands (got net_cl11)) = Some demo_program.
Proof.
  destruct net_final_settled as (Ho & Hq & Hd1 & Hd2).
  destruct (end_to_end_state demo_policy 5000 alice 0 net_final net_sw14 net_up13 net_cl11 net_srv13
    net_final_reachable eq_refl eq_refl) as (_ & Hin & _ & Hstate).
  split; [exact Hin|]. apply (Hstate Ho Hq Hd1 Hd2). vm_compute. reflexivity.
Defined.

Lemma end_to_end_commands_witness :
  concat (got net_sw14) = net_command.
Proof.
  destruct (end_to_end_commands demo_policy 5000 alice 0 net_final net_sw14 net_up13
    net_final_reachable eq_refl) as [_ H].
  rewrite H; vm_compute; reflexivity.
Defined.

Lemma net_dumped_accepts (c : option (Side * Side)) (w : DemoWorld) cl0 srv0 f :
  got srv0 = [] → ∀ cl srv, n_client (net_of w c (Some (cl0, srv0)) f) = Some (cl, srv) → got srv = [].
Proof. intros Hg cl srv [= <- <-]. exact Hg. Qed.

Lemma net_requests_settled :
  got net_srv8 = [] ∧ w_chan (n_world net_final) = [] ∧ all_delivered net_cl11 net_srv13 ∧
  all_delivered net_up13 net_sw14 ∧ plain_requests (pushed net_cl11) = [net_command].
Proof. vm_compute. done. Qed.

Lemma end_to_end_requests_witness :
  plain_requests (pushed net_cl11) = [net_command] ∧
  [net_command] `sublist_of` forwardable (n_forwarded net_final).
Proof.
  destruct net_requests_settled as (Hg & Hc & Hd1 & Hd2 & Hp). split; [exact Hp|]. rewrite <- Hp.
  exact (proj2 (end_to_end_requests demo_policy 5000 alice 0 _ net_final net_sw14 net_up13 net_cl11
    net_srv13 net_dumped_reachable (net_dumped_accepts _ _ _ _ _ Hg) net_command_run eq_refl eq_refl
    Hc Hd1 Hd2)).
Defined.
